(* ===== verification/_CoqProject ===== *)
-Q . S2P
Prelude.v
Errors.v
Utf8.v
Coder.v
Packet.v
Stream.v
Queue.v
Safe.v
Retry.v
Float.v
Backoff.v
RaftOps.v
Registry.v
Snapshot.v
Server.v
Sessions.v
Closing.v
Delivery.v
Stats.v
Requests.v
Ping.v
Watchdog.v
Client.v
Broker.v
Raft.v
Peers.v
Inspect.v
Config.v
Logging.v
Telemetry.v
System.v
Options.v
Transport.v
Listening.v
Rawconn.v
Endpoint.v
Lifecycle.v
Booter.v
Discovery.v
Bootstrap.v
Joins.v
Multicast.v
PeerServer.v
Lease.v
Service.v
Process.v
Api.v
Tools.v
