(* ===== verification/Prelude.v ===== *)
(** * Cable: a verification development

    Cable is a messaging system in Go: clients hold a connection to one of several brokers;
    messages to a user or to a channel reach all connections of the user, or of the channel's
    members, whichever broker they are on.  The parts and how they interact:

    - packets travel between client and server as frames ([packet], encoded with [coder]);
    - the server side of a connection ([internal/network]) owns a send queue
      ([internal/queue]), the [server] registers connections by client id;
    - the [client] dials, logs in, keeps the connection alive ([internal/keepalive]) and
      reconnects through a [Retrier] and a [backoff] strategy;
    - a broker ([cluster]) runs a server per network (a [Listener]), and replicates through etcd
      raft the registry of who is connected where and who is in which channel: three tables of
      concurrent maps ([internal/safe]);
    - brokers call each other over gRPC to deliver messages, kick clients and check who is
      online; they find each other by multicast or through etcd ([discovery]);
    - the service ([cmd/cable]) builds a broker from a configuration, authenticates logins,
      routes messages, keeps the channels of users in Redis, and offers an HTTP and a gRPC API
      with a client ([api]).

    ** The files

    - [Prelude]: machine integers as [Z] with their wrap-around, bytes, results of Go code
      ([outcome]: a value, an error, a panic), the order of a range over a Go map as a
      parameter ([GoRange]), closures of step relations, tactics and shared lemmas.
    - [Errors]: the error types and codes of all packages (xerr/error.go, packet/*.go,
      internal/queue/queue.go, client/client.go, client/status.go) and the [error] interface.
    - [Utf8]: which strings are UTF-8, and what encoding/json makes of the others.
    - [Coder]: coder/*.go and internal/pool/poll.go.  An encoder is its buffer, a decoder a
      position and a buffer; [Codable] is the Go interface as a class, [CodableLaws] its laws.
    - [Packet]: packet/*.go: the packet types, their equality and bodies, the frame header,
      [Marshal], [Unmarshal], [ParseKind].
    - [Stream]: [ReadFrom] and [WriteTo] of packet/packet.go over an [io.Reader].
    - [Queue]: internal/queue/queue.go as a transition system over the atomic steps of pushes,
      closing and the runner; [Push_now] and [Close_now] are whole calls, proved to be runs of it.
    - [Safe]: internal/safe/*.go: [Map], [RMap] with its counter, [KeyMap].
    - [Retry]: backoff/backoff.go (the interface and the integer strategies), client/retrier.go,
      and in [Module KeepAlive] internal/keepalive/keepalive.go.
    - [Float]: Go's float64 and [math.Pow] on the Standard Library's IEEE 754 numbers; [Backoff]:
      the exponential and random strategies of backoff/backoff.go.
    - [Client]: client/client.go, status.go, conn.go (the interface, TCP) as a transition system
      over the client and its goroutines.
    - [RaftOps]: the operations of cluster/cluster_raft.go and their encoding.
    - [Registry]: the replicated tables and operations of cluster/broker.go, with an abstract
      specification ([view]) that the nested maps refine.
    - [Snapshot]: [makeSnapshot] and [recoverFromSnapshot] of cluster/broker.go, with the JSON
      values in between.
    - [Server]: internal/network/conn.go and server/server.go over a heap of connections.
    - [Sessions]: what the registered connections of any reachable server have in common.
    - [Closing]: [CloseCode] of conn.go in its atomic steps, against the runner of the queue and
      other senders.  [Delivery]: from the queue of a connection to the packets its client reads.
    - [Stats]: stats/handler.go as an interface ([StatsHandler]) and the calls server.go, conn.go
      and the transports make to it, whose contexts the server goes on with; [Telemetry]: its
      instance in cmd/cable/cable_stats.go.
    - [Requests]: [SendRequest] and [recvResponse] of internal/network/conn.go as a transition
      system.
    - [Ping]: [SendPing] and [recvPong] of internal/network/conn.go as a transition system, also
      for client/client.go; [Watchdog]: the keep-alive that waits for its pings.
    - [Broker]: cluster/broker.go, listener.go, peer_client.go, peer_server.go: operations over
      the map of all brokers, with the fate of each remote call as a parameter: answered, not
      handled, handled without an answer, sent again.
    - [System]: servers, brokers and the log together, as a transition system; its runs may be
      restricted to orderly ones.
    - [Raft]: cluster/cluster.go and cluster_raft.go around the raft library, whose calls are
      recorded.
    - [Peers]: peer_client.go: the peer objects with their channels and timers; raft messages
      between two brokers.  [Joins]: nodes reported by several goroutines at the same time.
    - [Inspect]: the status of a broker, and [Inspects] of cluster/broker.go as a transition
      system.
    - [Config]: cmd/cable/config.go: the configuration, [validate], [GetDiscovery], [GetLogger];
      [Logging]: xlog/zap.go and the cores of config.go around those of zap.
    - [Options]: server/options.go and cluster/options.go, [server.New], [NewListener],
      [NewBroker] ([Module Srv], [Module Clu]), the constructors of the transports.
    - [Transport]: internal/network/transport_*.go and [waitConnPacket] of conn.go: the goroutines
      of stream sessions and of the UDP listener, as transition systems over the server.
    - [Listening]: the accept loops of the transports, the pinger over UDP; [Rawconn]: the raw
      connections of the transports, as an interface with its laws.
    - [Endpoint]: client/conn.go over TLS, UDP, WebSocket and QUIC, client/options.go, [client.New].
    - [Lifecycle]: shutting down servers, listeners, brokers (server.go, listener.go, broker.go),
      against the discovery as an interface ([Raft.DiscoveryApi], which [Multicast] and [Lease]
      implement); [PeerServer]: starting a broker and its peer server.
    - [Booter]: [newBooter] of cmd/cable/booter.go: from a configuration to a broker.
    - [Discovery]: discovery/discovery.go and cmd/cable/discovery_etcd.go against the handler as
      an interface ([DiscoveryHandler]); [Bootstrap]: with the cluster of [Raft] as the handler;
      [Multicast]: its goroutines and shutting down; [Lease]: the registration in etcd, its lease and
      goroutines.
    - [Service]: cmd/cable: booter.go, cable_redis.go, cable_kafka.go, against interfaces of the
      broker ([BrokerApi], implemented by [Broker]) and of Redis ([RedisImpl], [RedisLaws]).
    - [Api]: cmd/cable: api_http.go, api_grpc.go; api/client.go, with what gRPC carries as an
      interface ([Grpc], [GrpcLaws]).
    - [Process]: cmd/cable: [main], serving the APIs, shutting down; [Tools]: the command line client
      (cmd/cli) and the load tester (cmd/tester).

    ** What the theorems show

    - Round trips: varints, containers, packets, framed streams, raft operations; snapshots, exactly
      when every string in them is UTF-8.  What the wire can do to a reader: which lengths panic, that every reader moves forward.
    - The queue loses, duplicates and reorders nothing in any interleaving, prefers jumps, and
      panics only in one race of a push with [Close].
    - What the queue of a connection accepted is executed in order; what was handed to the socket
      before it was closed goes out whole unless a write fails, and is read by the other side in that
      order when no read is cut short; what a read that is cut short makes of a packet.  Over QUIC
      nothing is flushed.
    - The concurrent maps implement plain maps; their counters are exact between calls.
    - The registry's operations are pointwise updates of the abstract registry for every
      iteration order, so replicas that apply the same log agree; channels deliver only to
      connected clients; what closing a client leaves behind.
    - The server's registrations name open connections; what logins, duplicate logins and
      rejected logins do to them; requests are answered once.  When waiting for
      a response or a pong can block a connection, end its keep-alive, and when pings panic.
    - Registered clients and reported closings add up to the registrations, whatever the statistics
      handler does; when it changes what the server does.  What the statistics say: which calls can
      be reported as failed, how far the online users drift, and that they need metrics.  The frame
      with the reason of a close may never be written.
    - [Shutdown] closes every idle connection and returns when none is left; a broker's goes
      through all listeners, once; what still happens afterwards.
    - Whatever arrives on the sockets, the transports drive the server only through its own
      steps; what a session handled and what waits is a prefix of what its client sent, in any order,
      when no read is cut short; a datagram is believed to come from the client it names.  What listening over TLS and QUIC comes to.
    - The pauses between the attempts of a client, to the nanosecond.
    - The client reports its statuses in order, gives up after exactly its retry limit in every
      interleaving, and after an automatic reconnection never reconnects again.  A closed client
      connects again; over WebSocket and QUIC giving up panics; which packets UDP carries.
    - From an empty log, after any orderly run of a cluster, one without a login under a client id
      that is in use at the broker and without a lost proposal: once a node has applied the settled
      log, a message to a user reaches exactly the user's open connections, and the user is online
      exactly when there is one.  A second login under a client id, and a lost proposal, leave a user
      with an open connection that a message does not reach.
    - A message to a user or a channel is handed to exactly the registered connections of every
      broker reached, as often as the call is handled there; online checks and kicks act on exactly the registered connections; a login
      elsewhere kicks the old connection only on the same network.
    - Raft is started once; readiness is announced once; the log is compacted within its
      window; removing a node.  The peer objects implement the peers; the channel of a removed
      peer is never closed; what the reports about raft messages say.  A broker that hears all its
      peers, each any number of times, starts raft once; silent nodes expire; etcd's listing and changes give the handler the registered nodes, unless the
      listing is handled late.  When inspecting works and what it can miss.
    - [validate] accepts exactly the well-formed configurations; which listeners they make, and
      when starting them panics.  A logger derived from another with
      [With] does not print contexts as the first does, or loses its filter by level.
    - Goroutines that report nodes at the same time can start raft twice; a broker whose peer port is
      taken joins all the same.  A broker whose lease is lost is never registered
      again.  What a discovery still does after it was
      shut down.
    - Every registered connection showed the configured credentials; channels joined through the
      service and not left since are joined again at every later login that Redis answers; a message
      goes exactly where its route says; how far the two front ends are the same calls of the
      service; what the HTTP API refuses.
      Which APIs are served when; what the command line tools do and do not.

    Where the code does not do what it means to, the theorem states what it does.

    ** Bounds and fuel

    Integers have the width of the source and wrap as in Go ([u8] to [u64], [i8] to [i64]);
    lengths are unbounded naturals, with hypotheses below 2^63 where the code converts them.
    Loops over data are structural.  Readers of counted data recurse on fuel taken from the
    length of the buffer; [Coder.readers_progress] shows that a reader never runs out of it, so
    [OutOfFuel] is unreachable.  Varints take ten groups, [ParseKind] trims with fuel the length
    of its input.  A call of [OnNodeJoin] has at most ten steps ([Joins.join_alone_spec]).

    ** What is not modelled, and why

    Third-party code enters as parameters: gRPC ([Broker.rpc]), etcd raft and its storage
    ([Raft], [Inspect]), sockets ([Client.Conn], [Stream]), Redis, Kafka's producer, the JWT
    library and the HTTP client ([Service]), the etcd client ([Discovery]), the text of JSON, the
    order of map iteration, OpenTelemetry ([Telemetry]).  Left out: calls
    that only write a log line (zap itself is a parameter of [Logging]), TLS and the framing of
    WebSocket and QUIC (library calls), the exporters of OpenTelemetry, the [String] methods that
    print packets, internal/result, which nothing uses, and generated code. *)
From Stdlib Require Export ZArith Lia.
From Stdlib Require Export Init.Byte.
From Stdlib Require Strings.Byte Strings.String Strings.Ascii.
From stdpp Require Export base tactics list gmap strings fin_maps.

#[global] Set Default Goal Selector "!".

Declare Scope go_scope.
Delimit Scope go_scope with go.
#[global] Open Scope Z_scope.
#[global] Open Scope go_scope.

(** ** Machine integers *)

(** [wrapU w z] is the value a [w]-bit unsigned integer holds after [z] is stored in it. *)
Definition wrapU (w z : Z) : Z := z mod 2 ^ w.

(** [wrapS w z]: two's complement, in [-2^(w-1), 2^(w-1)). *)
Definition wrapS (w z : Z) : Z := (z + 2 ^ (w - 1)) mod 2 ^ w - 2 ^ (w - 1).

Abbreviation u8 := (wrapU 8).
Abbreviation u16 := (wrapU 16).
Abbreviation u32 := (wrapU 32).
Abbreviation u64 := (wrapU 64).
Abbreviation i8 := (wrapS 8).
Abbreviation i16 := (wrapS 16).
Abbreviation i32 := (wrapS 32).
Abbreviation i64 := (wrapS 64).

(** The values of a [w]-bit unsigned (signed) integer type. *)
Definition inU (w z : Z) : Prop := 0 <= z < 2 ^ w.
Definition inS (w z : Z) : Prop := - 2 ^ (w - 1) <= z < 2 ^ (w - 1).

#[export] Instance inU_dec w z : Decision (inU w z).
Proof. unfold inU. apply _. Defined.
#[export] Instance inS_dec w z : Decision (inS w z).
Proof. unfold inS. apply _. Defined.

(** ** Bytes and Go strings

    A Go [byte]/[uint8] is [Byte.byte]; a Go string is a sequence of arbitrary bytes and is
    modelled by [string], whose characters are bytes. *)

Abbreviation uint8 := byte (only parsing).
Abbreviation bytes := (list byte).

Definition Z_of_byte (b : byte) : Z := Z.of_N (Byte.to_N b).

Definition byte_of (z : Z) : byte :=
  match Byte.of_N (Z.to_N (u8 z)) with Some b => b | None => x00 end.

#[export] Instance byte_eq_dec : EqDecision byte := Byte.byte_eq_dec.
#[export] Program Instance byte_countable : Countable byte :=
  inj_countable Byte.to_N Byte.of_N _.
Next Obligation. intros b. apply Byte.of_to_N. Qed.

(** [[]byte(s)] and [string(bs)]. *)
Definition bytes_of_string : string → bytes := String.list_byte_of_string.
Definition string_of_bytes : bytes → string := String.string_of_list_byte.

(** Length of a Go slice or string as an [int]. *)
Definition zlen {A} (l : list A) : Z := Z.of_nat (length l).

(** ** Results of Go code

    [Ok] is a normal return, [Err] a return with a non-nil error, [Panic] a run-time panic. *)

Inductive go_panic :=
| SliceBounds
| IndexRange
| NilDereference
| MakeSlice
| ClosedChannel
| Explicit (msg : string)
| OutOfFuel.  (* not a Go panic: a loop of the model ran out of fuel; proved unreachable *)

Inductive outcome (E A : Type) :=
| Ok (a : A)
| Err (e : E)
| Panic (p : go_panic).
Arguments Ok {E A} a.
Arguments Err {E A} e.
Arguments Panic {E A} p.

Definition obind {E A B} (m : outcome E A) (k : A → outcome E B) : outcome E B :=
  match m with
  | Ok a => k a
  | Err e => Err e
  | Panic p => Panic p
  end.

Definition omap_ok {E A B} (f : A → B) (m : outcome E A) : outcome E B := obind m (λ a, Ok (f a)).

Notation "x <~ m ; k" := (obind m (λ x, k))
  (at level 60, m at next level, right associativity) : go_scope.

(** An early return: [if c { return e }]. *)
Definition fail_if {E A} (c : bool) (e : E) (k : outcome E A) : outcome E A :=
  if c then Err e else k.

(** A loop that returns the first error of its body. *)
Fixpoint for_err {E A} (f : A → outcome E unit) (l : list A) : outcome E unit :=
  match l with
  | [] => Ok tt
  | x :: l => _ <~ f x; for_err f l
  end.

Definition is_panic {E A} (m : outcome E A) : bool :=
  match m with Panic _ => true | _ => false end.

(** ** Iteration over a Go map

    [for k, v := range m] visits every entry once in an unspecified order.  Definitions that
    iterate take the order as a parameter, theorems hold for every order. *)
Class GoRange (K : Type) `{Countable K} := {
  go_range : ∀ {V : Type}, gmap K V → list (K * V);
  go_range_perm : ∀ {V : Type} (m : gmap K V), go_range m ≡ₚ map_to_list m
}.

(** Two concrete orders, used to evaluate definitions on concrete inputs. *)
Definition range_forward {K : Type} `{Countable K} : GoRange K :=
  {| go_range := λ V m, map_to_list m; go_range_perm := λ V m, reflexivity _ |}.

Definition range_backward {K : Type} `{Countable K} : GoRange K :=
  {| go_range := λ V m, reverse (map_to_list m);
     go_range_perm := λ V m, reverse_Permutation (map_to_list m) |}.

(** ** Reflexive transitive closure of a step relation *)
Inductive steps {S : Type} (step : S → S → Prop) : S → S → Prop :=
| steps_refl s : steps step s s
| steps_step s1 s2 s3 : step s1 s2 → steps step s2 s3 → steps step s1 s3.

(** ** Tactics *)

(** Linear arithmetic with division and remainder. *)
Ltac dlia := Z.div_mod_to_equations; nia.

(** A decidable proposition, by evaluating its decision procedure. *)
Ltac vm_decide := apply (bool_decide_unpack _); vm_compute; exact I.

(** Case analysis on the outermost [match] or [if] of the goal. *)
Ltac case_match_go :=
  match goal with
  | |- context [match ?x with _ => _ end] => destruct x eqn:?
  end.

(** ** Lemmas on machine integers *)

Lemma wrapU_id w z : inU w z → wrapU w z = z.
Proof. intros ?. apply Z.mod_small. done. Qed.

Lemma wrapU_range w z : 0 <= w → inU w (wrapU w z).
Proof. intros ?. apply Z.mod_pos_bound. apply Z.pow_pos_nonneg; lia. Qed.

Lemma pow2_split w : 0 < w → 2 ^ w = 2 * 2 ^ (w - 1).
Proof. intros ?. rewrite <-Z.pow_succ_r by lia. f_equal. lia. Qed.

Lemma wrapS_range w z : 0 < w → inS w (wrapS w z).
Proof.
  intros Hw. unfold inS, wrapS. pose proof (pow2_split w Hw).
  assert (0 < 2 ^ (w - 1)) by (apply Z.pow_pos_nonneg; lia).
  pose proof (Z.mod_pos_bound (z + 2 ^ (w - 1)) (2 ^ w)). lia.
Qed.

Lemma wrapS_id w z : 0 < w → inS w z → wrapS w z = z.
Proof.
  intros Hw Hz. unfold inS, wrapS in *. pose proof (pow2_split w Hw).
  rewrite Z.mod_small; lia.
Qed.

Lemma wrapU_wrapS w z : 0 < w → wrapU w (wrapS w z) = wrapU w z.
Proof.
  intros Hw. unfold wrapU, wrapS. rewrite Zminus_mod_idemp_l. f_equal. lia.
Qed.

Lemma wrapS_wrapU w z : 0 < w → wrapS w (wrapU w z) = wrapS w z.
Proof. intros Hw. unfold wrapU, wrapS. by rewrite Zplus_mod_idemp_l. Qed.

Lemma wrapS_add_idemp w a b : 0 < w → wrapS w (wrapS w a + b) = wrapS w (a + b).
Proof.
  intros Hw. rewrite <-(wrapS_wrapU w (_ + b)), <-(wrapS_wrapU w (a + b)) by done.
  f_equal. unfold wrapU, wrapS.
  replace ((a + 2 ^ (w - 1)) mod 2 ^ w - 2 ^ (w - 1) + b)
    with ((a + 2 ^ (w - 1)) mod 2 ^ w + (b - 2 ^ (w - 1))) by lia.
  rewrite Zplus_mod_idemp_l. f_equal. lia.
Qed.

(** Disjoint bit fields: [or] is addition. *)
Lemma lor_shiftl_add a b s : 0 <= s → 0 <= a < 2 ^ s → Z.lor a (Z.shiftl b s) = a + b * 2 ^ s.
Proof.
  intros Hs Ha. rewrite <-Z.shiftl_mul_pow2 by done.
  rewrite Z.add_nocarry_lxor, Z.lxor_lor; [done| |];
    (apply Z.bits_inj'; intros n Hn; rewrite Z.land_spec, Z.bits_0;
     destruct (decide (n < s));
     [rewrite Z.shiftl_spec_low by done; apply andb_false_r|];
     rewrite <-(Z.mod_small a (2 ^ s)) by done;
     rewrite Z.mod_pow2_bits_high by lia; done).
Qed.

(** ** Lemmas on bytes and strings *)

Lemma Z_of_byte_range b : inU 8 (Z_of_byte b).
Proof. unfold inU, Z_of_byte. pose proof (Byte.to_N_bounded b). lia. Qed.

Lemma byte_of_Z_of_byte b : byte_of (Z_of_byte b) = b.
Proof.
  unfold byte_of. rewrite wrapU_id by apply Z_of_byte_range.
  unfold Z_of_byte. rewrite N2Z.id, Byte.of_to_N. done.
Qed.

Lemma Z_of_byte_of z : Z_of_byte (byte_of z) = u8 z.
Proof.
  unfold byte_of. pose proof (wrapU_range 8 z ltac:(lia)) as Hr.
  destruct (Byte.of_N (Z.to_N (u8 z))) as [b|] eqn:E.
  - apply Byte.to_of_N in E. unfold Z_of_byte. rewrite E. unfold inU in Hr. lia.
  - apply Byte.of_N_None_iff in E. unfold inU in Hr. lia.
Qed.

Lemma Z_of_byte_inj b1 b2 : Z_of_byte b1 = Z_of_byte b2 → b1 = b2.
Proof. intros E. by rewrite <-(byte_of_Z_of_byte b1), <-(byte_of_Z_of_byte b2), E. Qed.

Lemma string_of_bytes_of_string s : string_of_bytes (bytes_of_string s) = s.
Proof. apply String.string_of_list_byte_of_string. Qed.

Lemma bytes_of_string_of_bytes l : bytes_of_string (string_of_bytes l) = l.
Proof. apply String.list_byte_of_string_of_list_byte. Qed.

Lemma string_app_cons a (s1 s2 : string) : String a s1 +:+ s2 = String a (s1 +:+ s2).
Proof. done. Qed.

Lemma string_app_assoc (s1 s2 s3 : string) : (s1 +:+ s2) +:+ s3 = s1 +:+ s2 +:+ s3.
Proof. induction s1 as [|a s1 IH]; [done|]. by rewrite !string_app_cons, IH. Qed.

#[export] Instance string_app_inj (s : string) : Inj (=) (=) (String.append s).
Proof.
  intros s1 s2. induction s as [|a s IH]; [done|]. rewrite !string_app_cons. intros [= ?]. auto.
Qed.

(** ** Lemmas on lists and lengths *)

Lemma zlen_nil {A} : zlen (@nil A) = 0.
Proof. done. Qed.

Lemma zlen_cons {A} (x : A) l : zlen (x :: l) = zlen l + 1.
Proof. unfold zlen. simpl length. lia. Qed.

Lemma zlen_app {A} (l1 l2 : list A) : zlen (l1 ++ l2) = zlen l1 + zlen l2.
Proof. unfold zlen. rewrite length_app. lia. Qed.

Lemma zlen_nonneg {A} (l : list A) : 0 <= zlen l.
Proof. unfold zlen. lia. Qed.

Lemma to_nat_zlen {A} (l : list A) : Z.to_nat (zlen l) = length l.
Proof. unfold zlen. lia. Qed.

Create HintDb total.
Create Rewrite HintDb zlen.
#[export] Hint Rewrite @zlen_nil @zlen_cons @zlen_app : zlen.

(** ** Lemmas on ranges of maps *)

Lemma go_range_length {K V : Type} `{GoRange K} (m : gmap K V) : length (go_range m) = size m.
Proof. rewrite go_range_perm. apply length_map_to_list. Qed.

Lemma elem_of_go_range {K V : Type} `{GoRange K} (m : gmap K V) k v :
  (k, v) ∈ go_range m ↔ m !! k = Some v.
Proof. rewrite go_range_perm. apply elem_of_map_to_list. Qed.

Lemma go_range_empty {K V : Type} `{GoRange K} : go_range (∅ : gmap K V) = [].
Proof. apply Permutation_nil_r. by rewrite go_range_perm, map_to_list_empty. Qed.

Lemma go_range_singleton {K V : Type} `{GoRange K} (k : K) (v : V) :
  go_range ({[k := v]} : gmap K V) = [(k, v)].
Proof. apply Permutation_singleton_r. rewrite go_range_perm. by rewrite map_to_list_singleton. Qed.

Lemma NoDup_go_range {K V : Type} `{GoRange K} (m : gmap K V) : NoDup (go_range m).*1.
Proof. rewrite go_range_perm. apply NoDup_fst_map_to_list. Qed.

Lemma list_to_map_go_range {K V : Type} `{GoRange K} (m : gmap K V) :
  list_to_map (go_range m) = m.
Proof.
  rewrite <-(list_to_map_to_list m) at 2.
  apply list_to_map_proper; [apply NoDup_go_range | apply go_range_perm].
Qed.

(** ** Lemmas on step sequences *)

Lemma steps_trans {S} (step : S → S → Prop) s1 s2 s3 :
  steps step s1 s2 → steps step s2 s3 → steps step s1 s3.
Proof. induction 1; eauto using steps. Qed.

Lemma steps_one {S} (step : S → S → Prop) s1 s2 : step s1 s2 → steps step s1 s2.
Proof. eauto using steps. Qed.

Lemma steps_invariant {S} (step : S → S → Prop) (I : S → Prop) :
  (∀ s s', I s → step s s' → I s') → ∀ s s', I s → steps step s s' → I s'.
Proof. intros Hstep s s' Hs Hsteps. induction Hsteps; eauto. Qed.

(** ** Lemmas on loops *)

Lemma fold_inv {A S} (upd : S → A → S) (I : S → Prop) (Hinv : ∀ s a, I s → I (upd s a)) l s :
  I s → I (fold_left upd l s).
Proof. revert s. induction l as [|a l IH]; intros s Hs; [done|]. by apply IH, Hinv. Qed.

(** A loop that may not return, of steps that stay in a preorder. *)
Lemma fold_rel {S A X} (R : S → S → Prop) `{!PreOrder R} (get : A → S) (f : option A → X → option A)
    l acc acc' :
  (∀ x, f None x = None) →
  (∀ a x a', f (Some a) x = Some a' → R (get a) (get a')) →
  fold_left f l (Some acc) = Some acc' → R (get acc) (get acc').
Proof.
  intros Hn Hf. revert acc. induction l as [|x l IH]; intros acc; simpl; [by intros [= <-]|].
  destruct (f (Some acc) x) as [acc1|] eqn:E.
  - intros H. etrans; [by eapply Hf|by apply IH].
  - intros H. exfalso. revert H. clear -Hn. induction l as [|y l IH]; simpl; [done|]. by rewrite Hn.
Qed.

(** ** Lemmas on results *)

Lemma fail_if_Ok {E A} c (e : E) (k : outcome E A) a : fail_if c e k = Ok a ↔ c = false ∧ k = Ok a.
Proof. unfold fail_if. destruct c; naive_solver. Qed.

Lemma fail_if_total {E A} c (e : E) (k : outcome E A) :
  is_panic k = false → is_panic (fail_if c e k) = false.
Proof. by destruct c. Qed.

Lemma for_err_Ok {E A} (f : A → outcome E unit) l :
  for_err f l = Ok tt ↔ Forall (λ x, f x = Ok tt) l.
Proof.
  induction l as [|x l IH]; simpl; [done|]. rewrite Forall_cons, <-IH.
  destruct (f x) as [[]| |]; simpl; naive_solver.
Qed.

Lemma for_err_total {E A} (f : A → outcome E unit) l :
  (∀ x, is_panic (f x) = false) → is_panic (for_err f l) = false.
Proof.
  intros Hf. induction l as [|x l IH]; simpl; [done|]. specialize (Hf x).
  by destruct (f x).
Qed.

#[export] Hint Resolve fail_if_total for_err_total : total.
