(* ===== verification/Errors.v ===== *)
(** * Error values

    The Go [error] interface holds values of several concrete types; the ones the program
    produces or inspects are the constructors of [error].  Numeric code types keep their Go
    representation ([uint8] is [byte], [uint16] is [Z]), because codes are also read from the
    wire, where every value of the type can occur. *)
From S2P Require Import Prelude.

(** ** [coder.Error] *)
Definition ErrVarintOverflow : uint8 := x01.
Definition ErrBufferTooShort : uint8 := x02.

Definition coder_error_string (e : uint8) : string :=
  if decide (e = ErrVarintOverflow) then "varint overflow"
  else if decide (e = ErrBufferTooShort) then "buffer too short"
  else "unknown error".

(** ** [packet.Error] *)
Definition ErrInvalidReadLen : uint8 := x01.
Definition ErrUnknownPacketType : uint8 := x02.
Definition ErrPacketSizeTooLarge : uint8 := x03.
Definition ErrMessageKindTooLarge : uint8 := x04.

Definition packet_error_string (e : uint8) : string :=
  if decide (e = ErrInvalidReadLen) then "invalid length when read"
  else if decide (e = ErrUnknownPacketType) then "unknown packet type"
  else if decide (e = ErrPacketSizeTooLarge) then "packet size too large"
  else if decide (e = ErrMessageKindTooLarge) then "message kind too large"
  else "unknown error".

(** ** [packet.CloseCode] *)
Definition CloseNormal : uint8 := x00.
Definition CloseKickedOut : uint8 := x01.
Definition CloseNoHeartbeat : uint8 := x02.
Definition ClosePingTimeOut : uint8 := x03.
Definition CloseAuthFailure : uint8 := x04.
Definition CloseAuthTimeout : uint8 := x05.
Definition CloseInvalidPacket : uint8 := x06.
Definition CloseInternalError : uint8 := x07.
Definition CloseDuplicateLogin : uint8 := x08.
Definition CloseServerShutdown : uint8 := x09.
Definition CloseServerExpeled : uint8 := x0a.

Definition closeCodeMap : gmap uint8 string :=
  list_to_map
    [(CloseNormal, "Normal"); (CloseKickedOut, "Kicked Out");
     (CloseNoHeartbeat, "No Heartbeat"); (ClosePingTimeOut, "Ping Time Out");
     (CloseAuthFailure, "Authentication Failure"); (CloseAuthTimeout, "Authentication Timeout");
     (CloseInvalidPacket, "Invalid Packet"); (CloseInternalError, "Internal Error");
     (CloseDuplicateLogin, "Duplicate Login"); (CloseServerShutdown, "Server Shutdown");
     (CloseServerExpeled, "Server Expeled")].

Definition close_code_string (c : uint8) : string :=
  match closeCodeMap !! c with Some s => s | None => "Unknown" end.

(** ** [packet.ConnectCode] *)
Definition ConnectAccepted : uint8 := x00.
Definition ConnectAuthfail : uint8 := x01.
Definition ConnectDuplicate : uint8 := x02.
Definition ConnectServerError : uint8 := x03.

Definition connect_code_string (c : uint8) : string :=
  if decide (c = ConnectAccepted) then "Connection Accepted"
  else if decide (c = ConnectAuthfail) then "Connection Rejected"
  else if decide (c = ConnectDuplicate) then "Connection Duplicate"
  else if decide (c = ConnectServerError) then "Server Error"
  else "Unknown Connack Code".

(** ** [packet.StatusCode] *)
Definition StatusUnknown : uint8 := x00.
Definition StatusOK : uint8 := xc8.
Definition StatusNotFound : uint8 := x64.
Definition StatusUnauthorized : uint8 := x65.
Definition StatusInternalError : uint8 := x66.
Definition StatusInvalidParams : uint8 := x67.
Definition StatusForbidden : uint8 := x68.
Definition StatusBadRequest : uint8 := xff.

Definition status_code_string (s : uint8) : string :=
  if decide (s = StatusOK) then "OK"
  else if decide (s = StatusNotFound) then "Not Found"
  else if decide (s = StatusUnauthorized) then "Unauthorized"
  else if decide (s = StatusInternalError) then "Internal Error"
  else if decide (s = StatusInvalidParams) then "Invalid Parameters"
  else if decide (s = StatusForbidden) then "Forbidden"
  else if decide (s = StatusBadRequest) then "Bad Request"
  else "Unknown Status".

Definition status_IsOK (s : uint8) : bool := bool_decide (s = StatusOK).

(** ** [xerr.Error], numbered by [iota] *)
Definition PeerNotReady : Z := 0.
Definition InvalidUserID : Z := 1.
Definition InvalidChannel : Z := 2.
Definition RequestTimeout : Z := 3.
Definition MessageTimeout : Z := 4.
Definition ServerIsClosed : Z := 5.
Definition RaftNodeNotReady : Z := 6.
Definition InvalidPeerMessage : Z := 7.
Definition ConnectionIsClosed : Z := 8.
Definition SendingQueueIsFull : Z := 9.
Definition ConnectionNotFound : Z := 10.
Definition ServerAlreadyClosed : Z := 11.
Definition NetworkNotSupported : Z := 12.
Definition InvalidPeerMessageFlag : Z := 13.

Definition errorMap : gmap Z string :=
  list_to_map
    [(PeerNotReady, "broker peer not ready"); (InvalidUserID, "invalid user id");
     (RequestTimeout, "request timeout"); (MessageTimeout, "message timeout");
     (ServerIsClosed, "server is closed"); (InvalidChannel, "invalid channel");
     (RaftNodeNotReady, "raft node not ready"); (InvalidPeerMessage, "invalid peer message");
     (ConnectionIsClosed, "connection is closed"); (SendingQueueIsFull, "sending queue is full");
     (ConnectionNotFound, "connection not found");
     (ServerAlreadyClosed, "server already closed");
     (NetworkNotSupported, "network not supported");
     (InvalidPeerMessageFlag, "invalid peer message flag")].

(** A Go map lookup of a missing key gives the zero value. *)
Definition xerr_string (e : Z) : string := default "" (errorMap !! e).

(** ** [queue.Error] *)
Definition ErrQueueIsFull : uint8 := x00.
Definition ErrQueueIsClosed : uint8 := x01.

Definition queue_error_string (e : uint8) : string :=
  if decide (e = ErrQueueIsFull) then "queue is full"
  else if decide (e = ErrQueueIsClosed) then "queue is closed"
  else "unknown error".

(** ** [client.Error] and [client.CloseReason] *)
Definition ErrInvalidPacket : uint8 := x00.
Definition ErrRequestTimeout : uint8 := x01.
Definition ErrConnectionFailed : uint8 := x02.
Definition ErrConnectionClosed : uint8 := x03.
Definition ErrConnectionNotReady : uint8 := x04.

Definition client_error_string (e : uint8) : string :=
  if decide (e = ErrInvalidPacket) then "invalid packet"
  else if decide (e = ErrRequestTimeout) then "request timeout"
  else if decide (e = ErrConnectionFailed) then "connection failed"
  else if decide (e = ErrConnectionClosed) then "connection closed"
  else if decide (e = ErrConnectionNotReady) then "connection not ready"
  else "unknown error".

Definition CloseReasonNormal : Z := 0.
Definition CloseReasonPingTimeout : Z := 1.
Definition CloseReasonNetworkError : Z := 2.
Definition CloseReasonServerClose : Z := 3.

Definition close_reason_string (c : Z) : string :=
  if decide (c = CloseReasonNormal) then "Normal"
  else if decide (c = CloseReasonPingTimeout) then "Ping Timeout"
  else if decide (c = CloseReasonNetworkError) then "Network Error"
  else if decide (c = CloseReasonServerClose) then "Server Close"
  else "Unknown".

(** ** The [error] interface *)
Inductive error :=
| ECoder (e : uint8)         (* coder.Error *)
| EPacket (e : uint8)        (* packet.Error *)
| EClose (c : uint8)         (* packet.CloseCode *)
| EConnect (c : uint8)       (* packet.ConnectCode *)
| EStatus (c : uint8)        (* packet.StatusCode *)
| EXerr (e : Z)              (* xerr.Error *)
| EQueue (e : uint8)         (* queue.Error *)
| EClient (e : uint8)        (* client.Error *)
| EReason (r : Z)            (* client.CloseReason *)
| EDeadline                  (* context.DeadlineExceeded *)
| ECanceled                  (* context.Canceled *)
| EEOF                       (* io.EOF *)
| EOther (msg : string).     (* any other error *)

#[export] Instance error_eq_dec : EqDecision error.
Proof. solve_decision. Defined.

(** The [Error()] methods. *)
Definition error_string (e : error) : string :=
  match e with
  | ECoder e => coder_error_string e
  | EPacket e => packet_error_string e
  | EClose c => close_code_string c
  | EConnect c => connect_code_string c
  | EStatus c => status_code_string c
  | EXerr e => xerr_string e
  | EQueue e => queue_error_string e
  | EClient e => client_error_string e
  | EReason r => close_reason_string r
  | EDeadline => "context deadline exceeded"
  | ECanceled => "context canceled"
  | EEOF => "EOF"
  | EOther msg => msg
  end.

(** [err.(interface{ Timeout() bool })] with a true answer: among the error types above only
    [context.DeadlineExceeded] has the method. *)
Definition is_timeout (e : error) : bool :=
  match e with EDeadline => true | _ => false end.

(** [packet.AsCloseCode]. *)
Definition AsCloseCode (err : error) : uint8 :=
  match err with
  | EClose e => e
  | EPacket _ | ECoder _ => CloseInvalidPacket
  | _ => CloseInternalError
  end.

(** Every declared [xerr.Error] has a message, and different codes have different ones. *)
Lemma xerr_string_declared (e : Z) : 0 <= e <= 13 → is_Some (errorMap !! e).
Proof.
  intros He.
  assert (Forall (λ e, is_Some (errorMap !! e)) (seqZ 0 14)) as Hall
    by (vm_compute; repeat constructor; eauto).
  rewrite Forall_forall in Hall. apply Hall, elem_of_seqZ. lia.
Qed.
