(* ===== verification/Utf8.v ===== *)
(** * UTF-8 (unicode/utf8, encoding/json)

    Ids, client ids and channels are Go strings, any bytes.  Two encodings on their way want UTF-8:
    encoding/json puts U+FFFD for every byte that starts no rune, and gRPC refuses to send a string
    field that is not UTF-8. *)
From S2P Require Import Prelude.
Local Open Scope Z_scope.

Definition between (lo hi x : Z) : bool := (lo <=? x) && (x <=? hi).
Definition continuation : Z → bool := between 128 191.

(** The second byte of a rune of three or four bytes, after its first. *)
Definition second_of_three (x y : Z) : bool :=
  (x =? 224) && between 160 191 y || (x =? 237) && between 128 159 y ||
  (between 225 236 x || between 238 239 x) && continuation y.
Definition second_of_four (x y : Z) : bool :=
  (x =? 240) && between 144 191 y || (x =? 244) && between 128 143 y || between 241 243 x && continuation y.

(** [utf8.DecodeRune]: the size of the rune the bytes start with, if they do. *)
Definition rune_size (l : bytes) : option nat :=
  match l with
  | [] => None
  | a :: l =>
      let x := Z_of_byte a in
      if x <? 128 then Some 1%nat
      else match l with
           | [] => None
           | b :: l =>
               let y := Z_of_byte b in
               if between 194 223 x && continuation y then Some 2%nat
               else match l with
                    | [] => None
                    | c :: l =>
                        if second_of_three x y && continuation (Z_of_byte c) then Some 3%nat
                        else match l with
                             | [] => None
                             | d :: _ =>
                                 if second_of_four x y && continuation (Z_of_byte c) && continuation (Z_of_byte d)
                                 then Some 4%nat else None
                             end
                    end
           end
  end.

Definition RuneError : bytes := [xef; xbf; xbd].

Fixpoint sanitize (n : nat) (l : bytes) : bytes :=
  match n, l with
  | O, _ | _, [] => []
  | S n, _ :: l' =>
      match rune_size l with
      | Some k => take k l ++ sanitize n (drop k l)
      | None => RuneError ++ sanitize n l'
      end
  end.

(** What is left of a string in JSON. *)
Definition json_bytes (l : bytes) : bytes := sanitize (length l) l.
Definition json_string (s : string) : string := string_of_bytes (json_bytes (bytes_of_string s)).

(** [utf8.ValidString]. *)
Definition valid_utf8 (s : string) : bool := bool_decide (json_string s = s).

Lemma rune_size_prefix l k : rune_size l = Some k →
  (1 <= k <= length l)%nat ∧ ∀ r, rune_size (take k l ++ r) = Some k.
Proof.
  destruct l as [|a l]; [done|]. cbn [rune_size].
  destruct (Z_of_byte a <? 128) eqn:E1.
  { intros [= <-]. split; [simpl; lia|]. intros r. simpl. by rewrite E1. }
  destruct l as [|b l]; [done|]. destruct (_ && _) eqn:E2.
  { intros [= <-]. split; [simpl; lia|]. intros r. simpl. by rewrite E1, E2. }
  destruct l as [|c l]; [done|]. destruct (second_of_three _ _ && _) eqn:E3.
  { intros [= <-]. split; [simpl; lia|]. intros r. simpl. by rewrite E1, E2, E3. }
  destruct l as [|d l]; [done|]. destruct (second_of_four _ _ && _ && _) eqn:E4; [|done].
  intros [= <-]. split; [simpl; lia|]. intros r. simpl. by rewrite E1, E2, E3, E4.
Qed.

(** Runes that follow one another stay as they are. *)
Lemma sanitize_rune n r l : rune_size r = Some (length r) →
  sanitize (S n) (r ++ l) = r ++ sanitize n l.
Proof.
  intros Hr. destruct (rune_size_prefix r _ Hr) as [Hk Hp]. specialize (Hp l). rewrite firstn_all in Hp.
  destruct r as [|a r]; [done|]. change ((a :: r) ++ l) with (a :: (r ++ l)) in *. cbn [sanitize]. rewrite Hp.
  change (a :: r ++ l) with ((a :: r) ++ l). by rewrite take_app_length, drop_app_length.
Qed.

Lemma sanitize_nil n : sanitize n [] = [].
Proof. by destruct n. Qed.

(** What comes out is UTF-8. *)
Lemma sanitize_sanitized n l : ∀ m, (length (sanitize n l) <= m)%nat → sanitize m (sanitize n l) = sanitize n l.
Proof.
  revert l. induction n as [|n IH]; intros l m; [intros _; by rewrite sanitize_nil|].
  destruct l as [|a l]; [intros _; by rewrite sanitize_nil|]. cbn [sanitize].
  assert (∀ r rest, rune_size r = Some (length r) → (length (r ++ sanitize n rest) <= m)%nat →
    sanitize m (r ++ sanitize n rest) = r ++ sanitize n rest) as H.
  { intros r rest Hr. rewrite length_app. intros Hm. destruct (rune_size_prefix _ _ Hr) as [[Hk _] _].
    destruct m as [|m]; [lia|]. rewrite sanitize_rune by done. by rewrite IH by lia. }
  destruct (rune_size (a :: l)) as [k|] eqn:E; [|by apply H].
  destruct (rune_size_prefix _ _ E) as [Hk Hp]. apply H. specialize (Hp []). rewrite app_nil_r in Hp.
  rewrite Hp. f_equal. rewrite length_take. lia.
Qed.

Lemma json_string_valid s : valid_utf8 (json_string s) = true.
Proof.
  apply bool_decide_eq_true. unfold json_string, json_bytes. rewrite bytes_of_string_of_bytes.
  by rewrite sanitize_sanitized.
Qed.

Lemma json_string_id s : valid_utf8 s = true → json_string s = s.
Proof. by intros ?%bool_decide_eq_true. Qed.

(** ASCII is UTF-8; Latin-1 is not. *)
Example valid_examples : valid_utf8 "alice@example.org" = true ∧ valid_utf8 "Zoë" = true ∧
  valid_utf8 (string_of_bytes [xe9]) = false ∧ json_bytes [x61; xe9; x62] = [x61; xef; xbf; xbd; x62].
Proof. by vm_compute. Qed.
