(* ===== verification/Coder.v ===== *)
(** * The binary coder (src/coder)

    [encoder] is the struct behind the [Encoder] interface: a growing buffer; each [Write]
    method is a function on it.  [decoder] is the struct behind [Decoder]: a buffer with a
    position; each [Read] method is a computation of the state monad [D], whose result is a
    value, an error or a run-time panic.  [reads] states that a reader inverts a writer and is
    the interface the packet and raft-operation codecs are verified against. *)
From S2P Require Import Prelude Errors.

(** ** Fixed-width and variable-length integers (encoding/binary) *)

(** [binary.BigEndian.AppendUintN]: the [n] low bytes of [v], most significant first. *)
Fixpoint be_bytes (n : nat) (v : Z) : bytes :=
  match n with
  | O => []
  | S n' => byte_of (Z.shiftr v (8 * Z.of_nat n')) :: be_bytes n' v
  end.

(** [binary.BigEndian.UintN] on exactly the bytes of the integer. *)
Definition be_value (bs : bytes) : Z :=
  fold_left (λ acc b, Z.lor (Z.shiftl acc 8) (Z_of_byte b)) bs 0.

(** [binary.AppendUvarint]: a 64-bit value has at most ten groups of seven bits. *)
Fixpoint uvarint_groups (fuel : nat) (x : Z) : bytes :=
  match fuel with
  | O => [byte_of x]
  | S fuel' =>
      if x <? 128 then [byte_of x]
      else byte_of (Z.lor x 128) :: uvarint_groups fuel' (Z.shiftr x 7)
  end.

Definition AppendUvarint (buf : bytes) (x : Z) : bytes := buf ++ uvarint_groups 9 x.

(** [binary.Uvarint]: the value and the number of bytes read; 0 when the buffer is too small,
    negative on overflow of 64 bits. *)
Fixpoint uvarint_loop (i x s : Z) (buf : bytes) : Z * Z :=
  match buf with
  | [] => (0, 0)
  | b :: rest =>
      let v := Z_of_byte b in
      if i =? 10 then (0, - (i + 1))
      else if v <? 128 then
        if (i =? 9) && (1 <? v) then (0, - (i + 1))
        else (Z.lor x (u64 (Z.shiftl v s)), i + 1)
      else uvarint_loop (i + 1) (Z.lor x (u64 (Z.shiftl (Z.land v 127) s))) (s + 7) rest
  end.

Definition Uvarint (buf : bytes) : Z * Z := uvarint_loop 0 0 0 buf.

(** ** The encoder *)

Record encoder := mkEncoder { ebuf : bytes }.

Definition WriteBytes (e : encoder) (p : bytes) : encoder := mkEncoder (ebuf e ++ p).

Definition WriteUInt8 (e : encoder) (i : uint8) : encoder := mkEncoder (ebuf e ++ [i]).

Definition WriteUInt16 (e : encoder) (i : Z) : encoder := mkEncoder (ebuf e ++ be_bytes 2 i).

Definition WriteUInt32 (e : encoder) (i : Z) : encoder := mkEncoder (ebuf e ++ be_bytes 4 i).

Definition WriteUInt64 (e : encoder) (i : Z) : encoder := mkEncoder (ebuf e ++ be_bytes 8 i).

Definition WriteBool (e : encoder) (bo : bool) : encoder :=
  if bo then WriteUInt8 e x01 else WriteUInt8 e x00.

Definition WriteInt8 (e : encoder) (i : Z) : encoder := WriteUInt8 e (byte_of (u8 i)).

Definition WriteInt16 (e : encoder) (i : Z) : encoder := WriteUInt16 e (u16 i).

Definition WriteInt32 (e : encoder) (i : Z) : encoder := WriteUInt32 e (u32 i).

Definition WriteInt64 (e : encoder) (i : Z) : encoder := WriteUInt64 e (u64 i).

Definition WriteVarint (e : encoder) (i : Z) : encoder := mkEncoder (AppendUvarint (ebuf e) i).

Definition WriteData (e : encoder) (data : bytes) : encoder :=
  let l := zlen data in
  let e := WriteVarint e (u64 l) in
  if 0 <? l then WriteBytes e data else e.

Definition WriteString (e : encoder) (s : string) : encoder := WriteData e (bytes_of_string s).

Definition WriteStrMap `{!GoRange string} (e : encoder) (m : gmap string string) : encoder :=
  fold_left (λ e '(k, v), WriteString (WriteString e k) v) (go_range m)
    (WriteVarint e (u64 (Z.of_nat (size m)))).

Definition WriteStrings (e : encoder) (ss : list string) : encoder :=
  fold_left WriteString ss (WriteVarint e (u64 (zlen ss))).

Definition WriteUInt8Map `{!GoRange uint8} (e : encoder) (m : gmap uint8 string) : encoder :=
  fold_left (λ e '(k, v), WriteString (WriteUInt8 e k) v) (go_range m)
    (WriteUInt8 e (byte_of (Z.of_nat (size m)))).

(** ** The encoder pool

    [NewEncoder] takes an encoder from a [sync.Pool], which may hand out any encoder put back
    earlier or a fresh one; [Pick] clones the buffer, truncates it and puts the encoder back.
    The pool is the list of encoders it holds; [choice] is the index [sync.Pool] serves, a
    miss (an index out of range) makes a fresh encoder. *)
Definition enc_pool := list encoder.

Definition pool_get (choice : nat) (p : enc_pool) : encoder * enc_pool :=
  match p !! choice with
  | Some e => (e, delete choice p)
  | None => (mkEncoder [], p)
  end.

Definition pool_put (e : encoder) (p : enc_pool) : enc_pool := e :: p.

Definition NewEncoder (choice : nat) (p : enc_pool) : encoder * enc_pool := pool_get choice p.

(** [free] truncates the buffer and returns the encoder to the pool. *)
Definition free (e : encoder) (p : enc_pool) : enc_pool := pool_put (mkEncoder []) p.

Definition Pick (e : encoder) (p : enc_pool) : bytes * enc_pool := (ebuf e, free e p).

(** ** The decoder *)

Record decoder := mkDecoder { pos : Z; dbuf : bytes }.

Definition NewDecoder (bs : bytes) : decoder := mkDecoder 0 bs.

Definition D (A : Type) : Type := decoder → outcome error A * decoder.

Definition dret {A} (a : A) : D A := λ d, (Ok a, d).

Definition derr {A} (e : error) : D A := λ d, (Err e, d).

Definition dpanic {A} (p : go_panic) : D A := λ d, (Panic p, d).

Definition dbind {A B} (m : D A) (k : A → D B) : D B := λ d,
  match m d with
  | (Ok a, d') => k a d'
  | (Err e, d') => (Err e, d')
  | (Panic p, d') => (Panic p, d')
  end.

Notation "x <-- m ; k" := (dbind m (λ x, k))
  (at level 60, m at next level, right associativity) : go_scope.

(** [buf[lo:hi]]: a panic unless [0 <= lo <= hi <= len(buf)]. *)
Definition slice (buf : bytes) (lo hi : Z) : outcome error bytes :=
  if (0 <=? lo) && (lo <=? hi) && (hi <=? zlen buf)
  then Ok (take (Z.to_nat (hi - lo)) (drop (Z.to_nat lo) buf))
  else Panic SliceBounds.

Definition ReadBytes (l : Z) : D bytes := λ d,
  if l =? 0 then (Ok [], d)
  else if zlen (dbuf d) <? u64 (pos d + l) then (Err (ECoder ErrBufferTooShort), d)
  else match slice (dbuf d) (pos d) (u64 (pos d + l)) with
       | Ok p => (Ok p, mkDecoder (u64 (pos d + l)) (dbuf d))
       | Err e => (Err e, d)
       | Panic p => (Panic p, d)
       end.

Definition ReadUInt8 : D uint8 := λ d,
  if zlen (dbuf d) <? u64 (pos d + 1) then (Err (ECoder ErrBufferTooShort), d)
  else match dbuf d !! Z.to_nat (pos d) with
       | Some i => (Ok i, mkDecoder (u64 (pos d + 1)) (dbuf d))
       | None => (Panic IndexRange, d)
       end.

Definition ReadUInt16 : D Z := bs <-- ReadBytes 2; dret (be_value bs).

Definition ReadUInt32 : D Z := bs <-- ReadBytes 4; dret (be_value bs).

Definition ReadUInt64 : D Z := bs <-- ReadBytes 8; dret (be_value bs).

Definition ReadBool : D bool := i <-- ReadUInt8; dret (bool_decide (i = x01)).

Definition ReadInt8 : D Z := u <-- ReadUInt8; dret (i8 (Z_of_byte u)).

Definition ReadInt16 : D Z := u <-- ReadUInt16; dret (i16 u).

Definition ReadInt32 : D Z := u <-- ReadUInt32; dret (i32 u).

Definition ReadInt64 : D Z := u <-- ReadUInt64; dret (i64 u).

Definition ReadVarint : D Z := λ d,
  match slice (dbuf d) (pos d) (zlen (dbuf d)) with
  | Ok rest =>
      let '(varint, len) := Uvarint rest in
      if len <? 0 then (Err (ECoder ErrVarintOverflow), d)
      else if len =? 0 then (Err (ECoder ErrBufferTooShort), d)
      else (Ok varint, mkDecoder (u64 (pos d + u64 len)) (dbuf d))
  | Err e => (Err e, d)
  | Panic p => (Panic p, d)
  end.

Definition ReadData : D bytes := l <-- ReadVarint; ReadBytes l.

Definition ReadString : D string := bs <-- ReadData; dret (string_of_bytes bs).

(** [for i := 0; i < n; i++ { acc = body(acc) }] with an early return on error.  Every body of
    the decoder consumes at least one byte or fails, so the bytes left bound the iterations:
    that is the fuel, and [read_loop_fuel] proves it is never exhausted. *)
Fixpoint read_loop {A} (fuel : nat) (body : A → D A) (n i : Z) (acc : A) : D A :=
  if i <? n then
    match fuel with
    | O => dpanic OutOfFuel
    | S fuel' => acc' <-- body acc; read_loop fuel' body n (i + 1) acc'
    end
  else dret acc.

Definition read_loop_all {A} (body : A → D A) (n : Z) (acc : A) : D A := λ d,
  read_loop (S (length (dbuf d))) body n 0 acc d.

Definition ReadStrMap_body (m : gmap string string) : D (gmap string string) :=
  k <-- ReadString; v <-- ReadString; dret (<[k := v]> m).

Definition ReadStrMap : D (gmap string string) :=
  l <-- ReadVarint; read_loop_all ReadStrMap_body (i64 l) ∅.

Definition ReadStrings_body (ss : list string) : D (list string) :=
  s <-- ReadString; dret (ss ++ [s]).

(** [make([]string, l)] panics when [l] does not fit an [int] or the slice of 16-byte string
    headers exceeds the 2^48 bytes the allocator can address. *)
Definition max_strings : Z := 2 ^ 44.

Definition ReadStrings : D (list string) :=
  l <-- ReadVarint;
  if max_strings <? l then dpanic MakeSlice else read_loop_all ReadStrings_body (i64 l) [].

Definition ReadUInt8Map_body (m : gmap uint8 string) : D (gmap uint8 string) :=
  k <-- ReadUInt8; v <-- ReadString; dret (<[k := v]> m).

Definition ReadUInt8Map : D (gmap uint8 string) :=
  l <-- ReadUInt8; read_loop_all ReadUInt8Map_body (Z_of_byte l) ∅.

Definition ReadAll : D bytes := λ d,
  let l := zlen (dbuf d) in
  if l <=? pos d then (Ok [], d)
  else match slice (dbuf d) (pos d) l with
       | Ok p => (Ok p, mkDecoder l (dbuf d))
       | Err e => (Err e, d)
       | Panic p => (Panic p, d)
       end.

(** ** Marshal and Unmarshal of an encodable type *)

(** A type implementing [Codable]: [WriteTo] appends to an encoder, [ReadFrom] decodes. *)
Class Codable (A : Type) := {
  WriteTo : A → encoder → outcome error encoder;
  ReadFrom : D A
}.

(** [coder.Marshal]: the encoder is always picked, also when [WriteTo] fails. *)
Definition coder_Marshal {A} `{Codable A} (choice : nat) (p : enc_pool) (a : A)
  : outcome error bytes * enc_pool :=
  let '(e, p) := NewEncoder choice p in
  match WriteTo a e with
  | Ok e' => let '(bs, p') := Pick e' p in (Ok bs, p')
  | Err err => (Err err, free e p)
  | Panic w => (Panic w, p)
  end.

Definition coder_Unmarshal {A} `{Codable A} (b : bytes) : outcome error A :=
  fst (ReadFrom (NewDecoder b)).

(** ** Specification of a reader

    [reads r bs a]: at any position of any buffer, [r] consumes exactly the bytes [bs] and
    returns [a].  [reads_end] is the same for a reader that takes the rest of the buffer. *)
Definition reads {A} (r : D A) (bs : bytes) (a : A) : Prop :=
  ∀ pre post, zlen (pre ++ bs ++ post) < 2 ^ 63 →
    r (mkDecoder (zlen pre) (pre ++ bs ++ post)) =
      (Ok a, mkDecoder (zlen pre + zlen bs) (pre ++ bs ++ post)).

Definition reads_end {A} (r : D A) (bs : bytes) (a : A) : Prop :=
  ∀ pre, zlen (pre ++ bs) < 2 ^ 63 →
    r (mkDecoder (zlen pre) (pre ++ bs)) = (Ok a, mkDecoder (zlen pre + zlen bs) (pre ++ bs)).

(** The decoder a reader can be in: its position is inside a buffer whose length is an [int]. *)
Definition dec_wf (d : decoder) : Prop := 0 <= pos d <= zlen (dbuf d) ∧ zlen (dbuf d) < 2 ^ 63.

(** [keeps r]: from a well-formed decoder, [r] leaves a well-formed decoder on the same buffer,
    does not move backwards on success and does not run out of fuel.  [advances r]: moreover a
    success consumes at least one byte. *)
Definition progress_by {A} (n : Z) (r : D A) : Prop := ∀ d, dec_wf d →
  match r d with
  | (Ok _, d') => dbuf d' = dbuf d ∧ pos d + n <= pos d' ∧ dec_wf d'
  | (Err _, d') => dbuf d' = dbuf d ∧ pos d <= pos d' ∧ dec_wf d'
  | (Panic p, _) => p ≠ OutOfFuel
  end.
Abbreviation keeps := (progress_by 0).
Abbreviation advances := (progress_by 1).

(** The bytes a value of each type takes. *)
Definition enc_data (data : bytes) : bytes := AppendUvarint [] (zlen data) ++ data.
Definition enc_string (s : string) : bytes := enc_data (bytes_of_string s).

(** Strings are shorter than the address space. *)
Definition short_string (s : string) : Prop := zlen (bytes_of_string s) < 2 ^ 63.

(** The strings of a map are short. *)
Definition short_map {K} `{Countable K} (m : gmap K string) : Prop :=
  map_Forall (λ _ v, short_string v) m.

#[export] Instance short_string_dec s : Decision (short_string s).
Proof. unfold short_string. apply _. Defined.
#[export] Instance short_map_dec {K} `{Countable K} (m : gmap K string) :
  Decision (short_map m).
Proof. unfold short_map. apply _. Defined.
#[export] Instance dec_wf_dec d : Decision (dec_wf d).
Proof. unfold dec_wf. apply _. Defined.

(** The interface between the coder and the types it carries: [WriteTo] appends [enc_of a] and
    [ReadFrom] reads it back, for the values [enc_wf] admits. *)
Class CodableLaws (A : Type) `{Codable A} := {
  enc_wf : A → Prop;
  enc_of : A → bytes;
  write_enc a e : enc_wf a → WriteTo a e = Ok (mkEncoder (ebuf e ++ enc_of a));
  read_enc a : enc_wf a → reads_end ReadFrom (enc_of a) a
}.

(** Pooled encoders are empty. *)
Definition pool_wf (p : enc_pool) : Prop := Forall (λ e, ebuf e = []) p.

(** ** Integers *)

Lemma length_be_bytes n v : length (be_bytes n v) = n.
Proof. induction n; simpl; auto. Qed.

Lemma zlen_be_bytes n v : zlen (be_bytes n v) = Z.of_nat n.
Proof. unfold zlen. by rewrite length_be_bytes. Qed.

Lemma lor_shiftl8 acc b : Z.lor (Z.shiftl acc 8) (Z_of_byte b) = acc * 256 + Z_of_byte b.
Proof.
  rewrite Z.lor_comm, lor_shiftl_add; [lia|lia|apply Z_of_byte_range].
Qed.

Lemma be_fold n v acc :
  fold_left (λ acc b, Z.lor (Z.shiftl acc 8) (Z_of_byte b)) (be_bytes n v) acc =
    acc * 2 ^ (8 * Z.of_nat n) + v mod 2 ^ (8 * Z.of_nat n).
Proof.
  revert acc. induction n as [|n IH]; intros acc.
  { simpl. rewrite Z.mod_1_r. lia. }
  cbn [be_bytes fold_left]. rewrite lor_shiftl8, IH, Z_of_byte_of.
  unfold wrapU. rewrite Z.shiftr_div_pow2 by lia.
  replace (8 * Z.of_nat (S n)) with (8 * Z.of_nat n + 8) by lia.
  rewrite Z.pow_add_r by lia. set (m := 2 ^ (8 * Z.of_nat n)).
  assert (0 < m) by (apply Z.pow_pos_nonneg; lia).
  rewrite (Z.rem_mul_r v m (2 ^ 8)) by lia. change (2 ^ 8) with 256. lia.
Qed.

Lemma be_value_be_bytes n v : inU (8 * Z.of_nat n) v → be_value (be_bytes n v) = v.
Proof. intros Hv. unfold be_value. rewrite be_fold, Z.mod_small by done. lia. Qed.

#[global] Arguments be_bytes : simpl never.

Lemma uvarint_byte_high x : 128 <= x →
  Z_of_byte (byte_of (Z.lor x 128)) = 128 + x mod 128.
Proof.
  intros Hx. rewrite Z_of_byte_of. unfold wrapU.
  assert (Z.lor x 128 mod 2 ^ 8 = Z.lor (x mod 2 ^ 7) (Z.shiftl 1 7)) as ->.
  { apply Z.bits_inj'. intros n Hn. change (Z.shiftl 1 7) with (2 ^ 7).
    change (Z.lor x 128) with (Z.lor x (2 ^ 7)).
    rewrite Z.lor_spec, Z.pow2_bits_eqb by lia.
    destruct (decide (n < 8)).
    - rewrite Z.mod_pow2_bits_low, Z.lor_spec, Z.pow2_bits_eqb by lia.
      destruct (Z.eqb_spec 7 n); [by rewrite !orb_true_r|].
      by rewrite Z.mod_pow2_bits_low by lia.
    - rewrite !Z.mod_pow2_bits_high by lia. destruct (Z.eqb_spec 7 n); [lia|done]. }
  rewrite lor_shiftl_add; [change (2 ^ 7) with 128; lia|lia|]. apply Z.mod_pos_bound. lia.
Qed.

Lemma land_127 v : 128 <= v < 256 → Z.land v 127 = v - 128.
Proof.
  intros Hv. change 127 with (Z.ones 7). rewrite Z.land_ones by lia. dlia.
Qed.

Lemma uvarint_groups_length fuel x : (1 <= length (uvarint_groups fuel x) <= S fuel)%nat.
Proof.
  revert x. induction fuel as [|fuel IH]; intros x; simpl; [lia|].
  destruct (x <? 128); simpl; [lia|]. specialize (IH (Z.shiftr x 7)). lia.
Qed.

(** One group of seven bits merged at bit [7 * i]. *)
Lemma lor_group acc v s : 0 <= s → 0 <= acc < 2 ^ s → 0 <= v → acc + v * 2 ^ s < 2 ^ 64 →
  Z.lor acc (u64 (Z.shiftl v s)) = acc + v * 2 ^ s.
Proof.
  intros Hs Hacc Hv Hlt. rewrite wrapU_id, lor_shiftl_add; [done|done|done|].
  unfold inU. rewrite Z.shiftl_mul_pow2 by done. nia.
Qed.

Lemma uvarint_loop_groups fuel : ∀ i x acc rest,
  0 <= i → i + Z.of_nat fuel = 9 → 0 <= acc < 2 ^ (7 * i) → 0 <= x →
  acc + x * 2 ^ (7 * i) < 2 ^ 64 →
  uvarint_loop i acc (7 * i) (uvarint_groups fuel x ++ rest) =
    (acc + x * 2 ^ (7 * i), i + zlen (uvarint_groups fuel x)).
Proof.
  assert (∀ i x acc rest, 0 <= i <= 9 → (i = 9 → x <= 1) → 0 <= acc < 2 ^ (7 * i) →
    0 <= x < 128 → acc + x * 2 ^ (7 * i) < 2 ^ 64 →
    uvarint_loop i acc (7 * i) (byte_of x :: rest) = (acc + x * 2 ^ (7 * i), i + 1)) as Hlast.
  { intros i x acc rest Hi H9 Hacc Hx Hlt. simpl uvarint_loop.
    rewrite Z_of_byte_of, wrapU_id by (unfold inU; lia).
    destruct (Z.eqb_spec i 10); [lia|]. destruct (Z.ltb_spec x 128); [|lia].
    replace ((i =? 9) && (1 <? x)) with false
      by (destruct (Z.eqb_spec i 9), (Z.ltb_spec 1 x); simpl; auto; lia).
    rewrite lor_group by lia. done. }
  induction fuel as [|fuel IH]; intros i x acc rest Hi Hif Hacc Hx Hlt; cbn [uvarint_groups].
  - assert (i = 9) as -> by lia. apply Hlast; lia.
  - destruct (Z.ltb_spec x 128); [apply Hlast; lia|].
    cbn [app uvarint_loop]. rewrite uvarint_byte_high by done.
    pose proof (Z.mod_pos_bound x 128).
    destruct (Z.eqb_spec i 10); [lia|]. destruct (Z.ltb_spec (128 + x mod 128) 128); [lia|].
    rewrite land_127 by lia. replace (128 + x mod 128 - 128) with (x mod 128) by lia.
    assert (0 < 2 ^ (7 * i)) by (apply Z.pow_pos_nonneg; lia).
    pose proof (Z.div_mod x 128 ltac:(lia)) as Hdm.
    assert (0 <= x / 128) by (apply Z.div_pos; lia).
    assert (2 ^ (7 * (i + 1)) = 128 * 2 ^ (7 * i)) as Hpow.
    { replace (7 * (i + 1)) with (7 + 7 * i) by lia. rewrite Z.pow_add_r by lia. done. }
    rewrite Z.shiftr_div_pow2 by lia. change (2 ^ 7) with 128.
    set (P := 2 ^ (7 * i)) in *. set (q := x / 128) in *. set (r := x mod 128) in *.
    assert (x * P = 128 * (q * P) + r * P) as Hx' by (rewrite Hdm; ring).
    assert (0 <= q * P) by (apply Z.mul_nonneg_nonneg; lia).
    assert (0 <= r * P <= 127 * P)
      by (split; [apply Z.mul_nonneg_nonneg|apply Z.mul_le_mono_nonneg_r]; lia).
    assert (q * (128 * P) = 128 * (q * P)) by ring.
    rewrite lor_group by (fold P; lia). fold P.
    replace (7 * i + 7) with (7 * (i + 1)) by lia.
    rewrite IH; rewrite ?Hpow; try lia. rewrite zlen_cons. f_equal; lia.
Qed.

Lemma Uvarint_groups x rest : inU 64 x →
  Uvarint (uvarint_groups 9 x ++ rest) = (x, zlen (uvarint_groups 9 x)).
Proof.
  intros [? ?]. unfold Uvarint.
  assert (∀ s, s = 7 * 0 → uvarint_loop 0 0 s (uvarint_groups 9 x ++ rest) =
    (0 + x * 2 ^ (7 * 0), 0 + zlen (uvarint_groups 9 x))) as E.
  { intros s ->. apply uvarint_loop_groups; lia. }
  rewrite (E 0) by lia. f_equal; lia.
Qed.

Lemma zlen_uvarint x : 1 <= zlen (uvarint_groups 9 x) <= 10.
Proof. unfold zlen. pose proof (uvarint_groups_length 9 x). lia. Qed.

#[global] Arguments uvarint_groups : simpl never.

(** The length [Uvarint] reports never exceeds the buffer. *)
Lemma uvarint_loop_bound buf : ∀ i x s, 0 <= i → snd (uvarint_loop i x s buf) <= i + zlen buf.
Proof.
  induction buf as [|b buf IH]; intros i x s Hi; simpl uvarint_loop;
    [unfold zlen; simpl; lia|].
  rewrite zlen_cons. pose proof (zlen_nonneg buf).
  destruct (i =? 10); [simpl; lia|]. destruct (Z_of_byte b <? 128).
  - destruct ((i =? 9) && (1 <? Z_of_byte b)); simpl; lia.
  - etrans; [apply IH; lia|lia].
Qed.

Lemma Uvarint_bound buf : snd (Uvarint buf) <= zlen buf.
Proof. unfold Uvarint. pose proof (uvarint_loop_bound buf 0 0 0 ltac:(lia)). lia. Qed.

(** ** Readers *)

Lemma reads_dret {A} (a : A) : reads (dret a) [] a.
Proof. intros pre post _. unfold dret. rewrite zlen_nil. by rewrite Z.add_0_r. Qed.

Lemma reads_dbind {A B} (r : D A) (k : A → D B) bs1 bs2 a b :
  reads r bs1 a → reads (k a) bs2 b → reads (dbind r k) (bs1 ++ bs2) b.
Proof.
  intros Hr Hk pre post Hlt. unfold dbind.
  rewrite <-(app_assoc bs1). rewrite <-(app_assoc bs1) in Hlt. rewrite Hr by done.
  specialize (Hk (pre ++ bs1) post). rewrite (zlen_app pre bs1), <-!app_assoc in Hk.
  rewrite Hk by done. by rewrite (zlen_app bs1), Z.add_assoc.
Qed.

Lemma reads_bind_ret {A B} (r : D A) (k : A → B) bs a :
  reads r bs a → reads (dbind r (λ a, dret (k a))) bs (k a).
Proof.
  intros Hr. rewrite <-(app_nil_r bs). eapply reads_dbind; [done|apply reads_dret].
Qed.

Lemma reads_reads_end {A B} (r : D A) (k : A → D B) bs1 bs2 a b :
  reads r bs1 a → reads_end (k a) bs2 b → reads_end (dbind r k) (bs1 ++ bs2) b.
Proof.
  intros Hr Hk pre Hlt. unfold dbind. rewrite Hr by done.
  specialize (Hk (pre ++ bs1)). rewrite (zlen_app pre bs1), <-!app_assoc in Hk.
  rewrite Hk by done. by rewrite (zlen_app bs1), Z.add_assoc.
Qed.

Lemma reads_end_of_reads {A} (r : D A) bs a : reads r bs a → reads_end r bs a.
Proof. intros Hr pre Hlt. specialize (Hr pre []). rewrite !app_nil_r in Hr. auto. Qed.

Lemma reads_end_ret {A B} (r : D A) (k : A → B) bs a :
  reads_end r bs a → reads_end (dbind r (λ a, dret (k a))) bs (k a).
Proof. intros Hr pre Hlt. unfold dbind. by rewrite Hr. Qed.

Lemma u64_zlen (n : Z) : 0 <= n < 2 ^ 63 → u64 n = n.
Proof. intros ?. apply wrapU_id. unfold inU. lia. Qed.

Lemma slice_app (pre bs post : bytes) :
  slice (pre ++ bs ++ post) (zlen pre) (zlen pre + zlen bs) = Ok bs.
Proof.
  unfold slice. rewrite !zlen_app.
  pose proof (zlen_nonneg pre). pose proof (zlen_nonneg bs). pose proof (zlen_nonneg post).
  destruct (Z.leb_spec 0 (zlen pre)); [|lia].
  destruct (Z.leb_spec (zlen pre) (zlen pre + zlen bs)); [|lia].
  destruct (Z.leb_spec (zlen pre + zlen bs) (zlen pre + (zlen bs + zlen post))); [|lia].
  simpl. f_equal. rewrite to_nat_zlen, drop_app_length.
  replace (zlen pre + zlen bs - zlen pre) with (zlen bs) by lia.
  by rewrite to_nat_zlen, take_app_length.
Qed.

Lemma reads_ReadBytes bs : reads (ReadBytes (zlen bs)) bs bs.
Proof.
  intros pre post Hlt. unfold ReadBytes; cbn [pos dbuf].
  destruct (Z.eqb_spec (zlen bs) 0) as [E|E].
  { destruct bs; [|rewrite zlen_cons in E; pose proof (zlen_nonneg bs); lia].
    by rewrite zlen_nil, Z.add_0_r. }
  rewrite !zlen_app in *.
  pose proof (zlen_nonneg pre). pose proof (zlen_nonneg bs). pose proof (zlen_nonneg post).
  rewrite u64_zlen by lia.
  destruct (Z.ltb_spec (zlen pre + (zlen bs + zlen post)) (zlen pre + zlen bs)); [lia|].
  by rewrite slice_app.
Qed.

Lemma reads_ReadUInt8 b : reads ReadUInt8 [b] b.
Proof.
  intros pre post Hlt. unfold ReadUInt8; cbn [pos dbuf].
  rewrite !zlen_app, zlen_cons, zlen_nil in *.
  pose proof (zlen_nonneg pre). pose proof (zlen_nonneg post).
  rewrite u64_zlen by lia.
  destruct (Z.ltb_spec (zlen pre + (0 + 1 + zlen post)) (zlen pre + 1)); [lia|].
  rewrite to_nat_zlen, lookup_app_r, Nat.sub_diag by lia. simpl. done.
Qed.

Lemma reads_be {A} (n : nat) v (k : Z → A) : inU (8 * Z.of_nat n) v →
  reads (bs <-- ReadBytes (Z.of_nat n); dret (k (be_value bs))) (be_bytes n v) (k v).
Proof.
  intros Hv. rewrite <-(be_value_be_bytes n v Hv) at 2.
  apply (reads_bind_ret _ (λ bs, k (be_value bs))).
  rewrite <-(zlen_be_bytes n v). apply reads_ReadBytes.
Qed.

Lemma reads_ReadUInt16 v : inU 16 v → reads ReadUInt16 (be_bytes 2 v) v.
Proof. intros. by apply (reads_be 2 v id). Qed.

Lemma reads_ReadUInt32 v : inU 32 v → reads ReadUInt32 (be_bytes 4 v) v.
Proof. intros. by apply (reads_be 4 v id). Qed.

Lemma reads_ReadUInt64 v : inU 64 v → reads ReadUInt64 (be_bytes 8 v) v.
Proof. intros. by apply (reads_be 8 v id). Qed.

Lemma reads_ReadVarint v : inU 64 v → reads ReadVarint (uvarint_groups 9 v) v.
Proof.
  intros Hv pre post Hlt. unfold ReadVarint; cbn [pos dbuf].
  set (bs := uvarint_groups 9 v) in *.
  pose proof (slice_app pre (bs ++ post) []) as Hs.
  rewrite app_nil_r, <-zlen_app in Hs. rewrite Hs.
  unfold bs at 1. rewrite Uvarint_groups by done. fold bs.
  pose proof (zlen_uvarint v) as Hl. fold bs in Hl.
  rewrite !zlen_app in Hlt. pose proof (zlen_nonneg pre). pose proof (zlen_nonneg post).
  destruct (Z.ltb_spec (zlen bs) 0); [lia|]. destruct (Z.eqb_spec (zlen bs) 0); [lia|].
  rewrite (u64_zlen (zlen bs)), u64_zlen by lia. done.
Qed.

Lemma reads_ReadData data : zlen data < 2 ^ 63 → reads ReadData (enc_data data) data.
Proof.
  intros Hlt. unfold ReadData, enc_data, AppendUvarint. rewrite app_nil_l.
  eapply reads_dbind; [apply reads_ReadVarint|apply reads_ReadBytes].
  pose proof (zlen_nonneg data). unfold inU. lia.
Qed.

Lemma reads_ReadString s : short_string s → reads ReadString (enc_string s) s.
Proof.
  intros Hs. rewrite <-(string_of_bytes_of_string s) at 2.
  unfold ReadString. apply (reads_bind_ret _ string_of_bytes). by apply reads_ReadData.
Qed.

Lemma reads_end_ReadAll bs : reads_end ReadAll bs bs.
Proof.
  intros pre Hlt. unfold ReadAll; cbn [pos dbuf]. rewrite zlen_app.
  destruct (Z.leb_spec (zlen pre + zlen bs) (zlen pre)).
  { assert (bs = []) as ->; [|by rewrite zlen_nil, Z.add_0_r].
    destruct bs as [|b bs]; [done|]. rewrite zlen_cons in *. pose proof (zlen_nonneg bs). lia. }
  pose proof (slice_app pre bs []) as Hs. rewrite app_nil_r in Hs. by rewrite Hs.
Qed.

(** ** Loops of readers *)

Lemma reads_loop {A X} (body : A → D A) (f : A → X → A) (enc : X → bytes) xs :
  Forall (λ x, ∀ acc, reads (body acc) (enc x) (f acc x)) xs →
  ∀ fuel n i acc, n = i + zlen xs → (length xs <= fuel)%nat →
  reads (read_loop fuel body n i acc) (concat (enc <$> xs)) (fold_left f xs acc).
Proof.
  induction 1 as [|x xs Hx Hxs IH]; intros fuel n i acc Hn Hfuel.
  - rewrite zlen_nil, Z.add_0_r in Hn; subst n.
    cbn [fmap list_fmap concat fold_left].
    destruct fuel; simpl; rewrite Z.ltb_irrefl; apply reads_dret.
  - rewrite zlen_cons in Hn. pose proof (zlen_nonneg xs).
    destruct fuel as [|fuel]; simpl in Hfuel; [lia|].
    cbn [fmap list_fmap concat fold_left read_loop].
    destruct (Z.ltb_spec i n); [|lia].
    eapply reads_dbind; [apply Hx|]. apply IH; lia.
Qed.

Lemma concat_enc_length {X} (enc : X → bytes) xs :
  Forall (λ x, 1 <= zlen (enc x)) xs → zlen xs <= zlen (concat (enc <$> xs)).
Proof.
  induction 1 as [|x xs Hx Hxs IH]; [done|]. rewrite fmap_cons. cbn [concat].
  rewrite zlen_cons, zlen_app. lia.
Qed.

Lemma reads_loop_all {A X} (body : A → D A) (f : A → X → A) (enc : X → bytes) xs acc :
  Forall (λ x, ∀ acc, reads (body acc) (enc x) (f acc x)) xs →
  Forall (λ x, 1 <= zlen (enc x)) xs →
  reads (read_loop_all body (zlen xs) acc) (concat (enc <$> xs)) (fold_left f xs acc).
Proof.
  intros Hf Hl pre post Hlt. unfold read_loop_all; cbn [dbuf].
  apply reads_loop; [done|lia| |done].
  apply concat_enc_length in Hl. unfold zlen in *.
  rewrite !length_app. lia.
Qed.

(** The entries of a map, inserted in any order, rebuild it. *)
Lemma fold_left_insert {K V} `{Countable K} (l : list (K * V)) (m : gmap K V) :
  NoDup l.*1 → fold_left (λ m '(k, v), <[k := v]> m) l m = list_to_map l ∪ m.
Proof.
  revert m. induction l as [|[k v] l IH]; intros m Hnd.
  { simpl. by rewrite (left_id_L ∅ (∪)). }
  apply NoDup_cons in Hnd as [Hk Hnd]. simpl. rewrite IH by done.
  rewrite <-insert_union_l, insert_union_r; [done|].
  by apply not_elem_of_list_to_map_1.
Qed.

Lemma fold_left_insert_range {K V} `{GoRange K} (m : gmap K V) :
  fold_left (λ m '(k, v), <[k := v]> m) (go_range m) ∅ = m.
Proof.
  rewrite fold_left_insert by apply NoDup_go_range.
  by rewrite (right_id_L ∅ (∪)), list_to_map_go_range.
Qed.

(** A loop that reads the entries of a map written in some order rebuilds the map. *)
Lemma reads_loop_range {K V} `{GoRange K} (body : gmap K V → D (gmap K V))
    (enc : K * V → bytes) (m : gmap K V) :
  Forall (λ kv, ∀ acc, reads (body acc) (enc kv) (<[kv.1 := kv.2]> acc)) (go_range m) →
  Forall (λ kv, 1 <= zlen (enc kv)) (go_range m) →
  reads (read_loop_all body (Z.of_nat (size m)) ∅) (concat (enc <$> go_range m)) m.
Proof.
  intros Hbody Hlen.
  assert (zlen (go_range m) = Z.of_nat (size m)) as Hz
    by (unfold zlen; by rewrite go_range_length).
  pose proof (reads_loop_all body (λ m '(k, v), <[k := v]> m) enc (go_range m) ∅) as Hr.
  rewrite fold_left_insert_range, Hz in Hr. apply Hr; [|done].
  eapply Forall_impl; [exact Hbody|]. intros [k v] Hkv. apply Hkv.
Qed.

Lemma zlen_enc_string s : 1 <= zlen (enc_string s).
Proof.
  unfold enc_string, enc_data, AppendUvarint. rewrite app_nil_l, zlen_app.
  pose proof (zlen_uvarint (zlen (bytes_of_string s))).
  pose proof (zlen_nonneg (bytes_of_string s)). lia.
Qed.

Definition enc_u8_entry (kv : uint8 * string) : bytes := kv.1 :: enc_string kv.2.
Definition enc_str_entry (kv : string * string) : bytes := enc_string kv.1 ++ enc_string kv.2.

Lemma reads_ReadUInt8Map `{!GoRange uint8} (m : gmap uint8 string) :
  Z.of_nat (size m) < 256 → short_map m →
  reads ReadUInt8Map
    (byte_of (Z.of_nat (size m)) :: concat (enc_u8_entry <$> go_range m)) m.
Proof.
  intros Hsize Hshort.
  apply (reads_dbind _ _ [byte_of (Z.of_nat (size m))]
    (concat (enc_u8_entry <$> go_range m)) (byte_of (Z.of_nat (size m)))).
  { apply reads_ReadUInt8. }
  rewrite Z_of_byte_of, wrapU_id by (unfold inU; lia).
  apply reads_loop_range.
  - apply Forall_forall. intros [k v] Hin acc. apply elem_of_go_range in Hin.
    apply (reads_dbind _ _ [k] (enc_string v) k); [apply reads_ReadUInt8|].
    apply (reads_bind_ret _ (λ v, <[k := v]> acc)), reads_ReadString, (Hshort k v Hin).
  - apply Forall_forall. intros [k v] _. unfold enc_u8_entry. rewrite zlen_cons.
    pose proof (zlen_nonneg (enc_string v)). simpl. lia.
Qed.

Lemma reads_ReadStrMap `{!GoRange string} (m : gmap string string) :
  Z.of_nat (size m) < 2 ^ 63 → map_Forall (λ k _, short_string k) m → short_map m →
  reads ReadStrMap
    (uvarint_groups 9 (Z.of_nat (size m)) ++ concat (enc_str_entry <$> go_range m)) m.
Proof.
  intros Hsize Hk Hshort. eapply reads_dbind.
  { apply reads_ReadVarint. unfold inU. lia. }
  cbv beta. rewrite wrapS_id by (unfold inS; lia).
  apply reads_loop_range.
  - apply Forall_forall. intros [k v] Hin acc. apply elem_of_go_range in Hin.
    eapply reads_dbind; [apply reads_ReadString, (Hk k v Hin)|].
    apply (reads_bind_ret _ (λ v, <[k := v]> acc)), reads_ReadString, (Hshort k v Hin).
  - apply Forall_forall. intros [k v] _. unfold enc_str_entry. simpl fst. simpl snd.
    rewrite zlen_app. pose proof (zlen_enc_string k). pose proof (zlen_enc_string v). lia.
Qed.

Lemma fold_left_snoc {A} (l acc : list A) : fold_left (λ ss s, ss ++ [s]) l acc = acc ++ l.
Proof.
  revert acc. induction l as [|x l IH]; intros acc; simpl; [by rewrite app_nil_r|].
  by rewrite IH, <-app_assoc.
Qed.

Lemma reads_ReadStrings (ss : list string) :
  zlen ss <= max_strings → Forall short_string ss →
  reads ReadStrings (uvarint_groups 9 (zlen ss) ++ concat (enc_string <$> ss)) ss.
Proof.
  intros Hl Hss. pose proof (zlen_nonneg ss). unfold max_strings in *. eapply reads_dbind.
  { apply reads_ReadVarint. unfold inU. lia. }
  cbv beta. unfold max_strings. destruct (Z.ltb_spec (2 ^ 44) (zlen ss)); [lia|].
  rewrite wrapS_id by (unfold inS; lia).
  pose proof (reads_loop_all ReadStrings_body (λ ss s, ss ++ [s]) enc_string ss []) as Hr.
  rewrite fold_left_snoc, app_nil_l in Hr. apply Hr.
  - eapply Forall_impl; [done|]. intros s Hs acc.
    apply (reads_bind_ret _ (λ s, acc ++ [s])). by apply reads_ReadString.
  - apply Forall_true. intros. apply zlen_enc_string.
Qed.

(** ** What the writers append *)

Lemma ebuf_WriteData e data : zlen data < 2 ^ 63 →
  ebuf (WriteData e data) = ebuf e ++ enc_data data.
Proof.
  intros Hlt. pose proof (zlen_nonneg data).
  unfold WriteData, enc_data, AppendUvarint. rewrite u64_zlen by lia.
  destruct (Z.ltb_spec 0 (zlen data)); simpl; unfold AppendUvarint; rewrite ?app_nil_l.
  - by rewrite <-app_assoc.
  - destruct data as [|b data]; [by rewrite app_nil_r|].
    rewrite zlen_cons in *. pose proof (zlen_nonneg data). lia.
Qed.

Lemma ebuf_WriteString e s : short_string s → ebuf (WriteString e s) = ebuf e ++ enc_string s.
Proof. apply ebuf_WriteData. Qed.

Lemma ebuf_fold {X} (write : encoder → X → encoder) (enc : X → bytes) xs e :
  Forall (λ x, ∀ e, ebuf (write e x) = ebuf e ++ enc x) xs →
  ebuf (fold_left write xs e) = ebuf e ++ concat (enc <$> xs).
Proof.
  intros Hxs. revert e. induction Hxs as [|x xs Hx Hxs IH]; intros e.
  - simpl. by rewrite app_nil_r.
  - rewrite fmap_cons. cbn [fold_left concat]. by rewrite IH, Hx, <-app_assoc.
Qed.

Lemma ebuf_WriteUInt8Map `{!GoRange uint8} e (m : gmap uint8 string) : short_map m →
  ebuf (WriteUInt8Map e m) =
    ebuf e ++ byte_of (Z.of_nat (size m)) :: concat (enc_u8_entry <$> go_range m).
Proof.
  intros Hm. unfold WriteUInt8Map. rewrite (ebuf_fold _ enc_u8_entry).
  - simpl. by rewrite <-app_assoc.
  - apply Forall_forall. intros [k v] Hin e'. apply elem_of_go_range in Hin.
    rewrite ebuf_WriteString by exact (Hm k v Hin). simpl. by rewrite <-app_assoc.
Qed.

Lemma ebuf_WriteStrMap `{!GoRange string} e (m : gmap string string) :
  Z.of_nat (size m) < 2 ^ 63 → map_Forall (λ k _, short_string k) m → short_map m →
  ebuf (WriteStrMap e m) =
    ebuf e ++ uvarint_groups 9 (Z.of_nat (size m)) ++ concat (enc_str_entry <$> go_range m).
Proof.
  intros Hs Hk Hm. unfold WriteStrMap. rewrite (ebuf_fold _ enc_str_entry).
  - simpl. unfold AppendUvarint. rewrite u64_zlen by lia. by rewrite <-app_assoc.
  - apply Forall_forall. intros [k v] Hin e'. apply elem_of_go_range in Hin.
    rewrite !ebuf_WriteString by (exact (Hm k v Hin) || exact (Hk k v Hin)).
    by rewrite <-app_assoc.
Qed.

(** ** Progress and safety of the readers *)

Lemma progress_weaken {A} n n' (r : D A) : n' <= n → progress_by n r → progress_by n' r.
Proof.
  intros Hn Hr d Hd. specialize (Hr d Hd). destruct (r d) as [[a|e|p] d']; [|done|done].
  destruct Hr as (? & ? & ?). eauto with lia.
Qed.

Lemma progress_dret {A} (a : A) : keeps (dret a).
Proof. intros d Hd. simpl. split_and!; auto with lia. Qed.

Lemma progress_dbind {A B} n1 n2 (r : D A) (k : A → D B) :
  0 <= n1 → 0 <= n2 → progress_by n1 r → (∀ a, progress_by n2 (k a)) →
  progress_by (n1 + n2) (dbind r k).
Proof.
  intros Hn1 Hn2 Hr Hk d Hd. unfold dbind. specialize (Hr d Hd).
  destruct (r d) as [[a|e|p] d1]; [|done|done]. destruct Hr as (Hb1 & Hp1 & Hd1).
  specialize (Hk a d1 Hd1). destruct (k a d1) as [[b|e|p] d2]; [| |done].
  - destruct Hk as (Hb2 & Hp2 & Hd2). split_and!; [congruence|lia|done].
  - destruct Hk as (Hb2 & Hp2 & Hd2). split_and!; [congruence|lia|done].
Qed.

Lemma progress_bind_ret {A B} n (r : D A) (k : A → B) :
  0 <= n → progress_by n r → progress_by n (dbind r (λ a, dret (k a))).
Proof.
  intros Hn Hr. rewrite <-(Z.add_0_r n). apply progress_dbind; auto with lia.
  intros. apply progress_dret.
Qed.

(** A successful or failing slice of the buffer, and the only way to panic. *)
Lemma ReadBytes_cases l d : dec_wf d → inU 64 l →
  (∃ p, ReadBytes l d = (Ok p, mkDecoder (pos d + l) (dbuf d)) ∧
        pos d + l <= zlen (dbuf d) ∧ zlen p = l) ∨
  (ReadBytes l d = (Err (ECoder ErrBufferTooShort), d) ∧
     zlen (dbuf d) < pos d + l < 2 ^ 64) ∨
  (ReadBytes l d = (Panic SliceBounds, d) ∧ 2 ^ 64 <= pos d + l).
Proof.
  intros [Hpos Hlen] Hl. unfold inU in Hl. unfold ReadBytes.
  destruct (Z.eqb_spec l 0) as [->|Hl0].
  { left. exists []. rewrite Z.add_0_r. destruct d; simpl in *. auto with lia. }
  destruct (decide (pos d + l < 2 ^ 64)) as [Hlt|Hge].
  - rewrite wrapU_id by (unfold inU; lia).
    destruct (Z.ltb_spec (zlen (dbuf d)) (pos d + l)); [auto with lia|]. left.
    unfold slice. destruct (Z.leb_spec 0 (pos d)); [|lia].
    destruct (Z.leb_spec (pos d) (pos d + l)); [|lia].
    destruct (Z.leb_spec (pos d + l) (zlen (dbuf d))); [|lia]. simpl.
    eexists. split_and!; [done|lia|]. unfold zlen in *.
    rewrite length_take, length_drop. lia.
  - right; right. split; [|lia].
    assert (u64 (pos d + l) = pos d + l - 2 ^ 64) as ->.
    { unfold wrapU. rewrite <-(Z.mod_small (pos d + l - 2 ^ 64) (2 ^ 64)) by lia.
      rewrite <-(Z_mod_plus_full (pos d + l - 2 ^ 64) 1). f_equal. lia. }
    destruct (Z.ltb_spec (zlen (dbuf d)) (pos d + l - 2 ^ 64)); [lia|].
    unfold slice. destruct (Z.leb_spec (pos d) (pos d + l - 2 ^ 64)); [lia|].
    by rewrite andb_false_r.
Qed.

Lemma progress_ReadBytes l : inU 64 l → progress_by l (ReadBytes l).
Proof.
  intros Hl d Hd. destruct (ReadBytes_cases l d Hd Hl) as [(p & -> & ? & ?)|[[-> ?]|[-> ?]]].
  - destruct Hd. unfold dec_wf, inU in *; simpl. split_and!; try done; lia.
  - split_and!; auto with lia.
  - done.
Qed.

Lemma progress_ReadUInt8 : advances ReadUInt8.
Proof.
  intros d [Hpos Hlen]. unfold ReadUInt8.
  rewrite wrapU_id by (unfold inU; lia).
  destruct (Z.ltb_spec (zlen (dbuf d)) (pos d + 1)) as [?|Hle].
  { split_and!; [done|lia|done]. }
  destruct (dbuf d !! Z.to_nat (pos d)) eqn:E; [|done].
  unfold dec_wf; simpl. split_and!; auto with lia.
Qed.

(** [binary.Uvarint] returns a 64-bit value. *)
Lemma lor_inU w a b : 0 <= w → inU w a → inU w b → inU w (Z.lor a b).
Proof.
  unfold inU. intros Hw [Ha0 Ha] [Hb0 Hb]. split; [by apply Z.lor_nonneg|].
  destruct (decide (Z.lor a b = 0)) as [->|Hne]; [apply Z.pow_pos_nonneg; lia|].
  apply Z.log2_lt_pow2; [pose proof (proj2 (Z.lor_nonneg a b)); lia|].
  rewrite Z.log2_lor by done.
  destruct (decide (w = 0)) as [->|]; [change (2 ^ 0) with 1 in *; assert (a = 0) by lia;
    assert (b = 0) by lia; subst; done|].
  apply Z.max_lub_lt.
  - destruct (decide (a = 0)) as [->|]; [simpl; lia|]. by apply Z.log2_lt_pow2; [lia|].
  - destruct (decide (b = 0)) as [->|]; [simpl; lia|]. by apply Z.log2_lt_pow2; [lia|].
Qed.

Lemma uvarint_loop_inU buf : ∀ i x s, inU 64 x → inU 64 (fst (uvarint_loop i x s buf)).
Proof.
  assert (inU 64 0) by done.
  induction buf as [|b buf IH]; intros i x s Hx; simpl uvarint_loop; [done|].
  destruct (i =? 10); [done|]. destruct (Z_of_byte b <? 128).
  - destruct ((i =? 9) && (1 <? Z_of_byte b)); [done|].
    apply lor_inU; [lia|done|by apply wrapU_range].
  - apply IH, lor_inU; [lia|done|by apply wrapU_range].
Qed.

Lemma ReadVarint_inU d d' v : ReadVarint d = (Ok v, d') → inU 64 v.
Proof.
  unfold ReadVarint. destruct (slice _ _ _) as [rest|e|p]; [|done|done].
  pose proof (uvarint_loop_inU rest 0 0 0 ltac:(done)) as Hin. fold (Uvarint rest) in Hin.
  destruct (Uvarint rest) as [x len]. destruct (len <? 0); [done|].
  destruct (len =? 0); [done|]. intros [= -> _]. done.
Qed.

Lemma progress_ReadVarint : advances ReadVarint.
Proof.
  intros d [Hpos Hlen]. unfold ReadVarint, slice.
  destruct (Z.leb_spec 0 (pos d)); [|lia].
  destruct (Z.leb_spec (pos d) (zlen (dbuf d))); [|lia]. rewrite Z.leb_refl. simpl.
  set (rest := take _ _).
  assert (zlen rest = zlen (dbuf d) - pos d) as Hrest.
  { unfold rest, zlen in *. rewrite length_take, length_drop. lia. }
  pose proof (Uvarint_bound rest) as Hb. destruct (Uvarint rest) as [x len]. simpl in Hb.
  destruct (Z.ltb_spec len 0); [split_and!; auto with lia; done|].
  destruct (Z.eqb_spec len 0); [split_and!; auto with lia; done|].
  rewrite (wrapU_id 64 len), wrapU_id by (unfold inU; lia).
  unfold dec_wf; simpl. split_and!; auto with lia.
Qed.

Lemma progress_ReadData : advances ReadData.
Proof.
  intros d Hd. unfold ReadData, dbind. pose proof (progress_ReadVarint d Hd) as Hv.
  destruct (ReadVarint d) as [[l|e|p] d1] eqn:El; [|done|done].
  apply ReadVarint_inU in El. destruct Hv as (Hb & Hp & Hd1).
  pose proof (progress_ReadBytes l El d1 Hd1) as Hr. unfold inU in El.
  destruct (ReadBytes l d1) as [[bs|e|p] d2]; [| |done].
  - destruct Hr as (? & ? & ?). split_and!; [congruence|lia|done].
  - destruct Hr as (? & ? & ?). split_and!; [congruence|lia|done].
Qed.

Lemma progress_ReadString : advances ReadString.
Proof. apply (progress_bind_ret 1), progress_ReadData. lia. Qed.

(** Loops whose body consumes a byte terminate before the fuel is exhausted. *)
Lemma read_loop_fuel {A} (body : A → D A) : (∀ acc, advances (body acc)) →
  ∀ fuel n i acc d, dec_wf d → zlen (dbuf d) - pos d < Z.of_nat fuel →
  match read_loop fuel body n i acc d with
  | (Ok _, d') | (Err _, d') => dbuf d' = dbuf d ∧ pos d <= pos d' ∧ dec_wf d'
  | (Panic p, _) => p ≠ OutOfFuel
  end.
Proof.
  intros Hbody. induction fuel as [|fuel IH]; intros n i acc d Hd Hfuel.
  { destruct Hd. lia. }
  cbn [read_loop]. destruct (i <? n); [|simpl; auto with lia].
  unfold dbind. pose proof (Hbody acc d Hd) as Hb.
  destruct (body acc d) as [[acc'|e|p] d1]; [|done|done]. destruct Hb as (Hbuf & Hpos & Hd1).
  specialize (IH n (i + 1) acc' d1 Hd1). rewrite Hbuf in IH.
  destruct (read_loop fuel body n (i + 1) acc' d1) as [[a|e|p] d2]; try (destruct IH as (? & ? & ?);
    [lia|split_and!; [done|lia|done]]). apply IH. lia.
Qed.

Lemma keeps_read_loop_all {A} (body : A → D A) n acc :
  (∀ acc, advances (body acc)) → keeps (read_loop_all body n acc).
Proof.
  intros Hbody d Hd. unfold read_loop_all.
  pose proof (read_loop_fuel body Hbody (S (length (dbuf d))) n 0 acc d Hd) as Hr.
  destruct (read_loop _ _ _ _ _ _) as [[a|e|p] d']; rewrite ?Z.add_0_r;
    apply Hr; destruct Hd; unfold zlen in *; lia.
Qed.

Lemma progress_ReadStrMap : advances ReadStrMap.
Proof.
  apply (progress_dbind 1 0); [lia|lia|apply progress_ReadVarint|].
  intros l. apply keeps_read_loop_all. intros acc.
  apply (progress_weaken 2); [lia|].
  apply (progress_dbind 1 1); [lia|lia|apply progress_ReadString|].
  intros k. apply progress_bind_ret; [lia|apply progress_ReadString].
Qed.

Lemma progress_ReadStrings : advances ReadStrings.
Proof.
  apply (progress_dbind 1 0); [lia|lia|apply progress_ReadVarint|].
  intros l. destruct (max_strings <? l); [by intros d Hd|].
  apply keeps_read_loop_all. intros acc.
  apply progress_bind_ret; [lia|apply progress_ReadString].
Qed.

Lemma progress_ReadUInt8Map : advances ReadUInt8Map.
Proof.
  apply (progress_dbind 1 0); [lia|lia|apply progress_ReadUInt8|].
  intros l. apply keeps_read_loop_all. intros acc.
  apply (progress_weaken 2); [lia|].
  apply (progress_dbind 1 1); [lia|lia|apply progress_ReadUInt8|].
  intros k. apply progress_bind_ret; [lia|apply progress_ReadString].
Qed.

Lemma progress_ReadAll : keeps ReadAll.
Proof.
  intros d [Hpos Hlen]. unfold ReadAll, slice.
  destruct (Z.leb_spec (zlen (dbuf d)) (pos d)); [split_and!; auto with lia; done|].
  destruct (Z.leb_spec 0 (pos d)); [|lia].
  destruct (Z.leb_spec (pos d) (zlen (dbuf d))); [|lia]. rewrite Z.leb_refl.
  unfold dec_wf; simpl. split_and!; auto with lia.
Qed.

(** ** The encoder pool and Marshal *)

Lemma NewEncoder_spec choice p : pool_wf p →
  fst (NewEncoder choice p) = mkEncoder [] ∧ pool_wf (snd (NewEncoder choice p)).
Proof.
  intros Hp. unfold NewEncoder, pool_get, pool_wf in *.
  destruct (p !! choice) as [e|] eqn:E; simpl; [|done].
  split; [|by apply Forall_delete].
  rewrite Forall_lookup in Hp. specialize (Hp _ _ E). destruct e; simpl in *. by subst.
Qed.

Lemma pool_wf_free e p : pool_wf p → pool_wf (free e p).
Proof. intros. by constructor. Qed.

Lemma coder_Unmarshal_enc {A} `{CodableLaws A} (a : A) :
  enc_wf a → zlen (enc_of a) < 2 ^ 63 → coder_Unmarshal (enc_of a) = Ok a.
Proof.
  intros Ha Hl. unfold coder_Unmarshal, NewDecoder.
  pose proof (read_enc a Ha [] Hl) as E.
  change (@zlen byte []) with 0 in E. rewrite app_nil_l in E. by rewrite E.
Qed.

(** Writers as updates of the buffer. *)
Lemma write_string s e : short_string s →
  WriteString e s = mkEncoder (ebuf e ++ enc_string s).
Proof. intros. rewrite <-ebuf_WriteString by done. by destruct (WriteString e s). Qed.

Definition enc_strmap `{!GoRange string} (m : gmap string string) : bytes :=
  uvarint_groups 9 (Z.of_nat (size m)) ++ concat (enc_str_entry <$> go_range m).

Lemma write_strmap `{!GoRange string} m e :
  Z.of_nat (size m) < 2 ^ 63 → map_Forall (λ k _, short_string k) m → short_map m →
  WriteStrMap e m = mkEncoder (ebuf e ++ enc_strmap m).
Proof.
  intros. unfold enc_strmap. rewrite <-ebuf_WriteStrMap by done. by destruct (WriteStrMap e m).
Qed.

(** ** Properties of the coder *)

(** Every 64-bit value is written as one to ten bytes, and [ReadVarint] reads
    exactly these bytes back, whatever follows them in the buffer. *)
Theorem varint_roundtrip (x : Z) (post : bytes) :
  inU 64 x → zlen post < 2 ^ 62 →
  let bs := ebuf (WriteVarint (mkEncoder []) x) in
  1 <= zlen bs <= 10 ∧
  ReadVarint (NewDecoder (bs ++ post)) = (Ok x, mkDecoder (zlen bs) (bs ++ post)).
Proof.
  intros Hx Hpost bs. assert (bs = uvarint_groups 9 x) as -> by done.
  pose proof (zlen_uvarint x). split; [done|].
  apply (reads_ReadVarint x Hx [] post). simpl. rewrite zlen_app. lia.
Qed.

Lemma varint_roundtrip_witness :
  inU 64 (2 ^ 64 - 1) ∧
  ReadVarint (NewDecoder (ebuf (WriteVarint (mkEncoder []) (2 ^ 64 - 1)) ++ [x07])) =
    (Ok (2 ^ 64 - 1),
     mkDecoder 10 (ebuf (WriteVarint (mkEncoder []) (2 ^ 64 - 1)) ++ [x07])).
Proof.
  split; [done|]. apply (varint_roundtrip (2 ^ 64 - 1) [x07]); [done|vm_compute; done].
Defined.

(** Integers: each fixed-width integer, signed or not, is read back as it was written. *)
Theorem integer_roundtrip :
  (∀ b, reads ReadBool (ebuf (WriteBool (mkEncoder []) b)) b) ∧
  (∀ v, inU 16 v → reads ReadUInt16 (ebuf (WriteUInt16 (mkEncoder []) v)) v) ∧
  (∀ v, inU 32 v → reads ReadUInt32 (ebuf (WriteUInt32 (mkEncoder []) v)) v) ∧
  (∀ v, inU 64 v → reads ReadUInt64 (ebuf (WriteUInt64 (mkEncoder []) v)) v) ∧
  (∀ v, inS 8 v → reads ReadInt8 (ebuf (WriteInt8 (mkEncoder []) v)) v) ∧
  (∀ v, inS 16 v → reads ReadInt16 (ebuf (WriteInt16 (mkEncoder []) v)) v) ∧
  (∀ v, inS 32 v → reads ReadInt32 (ebuf (WriteInt32 (mkEncoder []) v)) v) ∧
  (∀ v, inS 64 v → reads ReadInt64 (ebuf (WriteInt64 (mkEncoder []) v)) v).
Proof.
  assert (∀ w v, 0 < w → inS w v → wrapS w (wrapU w v) = v) as Hs.
  { intros w v Hw Hv. by rewrite wrapS_wrapU, wrapS_id. }
  split_and!; simpl.
  - intros [].
    + exact (reads_bind_ret _ (λ i, bool_decide (i = x01)) _ _ (reads_ReadUInt8 x01)).
    + exact (reads_bind_ret _ (λ i, bool_decide (i = x01)) _ _ (reads_ReadUInt8 x00)).
  - apply reads_ReadUInt16.
  - apply reads_ReadUInt32.
  - apply reads_ReadUInt64.
  - intros v Hv.
    pose proof (reads_bind_ret _ (λ u, i8 (Z_of_byte u)) _ _ (reads_ReadUInt8 (byte_of (u8 v))))
      as Hr.
    cbv beta in Hr. rewrite Z_of_byte_of, (wrapU_id 8 (u8 v)), Hs in Hr; [exact Hr|lia|done|].
    by apply wrapU_range.
  - intros v Hv.
    pose proof (reads_bind_ret _ i16 _ _ (reads_ReadUInt16 _ (wrapU_range 16 v ltac:(lia))))
      as Hr. by rewrite Hs in Hr.
  - intros v Hv.
    pose proof (reads_bind_ret _ i32 _ _ (reads_ReadUInt32 _ (wrapU_range 32 v ltac:(lia))))
      as Hr. by rewrite Hs in Hr.
  - intros v Hv.
    pose proof (reads_bind_ret _ i64 _ _ (reads_ReadUInt64 _ (wrapU_range 64 v ltac:(lia))))
      as Hr. by rewrite Hs in Hr.
Qed.

(** A string map, a string list and a property map are read back as
    they were written, for every order in which the runtime iterates over the map. *)
Theorem container_roundtrip `{!GoRange string, !GoRange uint8}
    (m : gmap string string) (ss : list string) (pm : gmap uint8 string) :
  Z.of_nat (size m) < 2 ^ 63 → map_Forall (λ k _, short_string k) m → short_map m →
  zlen ss <= max_strings → Forall short_string ss →
  Z.of_nat (size pm) < 256 → short_map pm →
  reads ReadStrMap (ebuf (WriteStrMap (mkEncoder []) m)) m ∧
  reads ReadStrings (ebuf (WriteStrings (mkEncoder []) ss)) ss ∧
  reads ReadUInt8Map (ebuf (WriteUInt8Map (mkEncoder []) pm)) pm.
Proof.
  intros Hm Hk Hv Hss Hs Hpm Hpv. pose proof (zlen_nonneg ss). split_and!.
  - rewrite ebuf_WriteStrMap by done. by apply reads_ReadStrMap.
  - unfold WriteStrings. rewrite (ebuf_fold _ enc_string).
    + simpl. unfold AppendUvarint. unfold max_strings in Hss. rewrite u64_zlen by lia.
      by apply reads_ReadStrings.
    + eapply Forall_impl; [done|]. intros s Hss' e. by apply ebuf_WriteString.
  - rewrite ebuf_WriteUInt8Map by done. by apply reads_ReadUInt8Map.
Qed.

Lemma container_roundtrip_witness :
  reads ReadStrMap
    (ebuf (@WriteStrMap range_backward (mkEncoder []) {["a" := "x"; "b" := "yy"]}))
    {["a" := "x"; "b" := "yy"]} ∧
  reads ReadStrings (ebuf (WriteStrings (mkEncoder []) ["hello"; ""])) ["hello"; ""] ∧
  reads ReadUInt8Map
    (ebuf (@WriteUInt8Map range_forward (mkEncoder []) {[x01 := "u"; x03 := "c"]}))
    {[x01 := "u"; x03 := "c"]}.
Proof.
  apply (@container_roundtrip range_backward range_forward); vm_decide.
Defined.

(** 256 properties: the entry count of a property map is a single byte, so a map with all
    256 keys is written with count zero and reads back empty; the package promises 256. *)
Theorem uint8map_256_reads_empty `{!GoRange uint8} (m : gmap uint8 string) :
  size m = 256%nat → short_map m →
  zlen (ebuf (WriteUInt8Map (mkEncoder []) m)) < 2 ^ 63 →
  ReadUInt8Map (NewDecoder (ebuf (WriteUInt8Map (mkEncoder []) m))) =
    (Ok ∅, mkDecoder 1 (ebuf (WriteUInt8Map (mkEncoder []) m))).
Proof.
  intros Hs Hm. rewrite ebuf_WriteUInt8Map by done. rewrite Hs. cbn [ebuf app].
  change (byte_of (Z.of_nat 256)) with x00. intros Hlen.
  pose proof (reads_ReadUInt8Map (∅ : gmap uint8 string) ltac:(done) ltac:(done) []) as Hr.
  assert (go_range (∅ : gmap uint8 string) = []) as E.
  { apply nil_length_inv. by rewrite go_range_length. }
  rewrite E in Hr. specialize (Hr (concat (enc_u8_entry <$> go_range m))).
  rewrite map_size_empty in Hr. simpl in Hr. by apply Hr.
Qed.

(** A map with all 256 keys. *)
Definition full_props : gmap uint8 string :=
  list_to_map ((λ z, (byte_of z, "v")) <$> seqZ 0 256).

Lemma uint8map_256_reads_empty_witness :
  size full_props = 256%nat ∧
  fst (ReadUInt8Map (NewDecoder (ebuf (@WriteUInt8Map range_forward (mkEncoder []) full_props))))
    = Ok ∅.
Proof.
  split; [by vm_compute|].
  rewrite (@uint8map_256_reads_empty range_forward full_props); [done|vm_decide..].
Defined.

(** Every compound reader leaves the position inside the buffer, moves
    forward by at least one byte when it succeeds, and its loop terminates (the fuel, one more
    than the bytes of the buffer, always suffices), whatever the bytes are. *)
Theorem readers_progress :
  advances ReadUInt8 ∧ advances ReadVarint ∧ advances ReadData ∧ advances ReadString ∧
  advances ReadStrMap ∧ advances ReadStrings ∧ advances ReadUInt8Map ∧ keeps ReadAll.
Proof.
  split_and!; auto using progress_ReadUInt8, progress_ReadVarint, progress_ReadData,
    progress_ReadString, progress_ReadStrMap, progress_ReadStrings, progress_ReadUInt8Map,
    progress_ReadAll.
Qed.

(** The bounds check of [ReadBytes] adds a length read from the wire to
    the position in 64-bit arithmetic.  The read panics exactly when this sum overflows, it
    fails cleanly when the sum is past the end, and succeeds otherwise. *)
Theorem ReadData_outcome (d d' : decoder) (l : Z) :
  dec_wf d → ReadVarint d = (Ok l, d') →
  fst (ReadData d) =
    if bool_decide (2 ^ 64 <= pos d' + l) then Panic SliceBounds
    else if bool_decide (zlen (dbuf d) < pos d' + l) then Err (ECoder ErrBufferTooShort)
    else Ok (take (Z.to_nat l) (drop (Z.to_nat (pos d')) (dbuf d))).
Proof.
  intros Hd Hv. pose proof (progress_ReadVarint d Hd) as Hp. rewrite Hv in Hp.
  destruct Hp as (Hb & Hp & Hd'). apply ReadVarint_inU in Hv as Hl.
  unfold ReadData, dbind. rewrite Hv. rewrite <-Hb.
  destruct (ReadBytes_cases l d' Hd' Hl) as [(p & E & H1 & H2)|[[E H1]|[E H1]]].
  - rewrite E. destruct Hd'. unfold inU in Hl.
    rewrite bool_decide_eq_false_2 by lia. rewrite bool_decide_eq_false_2 by lia.
    cbn [fst]. f_equal. revert E. unfold ReadBytes.
    destruct (Z.eqb_spec l 0) as [->|]; [by intros [= <-]|].
    destruct (_ <? _); [done|]. rewrite wrapU_id by (unfold inU; lia). unfold slice.
    destruct (_ && _); [|done]. intros [= <-]. f_equal. f_equal. lia.
  - rewrite E. rewrite bool_decide_eq_false_2 by lia. by rewrite bool_decide_eq_true_2 by lia.
  - rewrite E. by rewrite bool_decide_eq_true_2 by lia.
Qed.

(** Ten bytes announce a length of 2^64 - 1. *)
Definition huge_length : bytes := uvarint_groups 9 (2 ^ 64 - 1).

Lemma ReadData_outcome_witness :
  fst (ReadData (NewDecoder (huge_length ++ [x41; x42]))) = Panic SliceBounds.
Proof.
  rewrite (ReadData_outcome _ (mkDecoder 10 (huge_length ++ [x41; x42])) (2 ^ 64 - 1)).
  - reflexivity.
  - vm_decide.
  - by vm_compute.
Defined.

(** Encoder reuse: encoders come from a pool and are reused.  The bytes [Marshal] returns
    and the value [Unmarshal] recovers do not depend on the encoder the pool serves, and every
    encoder goes back empty. *)
Theorem Marshal_pool_independent {A} `{CodableLaws A} (choice : nat) (p : enc_pool) (a : A) :
  pool_wf p → enc_wf a → zlen (enc_of a) < 2 ^ 63 →
  ∃ bs p', coder_Marshal choice p a = (Ok bs, p') ∧ pool_wf p' ∧
    bs = enc_of a ∧ coder_Unmarshal bs = Ok a.
Proof.
  intros Hp Ha Hl. destruct (NewEncoder_spec choice p Hp) as [E Hp'].
  unfold coder_Marshal. destruct (NewEncoder choice p) as [e p1]. simpl in *. subst e.
  rewrite write_enc by done. simpl.
  exists (enc_of a), (free (mkEncoder (enc_of a)) p1).
  split_and!; [done|by apply pool_wf_free|done|by apply coder_Unmarshal_enc].
Qed.
