(* ===== verification/Packet.v ===== *)
(** * Packets and their framing (src/packet)

    The eight packet types with their [WriteTo]/[ReadFrom] methods, the frame header of
    [Marshal]/[Unmarshal] and property access.  A nil property map is identified with the empty
    one (they read and compare alike), nil slices with empty ones; the identity pointer of a
    CONNECT packet is an option. *)
From stdpp Require Import pretty.
From S2P Require Import Prelude Errors Coder.

(** ** Constants *)
Definition MIN_LEN : Z := 0.
Definition MID_LEN_1 : Z := 0x3ff.
Definition MID_LEN_2 : Z := 0x3ffff.
Definition MID_LEN_3 : Z := 0x3ffffff.
Definition MAX_LEN : Z := 0x3ffffffff.
Definition MAX_UDP : Z := MID_LEN_1 + 1.

Definition CONNECT : uint8 := x00.
Definition CONNACK : uint8 := x01.
Definition MESSAGE : uint8 := x02.
Definition REQUEST : uint8 := x03.
Definition RESPONSE : uint8 := x04.
Definition PING : uint8 := x05.
Definition PONG : uint8 := x06.
Definition CLOSE : uint8 := x07.

Definition packet_type_string (t : uint8) : string :=
  if decide (t = CONNECT) then "CONNECT"
  else if decide (t = CONNACK) then "CONNACK"
  else if decide (t = MESSAGE) then "MESSAGE"
  else if decide (t = REQUEST) then "REQUEST"
  else if decide (t = RESPONSE) then "RESPONSE"
  else if decide (t = PING) then "PING"
  else if decide (t = PONG) then "PONG"
  else if decide (t = CLOSE) then "CLOSE"
  else "UNKNOWN".

Definition PropertyNone : uint8 := x00.
Definition PropertyUserID : uint8 := x01.
Definition PropertyChannel : uint8 := x02.
Definition PropertyClientID : uint8 := x03.

Definition MessageKindNone : uint8 := x00.

(** ** Packet types *)

Abbreviation props := (gmap uint8 string).

Record Identity := mkIdentity { UserID : string; ClientID : string; Password : string }.

Record Connect := mkConnect {
  connect_props : props; Version : uint8; connect_Identity : option Identity }.

Record Connack := mkConnack { connack_props : props; connack_Code : uint8 }.

Record Message := mkMessage { message_props : props; Kind : uint8; Payload : bytes }.

Record Request := mkRequest {
  request_props : props; request_ID : Z; Method : string; request_Body : bytes }.

Record Response := mkResponse {
  response_props : props; response_id : Z; response_Code : uint8; response_Body : bytes }.

Record Close := mkClose { close_props : props; close_Code : uint8 }.

Record ping := mkPing { ping_props : props }.

Record pong := mkPong { pong_props : props }.

Inductive Packet :=
| PConnect (p : Connect)
| PConnack (p : Connack)
| PMessage (p : Message)
| PRequest (p : Request)
| PResponse (p : Response)
| PPing (p : ping)
| PPong (p : pong)
| PClose (p : Close).

#[export] Instance Identity_eq_dec : EqDecision Identity.
Proof. solve_decision. Defined.
#[export] Instance Connect_eq_dec : EqDecision Connect.
Proof. solve_decision. Defined.
#[export] Instance Connack_eq_dec : EqDecision Connack.
Proof. solve_decision. Defined.
#[export] Instance Message_eq_dec : EqDecision Message.
Proof. solve_decision. Defined.
#[export] Instance Request_eq_dec : EqDecision Request.
Proof. solve_decision. Defined.
#[export] Instance Response_eq_dec : EqDecision Response.
Proof. solve_decision. Defined.
#[export] Instance Close_eq_dec : EqDecision Close.
Proof. solve_decision. Defined.
#[export] Instance ping_eq_dec : EqDecision ping.
Proof. solve_decision. Defined.
#[export] Instance pong_eq_dec : EqDecision pong.
Proof. solve_decision. Defined.
#[export] Instance Packet_eq_dec : EqDecision Packet.
Proof. solve_decision. Defined.

(** ** Constructors *)
Definition NewConnect (identity : option Identity) : Connect := mkConnect ∅ x01 identity.

Definition NewConnack (code : uint8) : Connack := mkConnack ∅ code.

Definition NewMessage (payload : bytes) : Message := mkMessage ∅ x00 payload.

(** The variadic body: absent means nil. *)
Definition NewRequest (method : string) (body : option bytes) : Request :=
  mkRequest ∅ 0 method (default [] body).

(** [Request.Response]. *)
Definition Request_Response (p : Request) (code : uint8) (content : option bytes) : Response :=
  mkResponse ∅ (request_ID p) code (default [] content).

Definition Response_ID (p : Response) : Z := response_id p.

Definition NewPing : ping := mkPing ∅.

Definition NewPong : pong := mkPong ∅.

Definition NewClose (code : uint8) : Close := mkClose ∅ code.

(** ** The Packet interface *)
Definition Packet_Type (p : Packet) : uint8 :=
  match p with
  | PConnect _ => CONNECT
  | PConnack _ => CONNACK
  | PMessage _ => MESSAGE
  | PRequest _ => REQUEST
  | PResponse _ => RESPONSE
  | PPing _ => PING
  | PPong _ => PONG
  | PClose _ => CLOSE
  end.

Definition packet_props (p : Packet) : props :=
  match p with
  | PConnect p => connect_props p
  | PConnack p => connack_props p
  | PMessage p => message_props p
  | PRequest p => request_props p
  | PResponse p => response_props p
  | PPing p => ping_props p
  | PPong p => pong_props p
  | PClose p => close_props p
  end.

Definition with_props (p : Packet) (m : props) : Packet :=
  match p with
  | PConnect p => PConnect (mkConnect m (Version p) (connect_Identity p))
  | PConnack p => PConnack (mkConnack m (connack_Code p))
  | PMessage p => PMessage (mkMessage m (Kind p) (Payload p))
  | PRequest p => PRequest (mkRequest m (request_ID p) (Method p) (request_Body p))
  | PResponse p =>
      PResponse (mkResponse m (response_id p) (response_Code p) (response_Body p))
  | PPing _ => PPing (mkPing m)
  | PPong _ => PPong (mkPong m)
  | PClose p => PClose (mkClose m (close_Code p))
  end.

(** [Get] returns the value and whether the key exists: an option. *)
Definition Packet_Get (p : Packet) (key : uint8) : option string := packet_props p !! key.

Definition Packet_Set (p : Packet) (key : uint8) (value : string) : Packet :=
  with_props p (<[key := value]> (packet_props p)).

(** ** Equality *)

(** The [other] argument is a pointer; comparing with a nil receiver dereferences it. *)
Definition Identity_Equal (i other : option Identity) : outcome error bool :=
  match other with
  | None => Ok false
  | Some o =>
      match i with
      | None => Panic NilDereference
      | Some i =>
          Ok (bool_decide (UserID i = UserID o) && bool_decide (ClientID i = ClientID o) &&
              bool_decide (Password i = Password o))
      end
  end.

Definition Connect_Equal (p : Connect) (other : option Packet) : outcome error bool :=
  match other with
  | Some (PConnect o) =>
      if bool_decide (connect_props p = connect_props o) && bool_decide (Version p = Version o)
      then Identity_Equal (connect_Identity p) (connect_Identity o)
      else Ok false
  | _ => Ok false
  end.

Definition Connack_Equal (p : Connack) (other : option Packet) : bool :=
  match other with
  | Some (PConnack o) =>
      bool_decide (connack_props p = connack_props o) &&
      bool_decide (connack_Code p = connack_Code o)
  | _ => false
  end.

Definition Message_Equal (p : Message) (other : option Packet) : bool :=
  match other with
  | Some (PMessage o) =>
      bool_decide (Kind p = Kind o) && bool_decide (message_props p = message_props o) &&
      bool_decide (Payload p = Payload o)
  | _ => false
  end.

Definition Request_Equal (p : Request) (other : option Packet) : bool :=
  match other with
  | Some (PRequest o) =>
      bool_decide (request_props p = request_props o) &&
      bool_decide (request_ID p = request_ID o) && bool_decide (Method p = Method o) &&
      bool_decide (request_Body p = request_Body o)
  | _ => false
  end.

Definition Response_Equal (p : Response) (other : option Packet) : bool :=
  match other with
  | Some (PResponse o) =>
      bool_decide (response_props p = response_props o) &&
      bool_decide (response_id p = response_id o) &&
      bool_decide (response_Code p = response_Code o) &&
      bool_decide (response_Body p = response_Body o)
  | _ => false
  end.

Definition ping_Equal (p : ping) (other : option Packet) : bool :=
  match other with
  | Some (PPing o) => bool_decide (ping_props p = ping_props o)
  | _ => false
  end.

Definition pong_Equal (p : pong) (other : option Packet) : bool :=
  match other with
  | Some (PPong o) => bool_decide (pong_props p = pong_props o)
  | _ => false
  end.

Definition Close_Equal (p : Close) (other : option Packet) : bool :=
  match other with
  | Some (PClose o) =>
      bool_decide (close_props p = close_props o) && bool_decide (close_Code p = close_Code o)
  | _ => false
  end.

Definition Packet_Equal (p : Packet) (other : option Packet) : outcome error bool :=
  match p with
  | PConnect p => Connect_Equal p other
  | PConnack p => Ok (Connack_Equal p other)
  | PMessage p => Ok (Message_Equal p other)
  | PRequest p => Ok (Request_Equal p other)
  | PResponse p => Ok (Response_Equal p other)
  | PPing p => Ok (ping_Equal p other)
  | PPong p => Ok (pong_Equal p other)
  | PClose p => Ok (Close_Equal p other)
  end.

(** ** Encoding and decoding of the packet bodies *)
Section codecs.
Context `{!GoRange uint8}.

Definition props_WriteTo (p : props) (c : encoder) : outcome error encoder :=
  Ok (WriteUInt8Map c p).

Definition props_ReadFrom : D props := ReadUInt8Map.

(** Writing through a nil identity dereferences it. *)
Definition Identity_WriteTo (i : option Identity) (w : encoder) : outcome error encoder :=
  match i with
  | None => Panic NilDereference
  | Some i => Ok (WriteString (WriteString (WriteString w (UserID i)) (ClientID i)) (Password i))
  end.

Definition Identity_ReadFrom : D Identity :=
  userID <-- ReadString;
  clientID <-- ReadString;
  password <-- ReadString;
  dret (mkIdentity userID clientID password).

Definition Connect_WriteTo (p : Connect) (w : encoder) : outcome error encoder :=
  let w := WriteUInt8 w (Version p) in
  w <~ Identity_WriteTo (connect_Identity p) w;
  props_WriteTo (connect_props p) w.

Definition Connect_ReadFrom : D Connect :=
  version <-- ReadUInt8;
  identity <-- Identity_ReadFrom;
  m <-- props_ReadFrom;
  dret (mkConnect m version (Some identity)).

Definition Connack_WriteTo (p : Connack) (w : encoder) : outcome error encoder :=
  props_WriteTo (connack_props p) (WriteUInt8 w (connack_Code p)).

Definition Connack_ReadFrom : D Connack :=
  code <-- ReadUInt8;
  m <-- props_ReadFrom;
  dret (mkConnack m code).

Definition Message_WriteTo (p : Message) (w : encoder) : outcome error encoder :=
  w <~ props_WriteTo (message_props p) (WriteUInt8 w (Kind p));
  Ok (WriteBytes w (Payload p)).

Definition Message_ReadFrom : D Message :=
  kind <-- ReadUInt8;
  m <-- props_ReadFrom;
  payload <-- ReadAll;
  dret (mkMessage m kind payload).

Definition Request_WriteTo (p : Request) (w : encoder) : outcome error encoder :=
  let w := WriteString (WriteUInt16 w (request_ID p)) (Method p) in
  w <~ props_WriteTo (request_props p) w;
  Ok (WriteBytes w (request_Body p)).

Definition Request_ReadFrom : D Request :=
  id <-- ReadUInt16;
  method <-- ReadString;
  m <-- props_ReadFrom;
  body <-- ReadAll;
  dret (mkRequest m id method body).

Definition Response_WriteTo (p : Response) (w : encoder) : outcome error encoder :=
  let w := WriteUInt8 (WriteUInt16 w (response_id p)) (response_Code p) in
  w <~ props_WriteTo (response_props p) w;
  Ok (WriteBytes w (response_Body p)).

Definition Response_ReadFrom : D Response :=
  id <-- ReadUInt16;
  code <-- ReadUInt8;
  m <-- props_ReadFrom;
  b <-- ReadAll;
  dret (mkResponse m id code b).

Definition Close_WriteTo (p : Close) (w : encoder) : outcome error encoder :=
  props_WriteTo (close_props p) (WriteUInt8 w (close_Code p)).

Definition Close_ReadFrom : D Close :=
  code <-- ReadUInt8;
  m <-- props_ReadFrom;
  dret (mkClose m code).

#[export] Instance Connect_Codable : Codable Connect :=
  {| WriteTo := Connect_WriteTo; ReadFrom := Connect_ReadFrom |}.
#[export] Instance Connack_Codable : Codable Connack :=
  {| WriteTo := Connack_WriteTo; ReadFrom := Connack_ReadFrom |}.
#[export] Instance Message_Codable : Codable Message :=
  {| WriteTo := Message_WriteTo; ReadFrom := Message_ReadFrom |}.
#[export] Instance Request_Codable : Codable Request :=
  {| WriteTo := Request_WriteTo; ReadFrom := Request_ReadFrom |}.
#[export] Instance Response_Codable : Codable Response :=
  {| WriteTo := Response_WriteTo; ReadFrom := Response_ReadFrom |}.
#[export] Instance Close_Codable : Codable Close :=
  {| WriteTo := Close_WriteTo; ReadFrom := Close_ReadFrom |}.
#[export] Instance ping_Codable : Codable ping :=
  {| WriteTo := λ p, props_WriteTo (ping_props p);
     ReadFrom := m <-- props_ReadFrom; dret (mkPing m) |}.
#[export] Instance pong_Codable : Codable pong :=
  {| WriteTo := λ p, props_WriteTo (pong_props p);
     ReadFrom := m <-- props_ReadFrom; dret (mkPong m) |}.

(** The [WriteTo] method called through the interface. *)
Definition Packet_WriteTo (p : Packet) (w : encoder) : outcome error encoder :=
  match p with
  | PConnect p => WriteTo p w
  | PConnack p => WriteTo p w
  | PMessage p => WriteTo p w
  | PRequest p => WriteTo p w
  | PResponse p => WriteTo p w
  | PPing p => WriteTo p w
  | PPong p => WriteTo p w
  | PClose p => WriteTo p w
  end.

(** ** Framing *)

(** [data[i] = byte(...)]: the five reserved bytes exist, so the update is in range. *)
Definition set_byte (i : nat) (z : Z) (data : bytes) : bytes := <[i := byte_of z]> data.

(** [packet.Marshal] after the body was written behind five reserved bytes. *)
Definition put_header (t : uint8) (data : bytes) : outcome error bytes :=
  let length := zlen data - 5 in
  let ty := u8 (Z.shiftl (Z_of_byte t) 4) in
  if length <=? MID_LEN_1 then
    let data := set_byte 3 (Z.lor ty (u8 (Z.shiftr length 8))) data in
    let data := set_byte 4 length data in
    Ok (drop 3 data)
  else if length <=? MID_LEN_2 then
    let data := set_byte 2 (Z.lor (Z.lor ty (Z.shiftl 1 2)) (u8 (Z.shiftr length 16))) data in
    let data := set_byte 3 (Z.shiftr length 8) data in
    let data := set_byte 4 length data in
    Ok (drop 2 data)
  else if length <=? MID_LEN_3 then
    let data := set_byte 1 (Z.lor (Z.lor ty (Z.shiftl 2 2)) (u8 (Z.shiftr length 24))) data in
    let data := set_byte 2 (Z.shiftr length 16) data in
    let data := set_byte 3 (Z.shiftr length 8) data in
    let data := set_byte 4 length data in
    Ok (drop 1 data)
  else if length <=? MAX_LEN then
    let data := set_byte 0 (Z.lor (Z.lor ty (Z.shiftl 3 2)) (u8 (Z.shiftr length 32))) data in
    let data := set_byte 1 (Z.shiftr length 24) data in
    let data := set_byte 2 (Z.shiftr length 16) data in
    let data := set_byte 3 (Z.shiftr length 8) data in
    let data := set_byte 4 length data in
    Ok data
  else Err (EPacket ErrPacketSizeTooLarge).

Definition Marshal (choice : nat) (pool : enc_pool) (p : Packet)
  : outcome error bytes * enc_pool :=
  let '(ec, pool) := NewEncoder choice pool in
  let ec := WriteBytes ec (replicate 5 x00) in
  match Packet_WriteTo p ec with
  | Err err => (Err err, pool)
  | Panic w => (Panic w, pool)
  | Ok ec => let '(data, pool) := Pick ec pool in (put_header (Packet_Type p) data, pool)
  end.

(** [unpack]: the type is the high half of the first header byte. *)
Definition unpack (header data : bytes) : outcome error Packet :=
  match header !! 0%nat with
  | None => Panic IndexRange
  | Some h =>
      let packetType := byte_of (Z.shiftr (Z_of_byte h) 4) in
      if decide (packetType = CONNECT) then omap_ok PConnect (coder_Unmarshal data)
      else if decide (packetType = CONNACK) then omap_ok PConnack (coder_Unmarshal data)
      else if decide (packetType = MESSAGE) then omap_ok PMessage (coder_Unmarshal data)
      else if decide (packetType = REQUEST) then omap_ok PRequest (coder_Unmarshal data)
      else if decide (packetType = RESPONSE) then omap_ok PResponse (coder_Unmarshal data)
      else if decide (packetType = PING) then omap_ok PPing (coder_Unmarshal data)
      else if decide (packetType = PONG) then omap_ok PPong (coder_Unmarshal data)
      else if decide (packetType = CLOSE) then omap_ok PClose (coder_Unmarshal data)
      else Err (EPacket ErrUnknownPacketType)
  end.

(** The two header bytes: how many length bytes follow, and the high bits of the length. *)
Definition header_info (header : bytes) : outcome error (Z * Z) :=
  match header with
  | h0 :: h1 :: _ =>
      Ok (Z.land (Z.shiftr (Z_of_byte h0) 2) 3,
          Z.lor (u64 (Z.shiftl (Z.land (Z_of_byte h0) 3) 8)) (Z_of_byte h1))
  | _ => Panic IndexRange
  end.

(** [for _, b := range bs { length = length<<8 | uint64(b) }]. *)
Definition extend_length (length : Z) (bs : bytes) : Z :=
  fold_left (λ length b, Z.lor (u64 (Z.shiftl length 8)) (Z_of_byte b)) bs length.

Definition lift {A} (m : outcome error A) : D A := λ d, (m, d).

Definition read_frame : D (bytes * bytes) :=
  header <-- ReadBytes 2;
  info <-- lift (header_info header);
  let '(byteCount, length) := (info : Z * Z) in
  length <-- (if 0 <? byteCount then
                bs <-- ReadBytes byteCount; dret (extend_length length bs)
              else dret length);
  data <-- (if 0 <? length then ReadBytes length else dret []);
  dret (header, data).

Definition Unmarshal (bs : bytes) : outcome error Packet :=
  match read_frame (NewDecoder bs) with
  | (Ok (header, data), _) => unpack header data
  | (Err e, _) => Err e
  | (Panic p, _) => Panic p
  end.
End codecs.

(** ** Message kinds *)

(** The UTF-8 encodings of the characters [unicode.IsSpace] accepts. *)
Definition space_encodings : list bytes :=
  [[x09]; [x0a]; [x0b]; [x0c]; [x0d]; [x20]; [xc2; x85]; [xc2; xa0]; [xe1; x9a; x80];
   [xe2; x80; x80]; [xe2; x80; x81]; [xe2; x80; x82]; [xe2; x80; x83]; [xe2; x80; x84];
   [xe2; x80; x85]; [xe2; x80; x86]; [xe2; x80; x87]; [xe2; x80; x88]; [xe2; x80; x89];
   [xe2; x80; x8a]; [xe2; x80; xa8]; [xe2; x80; xa9]; [xe2; x80; xaf]; [xe2; x81; x9f];
   [xe3; x80; x80]].

(** The bytes after a prefix, when the list starts with it. *)
Fixpoint strip_prefix (p l : bytes) : option bytes :=
  match p, l with
  | [], _ => Some l
  | b :: p, c :: l => if decide (b = c) then strip_prefix p l else None
  | _ :: _, [] => None
  end.

Fixpoint strip_one (encs : list bytes) (l : bytes) : option bytes :=
  match encs with
  | [] => None
  | e :: encs => match strip_prefix e l with Some r => Some r | None => strip_one encs l end
  end.

(** One character is removed per step; a character is at least one byte. *)
Fixpoint trim_left (fuel : nat) (encs : list bytes) (l : bytes) : bytes :=
  match fuel with
  | O => l
  | S fuel => match strip_one encs l with Some r => trim_left fuel encs r | None => l end
  end.

(** [strings.TrimSpace]. *)
Definition TrimSpace (l : bytes) : bytes :=
  let l := trim_left (length l) space_encodings l in
  reverse (trim_left (length l) (reverse <$> space_encodings) (reverse l)).

Definition digit_value (b : byte) : option Z :=
  let v := Z_of_byte b - 48 in if (0 <=? v) && (v <=? 9) then Some v else None.

Fixpoint parse_digits (acc : Z) (l : bytes) : option Z :=
  match l with
  | [] => Some acc
  | b :: l => match digit_value b with Some v => parse_digits (acc * 10 + v) l | None => None end
  end.

(** [strconv.ParseInt(s, 10, 32)]: an optional sign, at least one digit, in the int32 range. *)
Definition ParseInt32 (l : bytes) : option Z :=
  let '(neg, ds) :=
    match l with x2b :: ds => (false, ds) | x2d :: ds => (true, ds) | _ => (false, l) end in
  match ds with
  | [] => None
  | _ => match parse_digits 0 ds with
         | None => None
         | Some n =>
             let v := if neg then - n else n in
             if bool_decide (inS 32 v) then Some v else None
         end
  end.

Definition ParseKind (k : string) : outcome error uint8 :=
  let k := TrimSpace (bytes_of_string k) in
  let err := EOther ("invalid message kind: " +:+ string_of_bytes k) in
  match ParseInt32 k with
  | None => Err err
  | Some i => if (i <? 0) || (0xff <? i) then Err err else Ok (byte_of i)
  end.

(** ** Well-formed packets and the bytes of their bodies *)
Definition props_wf (m : props) : Prop := Z.of_nat (size m) < 256 ∧ short_map m.

#[export] Instance props_wf_dec m : Decision (props_wf m).
Proof. unfold props_wf. apply _. Defined.

Definition Identity_wf (i : Identity) : Prop :=
  short_string (UserID i) ∧ short_string (ClientID i) ∧ short_string (Password i).

#[export] Instance Identity_wf_dec i : Decision (Identity_wf i).
Proof. unfold Identity_wf. apply _. Defined.

Definition enc_props `{!GoRange uint8} (m : props) : bytes :=
  byte_of (Z.of_nat (size m)) :: concat (enc_u8_entry <$> go_range m).

Definition enc_identity (i : Identity) : bytes :=
  enc_string (UserID i) ++ enc_string (ClientID i) ++ enc_string (Password i).

(** What [Marshal] needs of a packet: a non-nil identity, fewer than 256 properties, a request
    identifier of 16 bits. *)
Definition Packet_wf (p : Packet) : Prop :=
  props_wf (packet_props p) ∧
  match p with
  | PConnect p => match connect_Identity p with Some i => Identity_wf i | None => False end
  | PRequest p => inU 16 (request_ID p) ∧ short_string (Method p)
  | PResponse p => inU 16 (response_id p)
  | _ => True
  end.

#[export] Instance Packet_wf_dec p : Decision (Packet_wf p).
Proof.
  unfold Packet_wf. apply and_dec; [apply _|].
  destruct p as [c|?|?|?|?|?|?|?]; try apply _. destruct (connect_Identity c); apply _.
Defined.

Lemma dbind_assoc {A B C} (m : D A) (f : A → D B) (g : B → D C) d :
  dbind (dbind m f) g d = dbind m (λ a, dbind (f a) g) d.
Proof. unfold dbind. destruct (m d) as [[a|e|p] d']; done. Qed.

Section laws.
Context `{!GoRange uint8}.
Implicit Types (m : props).

Lemma write_props m e : props_wf m →
  props_WriteTo m e = Ok (mkEncoder (ebuf e ++ enc_props m)).
Proof.
  intros [? ?]. unfold props_WriteTo, enc_props. f_equal.
  rewrite <-ebuf_WriteUInt8Map by done. by destruct (WriteUInt8Map e m).
Qed.

Lemma read_props m : props_wf m → reads props_ReadFrom (enc_props m) m.
Proof. intros [? ?]. by apply reads_ReadUInt8Map. Qed.

Lemma write_identity i e : Identity_wf i →
  Identity_WriteTo (Some i) e = Ok (mkEncoder (ebuf e ++ enc_identity i)).
Proof.
  intros (? & ? & ?). unfold Identity_WriteTo, enc_identity.
  rewrite !write_string by done. simpl. by rewrite <-!app_assoc.
Qed.

Lemma read_identity i : Identity_wf i → reads Identity_ReadFrom (enc_identity i) i.
Proof.
  intros (? & ? & ?). destruct i as [u c p]; simpl in *.
  apply (reads_dbind _ _ _ _ _ _ (reads_ReadString u ltac:(done))).
  apply (reads_dbind _ _ _ _ _ _ (reads_ReadString c ltac:(done))).
  apply (reads_bind_ret _ (λ p, mkIdentity u c p)). by apply reads_ReadString.
Qed.

#[export] Program Instance Connect_laws : CodableLaws Connect := {|
  enc_wf p := Packet_wf (PConnect p);
  enc_of p := [Version p] ++ match connect_Identity p with
                             | Some i => enc_identity i | None => [] end ++
              enc_props (connect_props p) |}.
Next Obligation.
  intros [m v [i|]] e [Hm Hi]; simpl in *; [|done].
  unfold WriteTo; simpl. unfold Connect_WriteTo. simpl connect_Identity.
  rewrite write_identity by done. cbn [obind]. rewrite write_props by done.
  simpl. by rewrite <-!app_assoc.
Qed.
Next Obligation.
  intros [m v [i|]] [Hm Hi]; simpl in *; [|done]. apply reads_end_of_reads.
  apply (reads_dbind _ _ [v] _ _ _ (reads_ReadUInt8 v)).
  apply (reads_dbind _ _ _ _ _ _ (read_identity i Hi)).
  apply (reads_bind_ret _ (λ m, mkConnect m v (Some i))), read_props, Hm.
Qed.

(** Types whose body is a code byte followed by the properties. *)
Lemma read_code_props {A} (k : uint8 → props → A) c m : props_wf m →
  reads_end (code <-- ReadUInt8; m <-- props_ReadFrom; dret (k code m)) (c :: enc_props m)
    (k c m).
Proof.
  intros Hm. apply reads_end_of_reads.
  apply (reads_dbind _ _ [c] _ _ _ (reads_ReadUInt8 c)).
  apply (reads_bind_ret _ (k c)), read_props, Hm.
Qed.

(** Bodies that end with the properties and a payload taking the rest. *)
Lemma read_props_all {A} (k : props → bytes → A) m bs : props_wf m →
  reads_end (m <-- props_ReadFrom; b <-- ReadAll; dret (k m b)) (enc_props m ++ bs) (k m bs).
Proof.
  intros Hm. eapply reads_reads_end; [apply read_props, Hm|].
  apply (reads_end_ret _ (k m)), reads_end_ReadAll.
Qed.

#[export] Program Instance Connack_laws : CodableLaws Connack := {|
  enc_wf p := Packet_wf (PConnack p);
  enc_of p := connack_Code p :: enc_props (connack_props p) |}.
Next Obligation.
  intros [m c] e [Hm _]; simpl in *. unfold WriteTo; simpl. unfold Connack_WriteTo.
  rewrite write_props by done. simpl. by rewrite <-app_assoc.
Qed.
Next Obligation. intros [m c] [Hm _]. by apply (read_code_props (λ c m, mkConnack m c)). Qed.

#[export] Program Instance Close_laws : CodableLaws Close := {|
  enc_wf p := Packet_wf (PClose p);
  enc_of p := close_Code p :: enc_props (close_props p) |}.
Next Obligation.
  intros [m c] e [Hm _]; simpl in *. unfold WriteTo; simpl. unfold Close_WriteTo.
  rewrite write_props by done. simpl. by rewrite <-app_assoc.
Qed.
Next Obligation. intros [m c] [Hm _]. by apply (read_code_props (λ c m, mkClose m c)). Qed.

#[export] Program Instance Message_laws : CodableLaws Message := {|
  enc_wf p := Packet_wf (PMessage p);
  enc_of p := [Kind p] ++ enc_props (message_props p) ++ Payload p |}.
Next Obligation.
  intros [m k b] e [Hm _]; simpl in *. unfold WriteTo; simpl. unfold Message_WriteTo.
  rewrite write_props by done. simpl. unfold WriteBytes; simpl. by rewrite <-!app_assoc.
Qed.
Next Obligation.
  intros [m k b] [Hm _]. eapply (reads_reads_end _ _ [k]); [apply reads_ReadUInt8|].
  by apply (read_props_all (λ m b, mkMessage m k b)).
Qed.

#[export] Program Instance Request_laws : CodableLaws Request := {|
  enc_wf p := Packet_wf (PRequest p);
  enc_of p := be_bytes 2 (request_ID p) ++ enc_string (Method p) ++
              enc_props (request_props p) ++ request_Body p |}.
Next Obligation.
  intros [m i s b] e (Hm & Hi & Hs); simpl in *. unfold WriteTo; simpl. unfold Request_WriteTo.
  simpl Method. rewrite write_string by done. rewrite write_props by done.
  unfold WriteBytes, WriteUInt16; simpl. by rewrite <-!app_assoc.
Qed.
Next Obligation.
  intros [m i s b] (Hm & Hi & Hs).
  cbn [ReadFrom Request_Codable request_ID Method request_props request_Body] in *.
  unfold Request_ReadFrom.
  eapply reads_reads_end; [by apply reads_ReadUInt16|].
  eapply reads_reads_end; [by apply reads_ReadString|].
  by apply (read_props_all (λ m b, mkRequest m i s b)).
Qed.

#[export] Program Instance Response_laws : CodableLaws Response := {|
  enc_wf p := Packet_wf (PResponse p);
  enc_of p := be_bytes 2 (response_id p) ++ [response_Code p] ++
              enc_props (response_props p) ++ response_Body p |}.
Next Obligation.
  intros [m i c b] e (Hm & Hi); simpl in *. unfold WriteTo; simpl. unfold Response_WriteTo.
  rewrite write_props by done.
  unfold WriteBytes, WriteUInt8, WriteUInt16; simpl. by rewrite <-!app_assoc.
Qed.
Next Obligation.
  intros [m i c b] (Hm & Hi).
  cbn [ReadFrom Response_Codable response_id response_Code response_props response_Body] in *.
  unfold Response_ReadFrom.
  eapply reads_reads_end; [by apply reads_ReadUInt16|].
  eapply (reads_reads_end _ _ [c]); [apply reads_ReadUInt8|].
  by apply (read_props_all (λ m b, mkResponse m i c b)).
Qed.

#[export] Program Instance ping_laws : CodableLaws ping := {|
  enc_wf p := Packet_wf (PPing p); enc_of p := enc_props (ping_props p) |}.
Next Obligation. intros [m] e [Hm _]. by apply write_props. Qed.
Next Obligation.
  intros [m] [Hm _]. apply reads_end_of_reads, (reads_bind_ret _ mkPing), read_props, Hm.
Qed.

#[export] Program Instance pong_laws : CodableLaws pong := {|
  enc_wf p := Packet_wf (PPong p); enc_of p := enc_props (pong_props p) |}.
Next Obligation. intros [m] e [Hm _]. by apply write_props. Qed.
Next Obligation.
  intros [m] [Hm _]. apply reads_end_of_reads, (reads_bind_ret _ mkPong), read_props, Hm.
Qed.

(** The bytes of the body of any packet. *)
Definition packet_body (p : Packet) : bytes :=
  match p with
  | PConnect p => enc_of p
  | PConnack p => enc_of p
  | PMessage p => enc_of p
  | PRequest p => enc_of p
  | PResponse p => enc_of p
  | PPing p => enc_of p
  | PPong p => enc_of p
  | PClose p => enc_of p
  end.

Lemma Packet_WriteTo_body p e : Packet_wf p →
  Packet_WriteTo p e = Ok (mkEncoder (ebuf e ++ packet_body p)).
Proof. intros Hp. destruct p; by apply write_enc. Qed.
End laws.

(** ** The frame header *)

(** The header of a body of [n] bytes: type and number of length bytes in the first byte, the
    length in 10, 18, 26 or 34 bits, most significant first. *)
Definition frame_header (t : uint8) (n : Z) : bytes :=
  let h k hi := byte_of (16 * Z_of_byte t + 4 * k + hi) in
  if n <=? MID_LEN_1 then [h 0 (n / 256); byte_of n]
  else if n <=? MID_LEN_2 then [h 1 (n / 65536); byte_of (n / 256); byte_of n]
  else if n <=? MID_LEN_3 then
    [h 2 (n / 16777216); byte_of (n / 65536); byte_of (n / 256); byte_of n]
  else [h 3 (n / 4294967296); byte_of (n / 16777216); byte_of (n / 65536); byte_of (n / 256);
        byte_of n].

(** The frame [Marshal] produces. *)
Definition frame `{!GoRange uint8} (p : Packet) : bytes :=
  frame_header (Packet_Type p) (zlen (packet_body p)) ++ packet_body p.

(** Arithmetic on the first header byte, checked on all its 16 * 4 * 4 values. *)
Lemma header_fields t k hi : 0 <= t < 16 → 0 <= k < 4 → 0 <= hi < 4 →
  Z.lor (Z.lor (u8 (Z.shiftl t 4)) (Z.shiftl k 2)) (u8 hi) = 16 * t + 4 * k + hi ∧
  Z.land (Z.shiftr (16 * t + 4 * k + hi) 2) 3 = k ∧
  Z.land (16 * t + 4 * k + hi) 3 = hi ∧
  Z.shiftr (16 * t + 4 * k + hi) 4 = t.
Proof.
  intros Ht Hk Hhi.
  pose (ok := λ t k hi : Z,
    (Z.lor (Z.lor (u8 (Z.shiftl t 4)) (Z.shiftl k 2)) (u8 hi) =? 16 * t + 4 * k + hi) &&
    (Z.land (Z.shiftr (16 * t + 4 * k + hi) 2) 3 =? k) &&
    (Z.land (16 * t + 4 * k + hi) 3 =? hi) &&
    (Z.shiftr (16 * t + 4 * k + hi) 4 =? t)).
  assert (forallb (λ t, forallb (λ k, forallb (ok t k) (seqZ 0 4)) (seqZ 0 4)) (seqZ 0 16) = true)
    as Hall by (vm_compute; done).
  assert (∀ (f : Z → bool) n z, forallb f (seqZ 0 n) = true → 0 <= z < n → f z = true) as Hf.
  { intros f n z Hfa Hz. apply Is_true_eq_left in Hfa. rewrite forallb_True in Hfa.
    rewrite Forall_forall in Hfa. apply Is_true_eq_true, Hfa, elem_of_seqZ. lia. }
  apply (Hf _ _ t) in Hall; [|lia]. apply (Hf _ _ k) in Hall; [|lia].
  apply (Hf _ _ hi) in Hall; [|lia]. unfold ok in Hall.
  rewrite !andb_true_iff, !Z.eqb_eq in Hall. intuition.
Qed.

Lemma header_info_spec t k hi h1 : 0 <= t < 16 → 0 <= k < 4 → 0 <= hi < 4 →
  header_info [byte_of (16 * t + 4 * k + hi); h1] = Ok (k, hi * 256 + Z_of_byte h1).
Proof.
  intros Ht Hk Hhi. destruct (header_fields t k hi Ht Hk Hhi) as (_ & H1 & H2 & _).
  unfold header_info. rewrite Z_of_byte_of, wrapU_id by (unfold inU; lia).
  rewrite H1, H2. rewrite wrapU_id by (rewrite Z.shiftl_mul_pow2 by lia; unfold inU; lia).
  by rewrite lor_shiftl8.
Qed.

Lemma extend_length_cons l b bs : 0 <= l < 2 ^ 40 →
  extend_length l (b :: bs) = extend_length (l * 256 + Z_of_byte b) bs.
Proof.
  intros Hl. unfold extend_length. cbn [fold_left]. f_equal.
  rewrite wrapU_id by (rewrite Z.shiftl_mul_pow2 by lia; unfold inU; lia).
  apply lor_shiftl8.
Qed.

Lemma reads_lift {A} (a : A) : reads (lift (Ok a)) [] a.
Proof. intros pre post _. unfold lift. by rewrite zlen_nil, Z.add_0_r. Qed.

(** Reading the extra length bytes. *)
Lemma reads_extension k l ext n : zlen ext = k → extend_length l ext = n →
  reads (if 0 <? k then bs <-- ReadBytes k; dret (extend_length l bs) else dret l) ext n.
Proof.
  intros <- <-. destruct (Z.ltb_spec 0 (zlen ext)).
  - apply (reads_bind_ret _ (extend_length l)), reads_ReadBytes.
  - destruct ext as [|b ext]; [apply reads_dret|].
    rewrite zlen_cons in *. pose proof (zlen_nonneg ext). lia.
Qed.

(** Reading a frame given its header bytes. *)
Lemma reads_frame t k hi h1 ext body : 0 <= t < 16 → 0 <= k < 4 → 0 <= hi < 4 →
  zlen ext = k → extend_length (hi * 256 + Z_of_byte h1) ext = zlen body →
  reads read_frame ([byte_of (16 * t + 4 * k + hi); h1] ++ ext ++ body)
    ([byte_of (16 * t + 4 * k + hi); h1], body).
Proof.
  intros Ht Hk Hhi Hext Hlen. set (h0 := byte_of _). unfold read_frame.
  apply (reads_dbind _ _ _ _ _ _ (reads_ReadBytes [h0; h1])).
  apply (reads_dbind _ _ [] _ (k, hi * 256 + Z_of_byte h1)).
  { unfold h0. rewrite header_info_spec by done. apply reads_lift. }
  cbv beta iota.
  apply (reads_dbind _ _ ext _ (zlen body)); [by apply reads_extension|].
  apply (reads_bind_ret _ (pair [h0; h1])). pose proof (zlen_nonneg body).
  destruct (Z.ltb_spec 0 (zlen body)); [apply reads_ReadBytes|].
  destruct body as [|b body]; [apply reads_dret|].
  rewrite zlen_cons in *. pose proof (zlen_nonneg body). lia.
Qed.

Lemma Packet_Type_small p : 0 <= Z_of_byte (Packet_Type p) < 8.
Proof. destruct p; vm_compute; intuition discriminate. Qed.

Lemma frame_header_split t n : 0 <= Z_of_byte t < 8 → 0 <= n <= MAX_LEN →
  ∃ k hi h1 ext, 0 <= k < 4 ∧ 0 <= hi < 4 ∧ zlen ext = k ∧
    extend_length (hi * 256 + Z_of_byte h1) ext = n ∧
    frame_header t n = [byte_of (16 * Z_of_byte t + 4 * k + hi); h1] ++ ext.
Proof.
  intros Ht Hn. unfold frame_header, MID_LEN_1, MID_LEN_2, MID_LEN_3, MAX_LEN in *.
  assert (∀ z, Z_of_byte (byte_of z) = z mod 256) as Hb by (intros; apply Z_of_byte_of).
  pose proof (λ z, Z.mod_pos_bound z 256 ltac:(lia)) as Hm.
  destruct (Z.leb_spec n 0x3ff).
  { exists 0, (n / 256), (byte_of n), []. split_and!; try done; try dlia.
    unfold extend_length. cbn [fold_left]. rewrite Hb. dlia. }
  destruct (Z.leb_spec n 0x3ffff).
  { exists 1, (n / 65536), (byte_of (n / 256)), [byte_of n].
    split_and!; try done; try dlia. rewrite Hb.
    rewrite extend_length_cons by dlia. unfold extend_length. cbn [fold_left].
    rewrite Hb. dlia. }
  destruct (Z.leb_spec n 0x3ffffff).
  { exists 2, (n / 16777216), (byte_of (n / 65536)), [byte_of (n / 256); byte_of n].
    split_and!; try done; try dlia. rewrite Hb.
    rewrite !extend_length_cons by (rewrite ?Hb; dlia). unfold extend_length. cbn [fold_left].
    rewrite !Hb. dlia. }
  exists 3, (n / 4294967296), (byte_of (n / 16777216)),
    [byte_of (n / 65536); byte_of (n / 256); byte_of n].
  split_and!; try done; try dlia. rewrite Hb.
  rewrite !extend_length_cons by (rewrite ?Hb; dlia). unfold extend_length. cbn [fold_left].
  rewrite !Hb. dlia.
Qed.

(** [Marshal] writes the header into the five bytes reserved in front of the body. *)
Lemma put_header_byte t k n s : 0 <= t < 8 → 0 <= k < 4 → 0 <= s → 0 <= n / 2 ^ s < 4 →
  byte_of (Z.lor (Z.lor (u8 (Z.shiftl t 4)) (Z.shiftl k 2)) (u8 (Z.shiftr n s))) =
    byte_of (16 * t + 4 * k + n / 2 ^ s).
Proof.
  intros Ht Hk Hs Hn. rewrite Z.shiftr_div_pow2 by done.
  by destruct (header_fields t k (n / 2 ^ s)) as [-> _]; [lia..|].
Qed.

Lemma put_header_spec t body : 0 <= Z_of_byte t < 8 →
  put_header t (replicate 5 x00 ++ body) =
    if zlen body <=? MAX_LEN then Ok (frame_header t (zlen body) ++ body)
    else Err (EPacket ErrPacketSizeTooLarge).
Proof.
  intros Ht. unfold put_header, set_byte. rewrite zlen_app. change (zlen (replicate 5 x00)) with 5.
  replace (5 + zlen body - 5) with (zlen body) by lia. pose proof (zlen_nonneg body) as Hn.
  set (n := zlen body) in *. unfold frame_header, MID_LEN_1, MID_LEN_2, MID_LEN_3, MAX_LEN.
  pose proof (λ s Hs, Z.shiftr_div_pow2 n s Hs) as Hsh.
  destruct (Z.leb_spec n 0x3ff).
  { destruct (Z.leb_spec n 0x3ffffffff); [|lia].
    pose proof (put_header_byte (Z_of_byte t) 0 n 8) as Hb.
    change (Z.shiftl 0 2) with 0 in Hb. rewrite Z.lor_0_r in Hb.
    rewrite Hb by (change (2 ^ 8) with 256; dlia). done. }
  destruct (Z.leb_spec n 0x3ffff).
  { destruct (Z.leb_spec n 0x3ffffffff); [|lia].
    rewrite put_header_byte by (change (2 ^ 16) with 65536; dlia).
    rewrite !Hsh by lia. done. }
  destruct (Z.leb_spec n 0x3ffffff).
  { destruct (Z.leb_spec n 0x3ffffffff); [|lia].
    rewrite put_header_byte by (change (2 ^ 24) with 16777216; dlia).
    rewrite !Hsh by lia. done. }
  destruct (Z.leb_spec n 0x3ffffffff); [|done].
  rewrite put_header_byte by (change (2 ^ 32) with 4294967296; dlia).
  rewrite !Hsh by lia. done.
Qed.

Lemma zlen_frame_header t n : 2 <= zlen (frame_header t n) <= 5.
Proof. unfold frame_header. repeat case_match_go; vm_compute; intuition discriminate. Qed.

Section framing.
Context `{!GoRange uint8}.

(** The frame of a packet, when it has one. *)
Definition Marshal_spec (p : Packet) : outcome error bytes :=
  if zlen (packet_body p) <=? MAX_LEN then Ok (frame p) else Err (EPacket ErrPacketSizeTooLarge).

Lemma Marshal_ok choice pool p : pool_wf pool → Packet_wf p →
  fst (Marshal choice pool p) = Marshal_spec p ∧ pool_wf (snd (Marshal choice pool p)).
Proof.
  intros Hpool Hp. destruct (NewEncoder_spec choice pool Hpool) as [E Hpool'].
  unfold Marshal. destruct (NewEncoder choice pool) as [e pool1]. simpl in E, Hpool'. subst e.
  rewrite Packet_WriteTo_body by done. cbn [Pick fst snd ebuf WriteBytes app].
  split; [|by apply pool_wf_free].
  apply put_header_spec, Packet_Type_small.
Qed.

Lemma read_frame_frame p post : zlen (packet_body p) <= MAX_LEN → zlen post < 2 ^ 62 →
  ∃ h0 h1 d', read_frame (NewDecoder (frame p ++ post)) = (Ok ([h0; h1], packet_body p), d') ∧
    byte_of (Z.shiftr (Z_of_byte h0) 4) = Packet_Type p.
Proof.
  intros Hlen Hpost. pose proof (Packet_Type_small p) as Ht.
  destruct (frame_header_split (Packet_Type p) (zlen (packet_body p)))
    as (k & hi & h1 & ext & Hk & Hhi & Hext & Hl & E);
    [done|pose proof (zlen_nonneg (packet_body p)); lia|].
  pose proof (reads_frame (Z_of_byte (Packet_Type p)) k hi h1 ext (packet_body p)
    ltac:(lia) Hk Hhi Hext Hl [] post) as Hr.
  unfold frame. rewrite E. eexists _, h1, _. split.
  - unfold NewDecoder. rewrite <-!app_assoc in *. apply Hr.
    change ([] ++ ?l) with l. rewrite !zlen_app in *. unfold MAX_LEN in *.
    rewrite Hext. change (zlen [_; h1]) with 2. lia.
  - rewrite Z_of_byte_of, wrapU_id by (unfold inU; lia).
    destruct (header_fields (Z_of_byte (Packet_Type p)) k hi) as (_ & _ & _ & ->); [lia..|].
    apply byte_of_Z_of_byte.
Qed.

Lemma unpack_body p h0 h1 : Packet_wf p → zlen (packet_body p) < 2 ^ 63 →
  byte_of (Z.shiftr (Z_of_byte h0) 4) = Packet_Type p →
  unpack [h0; h1] (packet_body p) = Ok p.
Proof.
  intros Hp Hl Ht. unfold unpack. cbn [lookup list_lookup]. rewrite Ht.
  destruct p as [p|p|p|p|p|p|p|p]; cbn [Packet_Type packet_body] in *;
    pose proof (coder_Unmarshal_enc p Hp Hl) as E; rewrite E; reflexivity.
Qed.

Lemma Unmarshal_frame p post : Packet_wf p → zlen (packet_body p) <= MAX_LEN →
  zlen post < 2 ^ 62 → Unmarshal (frame p ++ post) = Ok p.
Proof.
  intros Hp Hl Hpost. destruct (read_frame_frame p post Hl Hpost) as (h0 & h1 & d' & E & Ht).
  unfold Unmarshal. rewrite E. apply unpack_body; [done| |done].
  unfold MAX_LEN in Hl. lia.
Qed.
End framing.

(** A frame whose type nibble is not one of the eight types is rejected, and a decoded packet
    has the type its first byte announces. *)
Lemma unpack_type `{!GoRange uint8} header data p : unpack header data = Ok p →
  ∃ h, header !! 0%nat = Some h ∧ Packet_Type p = byte_of (Z.shiftr (Z_of_byte h) 4).
Proof.
  unfold unpack. destruct (header !! 0%nat) as [h|]; [|done]. intros Hu. exists h. split; [done|].
  revert Hu. unfold omap_ok, obind.
  repeat match goal with
         | |- context [decide ?P] =>
             destruct (decide P) as [Et|?];
             [destruct (coder_Unmarshal data); intros [= <-]; by rewrite Et|]
         end.
  done.
Qed.

Lemma ReadBytes_header bs header d' : ReadBytes 2 (NewDecoder bs) = (Ok header, d') →
  header = take 2 bs.
Proof.
  unfold ReadBytes, NewDecoder, slice. simpl pos; simpl dbuf. change (u64 (0 + 2)) with 2.
  cbn [Z.eqb]. destruct (Z.ltb_spec (zlen bs) 2); [done|].
  destruct (Z.leb_spec 2 (zlen bs)); [|lia]. cbn. by intros [= <- _].
Qed.

Lemma read_frame_header bs header data d' : read_frame (NewDecoder bs) = (Ok (header, data), d') →
  header = take 2 bs.
Proof.
  unfold read_frame. unfold dbind at 1.
  destruct (ReadBytes 2 (NewDecoder bs)) as [[hd|e|w] d1] eqn:E; [|done|done].
  apply ReadBytes_header in E. subst hd. unfold dbind, lift, dret.
  repeat (case_match_go; try done). by intros [= <- _ _].
Qed.

(** ** Properties of the packet layer *)

(** C2 (frame round trip): a well-formed packet whose body fits the 34-bit length is marshalled,
    through any pooled encoder and for any iteration order over its properties, into one frame,
    and [Unmarshal] recovers the same packet from that frame whatever bytes follow it. *)
Theorem Marshal_Unmarshal `{!GoRange uint8} choice pool p post :
  pool_wf pool → Packet_wf p → zlen (packet_body p) <= MAX_LEN → zlen post < 2 ^ 62 →
  ∃ bs pool', Marshal choice pool p = (Ok bs, pool') ∧ pool_wf pool' ∧
    Unmarshal (bs ++ post) = Ok p.
Proof.
  intros Hpool Hp Hl Hpost. destruct (Marshal_ok choice pool p Hpool Hp) as [E Hpool'].
  unfold Marshal_spec in E. destruct (Z.leb_spec (zlen (packet_body p)) MAX_LEN); [|lia].
  destruct (Marshal choice pool p) as [m pool']. simpl in *. subst m.
  exists (frame p), pool'. split_and!; [done|done|]. by apply Unmarshal_frame.
Qed.

Definition sample_connect : Packet :=
  Packet_Set (PConnect (NewConnect (Some (mkIdentity "alice" "phone" "secret"))))
    PropertyChannel "news".

Lemma Marshal_Unmarshal_witness :
  ∃ bs pool', @Marshal range_backward 0 [mkEncoder []] sample_connect = (Ok bs, pool') ∧
    pool_wf pool' ∧ @Unmarshal range_backward (bs ++ [xff]) = Ok sample_connect.
Proof.
  apply (@Marshal_Unmarshal range_backward); [by repeat constructor|vm_decide..].
Defined.

(** Frame format: [Marshal] fails with ErrPacketSizeTooLarge exactly when the body is
    longer than 2^34 - 1 bytes; otherwise the frame is the body behind a header of two to five
    bytes, two exactly for bodies up to 1023 bytes. *)
Theorem Marshal_frame `{!GoRange uint8} choice pool p :
  pool_wf pool → Packet_wf p →
  (fst (Marshal choice pool p) = Err (EPacket ErrPacketSizeTooLarge) ↔
     MAX_LEN < zlen (packet_body p)) ∧
  (zlen (packet_body p) <= MAX_LEN →
     ∃ header, fst (Marshal choice pool p) = Ok (header ++ packet_body p) ∧
       2 <= zlen header <= 5 ∧ (zlen header = 2 ↔ zlen (packet_body p) <= MID_LEN_1)).
Proof.
  intros Hpool Hp. destruct (Marshal_ok choice pool p Hpool Hp) as [-> _]. unfold Marshal_spec.
  destruct (Z.leb_spec (zlen (packet_body p)) MAX_LEN) as [Hl|Hl].
  - split; [split; [done|lia]|]. intros _. exists (frame_header (Packet_Type p) (zlen (packet_body p))).
    split_and!; [done|apply zlen_frame_header..|]. unfold frame_header.
    destruct (Z.leb_spec (zlen (packet_body p)) MID_LEN_1); [done|].
    destruct (_ <=? _); [split; [done|lia]|]. destruct (_ <=? _); (split; [done|lia]).
  - split; [done|lia].
Qed.

Lemma Marshal_frame_witness :
  (fst (@Marshal range_forward 0 [] (PClose (NewClose CloseKickedOut))) =
     Err (EPacket ErrPacketSizeTooLarge) ↔
     MAX_LEN < zlen (@packet_body range_forward (PClose (NewClose CloseKickedOut)))) ∧
  pool_wf [].
Proof.
  split; [|by constructor].
  apply (@Marshal_frame range_forward 0 [] (PClose (NewClose CloseKickedOut)));
    [by constructor|vm_decide].
Defined.

(** Whatever the bytes, a packet [Unmarshal] returns has the type of the
    high half of the first byte; a first byte of 0x80 or more is never accepted. *)
Theorem Unmarshal_type `{!GoRange uint8} bs p :
  Unmarshal bs = Ok p →
  ∃ h rest, bs = h :: rest ∧ Packet_Type p = byte_of (Z.shiftr (Z_of_byte h) 4) ∧
    Z_of_byte h < 128.
Proof.
  unfold Unmarshal. destruct (read_frame _) as [[[header data]|e|w] d'] eqn:E; [|done|done].
  apply read_frame_header in E. subst header. intros Hu.
  apply unpack_type in Hu as (h & Hh & Ht). destruct bs as [|h' rest]; [done|].
  injection Hh as ->. exists h, rest. split_and!; [done|done|].
  pose proof (Packet_Type_small p) as Hs. rewrite Ht, Z_of_byte_of in Hs.
  pose proof (Z_of_byte_range h) as Hr. unfold inU in Hr.
  rewrite Z.shiftr_div_pow2 in Hs by lia. change (2 ^ 4) with 16 in Hs. change (2 ^ 8) with 256 in Hr.
  rewrite wrapU_id in Hs by (unfold inU; change (2 ^ 8) with 256; dlia). dlia.
Qed.

Lemma Unmarshal_type_witness :
  ∃ h rest, [x70; x02; x01; x00] = h :: rest ∧
    Packet_Type (PClose (NewClose CloseKickedOut)) = byte_of (Z.shiftr (Z_of_byte h) 4) ∧
    Z_of_byte h < 128.
Proof. apply (@Unmarshal_type range_forward). by vm_compute. Defined.

(** The body of a CONNECT packet that announces a user id of 2^64 - 1 bytes. *)
Definition crash_body (v : uint8) (rest : bytes) : bytes := [v] ++ huge_length ++ rest.

Lemma read_huge_data (v : uint8) rest : zlen rest < 2 ^ 62 →
  ∃ d', ReadString (mkDecoder 1 (crash_body v rest)) = (Panic SliceBounds, d').
Proof.
  intros Hl. set (d := mkDecoder 1 (crash_body v rest)).
  pose proof (reads_ReadVarint (2 ^ 64 - 1) ltac:(done) [v] rest) as Hv.
  pose proof (zlen_nonneg rest).
  assert (ReadVarint d = (Ok (2 ^ 64 - 1), mkDecoder 11 (crash_body v rest))) as E.
  { apply Hv. rewrite !zlen_app. change (zlen (uvarint_groups 9 (2 ^ 64 - 1))) with 10.
    change (zlen [v]) with 1. lia. }
  unfold ReadString, ReadData, dbind. rewrite E. unfold ReadBytes. simpl pos; simpl dbuf.
  change (2 ^ 64 - 1 =? 0) with false. cbv iota.
  change (u64 (11 + (2 ^ 64 - 1))) with 10.
  destruct (Z.ltb_spec (zlen (crash_body v rest)) 10) as [Hc|_].
  { unfold crash_body in Hc. rewrite !zlen_app in Hc.
    change (zlen huge_length) with 10 in Hc. change (zlen [v]) with 1 in Hc. lia. }
  unfold slice. change (0 <=? 11) with true. change (11 <=? 10) with false. by eexists.
Qed.

(** A CONNECT frame that announces a user id of 2^64 - 1 bytes makes
    [Unmarshal] panic with a slice bounds error, whatever its version byte and trailing
    bytes; no error is returned to the caller. *)
Theorem Unmarshal_connect_panics `{!GoRange uint8} (v : uint8) (rest : bytes) :
  zlen rest < 1000 →
  Unmarshal (frame_header CONNECT (zlen (crash_body v rest)) ++ crash_body v rest) =
    Panic SliceBounds.
Proof.
  intros Hl. set (body := crash_body v rest). pose proof (zlen_nonneg rest).
  assert (zlen body = 11 + zlen rest) as Hb.
  { unfold body, crash_body. rewrite !zlen_app.
    change (zlen huge_length) with 10. change (zlen [v]) with 1. lia. }
  destruct (frame_header_split CONNECT (zlen body)) as (k & hi & h1 & ext & Hk & Hhi & Hext & He & E);
    [done|unfold MAX_LEN; lia|].
  pose proof (reads_frame 0 k hi h1 ext body ltac:(lia) Hk Hhi Hext He [] []) as Hr.
  rewrite E. unfold Unmarshal, NewDecoder. change (Z_of_byte CONNECT) with 0.
  rewrite <-!app_assoc in *. rewrite !app_nil_r in Hr. change ([] ++ ?l) with l in Hr.
  change (zlen (@nil byte)) with 0 in Hr. rewrite Hr.
  - unfold unpack. cbn [lookup list_lookup]. rewrite Z_of_byte_of.
    rewrite wrapU_id by (unfold inU; lia).
    destruct (header_fields 0 k hi) as (_ & _ & _ & ->); [lia..|].
    destruct (decide (byte_of 0 = CONNECT)) as [_|Hn]; [|by destruct Hn].
    unfold coder_Unmarshal, omap_ok. cbn [ReadFrom Connect_Codable].
    unfold Connect_ReadFrom, dbind at 1.
    pose proof (reads_ReadUInt8 v [] (huge_length ++ rest)) as H8.
    change ([] ++ [v] ++ huge_length ++ rest) with body in H8.
    change (zlen (@nil byte)) with 0 in H8. unfold NewDecoder. rewrite H8 by lia.
    destruct (read_huge_data v rest ltac:(lia)) as [d' Hs].
    unfold Identity_ReadFrom, dbind. change (0 + zlen [v]) with 1. fold body in Hs.
    by rewrite Hs.
  - rewrite !zlen_app, Hb, Hext.
    change (zlen [_; h1]) with 2. lia.
Qed.

Lemma Unmarshal_connect_panics_witness :
  @Unmarshal range_forward
    [x00; x0d; x01; xff; xff; xff; xff; xff; xff; xff; xff; xff; x01; x61; x62] =
    Panic SliceBounds.
Proof. exact (@Unmarshal_connect_panics range_forward x01 [x61; x62] ltac:(vm_compute; done)). Defined.

(** Equality: on well-formed packets the [Equal] methods return, and decide whether the
    packets are the same; [Set] then [Get] returns the value set and changes no other key. *)
Theorem Packet_Equal_decides (p q : Packet) :
  Packet_wf p → Packet_Equal p (Some q) = Ok (bool_decide (p = q)).
Proof.
  assert (∀ (P Q : Prop) `{!Decision P, !Decision Q}, (P ↔ Q) →
    Ok (E := error) (bool_decide P) = Ok (bool_decide Q)) as Hd.
  { intros P Q ? ? HPQ. f_equal. by apply bool_decide_ext. }
  intros [_ Hp].
  destruct p as [[m v [i|]]|p|p|p|p|p|p|p], q as [[m' v' j]|q|q|q|q|q|q|q]; try done;
    cbn [Packet_Equal]; try (rewrite bool_decide_eq_false_2 by congruence; done);
    cbn [Connack_Equal Message_Equal Request_Equal Response_Equal ping_Equal pong_Equal
         Close_Equal]; rewrite <-?bool_decide_and;
    try (destruct p, q; apply Hd; simpl; split; intros; destruct_and?; simplify_eq; auto).
  unfold Connect_Equal; simpl. rewrite <-bool_decide_and.
  case_bool_decide as Hv; [destruct Hv as [-> ->]|].
  - destruct j as [j|]; simpl; rewrite <-?bool_decide_and.
    + destruct i as [a b c], j as [a' b' c']; apply Hd; simpl; split; intros; destruct_and?; simplify_eq; auto.
    + by rewrite bool_decide_eq_false_2 by congruence.
  - rewrite bool_decide_eq_false_2 by naive_solver. done.
Qed.

Lemma Packet_Equal_decides_witness :
  Packet_Equal sample_connect (Some (PPing NewPing)) =
    Ok (bool_decide (sample_connect = PPing NewPing)).
Proof. apply Packet_Equal_decides. vm_decide. Defined.

(** The decimal form of a kind, as [strconv] prints it. *)
Definition print_kind (k : uint8) : string := pretty (Z_of_byte k).

(** Message kinds: every one of the 256 kinds is parsed from its decimal form, also when
    it is surrounded by white space; 256 and negative numbers are rejected.  The documented
    maximum of 63 is not enforced. *)
Theorem ParseKind_print :
  (∀ k, ParseKind (print_kind k) = Ok k ∧ ParseKind (" " +:+ print_kind k +:+ "  ") = Ok k) ∧
  (∃ e, ParseKind "256" = Err e) ∧ (∃ e, ParseKind "-1" = Err e) ∧ (∃ e, ParseKind "" = Err e).
Proof.
  split; [|split_and!; eexists; vm_compute; reflexivity].
  intros k. split; destruct k; vm_compute; reflexivity.
Qed.

(** The message kinds above 63 survive the wire (instance of the pool independence of
    [coder.Marshal] for the Message type). *)
Lemma Marshal_pool_independent_witness :
  ∃ bs p', @coder_Marshal Message (@Message_Codable range_forward) 0 [mkEncoder []]
      (mkMessage {[PropertyChannel := "news"]} xc8 [x01; x02]) = (Ok bs, p') ∧
    pool_wf p' ∧
    bs = @enc_of _ _ (@Message_laws range_forward)
      (mkMessage {[PropertyChannel := "news"]} xc8 [x01; x02]) ∧
    @coder_Unmarshal Message (@Message_Codable range_forward) bs =
      Ok (mkMessage {[PropertyChannel := "news"]} xc8 [x01; x02]).
Proof.
  apply (@Marshal_pool_independent _ _ (@Message_laws range_forward)).
  - by repeat constructor.
  - vm_decide.
  - vm_compute. done.
Defined.
