(* ===== verification/Stream.v ===== *)
(** * Packets over a byte stream (src/packet/packet.go, [ReadFrom] and [WriteTo])

    An [io.Reader] of a connection is modelled by the segments that will arrive, in order: one
    [Read] call returns bytes of the first segment only, at most as many as the buffer holds,
    and an exhausted reader returns [io.EOF].  This is the documented contract of [io.Reader]
    and the behaviour of a TCP or QUIC stream. *)
From S2P Require Import Prelude Errors Coder Packet.

(** The segments still to be read; none is empty. *)
Abbreviation reader := (list bytes).

Definition reader_wf (r : reader) : Prop := Forall (λ s, s ≠ []) r.

(** [r.Read(buf)] on a zeroed buffer of [n] bytes: the buffer afterwards, the number of bytes
    read and the reader. *)
Definition Read (n : nat) (r : reader) : outcome error (bytes * nat) * reader :=
  match r with
  | [] => (Err EEOF, [])
  | s :: r' =>
      let got := take n s in
      let rest := drop n s in
      (Ok (got ++ replicate (n - length got) x00, length got),
       if decide (rest = []) then r' else rest :: r')
  end.

(** [packet.ReadFrom]: the count [Read] returns is discarded. *)
Definition packet_ReadFrom `{!GoRange uint8} (r : reader) : outcome error Packet * reader :=
  match Read 2 r with
  | (Err e, r) => (Err e, r)
  | (Panic w, r) => (Panic w, r)
  | (Ok (header, _), r) =>
      match header_info header with
      | Err e => (Err e, r)
      | Panic w => (Panic w, r)
      | Ok (byteCount, length) =>
          let '(ext, r) :=
            if 0 <? byteCount then
              let '(m, r) := Read (Z.to_nat byteCount) r in (omap_ok fst m, r)
            else (Ok [], r) in
          match ext with
          | Err e => (Err e, r)
          | Panic w => (Panic w, r)
          | Ok bs =>
              let length := extend_length length bs in
              let '(data, r) :=
                if 0 <? length then
                  let '(m, r) := Read (Z.to_nat length) r in (omap_ok fst m, r)
                else (Ok [], r) in
              match data with
              | Err e => (Err e, r)
              | Panic w => (Panic w, r)
              | Ok data => (unpack header data, r)
              end
          end
      end
  end.

(** [packet.WriteTo]: [w.Write] appends to what was sent so far; its error is the parameter
    [werr], since a short write returns an error. *)
Definition packet_WriteTo `{!GoRange uint8} (choice : nat) (pool : enc_pool) (werr : option error)
    (sent : bytes) (p : Packet) : outcome error bytes * enc_pool :=
  match Marshal choice pool p with
  | (Ok data, pool) =>
      (match werr with None => Ok (sent ++ data) | Some e => Err e end, pool)
  | (Err e, pool) => (Err e, pool)
  | (Panic w, pool) => (Panic w, pool)
  end.

(** Reading packets until the reader fails, at most [n] of them. *)
Fixpoint read_packets `{!GoRange uint8} (n : nat) (r : reader) : list Packet * reader :=
  match n with
  | O => ([], r)
  | S n =>
      match packet_ReadFrom r with
      | (Ok p, r) => let '(ps, r) := read_packets n r in (p :: ps, r)
      | (_, r) => ([], r)
      end
  end.

(** The pieces in which a frame can be read by [packet.ReadFrom]: the two header bytes, the
    extra length bytes and the body, each delivered whole. *)
Definition segment (b : bytes) : reader := if decide (b = []) then [] else [b].

Definition frame_segments `{!GoRange uint8} (p : Packet) : reader :=
  let hd := frame_header (Packet_Type p) (zlen (packet_body p)) in
  segment (take 2 hd) ++ segment (drop 2 hd) ++ segment (packet_body p).

(** What arrives need not be these pieces one by one: [rd] is made of whole pieces when each of its
    segments is one or more of them.  Then no [Read] of [packet.ReadFrom] is cut short. *)
Definition made_of (rd pieces : reader) : Prop :=
  ∃ groups : list (list bytes), mjoin groups = pieces ∧ Forall (λ g, g ≠ []) groups ∧
    rd = mjoin (M:=list) <$> groups.

Section stream.
Context `{!GoRange uint8}.

Lemma Read_whole s r : s ≠ [] → Read (length s) (s :: r) = (Ok (s, length s), r).
Proof.
  intros Hs. unfold Read. rewrite firstn_all, drop_all, Nat.sub_diag.
  simpl. by rewrite app_nil_r.
Qed.

Lemma Read_two h0 h1 r : Read 2 ([h0; h1] :: r) = (Ok ([h0; h1], 2%nat), r).
Proof. by apply (Read_whole [h0; h1]). Qed.

Lemma Read_prefix s n r : s ≠ [] → (length s <= n)%nat →
  Read n (s :: r) = (Ok (s ++ replicate (n - length s) x00, length s), r).
Proof.
  intros Hs Hn. unfold Read. rewrite take_ge, drop_ge by done. by rewrite decide_True.
Qed.

Lemma made_of_refl pieces : made_of pieces pieces.
Proof.
  exists ((λ s, [s]) <$> pieces). split_and!.
  - induction pieces as [|s l IH]; [done|]. rewrite fmap_cons. simpl. by f_equal.
  - apply Forall_fmap, Forall_forall. by intros s _.
  - rewrite <-list_fmap_compose. symmetry. rewrite <-(list_fmap_id pieces) at 2. apply list_fmap_ext.
    intros _ s _. simpl. by rewrite app_nil_r.
Qed.

Lemma made_of_bytes rd pieces : made_of rd pieces → mjoin rd = mjoin pieces.
Proof.
  intros (gs & <- & _ & ->). induction gs as [|g gs IH]; [done|].
  change (mjoin g ++ mjoin (mjoin <$> gs) = mjoin (g ++ mjoin gs)). by rewrite join_app, IH.
Qed.

(** A [Read] of a whole piece. *)
Lemma Read_made_of s pieces rd : s ≠ [] → reader_wf pieces → made_of rd (s :: pieces) →
  ∃ rd', Read (length s) rd = (Ok (s, length s), rd') ∧ made_of rd' pieces.
Proof.
  intros Hs Hp (gs & E & Hg & ->). destruct gs as [|g gs]; [done|].
  apply Forall_cons in Hg as [Hg Hgs]. destruct g as [|s' g]; [done|].
  simpl in E. injection E as -> <-. rewrite fmap_cons. cbn [mjoin list_join].
  destruct g as [|s2 g].
  - rewrite app_nil_r, Read_whole by done. eexists. split; [done|]. by exists gs.
  - apply Forall_app in Hp as [Hp _]. apply Forall_cons in Hp as [H2 _].
    exists (mjoin (s2 :: g) :: (mjoin (M:=list) <$> gs)). split.
    + unfold Read. rewrite take_app_length, drop_app_length, Nat.sub_diag. simpl. rewrite app_nil_r.
      rewrite decide_False; [done|]. intros [? _]%app_nil. done.
    + exists ((s2 :: g) :: gs). split_and!; [done|by constructor|done].
Qed.

Lemma segment_wf b : reader_wf (segment b).
Proof. unfold segment. case_decide; [constructor|by repeat constructor]. Qed.

Lemma frame_segments_wf p : reader_wf (frame_segments p).
Proof. unfold frame_segments. repeat apply Forall_app_2; apply segment_wf. Qed.

Lemma segments_wf ps : reader_wf (mjoin (frame_segments <$> ps)).
Proof.
  induction ps as [|p ps IH]; [constructor|]. rewrite fmap_cons. cbn [mjoin list_join].
  apply Forall_app_2; [apply frame_segments_wf|done].
Qed.

(** The two header bytes of a frame with the extra length bytes behind them. *)
Lemma header_of_frame p : zlen (packet_body p) <= MAX_LEN →
  ∃ h0 h1 ext l, frame_header (Packet_Type p) (zlen (packet_body p)) = h0 :: h1 :: ext ∧
    header_info [h0; h1] = Ok (zlen ext, l) ∧
    extend_length l ext = zlen (packet_body p) ∧
    byte_of (Z.shiftr (Z_of_byte h0) 4) = Packet_Type p.
Proof.
  intros Hl. pose proof (Packet_Type_small p) as Ht.
  destruct (frame_header_split (Packet_Type p) (zlen (packet_body p)))
    as (k & hi & h1 & ext & Hk & Hhi & Hext & He & E);
    [done|pose proof (zlen_nonneg (packet_body p)); lia|].
  eexists _, h1, ext, _. split_and!; [exact E| |exact He|].
  - rewrite Hext. apply header_info_spec; lia.
  - rewrite Z_of_byte_of, wrapU_id by (unfold inU; lia).
    destruct (header_fields (Z_of_byte (Packet_Type p)) k hi) as (_ & _ & _ & ->); [lia..|].
    apply byte_of_Z_of_byte.
Qed.

(** An optional [Read] of a piece that may be empty. *)
Lemma Read_segment b pieces rd : reader_wf pieces → made_of rd (segment b ++ pieces) →
  ∃ rd', (if 0 <? zlen b then let '(m, r) := Read (Z.to_nat (zlen b)) rd in (omap_ok fst m, r)
          else (Ok (E := error) [], rd)) = (Ok b, rd') ∧ made_of rd' pieces.
Proof.
  intros Hp Hr. destruct b as [|x b]; [by exists rd|].
  destruct (Z.ltb_spec 0 (zlen (x :: b))) as [_|Hn]; [|rewrite zlen_cons in Hn; pose proof (zlen_nonneg b); lia].
  unfold segment in Hr. rewrite decide_False in Hr by done. rewrite to_nat_zlen.
  destruct (Read_made_of (x :: b) pieces rd) as (rd' & -> & Hr'); [done..|]. by exists rd'.
Qed.

Lemma ReadFrom_made_of p pieces rd : Packet_wf p → zlen (packet_body p) <= MAX_LEN → reader_wf pieces →
  made_of rd (frame_segments p ++ pieces) →
  ∃ rd', packet_ReadFrom rd = (Ok p, rd') ∧ made_of rd' pieces.
Proof.
  intros Hp Hl Hw Hr. destruct (header_of_frame p Hl) as (h0 & h1 & ext & l & E & Hi & He & Ht).
  unfold frame_segments in Hr. rewrite E in Hr. change (take 2 (h0 :: h1 :: ext)) with [h0; h1] in Hr.
  change (drop 2 (h0 :: h1 :: ext)) with ext in Hr. change (segment [h0; h1]) with [[h0; h1]] in Hr.
  rewrite <-!app_assoc in Hr. cbn [app] in Hr.
  assert (reader_wf (segment (packet_body p) ++ pieces)) as Hw1 by (apply Forall_app_2; [apply segment_wf|done]).
  assert (reader_wf (segment ext ++ segment (packet_body p) ++ pieces)) as Hw2 by (apply Forall_app_2; [apply segment_wf|done]).
  apply Read_made_of in Hr as (rd1 & E1 & Hr); [|done..].
  apply Read_segment in Hr as (rd2 & E2 & Hr); [|done]. apply Read_segment in Hr as (rd3 & E3 & Hr); [|done].
  exists rd3. split; [|done]. unfold packet_ReadFrom. change (Read 2) with (Read (length [h0; h1])).
  rewrite E1, Hi. cbv beta iota. rewrite E2, He, E3.
  rewrite unpack_body; [done|done| |done]. unfold MAX_LEN in Hl. lia.
Qed.

Lemma read_packets_made_of ps pieces rd :
  Forall (λ p, Packet_wf p ∧ zlen (packet_body p) <= MAX_LEN) ps → reader_wf pieces →
  made_of rd (mjoin (frame_segments <$> ps) ++ pieces) →
  ∃ rd', read_packets (length ps) rd = (ps, rd') ∧ made_of rd' pieces.
Proof.
  intros Hps Hw. revert rd. induction Hps as [|p ps [Hp Hl] _ IH]; intros rd Hr; [by exists rd|].
  rewrite fmap_cons in Hr. change (mjoin (?a :: ?l)) with (a ++ mjoin l) in Hr. rewrite <-app_assoc in Hr.
  apply ReadFrom_made_of in Hr as (rd1 & E1 & Hr); [|done|done|apply Forall_app_2; [apply segments_wf|done]].
  destruct (IH rd1 Hr) as (rd2 & E2 & Hr2). exists rd2. split; [|done].
  cbn [length read_packets]. by rewrite E1, E2.
Qed.

Lemma made_of_nil rd : made_of rd [] → rd = [].
Proof.
  intros (gs & E & Hg & ->). destruct gs as [|g gs]; [done|]. apply Forall_cons in Hg as [Hg _].
  apply app_nil in E as [-> _]. done.
Qed.

Lemma ReadFrom_segments p r : Packet_wf p → zlen (packet_body p) <= MAX_LEN →
  packet_ReadFrom (frame_segments p ++ r) = (Ok p, r).
Proof.
  intros Hp Hl. destruct (header_of_frame p Hl) as (h0 & h1 & ext & l & E & Hi & He & Ht).
  unfold frame_segments. rewrite E. change (take 2 (h0 :: h1 :: ext)) with [h0; h1].
  change (drop 2 (h0 :: h1 :: ext)) with ext. change (segment [h0; h1]) with [[h0; h1]].
  rewrite <-!app_assoc. cbn [app]. unfold packet_ReadFrom.
  rewrite Read_two, Hi. cbv beta iota.
  assert (∀ b r, (if 0 <? zlen b then
      let '(m, r) := Read (Z.to_nat (zlen b)) (segment b ++ r) in (omap_ok fst m, r)
    else (Ok (E := error) [], segment b ++ r)) = (Ok b, r)) as Hread.
  { intros b r'. destruct b as [|x b]; [done|].
    destruct (Z.ltb_spec 0 (zlen (x :: b))) as [_|Hn].
    - rewrite to_nat_zlen. unfold segment. rewrite decide_False by done.
      cbn [app]. by rewrite Read_whole.
    - rewrite zlen_cons in Hn. pose proof (zlen_nonneg b). lia. }
  rewrite Hread, He, Hread.
  rewrite unpack_body; [done|done| |done]. unfold MAX_LEN in Hl. lia.
Qed.

(** The segments of packets are their frames. *)
Lemma segments_frames ps : mjoin (mjoin (frame_segments <$> ps)) = mjoin (frame <$> ps).
Proof.
  induction ps as [|p ps IH]; [done|]. rewrite !fmap_cons.
  change (mjoin (?a :: ?l)) with (a ++ mjoin l). rewrite join_app, IH. f_equal. unfold frame_segments, frame.
  assert (∀ b : bytes, mjoin (segment b) = b) as Hs.
  { intros [|x b]; [done|]. unfold segment. rewrite decide_False by done.
    simpl. by rewrite app_nil_r. }
  rewrite !join_app, !Hs, app_assoc. f_equal. apply take_drop.
Qed.
End stream.

(** When every [Read] delivers the bytes asked for, a sequence of packets sent
    one after the other is read back packet by packet, in order, and nothing is left over. *)
Theorem stream_roundtrip `{!GoRange uint8} (ps : list Packet) (rd : reader) :
  Forall (λ p, Packet_wf p ∧ zlen (packet_body p) <= MAX_LEN) ps →
  made_of rd (mjoin (frame_segments <$> ps)) →
  mjoin rd = mjoin (frame <$> ps) ∧ read_packets (length ps) rd = (ps, []).
Proof.
  intros Hps Hr. split.
  - rewrite (made_of_bytes _ _ Hr). apply segments_frames.
  - rewrite <-(app_nil_r (mjoin _)) in Hr.
    destruct (read_packets_made_of ps [] rd) as (rd' & -> & ->%made_of_nil); done || constructor.
Qed.

Lemma stream_roundtrip_witness :
  @read_packets range_forward 2
    (mjoin (@frame_segments range_forward <$> [sample_connect; PPing NewPing])) =
    ([sample_connect; PPing NewPing], []).
Proof.
  apply (@stream_roundtrip range_forward [sample_connect; PPing NewPing]); [|apply made_of_refl].
  repeat constructor; vm_decide.
Defined.

(** A stream may deliver a body in several segments.  [ReadFrom] ignores how
    many bytes [Read] returned, so when the body of a frame with a two-byte header arrives as
    [b1] and then [b2], it decodes [b1] padded with zeroes, and [b2] is left in the stream where
    the next header is expected. *)
Theorem ReadFrom_short_read `{!GoRange uint8} p b1 b2 r :
  zlen (packet_body p) <= MID_LEN_1 → packet_body p = b1 ++ b2 → b1 ≠ [] → b2 ≠ [] →
  ∃ header, length header = 2%nat ∧
    frame p = header ++ b1 ++ b2 ∧
    packet_ReadFrom (header :: b1 :: b2 :: r) =
      (unpack header (b1 ++ replicate (length b2) x00), b2 :: r).
Proof.
  intros Hl Hb H1 H2.
  assert (zlen (packet_body p) <= MAX_LEN) as Hl' by (unfold MAX_LEN, MID_LEN_1 in *; lia).
  destruct (header_of_frame p Hl') as (h0 & h1 & ext & l & E & Hi & He & _).
  assert (ext = []) as ->.
  { unfold frame_header in E. destruct (Z.leb_spec (zlen (packet_body p)) MID_LEN_1); [|lia].
    congruence. }
  change (extend_length l []) with l in He. subst l.
  exists [h0; h1]. split_and!; [done|unfold frame; by rewrite E, Hb|].
  unfold packet_ReadFrom. rewrite Read_two, Hi. change (0 <? zlen []) with false. cbv iota beta.
  change (extend_length (zlen (packet_body p)) []) with (zlen (packet_body p)).
  destruct (Z.ltb_spec 0 (zlen (packet_body p))) as [_|Hn].
  - rewrite to_nat_zlen, Hb, length_app. rewrite Read_prefix by (done || lia).
    replace (length b1 + length b2 - length b1)%nat with (length b2) by lia. done.
  - rewrite Hb, zlen_app in Hn. pose proof (zlen_nonneg b2).
    destruct b1; [done|]. rewrite zlen_cons in Hn. pose proof (zlen_nonneg b1). lia.
Qed.

(** A message with payload "hello" whose last two bytes arrive later is read as "hel\0\0". *)
Definition sample_message : Packet := PMessage (NewMessage (bytes_of_string "hello")).

Lemma ReadFrom_short_read_witness :
  ∃ header, length header = 2%nat ∧
    @frame range_forward sample_message = header ++ [x00; x00; x68; x65; x6c] ++ [x6c; x6f] ∧
    @packet_ReadFrom range_forward (header :: [x00; x00; x68; x65; x6c] :: [x6c; x6f] :: []) =
      (@unpack range_forward header ([x00; x00; x68; x65; x6c] ++ replicate 2 x00),
       [[x6c; x6f]]).
Proof.
  apply (@ReadFrom_short_read range_forward sample_message _ [x6c; x6f] []); [|done..].
  vm_compute. done.
Defined.
