(* ===== verification/Queue.v ===== *)
(** * The task queue of a connection (src/internal/queue)

    Two buffered channels, [jumps] with room for five tasks and [tasks] with room for the
    capacity, drained by one goroutine that prefers [jumps].  Calls of [Push] and [Close] run
    concurrently with it; the model is a transition system whose actions are the atomic steps
    of the goroutines: a load of the flag, the evaluation of the channel operand of a [select],
    a channel operation, the compare-and-swap, the closing of the channel, the assignment of
    [mq.tasks].  [qstep] is the executable step function, [step] relates states by some action.
    Tasks are values of a type parameter; running one is recorded, not interpreted. *)
From S2P Require Import Prelude Errors.

Section queue.
Context {T : Type}.

(** A call of [Push]: before the check of [closed], after it, blocked in the [select] with the
    channel it evaluated (for a normal task, nil when [mq.tasks] was nil), returned, or
    panicked by sending on a closed channel. *)
Inductive push_state :=
| PStart (jump : bool) (t : T)
| PChecked (jump : bool) (t : T)
| PSelect (jump : bool) (t : T) (nilchan : bool)
| PReturned (result : outcome error unit).

(** The goroutine of [run]: at the outer [select], blocked in the inner one with the [tasks]
    channel it evaluated, executing a task (a jump or not), or returned. *)
Inductive run_state :=
| RTop
| RInner (nilchan : bool)
| RTask (jump : bool) (t : T)
| RDone.

(** How far the winning call of [Close] has come. *)
Inductive close_state := CNone | CSwapped | CJumpsClosed | CFinished.

Record Queue := mkQueue {
  jumps : list T;             (* buffer of the channel [jumps] *)
  jumps_closed : bool;
  tasks : list T;             (* buffer of the channel made for [tasks] *)
  tasks_nil : bool;           (* the field [mq.tasks] was set to nil *)
  tasks_cap : Z;
  closed : bool;
  closing : close_state;
  runner : run_state;
  pushes : gmap nat push_state;
  accepted : list (bool * T); (* tasks sent to a channel, in order; [true] for a jump *)
  executed : list (bool * T)  (* tasks run to completion, in order *)
}.

Definition jumps_cap : Z := 5.

(** [New]: panics on a capacity below one. *)
Definition New (capacity : Z) : outcome error Queue :=
  if capacity <? 1 then Panic (Explicit "length and workerCount must be greater than 1")
  else Ok (mkQueue [] false [] false capacity false CNone RTop ∅ [] []).

Definition with_push (id : nat) (p : push_state) (q : Queue) : Queue :=
  mkQueue (jumps q) (jumps_closed q) (tasks q) (tasks_nil q) (tasks_cap q) (closed q)
    (closing q) (runner q) (<[id := p]> (pushes q)) (accepted q) (executed q).

Definition with_runner (r : run_state) (q : Queue) : Queue :=
  mkQueue (jumps q) (jumps_closed q) (tasks q) (tasks_nil q) (tasks_cap q) (closed q)
    (closing q) r (pushes q) (accepted q) (executed q).

Definition with_close (c : close_state) (flag jc tn : bool) (q : Queue) : Queue :=
  mkQueue (jumps q) jc (tasks q) tn (tasks_cap q) flag c (runner q) (pushes q) (accepted q)
    (executed q).

(** A channel send that is possible: the buffer has room. *)
Definition send (jump : bool) (t : T) (q : Queue) : Queue :=
  if jump then
    mkQueue (jumps q ++ [t]) (jumps_closed q) (tasks q) (tasks_nil q) (tasks_cap q) (closed q)
      (closing q) (runner q) (pushes q) (accepted q ++ [(true, t)]) (executed q)
  else
    mkQueue (jumps q) (jumps_closed q) (tasks q ++ [t]) (tasks_nil q) (tasks_cap q) (closed q)
      (closing q) (runner q) (pushes q) (accepted q ++ [(false, t)]) (executed q).

(** The runner takes the first task of a channel. *)
Definition take_jump (t : T) (rest : list T) (q : Queue) : Queue :=
  mkQueue rest (jumps_closed q) (tasks q) (tasks_nil q) (tasks_cap q) (closed q) (closing q)
    (RTask true t) (pushes q) (accepted q) (executed q).

Definition take_task (t : T) (rest : list T) (q : Queue) : Queue :=
  mkQueue (jumps q) (jumps_closed q) rest (tasks_nil q) (tasks_cap q) (closed q) (closing q)
    (RTask false t) (pushes q) (accepted q) (executed q).

Definition finish_task (jump : bool) (t : T) (q : Queue) : Queue :=
  mkQueue (jumps q) (jumps_closed q) (tasks q) (tasks_nil q) (tasks_cap q) (closed q)
    (closing q) RTop (pushes q) (accepted q) (executed q ++ [(jump, t)]).

(** [Len], [IsIdle], [IsFull], [IsClosed]; a nil channel has length and capacity 0. *)
Definition Len (q : Queue) : Z :=
  i32 ((if tasks_nil q then 0 else zlen (tasks q)) + zlen (jumps q)).

Definition IsIdle (q : Queue) : bool := Len q =? 0.

Definition IsFull (q : Queue) : bool :=
  if tasks_nil q then true else zlen (tasks q) =? tasks_cap q.

Definition IsClosed (q : Queue) : bool := closed q.

Inductive action :=
| ACall (id : nat) (jump : bool) (t : T)   (* a call of Push *)
| APush (id : nat)                         (* its next step *)
| ACtx (id : nat) (err : error)            (* its context is done *)
| AClose                                   (* the next step of the winning Close *)
| ARun                                     (* the runner: outer select, a task, or a jump *)
| ARunTasks.                               (* the inner select takes from [tasks] *)

(** The next step of a call of [Push]. *)
Definition push_step (id : nat) (p : push_state) (q : Queue) : option Queue :=
  match p with
  | PStart jump t =>
      Some (with_push id (if closed q then PReturned (Err (EQueue ErrQueueIsClosed))
                          else PChecked jump t) q)
  | PChecked jump t => Some (with_push id (PSelect jump t (negb jump && tasks_nil q)) q)
  | PSelect true t _ =>
      if jumps_closed q then Some (with_push id (PReturned (Panic ClosedChannel)) q)
      else if zlen (jumps q) <? jumps_cap
      then Some (with_push id (PReturned (Ok tt)) (send true t q))
      else None
  | PSelect false t nilchan =>
      if nilchan then None
      else if zlen (tasks q) <? tasks_cap q
      then Some (with_push id (PReturned (Ok tt)) (send false t q))
      else None
  | PReturned _ => None
  end.

(** Receiving from [jumps] in either [select]: a task, or the end when it is closed. *)
Definition recv_jumps (q : Queue) : option Queue :=
  match jumps q with
  | t :: rest => Some (take_jump t rest q)
  | [] => if jumps_closed q then Some (with_runner RDone q) else None
  end.

Definition run_step (q : Queue) : option Queue :=
  match runner q with
  | RTop =>
      match recv_jumps q with
      | Some q' => Some q'
      | None => Some (with_runner (RInner (tasks_nil q)) q)
      end
  | RInner _ => recv_jumps q
  | RTask jump t => Some (finish_task jump t q)
  | RDone => None
  end.

Definition run_tasks_step (q : Queue) : option Queue :=
  match runner q, tasks q with
  | RInner false, t :: rest => Some (take_task t rest q)
  | _, _ => None
  end.

(** [Close]: the compare-and-swap, closing [jumps], dropping [tasks]. *)
Definition close_step (q : Queue) : option Queue :=
  match closing q with
  | CNone => Some (with_close CSwapped true (jumps_closed q) (tasks_nil q) q)
  | CSwapped => Some (with_close CJumpsClosed (closed q) true (tasks_nil q) q)
  | CJumpsClosed => Some (with_close CFinished (closed q) (jumps_closed q) true q)
  | CFinished => None
  end.

Definition qstep (a : action) (q : Queue) : option Queue :=
  match a with
  | ACall id jump t =>
      match pushes q !! id with
      | None => Some (with_push id (PStart jump t) q)
      | Some _ => None
      end
  | APush id => match pushes q !! id with Some p => push_step id p q | None => None end
  | ACtx id err =>
      match pushes q !! id with
      | Some (PSelect _ _ _) => Some (with_push id (PReturned (Err err)) q)
      | _ => None
      end
  | AClose => close_step q
  | ARun => run_step q
  | ARunTasks => run_tasks_step q
  end.

Definition step (q q' : Queue) : Prop := ∃ a, qstep a q = Some q'.

(** Executing a schedule. *)
Definition run_actions (acts : list action) (q : Queue) : option Queue :=
  fold_left (λ m a, m ≫= qstep a) acts (Some q).

(** The states a queue reaches from [New]. *)
Definition reachable (capacity : Z) (q : Queue) : Prop :=
  ∃ q0, New capacity = Ok q0 ∧ steps step q0 q.

(** The tasks of one channel in a log, in order. *)
Definition of_kind (jump : bool) (l : list (bool * T)) : list T :=
  (List.filter (λ x, eqb x.1 jump) l).*2.

Definition running (jump : bool) (q : Queue) : list T :=
  match runner q with RTask j t => if eqb j jump then [t] else [] | _ => [] end.

(** The invariant: what was accepted on a channel is, in order, what was executed, what is
    running and what is waiting in it; the buffers respect their capacities; the stages of
    [Close] determine the flags. *)
Record queue_inv (capacity : Z) (q : Queue) : Prop := {
  inv_jumps : of_kind true (accepted q) = of_kind true (executed q) ++ running true q ++ jumps q;
  inv_tasks :
    of_kind false (accepted q) = of_kind false (executed q) ++ running false q ++ tasks q;
  inv_jumps_cap : zlen (jumps q) <= jumps_cap;
  inv_tasks_cap : zlen (tasks q) <= capacity;
  inv_cap : tasks_cap q = capacity;
  inv_closed : closed q = match closing q with CNone => false | _ => true end;
  inv_jumps_closed :
    jumps_closed q = match closing q with CNone | CSwapped => false | _ => true end;
  inv_tasks_nil : tasks_nil q = match closing q with CFinished => true | _ => false end;
  inv_done : runner q = RDone → jumps q = [] ∧ jumps_closed q = true;
  inv_panic : ∀ id, pushes q !! id = Some (PReturned (Panic ClosedChannel)) →
                    jumps_closed q = true
}.

Lemma of_kind_app j l1 l2 : of_kind j (l1 ++ l2) = of_kind j l1 ++ of_kind j l2.
Proof. unfold of_kind. by rewrite List.filter_app, fmap_app. Qed.

Lemma queue_inv_New capacity q : New capacity = Ok q → queue_inv capacity q.
Proof.
  unfold New. destruct (Z.ltb_spec capacity 1); [done|]. intros [= <-].
  split; simpl; try done; rewrite ?zlen_nil; unfold jumps_cap; lia.
Qed.

(** Recording a step of a [Push] call keeps the invariant unless it records a panic. *)
Lemma queue_inv_push capacity id p q : queue_inv capacity q →
  (p = PReturned (Panic ClosedChannel) → jumps_closed q = true) →
  queue_inv capacity (with_push id p q).
Proof.
  intros [] Hp. split; simpl; try done. intros i Hi.
  destruct (decide (i = id)) as [->|Hne].
  - rewrite lookup_insert_eq in Hi. injection Hi as ->. by apply Hp.
  - rewrite lookup_insert_ne in Hi by done. eauto.
Qed.

Lemma queue_inv_send capacity j t q : queue_inv capacity q → runner q ≠ RDone ∨ j = false →
  (if j then zlen (jumps q) < jumps_cap else zlen (tasks q) < tasks_cap q) →
  queue_inv capacity (send j t q).
Proof.
  intros [Hj Ht Hjc Htc Hcap Hc Hjcl Htn Hd Hp] Hr Hroom.
  destruct j; split; simpl; try done; rewrite ?of_kind_app, ?Hj, ?Ht; cbn;
    rewrite <-?app_assoc, ?app_nil_r, ?zlen_app; try done;
    change (zlen [t]) with 1; try lia; try (by apply Hp).
  intros Hrd. destruct Hr; done.
Qed.

Lemma queue_inv_recv capacity q q' : queue_inv capacity q → running true q = [] →
  running false q = [] → recv_jumps q = Some q' → queue_inv capacity q'.
Proof.
  intros [Hj Ht Hjc Htc Hcap Hc Hjcl Htn Hd Hp] Hr1 Hr2. unfold recv_jumps.
  destruct (jumps q) as [|t rest] eqn:E.
  - destruct (jumps_closed q) eqn:Ec; [|done]. intros [= <-].
    split; simpl; rewrite ?E; auto; rewrite ?Hr1, ?Hr2, ?E in *; auto; congruence.
  - intros [= <-]. rewrite zlen_cons in Hjc.
    split; simpl; rewrite ?Hr1, ?Hr2 in *; auto with lia; try done.
Qed.

Lemma queue_inv_step capacity q q' : queue_inv capacity q → step q q' → queue_inv capacity q'.
Proof.
  intros Hinv [a Ha].
  destruct a as [id j t|id|id err| | |]; cbn [qstep push_step] in Ha.
  - destruct (pushes q !! id); [done|]. apply (inj Some) in Ha as <-. by apply queue_inv_push.
  - destruct (pushes q !! id) as [p|] eqn:Hid; [|done].
    destruct p as [j t|j t|[] t nc|r]; cbn [qstep push_step] in Ha; [| | | |done].
    + apply (inj Some) in Ha as <-. apply queue_inv_push; [done|]. by destruct (closed q).
    + apply (inj Some) in Ha as <-. by apply queue_inv_push.
    + destruct (jumps_closed q) eqn:Ec; [apply (inj Some) in Ha as <-; by apply queue_inv_push|].
      destruct (Z.ltb_spec (zlen (jumps q)) jumps_cap); [|done]. apply (inj Some) in Ha as <-.
      apply queue_inv_push; [|done]. apply queue_inv_send; [done| |done].
      left. intros Hd. destruct (inv_done _ _ Hinv Hd). congruence.
    + destruct nc; [done|]. destruct (Z.ltb_spec (zlen (tasks q)) (tasks_cap q)); [|done].
      apply (inj Some) in Ha as <-. apply queue_inv_push; [|done].
      apply queue_inv_send; [done|by right|done].
  - destruct (pushes q !! id) as [[]|]; try done. apply (inj Some) in Ha as <-. by apply queue_inv_push.
  - destruct Hinv as [Hj Ht Hjc Htc Hcap Hc Hjcl Htn Hd Hp]. unfold close_step in Ha.
    destruct (closing q) eqn:Ec; try done; apply (inj Some) in Ha as <-; split; simpl; auto;
      try congruence; intros Hr; by destruct (Hd Hr).
  - unfold run_step in Ha. destruct (runner q) as [|nc|j t|] eqn:Er; [| | |done].
    + destruct (recv_jumps q) as [q1|] eqn:E.
      * apply (inj Some) in Ha as <-. eapply queue_inv_recv; [done|unfold running; by rewrite Er..|done].
      * apply (inj Some) in Ha as <-. destruct Hinv as [Hj Ht Hjc Htc Hcap Hc Hjcl Htn Hd Hp].
        unfold running in *. rewrite Er in *. by split.
    + eapply queue_inv_recv; [done|unfold running; by rewrite Er..|done].
    + apply (inj Some) in Ha as <-. destruct Hinv as [Hj Ht Hjc Htc Hcap Hc Hjcl Htn Hd Hp].
      unfold running in *. rewrite Er in *.
      destruct j; split; simpl; rewrite ?of_kind_app; cbn; rewrite <-?app_assoc; auto; done.
  - unfold run_tasks_step in Ha. destruct (runner q) as [|[]|j t|] eqn:Er; try done.
    destruct (tasks q) as [|t rest] eqn:E; [done|]. apply (inj Some) in Ha as <-.
    destruct Hinv as [Hj Ht Hjc Htc Hcap Hc Hjcl Htn Hd Hp]. rewrite E, zlen_cons in *.
    unfold running in *. rewrite Er in *. split; simpl; auto with lia; try done.
Qed.

Lemma reachable_inv capacity q : reachable capacity q → queue_inv capacity q.
Proof.
  intros (q0 & H0 & Hs). eapply steps_invariant; [|by apply queue_inv_New|exact Hs].
  intros s s' Hs' Hst. by eapply queue_inv_step.
Qed.
End queue.

Lemma run_actions_steps {T} (acts : list action) (q q' : @Queue T) :
  run_actions acts q = Some q' → steps step q q'.
Proof.
  revert q. induction acts as [|a acts IH]; intros q.
  { intros [= ->]. apply steps_refl. }
  unfold run_actions. cbn [fold_left]. destruct (Some q ≫= qstep a) as [q1|] eqn:E.
  - intros H. apply (steps_step _ _ q1); [by exists a|]. by apply IH.
  - intros H. exfalso. revert H. clear. induction acts; [done|]. simpl. done.
Qed.

(** ** Calls that run without interference

    [Push_now] is a whole call of [Push] between two steps of the others: [ctx] is the error of
    its context when that ends before there is room, [None] a context that never ends, in which
    case the call may block for ever ([None]).  [Close_now] is a whole call of [Close]. *)
Definition Push_now {T} (ctx : option error) (jump : bool) (t : T) (q : @Queue T)
  : option (outcome error unit * @Queue T) :=
  if closed q then Some (Err (EQueue ErrQueueIsClosed), q)
  else if jump then
    if jumps_closed q then Some (Panic ClosedChannel, q)
    else if zlen (jumps q) <? jumps_cap then Some (Ok tt, send true t q)
    else match ctx with Some e => Some (Err e, q) | None => None end
  else if negb (tasks_nil q) && (zlen (tasks q) <? tasks_cap q) then Some (Ok tt, send false t q)
  else match ctx with Some e => Some (Err e, q) | None => None end.

Definition Close_now {T} (q : @Queue T) : @Queue T :=
  if closed q then q else with_close CFinished true true true q.

(** Apart from the record of the call itself, these are runs of the transition system. *)
Definition forget_pushes {T} (q : @Queue T) : @Queue T :=
  mkQueue (jumps q) (jumps_closed q) (tasks q) (tasks_nil q) (tasks_cap q) (closed q) (closing q)
    (runner q) ∅ (accepted q) (executed q).

Lemma Push_now_steps {T} ctx jump (t : T) q r q' id : pushes q !! id = None →
  Push_now ctx jump t q = Some (r, q') →
  ∃ q'', steps step q q'' ∧ pushes q'' !! id = Some (PReturned r) ∧
    forget_pushes q'' = forget_pushes q'.
Proof.
  intros Hid. unfold Push_now.
  assert (∀ acts q'', run_actions acts q = Some q'' → pushes q'' !! id = Some (PReturned r) →
    forget_pushes q'' = forget_pushes q' → ∃ q'', steps step q q'' ∧
      pushes q'' !! id = Some (PReturned r) ∧ forget_pushes q'' = forget_pushes q') as Hdone.
  { intros acts q'' Ha ? ?. exists q''. split; [by eapply run_actions_steps|done]. }
  assert (∀ p, pushes (with_push id p q) !! id = Some p) as Hl by (intros; apply lookup_insert_eq).
  pose (q1 := with_push id (PStart jump t) q).
  assert (run_actions [ACall id jump t] q = Some q1) as E1.
  { unfold run_actions. simpl. by rewrite Hid. }
  assert (∀ acts, run_actions (ACall id jump t :: acts) q = run_actions acts q1) as Hcons.
  { intros acts. unfold run_actions. cbn [fold_left]. simpl. by rewrite Hid. }
  destruct (closed q) eqn:Ec.
  { intros [= <- <-]. eapply (Hdone [ACall id jump t; APush id]);
      [rewrite Hcons; unfold run_actions; simpl; rewrite lookup_insert_eq; simpl; by rewrite Ec|
       apply lookup_insert_eq|done]. }
  set (q2 := with_push id (PChecked jump t) q1).
  set (q3 := with_push id (PSelect jump t (negb jump && tasks_nil q)) q2).
  assert (∀ acts, run_actions (ACall id jump t :: APush id :: APush id :: acts) q =
    run_actions acts q3) as Hcons3.
  { intros acts. rewrite Hcons. unfold run_actions. cbn [fold_left]. simpl.
    rewrite lookup_insert_eq. simpl. rewrite Ec. simpl. rewrite lookup_insert_eq. done. }
  assert (pushes q3 !! id = Some (PSelect jump t (negb jump && tasks_nil q))) as Hq3
    by apply lookup_insert_eq.
  assert (∀ e, r = Err e → q' = q → ∃ q'', steps step q q'' ∧
    pushes q'' !! id = Some (PReturned r) ∧ forget_pushes q'' = forget_pushes q') as Hctx.
  { intros e -> ->. eapply (Hdone [ACall id jump t; APush id; APush id; ACtx id e]);
      [rewrite Hcons3; unfold run_actions; cbn [fold_left]; simpl; by rewrite lookup_insert_eq|
       apply lookup_insert_eq|done]. }
  assert (∀ q'', push_step id (PSelect jump t (negb jump && tasks_nil q)) q3 = Some q'' →
    run_actions [ACall id jump t; APush id; APush id; APush id] q = Some q'') as Hsend.
  { intros q'' Hp. rewrite Hcons3. unfold run_actions. cbn [fold_left].
    change (Some q3 ≫= qstep (APush id)) with (qstep (APush id) q3). cbn [qstep]. by rewrite Hq3. }
  destruct jump.
  - destruct (jumps_closed q) eqn:Ej.
    { intros [= <- <-]. eapply Hdone; [apply Hsend; cbn [push_step]; simpl; by rewrite Ej|
        apply lookup_insert_eq|unfold forget_pushes; simpl; congruence]. }
    destruct (zlen (jumps q) <? jumps_cap) eqn:Ez.
    { intros [= <- <-]. eapply Hdone; [apply Hsend; cbn [push_step]; simpl; by rewrite Ej, Ez|
        apply lookup_insert_eq|unfold forget_pushes; simpl; congruence]. }
    destruct ctx as [e|]; [|done]. intros [= <- <-]. by apply (Hctx e).
  - destruct (negb (tasks_nil q)) eqn:En; cbn [andb].
    + apply negb_true_iff in En. destruct (zlen (tasks q) <? tasks_cap q) eqn:Ez.
      { intros [= <- <-]. eapply Hdone;
          [apply Hsend; cbn [push_step negb andb]; rewrite En; simpl; by rewrite Ez|
           apply lookup_insert_eq|unfold forget_pushes; simpl; congruence]. }
      destruct ctx as [e|]; [|done]. intros [= <- <-]. by apply (Hctx e).
    + destruct ctx as [e|]; [|done]. intros [= <- <-]. by apply (Hctx e).
Qed.

Lemma Close_now_steps {T} (q : @Queue T) : closed q = false → closing q = CNone →
  steps step q (Close_now q).
Proof.
  intros Hc Hcl. unfold Close_now. rewrite Hc.
  apply (run_actions_steps [AClose; AClose; AClose]). unfold run_actions. simpl.
  unfold close_step. by rewrite Hcl.
Qed.

(** ** Properties of the queue *)

(** C6 (no task lost, duplicated or reordered): in every interleaving of pushes, closing and
    the runner, the tasks accepted on each channel are exactly those executed, then the one
    running, then those waiting, in the order of acceptance; the buffers never exceed their
    capacities; and when the runner has returned, every accepted jump was executed. *)
Theorem queue_fifo {T} (capacity : Z) (q : @Queue T) :
  reachable capacity q →
  (∀ jump, of_kind jump (accepted q) =
     of_kind jump (executed q) ++ running jump q ++ (if jump then jumps q else tasks q)) ∧
  zlen (jumps q) <= 5 ∧ zlen (tasks q) <= capacity ∧
  (runner q = RDone → of_kind true (accepted q) = of_kind true (executed q)).
Proof.
  intros Hr. destruct (reachable_inv _ _ Hr) as [Hj Ht Hjc Htc Hcap Hc Hjcl Htn Hd Hp].
  split_and!; [by intros []|done|done|].
  intros E. destruct (Hd E) as [E' _]. rewrite Hj, E'. unfold running. by rewrite E, !app_nil_r.
Qed.

(** A schedule in which a jump overtakes a task pushed earlier. *)
Definition overtaking : list (@action nat) :=
  [ACall 0 false 10%nat; APush 0; APush 0; APush 0;
   ACall 1 true 11%nat; APush 1; APush 1; APush 1; ARun; ARun; ARun; ARunTasks].

Definition queue_of (capacity : Z) : @Queue nat :=
  match New capacity with
  | Ok q => q | _ => mkQueue [] false [] false 0 false CNone RTop ∅ [] []
  end.

(** The state after the first [n] steps of that schedule. *)
Definition overtaking_at (n : nat) : @Queue nat :=
  default (queue_of 4) (run_actions (take n overtaking) (queue_of 4)).

Lemma queue_fifo_witness :
  of_kind false (accepted (overtaking_at 12)) =
    of_kind false (executed (overtaking_at 12)) ++ running false (overtaking_at 12) ++
    tasks (overtaking_at 12) ∧
  executed (overtaking_at 12) = [(true, 11%nat)] ∧
  running false (overtaking_at 12) = [10%nat].
Proof.
  split; [|done]. apply (queue_fifo 4 (overtaking_at 12)) with (jump := false).
  exists (queue_of 4). split; [done|]. apply (run_actions_steps overtaking). by vm_compute.
Defined.

(** When the runner chooses at the outer [select] while a jump is waiting,
    it takes the jump at the head, whatever is in [tasks]; it takes a normal task only after
    it has found [jumps] empty. *)
Theorem jumps_first {T} (a : action) (q q' : @Queue T) :
  qstep a q = Some q' →
  (∀ t rest, runner q = RTop → jumps q = t :: rest → runner q' ≠ runner q →
     runner q' = RTask true t ∧ jumps q' = rest ∧ tasks q' = tasks q) ∧
  (∀ t, runner q' = RTask false t → runner q = RTask false t ∨ ∃ nc, runner q = RInner nc).
Proof.
  assert (∀ q' : @Queue T, runner q' = runner q →
    (∀ t rest, runner q = RTop → jumps q = t :: rest → runner q' ≠ runner q →
       runner q' = RTask true t ∧ jumps q' = rest ∧ tasks q' = tasks q) ∧
    (∀ t, runner q' = RTask false t → runner q = RTask false t ∨ ∃ nc, runner q = RInner nc))
    as Hsame by (intros ? ->; split; [done|auto]).
  destruct a as [id j t|id|id err| | |]; cbn [qstep].
  - destruct (pushes q !! id); [done|]. intros [= <-]. by apply Hsame.
  - destruct (pushes q !! id) as [p|]; [|done].
    destruct p as [j t|j t|[] t nc|r]; cbn [push_step]; repeat case_match_go;
      intros Hs; try done; apply (inj Some) in Hs as <-; by apply Hsame.
  - destruct (pushes q !! id) as [[]|]; try done. intros [= <-]. by apply Hsame.
  - unfold close_step. destruct (closing q); try done; intros [= <-]; by apply Hsame.
  - unfold run_step, recv_jumps. destruct (runner q) as [|nc|j t|] eqn:E; [| | |done].
    + destruct (jumps q) as [|t rest] eqn:Ej; [destruct (jumps_closed q)|];
        intros [= <-]; split; simpl; naive_solver.
    + destruct (jumps q) as [|t rest] eqn:Ej; [destruct (jumps_closed q); [|done]|];
        intros [= <-]; split; simpl; naive_solver.
    + intros [= <-]. split; simpl; naive_solver.
  - unfold run_tasks_step. destruct (runner q) as [|[]|j t|] eqn:E; try done.
    destruct (tasks q); [done|]. intros [= <-]. split; simpl; naive_solver.
Qed.

Lemma jumps_first_witness :
  tasks (overtaking_at 8) = [10%nat] ∧ runner (overtaking_at 9) = RTask true 11%nat.
Proof.
  split; [done|].
  apply (proj1 (jumps_first ARun (overtaking_at 8) (overtaking_at 9) ltac:(by vm_compute))
           11%nat []); by vm_compute.
Defined.

(** A call of [Push] for a jump panics only after [Close] has closed the
    channel, but it can: from every legal capacity there is an interleaving in which the flag
    is checked before [Close] swaps it and the send happens after the channel is closed. *)
Theorem push_close_race {T} (capacity : Z) (t : T) :
  (∀ (q : @Queue T) id, reachable capacity q → pushes q !! id = Some (PReturned (Panic ClosedChannel)) →
     closed q = true ∧ closing q ≠ CSwapped) ∧
  (1 <= capacity → ∃ q : @Queue T, reachable capacity q ∧
     pushes q !! 0%nat = Some (PReturned (Panic ClosedChannel))).
Proof.
  split.
  - intros q id Hr Hid. destruct (reachable_inv _ _ Hr) as [Hj Ht Hjc Htc Hcap Hc Hjcl Htn Hd Hp].
    specialize (Hp _ Hid). rewrite Hp in Hjcl. rewrite Hc. by destruct (closing q).
  - intros Hcap. set (q0 := @mkQueue T [] false [] false capacity false CNone RTop ∅ [] []).
    eexists. split; [exists q0; split|].
    + unfold New. by destruct (Z.ltb_spec capacity 1); [lia|].
    + by apply (run_actions_steps [ACall 0 true t; APush 0; APush 0; AClose; AClose; APush 0]).
    + done.
Qed.

Lemma push_close_race_witness :
  1 <= 1 ∧ ∃ q, @reachable nat 1 q ∧
    pushes q !! 0%nat = Some (PReturned (Panic ClosedChannel)).
Proof. split; [lia|]. apply (proj2 (push_close_race 1 7%nat)). lia. Defined.

Lemma closed_run_step {T} (q q' : @Queue T) : run_step q = Some q' → closed q' = closed q.
Proof.
  assert (∀ q1, recv_jumps q = Some q1 → closed q1 = closed q) as Hr.
  { intros q1. unfold recv_jumps. destruct (jumps q); [destruct (jumps_closed q); [|done]|];
      by intros [= <-]. }
  unfold run_step. destruct (runner q); [| | |done].
  - destruct (recv_jumps q) eqn:E; intros [= <-]; [by apply Hr|done].
  - apply Hr.
  - by intros [= <-].
Qed.

(** After Close: once [closed] is set, no call of [Push] that starts afterwards is
    accepted: its first step returns ErrQueueIsClosed, and [closed] stays set for ever. *)
Theorem closed_rejects {T} (q q' : @Queue T) id jump t :
  closed q = true → steps step q q' → pushes q' !! id = Some (PStart jump t) →
  closed q' = true ∧
  qstep (APush id) q' = Some (with_push id (PReturned (Err (EQueue ErrQueueIsClosed))) q').
Proof.
  intros Hc Hs Hid.
  assert (closed q' = true) as Hc'.
  { refine (steps_invariant _ (λ q, closed q = true) _ _ _ Hc Hs). clear. intros q q' Hc [a Ha].
    destruct a as [id j t|id|id err| | |]; cbn [qstep] in Ha.
    - destruct (pushes q !! id); [done|]. by apply (inj Some) in Ha as <-.
    - destruct (pushes q !! id) as [[| |[] t []|]|]; cbn [push_step] in Ha; try done;
        revert Ha; repeat case_match_go; intros Ha; try done; by apply (inj Some) in Ha as <-.
    - destruct (pushes q !! id) as [[]|]; try done. by apply (inj Some) in Ha as <-.
    - unfold close_step in Ha. destruct (closing q); try done; by apply (inj Some) in Ha as <-.
    - by rewrite (closed_run_step _ _ Ha).
    - revert Ha. unfold run_tasks_step. repeat case_match_go; intros Ha; try done;
        by apply (inj Some) in Ha as <-. }
  split; [done|]. cbn [qstep]. rewrite Hid. cbn [push_step]. by rewrite Hc'.
Qed.

Definition closed_queue : @Queue nat :=
  default (queue_of 4) (run_actions [AClose] (queue_of 4)).

Lemma closed_rejects_witness :
  closed closed_queue = true ∧
  qstep (APush 3) (with_push 3 (PStart true 9%nat) closed_queue) =
    Some (with_push 3 (PReturned (Err (EQueue ErrQueueIsClosed)))
            (with_push 3 (PStart true 9%nat) closed_queue)).
Proof.
  apply (closed_rejects closed_queue (with_push 3 (PStart true 9%nat) closed_queue) 3 true 9%nat);
    [done| |done].
  by apply (run_actions_steps [ACall 3 true 9%nat]).
Defined.
