(* ===== verification/Safe.v ===== *)
(** * The concurrent maps (src/internal/safe)

    [Map] guards a Go map with a lock, [RMap] pairs a [sync.Map] with an atomic length counter,
    [KeyMap] is an [RMap] of [Map]s.  The sequential behaviour of each method is a function on
    the map's value; section [concurrent] models the two atomic steps of the [RMap] methods
    that change the counter and their interleavings.  The [Map]s of a [KeyMap] are reached
    through pointers the program never shares between entries, so a [KeyMap] holds them by
    value. *)
From S2P Require Import Prelude.

(** ** [Map]: a map behind a lock *)
Section safemap.
Context {K : Type} `{Countable K} {V : Type}.

Record Map := mkMap { mm : gmap K V }.

(** [NewMap]: the variadic argument, when given, is the map itself. *)
Definition NewMap (m : option (gmap K V)) : Map := mkMap (default ∅ m).

Definition Map_Len (m : Map) : Z := i32 (Z.of_nat (size (mm m))).

Definition Map_Set (key : K) (value : V) (m : Map) : Map := mkMap (<[key := value]> (mm m)).

Definition Map_Get (key : K) (m : Map) : option V := mm m !! key.

Definition Map_Load (m : Map) : gmap K V := mm m.

Definition Map_Store (data : gmap K V) (m : Map) : Map := mkMap data.

(** Returns the previous value, if any. *)
Definition Map_Swap (key : K) (value : V) (m : Map) : option V * Map :=
  match mm m !! key with
  | Some actual => (Some actual, mkMap (<[key := value]> (mm m)))
  | None => (None, mkMap (<[key := value]> (mm m)))
  end.

(** [Range]: [f] threads the caller's state and answers whether to go on. *)
Fixpoint range_while {A S : Type} (f : A → S → bool * S) (l : list A) (s : S) : S :=
  match l with
  | [] => s
  | x :: l => let '(continue, s) := f x s in if continue then range_while f l s else s
  end.

Definition Map_Range `{!GoRange K} {S} (f : K * V → S → bool * S) (m : Map) (s : S) : S :=
  range_while f (go_range (mm m)) s.

Definition Map_Delete (key : K) (m : Map) : bool * Map :=
  match mm m !! key with
  | Some _ => (true, mkMap (delete key (mm m)))
  | None => (false, m)
  end.

Definition Map_GetOrSet (key : K) (value : V) (m : Map) : (V * bool) * Map :=
  match mm m !! key with
  | Some actual => ((actual, true), m)
  | None => ((value, false), mkMap (<[key := value]> (mm m)))
  end.
End safemap.
Arguments Map K {_ _} V.
Arguments mkMap {K _ _ V} mm.
Arguments NewMap {K _ _ V} m.

(** ** [RMap]: a [sync.Map] and a counter of 32 bits *)
Section rmap.
Context {K : Type} `{Countable K} {V : Type}.

Record RMap := mkRMap { rm : gmap K V; rl : Z }.

(** The zero value. *)
Definition RMap_empty : RMap := mkRMap ∅ 0.

Definition RMap_Len (m : RMap) : Z := rl m.

(** [m.l.Add(d)]: int32 wraps around. *)
Definition add_len (d : Z) (m : RMap) : RMap := mkRMap (rm m) (i32 (rl m + d)).

Definition RMap_Set (key : K) (value : V) (m : RMap) : bool * RMap :=
  match rm m !! key with
  | Some _ => (false, mkRMap (<[key := value]> (rm m)) (rl m))
  | None => (true, add_len 1 (mkRMap (<[key := value]> (rm m)) (rl m)))
  end.

Definition RMap_Get (key : K) (m : RMap) : option V := rm m !! key.

Definition RMap_Swap (key : K) (value : V) (m : RMap) : option V * RMap :=
  match rm m !! key with
  | Some old => (Some old, mkRMap (<[key := value]> (rm m)) (rl m))
  | None => (None, add_len 1 (mkRMap (<[key := value]> (rm m)) (rl m)))
  end.

(** [Range] over a map nobody changes meanwhile; the order is that of [sync.Map]. *)
Definition RMap_Range `{!GoRange K} {S} (f : K * V → S → bool * S) (m : RMap) (s : S) : S :=
  range_while f (go_range (rm m)) s.

Definition RMap_Delete (key : K) (m : RMap) : bool * RMap :=
  match rm m !! key with
  | Some _ => (true, add_len (-1) (mkRMap (delete key (rm m)) (rl m)))
  | None => (false, m)
  end.

Definition RMap_GetOrSet (key : K) (value : V) (m : RMap) : (V * bool) * RMap :=
  match rm m !! key with
  | Some actual => ((actual, true), m)
  | None => ((value, false), add_len 1 (mkRMap (<[key := value]> (rm m)) (rl m)))
  end.

(** The counter is the number of entries, as an int32. *)
Definition RMap_wf (m : RMap) : Prop := rl m = i32 (Z.of_nat (size (rm m))).

#[export] Instance RMap_wf_dec m : Decision (RMap_wf m).
Proof. unfold RMap_wf. apply _. Defined.

Lemma RMap_wf_empty : RMap_wf RMap_empty.
Proof. done. Qed.

Lemma RMap_wf_insert_new key value m : RMap_wf m → rm m !! key = None →
  RMap_wf (add_len 1 (mkRMap (<[key := value]> (rm m)) (rl m))).
Proof.
  unfold RMap_wf. intros Hm E. simpl. rewrite map_size_insert_None by done.
  rewrite Hm, wrapS_add_idemp by lia. f_equal. lia.
Qed.

Lemma RMap_wf_insert_old key value old m : RMap_wf m → rm m !! key = Some old →
  RMap_wf (mkRMap (<[key := value]> (rm m)) (rl m)).
Proof. unfold RMap_wf. intros Hm E. simpl. by rewrite map_size_insert_Some by eauto. Qed.

Lemma RMap_wf_Set key value m : RMap_wf m → RMap_wf (snd (RMap_Set key value m)).
Proof.
  intros. unfold RMap_Set. destruct (rm m !! key) eqn:E; simpl.
  - by eapply RMap_wf_insert_old.
  - by apply RMap_wf_insert_new.
Qed.

Lemma RMap_wf_GetOrSet key value m : RMap_wf m → RMap_wf (snd (RMap_GetOrSet key value m)).
Proof.
  intros. unfold RMap_GetOrSet. destruct (rm m !! key) eqn:E; simpl; [done|].
  by apply RMap_wf_insert_new.
Qed.

Lemma RMap_wf_Swap key value m : RMap_wf m → RMap_wf (snd (RMap_Swap key value m)).
Proof.
  intros. unfold RMap_Swap. destruct (rm m !! key) eqn:E; simpl.
  - by eapply RMap_wf_insert_old.
  - by apply RMap_wf_insert_new.
Qed.

Lemma RMap_wf_Delete key m : RMap_wf m → RMap_wf (snd (RMap_Delete key m)).
Proof.
  unfold RMap_wf. intros Hm. unfold RMap_Delete. destruct (rm m !! key) eqn:E; simpl; [|done].
  rewrite Hm, wrapS_add_idemp by lia. f_equal.
  rewrite map_size_delete_Some by eauto.
  assert (size (rm m) ≠ 0%nat) as Hs.
  { intros Hz. apply map_size_empty_inv in Hz. by rewrite Hz, lookup_empty in E. }
  lia.
Qed.

Lemma rm_GetOrSet key value m :
  rm (snd (RMap_GetOrSet key value m)) =
    <[key := default value (rm m !! key)]> (rm m) ∧
  fst (RMap_GetOrSet key value m) =
    (default value (rm m !! key), bool_decide (is_Some (rm m !! key))).
Proof.
  unfold RMap_GetOrSet. destruct (rm m !! key) eqn:E; simpl; [|done].
  split; [by rewrite insert_id|done].
Qed.

Lemma rm_Delete key m : rm (snd (RMap_Delete key m)) = delete key (rm m).
Proof.
  unfold RMap_Delete. destruct (rm m !! key) eqn:E; simpl; [done|].
  by rewrite delete_id.
Qed.

Lemma rm_Set key value m : rm (snd (RMap_Set key value m)) = <[key := value]> (rm m).
Proof. unfold RMap_Set. by destruct (rm m !! key). Qed.

(** ** Concurrent use

    Each method that changes the map first performs one atomic operation of [sync.Map] and
    then, when the number of entries changed, one atomic addition to the counter.  Between
    the two, other goroutines run: the state keeps the additions still to be performed. *)
Record cstate := mkC { cmap : RMap; pending : list Z }.

Inductive call :=
| CSet (key : K) (value : V)
| CSwap (key : K) (value : V)
| CGetOrSet (key : K) (value : V)
| CDelete (key : K).

Definition insert_call (key : K) (value : V) (c : cstate) : cstate :=
  let m := cmap c in
  mkC (mkRMap (<[key := value]> (rm m)) (rl m))
    (if decide (is_Some (rm m !! key)) then pending c else 1 :: pending c).

(** The [sync.Map] operation of a call. *)
Definition call_step (x : call) (c : cstate) : cstate :=
  let m := cmap c in
  match x with
  | CSet key value | CSwap key value => insert_call key value c
  | CGetOrSet key value =>
      if decide (is_Some (rm m !! key)) then c else insert_call key value c
  | CDelete key =>
      if decide (is_Some (rm m !! key))
      then mkC (mkRMap (delete key (rm m)) (rl m)) (-1 :: pending c) else c
  end.

(** The addition of the [i]-th pending call. *)
Definition add_step (i : nat) (c : cstate) : option cstate :=
  match pending c !! i with
  | Some d => Some (mkC (add_len d (cmap c)) (delete i (pending c)))
  | None => None
  end.

Inductive cstep : cstate → cstate → Prop :=
| cstep_call x c : cstep c (call_step x c)
| cstep_add i c c' : add_step i c = Some c' → cstep c c'.

Definition sum_list (l : list Z) : Z := foldr Z.add 0 l.

Definition cinv (c : cstate) : Prop :=
  i32 (rl (cmap c) + sum_list (pending c)) = i32 (Z.of_nat (size (rm (cmap c)))) ∧
  inS 32 (rl (cmap c)).

Lemma sum_list_delete i d l : l !! i = Some d → sum_list l = d + sum_list (delete i l).
Proof.
  revert i. induction l as [|x l IH]; intros [|i] E; simplify_eq/=; [done|].
  rewrite (IH i) by done. lia.
Qed.

Lemma i32_shift a b d : i32 a = i32 b → i32 (a + d) = i32 (b + d).
Proof. intros E. rewrite <-(wrapS_add_idemp 32 a), E, wrapS_add_idemp by lia. done. Qed.

Lemma cinv_insert key value c : cinv c → cinv (insert_call key value c).
Proof.
  intros [Hc Hr]. unfold insert_call. split; simpl; [|done].
  destruct (decide (is_Some (rm (cmap c) !! key))) as [Hs|Hs].
  - rewrite map_size_insert_Some by done. done.
  - apply eq_None_not_Some in Hs. rewrite map_size_insert_None by done.
    cbn [sum_list foldr]. fold (sum_list (pending c)).
    replace (rl (cmap c) + (1 + sum_list (pending c)))
      with (rl (cmap c) + sum_list (pending c) + 1) by lia.
    replace (Z.of_nat (S (size (rm (cmap c))))) with (Z.of_nat (size (rm (cmap c))) + 1) by lia.
    by apply i32_shift.
Qed.

Lemma cinv_step c c' : cinv c → cstep c c' → cinv c'.
Proof.
  intros Hc. inversion 1 as [x ?|i ? ? E]; subst.
  - destruct x as [key value|key value|key value|key]; simpl; [by apply cinv_insert..| |].
    + case_decide; [done|]. by apply cinv_insert.
    + case_decide as Hs; [|done]. destruct Hc as [Hc Hr]. split; simpl; [|done].
      rewrite map_size_delete_Some by done.
      assert (size (rm (cmap c)) ≠ 0%nat) as Hn.
      { intros Hz. apply map_size_empty_inv in Hz. rewrite Hz in Hs. by destruct Hs. }
      fold (sum_list (pending c)).
      replace (rl (cmap c) + (-1 + sum_list (pending c)))
        with (rl (cmap c) + sum_list (pending c) + -1) by lia.
      replace (Z.of_nat (pred (size (rm (cmap c)))))
        with (Z.of_nat (size (rm (cmap c))) + -1) by lia.
      by apply i32_shift.
  - unfold add_step in E. destruct (pending c !! i) as [d|] eqn:Ed; [|done].
    injection E as <-. destruct Hc as [Hc Hr]. split; simpl.
    + rewrite wrapS_add_idemp by lia. rewrite <-Hc, (sum_list_delete i d (pending c)) by done.
      f_equal. lia.
    + by apply wrapS_range.
Qed.
End rmap.
Arguments RMap K {_ _} V.
Arguments mkRMap {K _ _ V} rm rl.
Arguments cstate K {_ _} V.
Arguments mkC {K _ _ V} cmap pending.
Arguments call K V : clear implicits.

(** ** [KeyMap]: maps by key, dropped when they become empty *)
Section keymap.
Context {T : Type}.

Definition KeyMap : Type := RMap string (Map string T).

Definition KeyMap_empty : KeyMap := RMap_empty.

Definition LenKey (key : string) (m : KeyMap) : Z :=
  match RMap_Get key m with Some v => Map_Len v | None => 0 end.

(** [v.Set(filed, value)] through the pointer stored at [key]. *)
Definition update_inner (key : string) (v : Map string T) (m : KeyMap) : KeyMap :=
  mkRMap (<[key := v]> (rm m)) (rl m).

Definition SetKey (key filed : string) (value : T) (m : KeyMap) : KeyMap :=
  let '((v, _), m) := RMap_GetOrSet key (NewMap None) m in
  update_inner key (Map_Set filed value v) m.

Definition GetKey (key filed : string) (m : KeyMap) : option T :=
  match RMap_Get key m with
  | None => None
  | Some v => Map_Get filed v
  end.

Definition RangeKey `{!GoRange string} {S} (key : string) (f : string * T → S → bool * S)
    (m : KeyMap) (s : S) : S :=
  match RMap_Get key m with
  | Some v => Map_Range f v s
  | None => s
  end.

Definition DeleteKey (key filed : string) (m : KeyMap) : KeyMap :=
  match RMap_Get key m with
  | Some v =>
      let '(_, v) := Map_Delete filed v in
      let m := update_inner key v m in
      if Map_Len v =? 0 then snd (RMap_Delete key m) else m
  | None => m
  end.

Definition KeyMap_Len (m : KeyMap) : Z := RMap_Len m.

Definition KeyMap_Set (key : string) (value : Map string T) (m : KeyMap) : KeyMap :=
  snd (RMap_Set key value m).

Definition KeyMap_Get (key : string) (m : KeyMap) : option (Map string T) := RMap_Get key m.

Definition KeyMap_Range `{!GoRange string} {S} (f : string * Map string T → S → bool * S)
    (m : KeyMap) (s : S) : S := RMap_Range f m s.

Definition KeyMap_Delete (key : string) (m : KeyMap) : KeyMap := snd (RMap_Delete key m).

(** Abstractly a [KeyMap] is a map of maps without empty inner maps: a relation between keys
    and fields with a value each. *)
Definition km_lookup (m : KeyMap) (key filed : string) : option T := GetKey key filed m.

(** Well-formed: the counter is right and no inner map is empty. *)
Definition KeyMap_wf (m : KeyMap) : Prop :=
  RMap_wf m ∧ map_Forall (λ _ v, mm v ≠ ∅) (rm m).

(** No inner map is so large that [Len], an int32, could report it as empty. *)
Definition KeyMap_small (m : KeyMap) : Prop :=
  map_Forall (λ _ v, Z.of_nat (size (mm v)) < 2 ^ 31) (rm m).

#[export] Instance KeyMap_small_dec m : Decision (KeyMap_small m).
Proof. unfold KeyMap_small. apply _. Defined.

Lemma KeyMap_wf_empty : KeyMap_wf KeyMap_empty.
Proof. split; [apply RMap_wf_empty|apply map_Forall_empty]. Qed.

Lemma KeyMap_small_empty : KeyMap_small KeyMap_empty.
Proof. apply map_Forall_empty. Qed.

Lemma rm_SetKey key filed value m :
  rm (SetKey key filed value m) =
    <[key := mkMap (<[filed := value]> (from_option mm ∅ (rm m !! key)))]> (rm m).
Proof.
  unfold SetKey. destruct (rm_GetOrSet key (NewMap None) m) as [E1 E2].
  destruct (RMap_GetOrSet key (NewMap None) m) as [[v b] m']. simpl in E1, E2.
  injection E2 as -> _. simpl. rewrite E1, insert_insert_eq. f_equal.
  by destruct (rm m !! key).
Qed.

Lemma GetKey_SetKey key filed value m k f :
  GetKey k f (SetKey key filed value m) =
    if decide (k = key ∧ f = filed) then Some value else GetKey k f m.
Proof.
  unfold GetKey, RMap_Get, Map_Get. rewrite rm_SetKey.
  destruct (decide (k = key)) as [->|Hk].
  - rewrite lookup_insert_eq. simpl. destruct (decide (f = filed)) as [->|Hf].
    + by rewrite lookup_insert_eq, decide_True.
    + rewrite lookup_insert_ne, decide_False by naive_solver.
      destruct (rm m !! key); [done|]. simpl. by rewrite lookup_empty.
  - by rewrite lookup_insert_ne, decide_False by naive_solver.
Qed.

Lemma i32_size_zero n : 0 <= n < 2 ^ 31 → i32 n = 0 → n = 0.
Proof. intros Hn. rewrite wrapS_id; [done|lia|]. unfold inS. lia. Qed.

Lemma size_delete_le (m : gmap string T) f : (size (delete f m) <= size m)%nat.
Proof. rewrite map_size_delete. destruct (m !! f); unfold id; lia. Qed.

(** The inner map at the deleted key afterwards, when [Len] does not wrap around. *)
Lemma rm_DeleteKey key filed m : KeyMap_small m →
  rm (DeleteKey key filed m) =
    match rm m !! key with
    | None => rm m
    | Some v => if decide (delete filed (mm v) = ∅) then delete key (rm m)
                else <[key := mkMap (delete filed (mm v))]> (rm m)
    end.
Proof.
  intros Hm. unfold DeleteKey, RMap_Get. destruct (rm m !! key) as [v|] eqn:E; [|done].
  assert (snd (Map_Delete filed v) = mkMap (delete filed (mm v))) as Ed.
  { unfold Map_Delete. destruct (mm v !! filed) eqn:Ef; [done|].
    rewrite delete_id by done. by destruct v. }
  destruct (Map_Delete filed v) as [b v']. simpl in Ed. subst v'.
  pose proof (Hm _ _ E) as Hs. simpl in Hs. pose proof (size_delete_le (mm v) filed) as Hle.
  unfold Map_Len. cbn [mm]. destruct (Z.eqb_spec (i32 (Z.of_nat (size (delete filed (mm v))))) 0)
    as [Hz|Hz].
  - apply i32_size_zero in Hz; [|lia]. rewrite decide_True by (apply map_size_empty_inv; lia).
    rewrite rm_Delete. simpl. apply delete_insert_eq.
  - rewrite decide_False; [done|]. intros H0. rewrite H0, map_size_empty in Hz. done.
Qed.

Lemma GetKey_DeleteKey key filed m k f : KeyMap_small m →
  GetKey k f (DeleteKey key filed m) =
    if decide (k = key ∧ f = filed) then None else GetKey k f m.
Proof.
  intros Hm. unfold GetKey, RMap_Get, Map_Get. rewrite rm_DeleteKey by done.
  destruct (rm m !! key) as [v|] eqn:E.
  - destruct (decide (delete filed (mm v) = ∅)) as [Hd|Hd].
    + destruct (decide (k = key)) as [->|Hk].
      * rewrite lookup_delete_eq, E. destruct (decide (f = filed)) as [->|Hf].
        { by rewrite decide_True. }
        rewrite decide_False by naive_solver.
        by rewrite <-(lookup_delete_ne (mm v) filed f), Hd, lookup_empty.
      * by rewrite lookup_delete_ne, decide_False by naive_solver.
    + destruct (decide (k = key)) as [->|Hk].
      * rewrite lookup_insert_eq, E. simpl. destruct (decide (f = filed)) as [->|Hf].
        { by rewrite lookup_delete_eq, decide_True. }
        by rewrite lookup_delete_ne, decide_False by naive_solver.
      * by rewrite lookup_insert_ne, decide_False by naive_solver.
  - destruct (decide (k = key ∧ f = filed)) as [[-> ->]|?]; [by rewrite E|done].
Qed.

Lemma KeyMap_wf_SetKey key filed value m : KeyMap_wf m → KeyMap_wf (SetKey key filed value m).
Proof.
  intros [Hl Hm]. split.
  - pose proof (RMap_wf_GetOrSet key (NewMap None) m Hl) as Hg.
    unfold SetKey. destruct (rm_GetOrSet key (NewMap None) m) as [E1 E2].
    destruct (RMap_GetOrSet key (NewMap None) m) as [[v b] m']. simpl in *.
    unfold RMap_wf, update_inner in *. simpl. rewrite Hg, E1. do 2 f_equal.
    by rewrite insert_insert_eq, !map_size_insert.
  - rewrite rm_SetKey. apply map_Forall_insert_2; [|done]. simpl. apply insert_non_empty.
Qed.

Lemma KeyMap_wf_DeleteKey key filed m : KeyMap_wf m → KeyMap_small m →
  KeyMap_wf (DeleteKey key filed m).
Proof.
  intros Hm Hs. pose proof (rm_DeleteKey key filed m Hs) as E. destruct Hm as [Hl Hm]. split.
  - clear E. unfold DeleteKey. destruct (RMap_Get key m) as [v|] eqn:Ev; [|done].
    destruct (Map_Delete filed v) as [b v'].
    assert (RMap_wf (update_inner key v' m)) as Hu by (by eapply RMap_wf_insert_old).
    destruct (Map_Len v' =? 0); [by apply RMap_wf_Delete|done].
  - rewrite E. destruct (rm m !! key) as [v|] eqn:Ev; [|done].
    case_decide as Hd; [by apply map_Forall_delete|]. by apply map_Forall_insert_2.
Qed.

Lemma KeyMap_small_DeleteKey key filed m : KeyMap_small m → KeyMap_small (DeleteKey key filed m).
Proof.
  intros Hm. unfold KeyMap_small. rewrite rm_DeleteKey by done.
  destruct (rm m !! key) as [v|] eqn:E; [|done].
  case_decide; [by apply map_Forall_delete|]. apply map_Forall_insert_2; [|done].
  specialize (Hm _ _ E). simpl in *. pose proof (size_delete_le (mm v) filed). lia.
Qed.

(** Two well-formed [KeyMap]s with the same lookups are the same value: the relation is a
    faithful abstraction. *)
Lemma KeyMap_ext (m1 m2 : KeyMap) : KeyMap_wf m1 → KeyMap_wf m2 →
  (∀ k f, km_lookup m1 k f = km_lookup m2 k f) → m1 = m2.
Proof.
  intros [Hl1 Hm1] [Hl2 Hm2] Hk.
  assert (∀ (m1 m2 : KeyMap) k v, map_Forall (λ _ v, mm v ≠ ∅) (rm m1) →
    (∀ k f, km_lookup m1 k f = km_lookup m2 k f) → rm m1 !! k = Some v →
    rm m2 !! k = Some v) as Hsub.
  { clear. intros m1 m2 k v Hm Hk E. specialize (Hk k). unfold km_lookup, GetKey, RMap_Get in Hk.
    rewrite E in Hk. destruct (rm m2 !! k) as [v2|].
    - do 2 f_equal. destruct v as [v], v2 as [v2]. f_equal. symmetry. apply map_eq, Hk.
    - specialize (Hm _ _ E). simpl in Hm. destruct Hm. apply map_empty. intros f. apply Hk. }
  assert (rm m1 = rm m2) as E.
  { apply map_eq. intros k. apply option_eq. intros v. split; apply Hsub; auto. }
  unfold RMap_wf in *. destruct m1, m2; simpl in *. congruence.
Qed.
End keymap.

(** ** Properties of the concurrent maps *)

(** For every interleaving of the atomic steps of concurrent calls, the
    counter and the additions still pending sum up to the number of entries; so [Len] is exact
    whenever no call is between its two steps.  In between it can be wrong, even negative. *)
Theorem RMap_counter {K} `{Countable K} {V} (c : cstate K V) :
  steps cstep (mkC RMap_empty []) c →
  i32 (RMap_Len (cmap c) + sum_list (pending c)) = i32 (Z.of_nat (size (rm (cmap c)))) ∧
  (pending c = [] → RMap_wf (cmap c)).
Proof.
  intros Hs.
  assert (cinv c) as [Hc Hr].
  { apply (steps_invariant cstep cinv (λ c c', cinv_step c c')) in Hs; [done|]. by split. }
  split; [done|]. intros E. rewrite E in Hc. simpl in Hc. unfold RMap_wf.
  rewrite Z.add_0_r in Hc. rewrite <-Hc. symmetry. by apply wrapS_id.
Qed.

(** One goroutine has stored its key but not yet counted it; another one deletes the key and
    counts first. *)
Definition negative_len : cstate string Z :=
  default (mkC RMap_empty [])
    (add_step 0 (call_step (CDelete "a") (call_step (CSet "a" 1) (mkC RMap_empty [])))).

Lemma RMap_counter_witness :
  RMap_Len (cmap negative_len) = -1 ∧ size (rm (cmap negative_len)) = 0%nat ∧
  i32 (RMap_Len (cmap negative_len) + sum_list (pending negative_len)) = 0.
Proof.
  split_and!; [done|done|].
  apply (RMap_counter negative_len).
  eapply steps_step; [apply (cstep_call (CSet "a" 1))|].
  eapply steps_step; [apply (cstep_call (CDelete "a"))|].
  apply steps_one, (cstep_add 0). by vm_compute.
Defined.

(** C14 (KeyMap refines a two-level map): on a well-formed [KeyMap] with fewer than 2^31
    fields per key, [SetKey] and [DeleteKey] keep it well-formed and change exactly the entry
    they name, [LenKey] is the number of fields of the key, [Len] the number of keys with a
    field, and a key is present exactly when it has a field. *)
Theorem KeyMap_refines {T} (m : @KeyMap T) key filed value :
  KeyMap_wf m → KeyMap_small m →
  KeyMap_wf (SetKey key filed value m) ∧ KeyMap_wf (DeleteKey key filed m) ∧
  (∀ k f, km_lookup (SetKey key filed value m) k f =
            if decide (k = key ∧ f = filed) then Some value else km_lookup m k f) ∧
  (∀ k f, km_lookup (DeleteKey key filed m) k f =
            if decide (k = key ∧ f = filed) then None else km_lookup m k f) ∧
  (LenKey key m = Z.of_nat (size (from_option mm ∅ (rm m !! key)))) ∧
  (KeyMap_Len m = i32 (Z.of_nat (size (rm m)))) ∧
  (is_Some (KeyMap_Get key m) ↔ ∃ f v, km_lookup m key f = Some v).
Proof.
  intros Hm Hs. split_and!.
  - by apply KeyMap_wf_SetKey.
  - by apply KeyMap_wf_DeleteKey.
  - intros k f. apply GetKey_SetKey.
  - intros k f. by apply GetKey_DeleteKey.
  - unfold LenKey, RMap_Get. destruct (rm m !! key) eqn:E; [|done]. specialize (Hs _ _ E).
    simpl in *. unfold Map_Len. apply wrapS_id; [lia|]. unfold inS. lia.
  - apply Hm.
  - unfold KeyMap_Get, km_lookup, GetKey, RMap_Get. destruct (rm m !! key) as [v|] eqn:E.
    + split; [intros _|by eauto]. destruct Hm as [_ Hm]. specialize (Hm _ _ E). simpl in Hm.
      apply map_choose in Hm as (f & x & Hx). by eauto.
    + split; [by intros []|by intros (? & ? & ?)].
Qed.

Lemma KeyMap_refines_witness :
  km_lookup (SetKey "u" "c2" 7 (SetKey "u" "c1" 5 KeyMap_empty)) "u" "c2" = Some 7.
Proof.
  pose proof (KeyMap_refines (SetKey "u" "c1" 5 KeyMap_empty) "u" "c2" 7
    ltac:(apply KeyMap_wf_SetKey, KeyMap_wf_empty) ltac:(vm_decide)) as (_ & _ & H & _).
  rewrite H. done.
Defined.
