(* ===== verification/Retry.v ===== *)
(** * Retrying and keep-alive (src/backoff, src/client/retrier.go, src/internal/keepalive)

    [Backoff] is the interface of the strategies: the pause after a number of attempts, as a
    64-bit duration in nanoseconds.  The constant and linear strategies are defined here, the
    exponential and random ones, which go through [float64], in [Backoff].  [Module KeepAlive] models the timer chain of the keep-alive as
    a transition system. *)
From S2P Require Import Prelude Errors.

(** ** Backoff strategies *)
Definition Second : Z := 1000000000.

Class Backoff (B : Type) := { Next : B → Z → Z }.

Record constantBackoff := mkConstant { duration : Z }.
Record linearBackoff := mkLinear { base : Z; lstep : Z }.

Definition Constant (dur : Z) : constantBackoff := mkConstant dur.
Definition ConstantD : constantBackoff := Constant (Second * 3).
Definition Linear (b s : Z) : linearBackoff := mkLinear b s.
Definition LinearD : linearBackoff := Linear Second (Second * 5).

Definition constant_Next (b : constantBackoff) (count : Z) : Z := duration b.

(** [b.base + time.Duration(count)*b.step] on int64. *)
Definition linear_Next (b : linearBackoff) (count : Z) : Z :=
  i64 (base b + i64 (count * lstep b)).

#[export] Instance constant_Backoff : Backoff constantBackoff := {| Next := constant_Next |}.
#[export] Instance linear_Backoff : Backoff linearBackoff := {| Next := linear_Next |}.

(** ** The retrier *)
Section retrier.
Context {B : Type} `{Backoff B}.

Record Retrier := mkRetrier {
  limit : Z; count : Z; filter_fn : option (error → bool); backoff : B }.

Definition NewRetrier (limit : Z) (backoff : B) : Retrier := mkRetrier limit 0 None backoff.

Definition Filter (f : error → bool) (r : Retrier) : Retrier :=
  mkRetrier (limit r) (count r) (Some f) (backoff r).

(** The pause and whether to retry, with the retrier afterwards. *)
Definition Retry (reason : error) (r : Retrier) : (Z * bool) * Retrier :=
  if match filter_fn r with Some f => f reason | None => false end then ((0, false), r)
  else if limit r <=? count r then ((0, false), r)
  else
    let r := mkRetrier (limit r) (i64 (count r + 1)) (filter_fn r) (backoff r) in
    ((Next (backoff r) (count r), true), r).

Definition Reset (r : Retrier) : Retrier :=
  mkRetrier (limit r) 0 (filter_fn r) (backoff r).

(** Consulting the retrier for each failure in turn. *)
Fixpoint retry_all (reasons : list error) (r : Retrier) : list (Z * bool) * Retrier :=
  match reasons with
  | [] => ([], r)
  | e :: es =>
      let '(a, r) := Retry e r in
      let '(answers, r) := retry_all es r in (a :: answers, r)
  end.

Definition passes (r : Retrier) (e : error) : bool :=
  match filter_fn r with Some f => negb (f e) | None => true end.

(** What the retrier should answer: an attempt is granted exactly for the failures the filter
    lets through while fewer than [limit] were granted, the [k]-th with the pause [Next k]. *)
Fixpoint granted (k : Z) (r : Retrier) (reasons : list error) : list (Z * bool) :=
  match reasons with
  | [] => []
  | e :: es =>
      if passes r e && (k <? limit r)
      then (Next (backoff r) (k + 1), true) :: granted (k + 1) r es
      else (0, false) :: granted k r es
  end.

Lemma retry_all_granted reasons : ∀ r, 0 <= count r → limit r < 2 ^ 63 →
  fst (retry_all reasons r) = granted (count r) r reasons ∧
  limit (snd (retry_all reasons r)) = limit r ∧
  count r <= count (snd (retry_all reasons r)) <= Z.max (count r) (limit r).
Proof.
  induction reasons as [|e es IH]; intros r Hc Hl; [simpl; split_and!; auto; lia|].
  cbn [retry_all granted]. unfold Retry, passes.
  destruct (match filter_fn r with Some f => f e | None => false end) eqn:Ef.
  - assert (match filter_fn r with Some f => negb (f e) | None => true end = false) as ->.
    { destruct (filter_fn r); [by rewrite Ef|done]. }
    destruct (IH r Hc Hl) as (E & Hlim & Hcnt).
    destruct (retry_all es r) as [answers r']. simpl in *. by rewrite E.
  - assert (match filter_fn r with Some f => negb (f e) | None => true end = true) as ->.
    { destruct (filter_fn r); [by rewrite Ef|done]. }
    destruct (Z.leb_spec (limit r) (count r)); destruct (Z.ltb_spec (count r) (limit r)); try lia;
      cbn [andb].
    + destruct (IH r Hc Hl) as (E & Hlim & Hcnt).
      destruct (retry_all es r) as [answers r']. simpl in *. by rewrite E.
    + rewrite wrapS_id by (unfold inS; lia).
      destruct (IH (mkRetrier (limit r) (count r + 1) (filter_fn r) (backoff r)))
        as (E & Hlim & Hcnt); [simpl; lia|done|].
      assert (∀ k, granted k (mkRetrier (limit r) (count r + 1) (filter_fn r) (backoff r)) es =
        granted k r es) as Hg.
      { clear. induction es as [|e es IH]; intros k; [done|].
        cbn [granted]. unfold passes. simpl. by rewrite !IH. }
      destruct (retry_all es _) as [answers r']. simpl in *. rewrite E, Hg.
      split_and!; [done|done|lia|lia].
Qed.

(** Only the counter changes. *)
Lemma retry_all_fields reasons : ∀ r,
  limit (snd (retry_all reasons r)) = limit r ∧
  filter_fn (snd (retry_all reasons r)) = filter_fn r ∧
  backoff (snd (retry_all reasons r)) = backoff r.
Proof.
  assert (∀ e r, limit (snd (Retry e r)) = limit r ∧
    filter_fn (snd (Retry e r)) = filter_fn r ∧ backoff (snd (Retry e r)) = backoff r) as H1.
  { intros e r. unfold Retry. case_match_go; [done|]. by destruct (limit r <=? count r). }
  induction reasons as [|e es IH]; intros r; [done|]. cbn [retry_all].
  specialize (H1 e r). destruct (Retry e r) as [a r1]. specialize (IH r1).
  destruct (retry_all es r1) as [answers r2]. simpl in *. intuition congruence.
Qed.
End retrier.
Arguments Retrier B : clear implicits.

(** A fresh retrier grants, for any sequence of failures, exactly the first
    [limit] failures its filter lets through, the [k]-th with the pause [Next k]; after [Reset]
    it behaves as a fresh one. *)
Theorem Retrier_grants {B} `{Backoff B} (lim : Z) (b : B) (f : error → bool)
    (reasons before : list error) :
  0 <= lim < 2 ^ 63 →
  let r := Filter f (NewRetrier lim b) in
  fst (retry_all reasons r) = granted 0 r reasons ∧
  Reset (snd (retry_all before r)) = r ∧
  (zlen (List.filter snd (fst (retry_all reasons r))) =
     Z.min lim (zlen (List.filter (λ e, negb (f e)) reasons))).
Proof.
  intros Hl r. destruct (retry_all_granted reasons r ltac:(done) ltac:(simpl; lia)) as (E & _ & _).
  split_and!; [done| |].
  - destruct (retry_all_fields before r) as (H1 & H2 & H3). unfold Reset. by rewrite H1, H2, H3.
  - rewrite E. assert (∀ k, 0 <= k <= lim → zlen (List.filter snd (granted k r reasons)) =
      Z.min (lim - k) (zlen (List.filter (λ e, negb (f e)) reasons))) as Hg.
    { clear E. induction reasons as [|e es IH]; intros k Hk.
      { unfold zlen. simpl. lia. }
      cbn [granted List.filter]. unfold passes; simpl. destruct (f e); simpl.
      - by apply IH.
      - destruct (Z.ltb_spec k lim); simpl.
        + rewrite (zlen_cons e), zlen_cons, IH by lia. lia.
        + rewrite IH, (zlen_cons e) by lia. pose proof (zlen_nonneg (List.filter (λ e, negb (f e)) es)).
          lia. }
    change (count r) with 0. rewrite Hg by lia. f_equal. lia.
Qed.

Lemma Retrier_grants_witness :
  0 <= 2 < 2 ^ 63 ∧
  fst (retry_all [EEOF; ECanceled; EDeadline; EEOF]
    (Filter (λ e, bool_decide (e = ECanceled)) (NewRetrier 2 LinearD))) =
    [(6000000000, true); (0, false); (11000000000, true); (0, false)].
Proof.
  split; [lia|].
  rewrite (proj1 (Retrier_grants 2 LinearD (λ e, bool_decide (e = ECanceled))
    [EEOF; ECanceled; EDeadline; EEOF] [] ltac:(lia))). by vm_compute.
Defined.

(** ** Keep-alive *)
Module KeepAlive.
(** The [stoped] flag, the interval, the time of the last packet, the clock, the pings sent
    (their times) and the timers: each pending [run], with the time it is due.  [Start]
    spawns one [run], due at once; a [run] that is not stopped arms the next. *)
Record KeepAlive := mkKeepAlive {
  interval : Z; stoped : bool; lastPacketTime : Z; now : Z;
  pings : list Z; timers : list Z }.

Definition New (interval now : Z) : KeepAlive :=
  mkKeepAlive interval true now now [] [].

Definition Start (k : KeepAlive) : KeepAlive :=
  if stoped k
  then mkKeepAlive (interval k) false (lastPacketTime k) (now k) (pings k) (now k :: timers k)
  else k.

Definition Stop (k : KeepAlive) : KeepAlive :=
  mkKeepAlive (interval k) true (lastPacketTime k) (now k) (pings k) (timers k).

Definition UpdateTime (k : KeepAlive) : KeepAlive :=
  mkKeepAlive (interval k) (stoped k) (now k) (now k) (pings k) (timers k).

Definition sendPing (k : KeepAlive) : KeepAlive :=
  if i64 (now k - lastPacketTime k) <? interval k then k
  else mkKeepAlive (interval k) (stoped k) (lastPacketTime k) (now k) (pings k ++ [now k])
         (timers k).

(** The [i]-th timer fires, when it is due. *)
Definition run (i : nat) (k : KeepAlive) : option KeepAlive :=
  match timers k !! i with
  | Some due =>
      if due <=? now k then
        let k := mkKeepAlive (interval k) (stoped k) (lastPacketTime k) (now k) (pings k)
                   (delete i (timers k)) in
        if stoped k then Some k
        else
          let k := sendPing k in
          Some (mkKeepAlive (interval k) (stoped k) (lastPacketTime k) (now k) (pings k)
                  (now k + interval k :: timers k))
      else None
  | None => None
  end.

Definition tick (t : Z) (k : KeepAlive) : KeepAlive :=
  mkKeepAlive (interval k) (stoped k) (lastPacketTime k) (now k + t) (pings k) (timers k).

Inductive step : KeepAlive → KeepAlive → Prop :=
| step_start k : step k (Start k)
| step_stop k : step k (Stop k)
| step_update k : step k (UpdateTime k)
| step_tick t k : 0 < t → step k (tick t k)
| step_run i k k' : run i k = Some k' → step k k'.

(** As long as [Stop] is not called there is at most one chain of timers. *)
Inductive step_running : KeepAlive → KeepAlive → Prop :=
| running_start k : step_running k (Start k)
| running_update k : step_running k (UpdateTime k)
| running_tick t k : 0 < t → step_running k (tick t k)
| running_run i k k' : run i k = Some k' → step_running k k'.

Definition one_chain (k : KeepAlive) : Prop :=
  length (timers k) = if stoped k then 0%nat else 1%nat.

Lemma sendPing_fields k :
  stoped (sendPing k) = stoped k ∧ timers (sendPing k) = timers k ∧
  interval (sendPing k) = interval k ∧ now (sendPing k) = now k.
Proof. unfold sendPing. by destruct (_ <? _). Qed.

Lemma one_chain_step k k' : one_chain k → step_running k k' → one_chain k'.
Proof.
  unfold one_chain. intros Hk. inversion 1 as [|?|t ? Ht|i ? ? E]; subst; simpl; [|done|done|].
  - unfold Start. destruct (stoped k) eqn:Es; simpl; [by rewrite Hk|by rewrite Es].
  - unfold run in E. destruct (timers k !! i) as [due|] eqn:Et; [|done].
    destruct (due <=? now k); [|done]. cbn [stoped] in E.
    apply lookup_lt_Some in Et as Hlt.
    destruct (stoped k) eqn:Es; [rewrite Hk in Hlt; lia|]. injection E as <-. cbn [stoped timers].
    destruct (sendPing_fields (mkKeepAlive (interval k) false (lastPacketTime k) (now k) (pings k)
      (delete i (timers k)))) as (-> & -> & _ & _). cbn [stoped timers length].
    rewrite length_delete by eauto. rewrite Hk. done.
Qed.

(** Until [Stop] is called there is exactly one pending timer while
    the keep-alive runs and none before.  But [Stop] does not cancel the pending timer and
    [Start] spawns a new one, so from any started keep-alive, a [Stop] followed by a [Start]
    leaves one chain of timers more, and each of the chains keeps re-arming itself. *)
Theorem timer_chains (interval now0 : Z) :
  (∀ k, steps step_running (New interval now0) k →
     length (timers k) = if stoped k then 0%nat else 1%nat) ∧
  (∀ k, stoped k = false →
     length (timers (Start (Stop k))) = S (length (timers k)) ∧ stoped (Start (Stop k)) = false) ∧
  (∀ k k' i, stoped k = false → run i k = Some k' →
     length (timers k') = length (timers k) ∧ stoped k' = false).
Proof.
  split_and!.
  - intros k Hs. by refine (steps_invariant _ one_chain one_chain_step _ _ _ Hs).
  - intros k Hk. done.
  - intros k k' i Hk E. unfold run in E. destruct (timers k !! i) as [due|] eqn:Et; [|done].
    destruct (due <=? now k); [|done]. cbn [stoped] in E. rewrite Hk in E.
    injection E as <-. cbn [stoped timers].
    destruct (sendPing_fields (mkKeepAlive (KeepAlive.interval k) false (lastPacketTime k) (now k)
      (pings k) (delete i (timers k)))) as (-> & -> & _ & _). cbn [stoped timers length].
    split; [|done]. rewrite length_delete by eauto. apply lookup_lt_Some in Et. lia.
Qed.

Lemma timer_chains_witness :
  length (timers (Start (Stop (Start (New 5 0))))) = 2%nat.
Proof.
  destruct (timer_chains 5 0) as (_ & H & _).
  rewrite (proj1 (H (Start (New 5 0)) ltac:(done))). done.
Defined.
End KeepAlive.
