(* ===== verification/Float.v ===== *)
(** * Floating-point numbers (float64)

    Go's [float64] is IEEE 754 binary64; the operations are those of the Standard Library's
    [SpecFloat] at 53 bits of precision and exponents below 1024, which round to the nearest,
    ties to even.  [Pow] follows math/pow.go of Go's standard library for an integral exponent,
    the only ones the program uses. *)
From S2P Require Import Prelude.
From Stdlib Require Import Floats.SpecFloat.

Definition float64 : Type := spec_float.

#[export] Instance float64_eq_dec : EqDecision float64.
Proof. unfold float64. solve_decision. Defined.

(** [float64(z)]. *)
Definition f64_of (z : Z) : float64 := binary_normalize 53 1024 z 0 false.

Definition f64_add : float64 → float64 → float64 := SFadd 53 1024.
Definition f64_sub : float64 → float64 → float64 := SFsub 53 1024.
Definition f64_mul : float64 → float64 → float64 := SFmul 53 1024.
Definition f64_div : float64 → float64 → float64 := SFdiv 53 1024.

(** The integral part, toward zero; none of an infinity or NaN. *)
Definition f64_trunc (x : float64) : option Z :=
  match x with
  | S754_zero _ => Some 0
  | S754_finite s m e =>
      let z := if 0 <=? e then Z.pos m * 2 ^ e else Z.pos m / 2 ^ (- e) in
      Some (if s then - z else z)
  | _ => None
  end.

(** [int64(x)]: what a value out of range becomes depends on the machine. *)
Class FloatToInt := { out_of_range : float64 → Z }.

Definition i64_of_f64 `{!FloatToInt} (x : float64) : Z :=
  match f64_trunc x with
  | Some z => if decide (inS 64 z) then z else out_of_range x
  | None => out_of_range x
  end.

(** Two machines: amd64 gives the least integer, arm64 the nearest one. *)
Definition amd64 : FloatToInt := {| out_of_range := λ _, - 2 ^ 63 |}.
Definition arm64 : FloatToInt := {|
  out_of_range := λ x,
    match x with
    | S754_nan => 0
    | S754_infinity s | S754_zero s => if s then - 2 ^ 63 else 2 ^ 63 - 1
    | S754_finite s _ _ => if s then - 2 ^ 63 else 2 ^ 63 - 1
    end |}.

Definition f64_half : float64 := f64_div (f64_of 1) (f64_of 2).

(** The loop of [Pow] over the bits of the exponent: the result is [a1 * 2^ae], [x1 * 2^xe] the
    current power of the base.  An exponent has at most 64 bits. *)
Fixpoint pow_loop (bits : nat) (i : Z) (a1 : float64) (ae : Z) (x1 : float64) (xe : Z) : float64 * Z :=
  match bits with
  | O => (a1, ae)
  | S bits =>
      if i =? 0 then (a1, ae)
      else if (xe <? - 2 ^ 12) || (2 ^ 12 <? xe) then (a1, ae + xe)
      else
        let '(a1, ae) := if Z.odd i then (f64_mul a1 x1, ae + xe) else (a1, ae) in
        let x1 := f64_mul x1 x1 in
        let '(x1, xe) := if SFltb x1 f64_half then (f64_add x1 x1, 2 * xe - 1) else (x1, 2 * xe) in
        pow_loop bits (i / 2) a1 ae x1 xe
  end.

(** The general case: a finite base other than 0 and 1, an exponent other than 0 and 1. *)
Definition pow_finite (x : float64) (y : Z) : float64 :=
  if 2 ^ 63 <=? Z.abs y then
    if SFeqb x (f64_of (-1)) then f64_of 1
    else if Bool.eqb (SFltb (SFabs x) (f64_of 1)) (0 <? y) then f64_of 0
    else S754_infinity false
  else
    let '(x1, xe) := SFfrexp 53 1024 x in
    let '(a1, ae) := pow_loop 64 (Z.abs y) (f64_of 1) 0 x1 xe in
    if y <? 0 then SFldexp 53 1024 (f64_div (f64_of 1) a1) (- ae) else SFldexp 53 1024 a1 ae.

Definition pow_zero (s : bool) (y : Z) : float64 :=
  let s := s && Z.odd y in
  if y <? 0 then S754_infinity s else S754_zero s.

(** [math.Pow(x, y)] for an integral [y]. *)
Definition Pow (x : float64) (y : Z) : float64 :=
  if (y =? 0) || SFeqb x (f64_of 1) then f64_of 1
  else if y =? 1 then x
  else match x with
       | S754_nan => S754_nan
       | S754_zero s => pow_zero s y
       | S754_infinity false => if y <? 0 then f64_of 0 else S754_infinity false
       | S754_infinity true => pow_zero true (- y)
       | S754_finite _ _ _ => pow_finite x y
       end.

(** [Pow(x, float64(count))]: large counts are rounded first. *)
Definition Pow_count (x : float64) (count : Z) : float64 :=
  Pow x (default 0 (f64_trunc (f64_of count))).

(** ** Facts *)

(** Integers of at most 53 bits are converted exactly; a product that fits is exact. *)
Lemma Pow_two_exact : Forall (λ n, Pow_count (f64_of 2) n = f64_of (2 ^ n)) (seqZ 0 64).
Proof. vm_decide. Qed.

Lemma Pow_three_halves_exact :
  Forall (λ n, f64_mul (Pow_count (f64_div (f64_of 3) (f64_of 2)) n) (f64_of (2 ^ n)) = f64_of (3 ^ n)) (seqZ 0 34).
Proof. vm_decide. Qed.

Lemma Pow_negative : Pow_count (f64_of 2) (-3) = f64_div (f64_of 1) (f64_of 8).
Proof. done. Qed.
