(* ===== verification/Backoff.v ===== *)
(** * Backoff strategies on floating-point numbers (src/backoff/backoff.go)

    The exponential and the random strategy as further instances of the interface [Backoff] of
    [Retry].  The default retrier of a client (src/client/options.go) pauses exponentially. *)
From S2P Require Import Prelude Errors Retry Float.

Record exponentialBackoff := mkExponential { exp_base : Z; exponent : float64 }.

Definition Exponential (b : Z) (e : float64) : exponentialBackoff := mkExponential b e.

Definition ExponentialD : exponentialBackoff := Exponential Second (f64_of 2).

Definition Default : exponentialBackoff := ExponentialD.

Record randomBackoff := mkRandom { rand_min : Z; rand_max : Z }.

Definition Random (mn mx : Z) : randomBackoff := mkRandom mn mx.

Definition RandomD : randomBackoff := Random (Second * 2) (Second * 5).

(** [rand.Float64()] is a multiple of [2^-53] below 1: [draw] is its numerator. *)
Definition rand_Float64 (draw : Z) : float64 := f64_div (f64_of draw) (f64_of (2 ^ 53)).

Section strategies.
Context `{!FloatToInt}.

(** [time.Duration(float64(b.base) * math.Pow(b.exponent, float64(count)))]. *)
Definition exponential_Next (b : exponentialBackoff) (count : Z) : Z :=
  i64_of_f64 (f64_mul (f64_of (exp_base b)) (Pow_count (exponent b) count)).

#[export] Instance exponential_Backoff : Backoff exponentialBackoff := {| Next := exponential_Next |}.

(** [time.Duration(float64(b.min) + float64(b.max-b.min)*rand.Float64())], given the draws. *)
Definition random_Next (draw : Z → Z) (b : randomBackoff) (count : Z) : Z :=
  i64_of_f64 (f64_add (f64_of (rand_min b))
    (f64_mul (f64_of (i64 (rand_max b - rand_min b))) (rand_Float64 (draw count)))).
End strategies.

(** ** The default retrier of a client *)
Definition three_halves : float64 := f64_div (f64_of 3) (f64_of 2).

Definition client_backoff : exponentialBackoff := Exponential Second three_halves.

(** The pauses before the attempts 1 to 10: [1.5^k] seconds, to the nanosecond below. *)
Definition pauses : list Z := (λ k, Second * 3 ^ k / 2 ^ k) <$> seqZ 1 10.

Section pauses.
Context `{!FloatToInt}.

Lemma f64_in_range x z : f64_trunc x = Some z → inS 64 z → i64_of_f64 x = z.
Proof. intros E Hz. unfold i64_of_f64. rewrite E. by rewrite decide_True. Qed.

Lemma pauses_Next : Forall (λ k, pauses !! Z.to_nat k = Some (exponential_Next client_backoff (k + 1))) (seqZ 0 10).
Proof.
  assert (Forall (λ k, pauses !! Z.to_nat k =
      f64_trunc (f64_mul (f64_of Second) (Pow_count three_halves (k + 1))) ∧
    inS 64 (default 0 (pauses !! Z.to_nat k)) ∧ is_Some (pauses !! Z.to_nat k)) (seqZ 0 10)) as Hn by vm_decide.
  eapply Forall_impl; [exact Hn|]. intros k (E & Hr & [z Ez]). rewrite Ez in E, Hr |- *.
  f_equal. symmetry. by apply f64_in_range.
Qed.

Lemma granted_pauses r es : filter_fn r = None → limit r = 10 → backoff r = client_backoff →
  ∀ k, 0 <= k <= 10 →
  granted k r es = ((λ d, (d, true)) <$> take (length es) (drop (Z.to_nat k) pauses)) ++
                   replicate (length es - (10 - Z.to_nat k)) (0, false).
Proof.
  intros Hf Hl Hb. induction es as [|e es IH]; intros k Hk; [done|]. cbn [granted length].
  unfold passes. rewrite Hf, Hl. cbn [andb]. destruct (Z.ltb_spec k 10).
  - assert (pauses !! Z.to_nat k = Some (exponential_Next client_backoff (k + 1))) as E.
    { pose proof pauses_Next as Hn. rewrite Forall_forall in Hn. apply Hn, elem_of_seqZ. lia. }
    rewrite (drop_S _ _ _ E). rewrite IH by lia. rewrite Hb. cbn [take fmap list_fmap app].
    replace (Z.to_nat (k + 1)) with (S (Z.to_nat k)) by lia. f_equal. f_equal. f_equal. lia.
  - rewrite IH by done. replace k with 10 by lia.
    replace (drop (Z.to_nat 10) pauses) with (@nil Z) by done. rewrite !take_nil. cbn [fmap list_fmap app].
    replace (S (length es) - (10 - Z.to_nat 10))%nat with (S (length es)) by lia.
    by replace (length es - (10 - Z.to_nat 10))%nat with (length es) by lia.
Qed.
End pauses.

(** C40 (the pauses of a client): on any machine, the retrier a client has by default answers the
    first ten failures with 1.5, 2.25, ... seconds, the exact powers of 1.5 cut to nanoseconds,
    and refuses every further one; each pause is 1.5 times the one before, up to a nanosecond, and
    together they are less than three minutes. *)
Theorem client_pauses `{!FloatToInt} (reasons : list error) :
  fst (retry_all reasons (NewRetrier 10 client_backoff)) =
    ((λ d, (d, true)) <$> take (length reasons) pauses) ++
    replicate (length reasons - 10) (0, false) ∧
  Forall (λ x, 3 * x.1 - 2 <= 2 * x.2 <= 3 * x.1 + 1) (zip pauses (tail pauses)) ∧
  foldr Z.add 0 pauses < 180 * Second.
Proof.
  split_and!; [|vm_decide|vm_decide].
  destruct (retry_all_granted reasons (NewRetrier 10 client_backoff)) as (-> & _); [done|done|].
  rewrite (granted_pauses _ reasons) by done. done.
Qed.

(** The default strategy: [2^count] seconds for at most 33 attempts.  From 34 attempts on the
    product is out of the range of a duration: on amd64 the pause is negative, so there is none. *)
Theorem Default_pauses :
  (∀ (M : FloatToInt) k, 0 <= k <= 33 → exponential_Next Default k = Second * 2 ^ k) ∧
  (∀ k, 34 <= k < 1100 → @exponential_Next amd64 Default k = - 2 ^ 63 ∧
     @exponential_Next arm64 Default k = 2 ^ 63 - 1).
Proof.
  assert (Forall (λ k, f64_trunc (f64_mul (f64_of Second) (Pow_count (f64_of 2) k)) = Some (Second * 2 ^ k) ∧
    inS 64 (Second * 2 ^ k)) (seqZ 0 34)) as H1 by vm_decide.
  assert (Forall (λ k, @exponential_Next amd64 Default k = - 2 ^ 63 ∧
    @exponential_Next arm64 Default k = 2 ^ 63 - 1) (seqZ 34 1066)) as H2 by vm_decide.
  rewrite Forall_forall in H1, H2. split.
  - intros M k Hk. destruct (H1 k) as [E Hr]; [apply elem_of_seqZ; lia|]. by apply f64_in_range.
  - intros k Hk. apply H2, elem_of_seqZ. lia.
Qed.

(** The least and the greatest draw of the default random strategy give its two bounds: the greatest
    draw is below 1, the sum is rounded up. *)
Example RandomD_bounds (M : FloatToInt) count :
  random_Next (λ _, 0) RandomD count = 2 * Second ∧
  random_Next (λ _, 2 ^ 53 - 1) RandomD count = 5 * Second.
Proof. split; (eapply f64_in_range; [vm_compute; reflexivity|vm_decide]). Qed.
