(* ===== verification/RaftOps.v ===== *)
(** * The replicated operations (src/cluster/cluster_raft.go, operation types)

    The four operations the brokers agree on through the raft log, their encodings and the two
    ends of the log: the bytes [SubmitOperation] proposes and the dispatch of [applyRaftOp]. *)
From S2P Require Import Prelude Errors Coder.

(** ** Operation types *)
Definition optypeUserOpened : uint8 := x00.
Definition optypeUserClosed : uint8 := x01.
Definition optypeJoinChannel : uint8 := x02.
Definition optypeLeaveChannel : uint8 := x03.

Record userOpenedOp := mkUserOpened {
  opened_uid : string; opened_cid : string; opened_net : string; opened_nodeID : Z;
  opened_channels : gmap string string }.

Record userClosedOp := mkUserClosed {
  closed_uid : string; closed_cid : string; closed_nodeID : Z }.

Record joinChannelOp := mkJoin { join_uid : string; join_channels : gmap string string }.

Record leaveChannelOp := mkLeave { leave_uid : string; leave_channels : gmap string string }.

(** A value of the [opdata] interface. *)
Inductive opdata :=
| OpOpened (op : userOpenedOp)
| OpClosed (op : userClosedOp)
| OpJoin (op : joinChannelOp)
| OpLeave (op : leaveChannelOp).

#[export] Instance userOpenedOp_eq_dec : EqDecision userOpenedOp.
Proof. solve_decision. Defined.
#[export] Instance userClosedOp_eq_dec : EqDecision userClosedOp.
Proof. solve_decision. Defined.
#[export] Instance joinChannelOp_eq_dec : EqDecision joinChannelOp.
Proof. solve_decision. Defined.
#[export] Instance leaveChannelOp_eq_dec : EqDecision leaveChannelOp.
Proof. solve_decision. Defined.
#[export] Instance opdata_eq_dec : EqDecision opdata.
Proof. solve_decision. Defined.

(** The [opt] methods. *)
Definition opt (op : opdata) : uint8 :=
  match op with
  | OpOpened _ => optypeUserOpened
  | OpClosed _ => optypeUserClosed
  | OpJoin _ => optypeJoinChannel
  | OpLeave _ => optypeLeaveChannel
  end.

Section codecs.
Context `{!GoRange string}.

Definition userOpened_WriteTo (op : userOpenedOp) (e : encoder) : outcome error encoder :=
  let e := WriteString e (opened_uid op) in
  let e := WriteString e (opened_cid op) in
  let e := WriteString e (opened_net op) in
  let e := WriteUInt64 e (opened_nodeID op) in
  Ok (WriteStrMap e (opened_channels op)).

Definition userOpened_ReadFrom : D userOpenedOp :=
  uid <-- ReadString;
  cid <-- ReadString;
  net <-- ReadString;
  nodeID <-- ReadUInt64;
  channels <-- ReadStrMap;
  dret (mkUserOpened uid cid net nodeID channels).

Definition userClosed_WriteTo (op : userClosedOp) (e : encoder) : outcome error encoder :=
  let e := WriteString e (closed_uid op) in
  let e := WriteString e (closed_cid op) in
  Ok (WriteUInt64 e (closed_nodeID op)).

Definition userClosed_ReadFrom : D userClosedOp :=
  uid <-- ReadString;
  cid <-- ReadString;
  nodeID <-- ReadUInt64;
  dret (mkUserClosed uid cid nodeID).

Definition joinChannel_WriteTo (op : joinChannelOp) (e : encoder) : outcome error encoder :=
  Ok (WriteStrMap (WriteString e (join_uid op)) (join_channels op)).

Definition joinChannel_ReadFrom : D joinChannelOp :=
  uid <-- ReadString;
  channels <-- ReadStrMap;
  dret (mkJoin uid channels).

Definition leaveChannel_WriteTo (op : leaveChannelOp) (e : encoder) : outcome error encoder :=
  Ok (WriteStrMap (WriteString e (leave_uid op)) (leave_channels op)).

Definition leaveChannel_ReadFrom : D leaveChannelOp :=
  uid <-- ReadString;
  channels <-- ReadStrMap;
  dret (mkLeave uid channels).

#[export] Instance userOpened_Codable : Codable userOpenedOp :=
  {| WriteTo := userOpened_WriteTo; ReadFrom := userOpened_ReadFrom |}.
#[export] Instance userClosed_Codable : Codable userClosedOp :=
  {| WriteTo := userClosed_WriteTo; ReadFrom := userClosed_ReadFrom |}.
#[export] Instance joinChannel_Codable : Codable joinChannelOp :=
  {| WriteTo := joinChannel_WriteTo; ReadFrom := joinChannel_ReadFrom |}.
#[export] Instance leaveChannel_Codable : Codable leaveChannelOp :=
  {| WriteTo := leaveChannel_WriteTo; ReadFrom := leaveChannel_ReadFrom |}.

(** [op.WriteTo] through the interface. *)
Definition op_WriteTo (op : opdata) (e : encoder) : outcome error encoder :=
  match op with
  | OpOpened op => WriteTo op e
  | OpClosed op => WriteTo op e
  | OpJoin op => WriteTo op e
  | OpLeave op => WriteTo op e
  end.

(** [SubmitOperation]: the bytes handed to [raft.Propose]; the results of [WriteTo] and of
    [Propose] are discarded, so only a missing node is an error. *)
Definition SubmitOperation (started : bool) (choice : nat) (pool : enc_pool) (op : opdata)
  : outcome error bytes * enc_pool :=
  if negb started then (Err (EXerr RaftNodeNotReady), pool)
  else
    let '(ec, pool) := NewEncoder choice pool in
    let ec := WriteUInt8 ec (opt op) in
    match op_WriteTo op ec with
    | Ok ec => let '(data, pool) := Pick ec pool in (Ok data, pool)
    | Err _ => let '(data, pool) := Pick ec pool in (Ok data, pool)
    | Panic w => (Panic w, pool)
    end.

(** The operation [applyRaftOp] decodes before it calls the broker; an error is logged and the
    entry skipped.  [data[0]] and [data[1:]] of an empty entry panic. *)
Definition decodeRaftOp (data : bytes) : outcome error opdata :=
  match data with
  | [] => Panic IndexRange
  | t :: data =>
      if decide (t = optypeUserOpened) then omap_ok OpOpened (coder_Unmarshal data)
      else if decide (t = optypeUserClosed) then omap_ok OpClosed (coder_Unmarshal data)
      else if decide (t = optypeJoinChannel) then omap_ok OpJoin (coder_Unmarshal data)
      else if decide (t = optypeLeaveChannel) then omap_ok OpLeave (coder_Unmarshal data)
      else Err (EOther "Unknown operation type")
  end.

(** ** Well-formed operations *)
Definition strmap_wf (m : gmap string string) : Prop :=
  Z.of_nat (size m) < 2 ^ 63 ∧ map_Forall (λ k _, short_string k) m ∧ short_map m.

Definition op_wf (op : opdata) : Prop :=
  match op with
  | OpOpened op =>
      short_string (opened_uid op) ∧ short_string (opened_cid op) ∧
      short_string (opened_net op) ∧ inU 64 (opened_nodeID op) ∧ strmap_wf (opened_channels op)
  | OpClosed op =>
      short_string (closed_uid op) ∧ short_string (closed_cid op) ∧ inU 64 (closed_nodeID op)
  | OpJoin op => short_string (join_uid op) ∧ strmap_wf (join_channels op)
  | OpLeave op => short_string (leave_uid op) ∧ strmap_wf (leave_channels op)
  end.

#[export] Instance strmap_wf_dec m : Decision (strmap_wf m).
Proof. unfold strmap_wf. apply _. Defined.
#[export] Instance op_wf_dec op : Decision (op_wf op).
Proof. destruct op; simpl; apply _. Defined.

Lemma write_map m e : strmap_wf m → WriteStrMap e m = mkEncoder (ebuf e ++ enc_strmap m).
Proof. intros (? & ? & ?). by apply write_strmap. Qed.

Lemma read_map {A} (k : gmap string string → A) m : strmap_wf m →
  reads (m <-- ReadStrMap; dret (k m)) (enc_strmap m) (k m).
Proof. intros (? & ? & ?). apply (reads_bind_ret _ k). by apply reads_ReadStrMap. Qed.

(** The bytes of an operation after its type. *)
Definition op_body (op : opdata) : bytes :=
  match op with
  | OpOpened op =>
      enc_string (opened_uid op) ++ enc_string (opened_cid op) ++ enc_string (opened_net op) ++
      be_bytes 8 (opened_nodeID op) ++ enc_strmap (opened_channels op)
  | OpClosed op =>
      enc_string (closed_uid op) ++ enc_string (closed_cid op) ++ be_bytes 8 (closed_nodeID op)
  | OpJoin op => enc_string (join_uid op) ++ enc_strmap (join_channels op)
  | OpLeave op => enc_string (leave_uid op) ++ enc_strmap (leave_channels op)
  end.

#[export] Program Instance userOpened_laws : CodableLaws userOpenedOp := {|
  enc_wf op := op_wf (OpOpened op); enc_of op := op_body (OpOpened op) |}.
Next Obligation.
  intros [u c n i m] e (Hu & Hc & Hn & Hi & Hm); simpl in *. unfold WriteTo; simpl.
  unfold userOpened_WriteTo; simpl. rewrite !write_string, write_map by done.
  unfold WriteUInt64; simpl. by rewrite <-!app_assoc.
Qed.
Next Obligation.
  intros [u c n i m] (Hu & Hc & Hn & Hi & Hm). apply reads_end_of_reads.
  apply (reads_dbind _ _ _ _ _ _ (reads_ReadString u Hu)).
  apply (reads_dbind _ _ _ _ _ _ (reads_ReadString c Hc)).
  apply (reads_dbind _ _ _ _ _ _ (reads_ReadString n Hn)).
  apply (reads_dbind _ _ _ _ _ _ (reads_ReadUInt64 i Hi)).
  by apply (read_map (mkUserOpened u c n i)).
Qed.

#[export] Program Instance userClosed_laws : CodableLaws userClosedOp := {|
  enc_wf op := op_wf (OpClosed op); enc_of op := op_body (OpClosed op) |}.
Next Obligation.
  intros [u c i] e (Hu & Hc & Hi); simpl in *. unfold WriteTo; simpl.
  unfold userClosed_WriteTo; simpl. rewrite !write_string by done.
  unfold WriteUInt64; simpl. by rewrite <-!app_assoc.
Qed.
Next Obligation.
  intros [u c i] (Hu & Hc & Hi). apply reads_end_of_reads.
  apply (reads_dbind _ _ _ _ _ _ (reads_ReadString u Hu)).
  apply (reads_dbind _ _ _ _ _ _ (reads_ReadString c Hc)).
  by apply (reads_bind_ret _ (mkUserClosed u c)), reads_ReadUInt64.
Qed.

#[export] Program Instance joinChannel_laws : CodableLaws joinChannelOp := {|
  enc_wf op := op_wf (OpJoin op); enc_of op := op_body (OpJoin op) |}.
Next Obligation.
  intros [u m] e (Hu & Hm); simpl in *. unfold WriteTo; simpl. unfold joinChannel_WriteTo; simpl.
  rewrite write_string, write_map by done. simpl. by rewrite <-app_assoc.
Qed.
Next Obligation.
  intros [u m] (Hu & Hm). apply reads_end_of_reads.
  apply (reads_dbind _ _ _ _ _ _ (reads_ReadString u Hu)). by apply (read_map (mkJoin u)).
Qed.

#[export] Program Instance leaveChannel_laws : CodableLaws leaveChannelOp := {|
  enc_wf op := op_wf (OpLeave op); enc_of op := op_body (OpLeave op) |}.
Next Obligation.
  intros [u m] e (Hu & Hm); simpl in *. unfold WriteTo; simpl. unfold leaveChannel_WriteTo; simpl.
  rewrite write_string, write_map by done. simpl. by rewrite <-app_assoc.
Qed.
Next Obligation.
  intros [u m] (Hu & Hm). apply reads_end_of_reads.
  apply (reads_dbind _ _ _ _ _ _ (reads_ReadString u Hu)). by apply (read_map (mkLeave u)).
Qed.

(** The entry proposed for an operation. *)
Definition op_entry (op : opdata) : bytes := opt op :: op_body op.

Lemma SubmitOperation_entry choice pool op : pool_wf pool → op_wf op →
  fst (SubmitOperation true choice pool op) = Ok (op_entry op) ∧
  pool_wf (snd (SubmitOperation true choice pool op)).
Proof.
  intros Hpool Hop. destruct (NewEncoder_spec choice pool Hpool) as [E Hpool'].
  unfold SubmitOperation. cbn [negb]. destruct (NewEncoder choice pool) as [e pool1].
  simpl in E, Hpool'. subst e.
  assert (op_WriteTo op (WriteUInt8 (mkEncoder []) (opt op)) = Ok (mkEncoder (op_entry op))) as ->.
  { destruct op as [op|op|op|op]; exact (write_enc op _ Hop). }
  split; [done|by apply pool_wf_free].
Qed.

Lemma decodeRaftOp_entry op : op_wf op → zlen (op_body op) < 2 ^ 63 →
  decodeRaftOp (op_entry op) = Ok op.
Proof.
  intros Hop Hl. unfold decodeRaftOp, op_entry.
  destruct op as [op|op|op|op]; cbn [opt]; pose proof (coder_Unmarshal_enc op Hop Hl) as E;
    repeat (rewrite decide_True by done || rewrite decide_False by done);
    change (op_body _) with (enc_of op); by rewrite E.
Qed.
End codecs.

(** ** Properties of the replicated log entries *)

(** C19 (log entries): on a started node, [SubmitOperation] proposes for every well-formed
    operation one entry, whatever pooled encoder it uses, and [applyRaftOp] decodes exactly
    that operation from the entry, even on a replica that iterates over maps in another
    order; without a node it returns RaftNodeNotReady. *)
Theorem operation_roundtrip (R1 R2 : GoRange string) choice pool op :
  pool_wf pool → op_wf op → zlen (@op_body R1 op) < 2 ^ 63 →
  (∃ data pool', @SubmitOperation R1 true choice pool op = (Ok data, pool') ∧ pool_wf pool' ∧
     data ≠ [] ∧ @decodeRaftOp R2 data = Ok op) ∧
  @SubmitOperation R1 false choice pool op = (Err (EXerr RaftNodeNotReady), pool).
Proof.
  intros Hpool Hop Hl. split; [|done].
  destruct (@SubmitOperation_entry R1 choice pool op Hpool Hop) as [E Hpool'].
  destruct (@SubmitOperation R1 true choice pool op) as [m pool']. simpl in *. subst m.
  exists (@op_entry R1 op), pool'. split_and!; [done|done|done|].
  by apply (@decodeRaftOp_entry R1).
Qed.

Definition sample_op : opdata :=
  OpOpened (mkUserOpened "alice" "phone" "tcp" 7 {["news" := ""; "sport" := "x"]}).

Lemma operation_roundtrip_witness :
  op_wf sample_op ∧
  (∃ data pool', @SubmitOperation range_backward true 0 [] sample_op = (Ok data, pool') ∧
     pool_wf pool' ∧ data ≠ [] ∧ @decodeRaftOp range_forward data = Ok sample_op).
Proof.
  split; [vm_decide|]. apply (operation_roundtrip range_backward range_forward 0 [] sample_op);
    [by constructor|vm_decide|by vm_compute].
Defined.
