(* ===== verification/Registry.v ===== *)
(** * The replicated registry of a broker (src/cluster/broker.go, replicated state)

    The three tables of [broker] that the raft log keeps equal on all nodes: user clients,
    channel clients and client channels, each an [RMap] from broker ids to [KeyMap]s.  The four
    operations are the broker's methods statement by statement; the specification is the set of
    lookups of the tables.  Go maps are iterated in an arbitrary order. *)
From S2P Require Import Prelude Errors Coder Safe RaftOps.

(** ** Tables: [safe.RMap[uint64, *safe.KeyMap[T]]] *)
Section table.
Context {T : Type}.

Abbreviation table := (RMap Z (@KeyMap T)).

(** [m.GetOrSet(id, &safe.KeyMap[T]{})]: the pointer found or stored. *)
Definition table_GetOrSet (id : Z) (t : table) : @KeyMap T * table :=
  let '((km, _), t) := RMap_GetOrSet id KeyMap_empty t in (km, t).

(** Writing through the pointer of node [id]. *)
Definition table_put (id : Z) (km : @KeyMap T) (t : table) : table :=
  mkRMap (<[id := km]> (rm t)) (rl t).

(** The entry of a node, key and field, and the nodes that have a [KeyMap]. *)
Definition t_get (t : table) (n : Z) (k f : string) : option T :=
  rm t !! n ≫= λ km, GetKey k f km.

Definition t_nodes (t : table) : gset Z := dom (rm t).

(** The fields of a key. *)
Definition t_fields (t : table) (n : Z) (k : string) : gmap string T :=
  from_option mm ∅ (rm t !! n ≫= RMap_Get k).

Definition table_wf (t : table) : Prop := RMap_wf t ∧ map_Forall (λ _ km, KeyMap_wf km) (rm t).

Definition table_small (t : table) : Prop := map_Forall (λ _ km, KeyMap_small km) (rm t).

#[export] Instance table_small_dec t : Decision (table_small t).
Proof. unfold table_small. apply _. Defined.

Lemma t_fields_get t n k f : t_fields t n k !! f = t_get t n k f.
Proof.
  unfold t_fields, t_get, GetKey. destruct (rm t !! n) as [km|]; simpl; [|apply lookup_empty].
  destruct (RMap_Get k km); simpl; [done|apply lookup_empty].
Qed.

(** [GetOrSet] then a method of the [KeyMap]: what the broker does to the table of a node. *)
Definition table_modify (id : Z) (g : @KeyMap T → @KeyMap T) (t : table) : table :=
  let '(km, t) := table_GetOrSet id t in table_put id (g km) t.

Lemma rm_table_GetOrSet id t :
  fst (table_GetOrSet id t) = default KeyMap_empty (rm t !! id) ∧
  rm (snd (table_GetOrSet id t)) = <[id := default KeyMap_empty (rm t !! id)]> (rm t).
Proof.
  unfold table_GetOrSet. destruct (rm_GetOrSet id KeyMap_empty t) as [E1 E2].
  destruct (RMap_GetOrSet id KeyMap_empty t) as [[km b] t']. simpl in *.
  by injection E2 as ->.
Qed.

Lemma rm_table_modify id g t :
  rm (table_modify id g t) = <[id := g (default KeyMap_empty (rm t !! id))]> (rm t).
Proof.
  unfold table_modify. destruct (rm_table_GetOrSet id t) as [E1 E2].
  destruct (table_GetOrSet id t) as [km t']. simpl in *. subst km. rewrite E2.
  apply insert_insert_eq.
Qed.

Lemma GetKey_empty k f : GetKey (T := T) k f KeyMap_empty = None.
Proof. done. Qed.

Lemma t_get_modify id g t n k f :
  t_get (table_modify id g t) n k f =
    if decide (n = id) then GetKey k f (g (default KeyMap_empty (rm t !! id)))
    else t_get t n k f.
Proof.
  unfold t_get. rewrite rm_table_modify. destruct (decide (n = id)) as [->|Hn].
  - by rewrite lookup_insert_eq.
  - by rewrite lookup_insert_ne.
Qed.

Lemma t_get_default t n k f :
  GetKey k f (default KeyMap_empty (rm t !! n)) = t_get t n k f.
Proof. unfold t_get. by destruct (rm t !! n). Qed.

Lemma t_nodes_modify id g t : t_nodes (table_modify id g t) = {[id]} ∪ t_nodes t.
Proof. unfold t_nodes. by rewrite rm_table_modify, dom_insert_L. Qed.

Lemma RMap_wf_put id km t : RMap_wf t → is_Some (rm t !! id) → RMap_wf (table_put id km t).
Proof. intros Ht [km' E]. by eapply RMap_wf_insert_old. Qed.

Lemma table_wf_modify id g t : table_wf t →
  (∀ km, KeyMap_wf km → (km = KeyMap_empty ∨ rm t !! id = Some km) → KeyMap_wf (g km)) →
  table_wf (table_modify id g t).
Proof.
  intros [Hl Hk] Hg. split.
  - pose proof (RMap_wf_GetOrSet id KeyMap_empty t Hl) as Hw.
    destruct (rm_table_GetOrSet id t) as [E1 E2]. unfold table_modify, table_GetOrSet in *.
    destruct (RMap_GetOrSet id KeyMap_empty t) as [[km b] t']. simpl in *.
    apply RMap_wf_put; [done|]. rewrite E2, lookup_insert_eq. by eauto.
  - rewrite rm_table_modify. apply map_Forall_insert_2; [|done]. apply Hg.
    + destruct (rm t !! id) eqn:E; simpl; [by eapply Hk|apply KeyMap_wf_empty].
    + destruct (rm t !! id) eqn:E; simpl; auto.
Qed.

Lemma table_wf_empty : table_wf RMap_empty.
Proof. split; [done|apply map_Forall_empty]. Qed.

Lemma table_wf_Delete id t : table_wf t → table_wf (snd (RMap_Delete id t)).
Proof.
  intros [Hl Hk]. split; [by apply RMap_wf_Delete|].
  rewrite rm_Delete. by apply map_Forall_delete.
Qed.

Lemma t_get_Delete id t n k f :
  t_get (snd (RMap_Delete id t)) n k f = if decide (n = id) then None else t_get t n k f.
Proof.
  unfold t_get. rewrite rm_Delete. destruct (decide (n = id)) as [->|Hn].
  - by rewrite lookup_delete_eq.
  - by rewrite lookup_delete_ne.
Qed.

(** Well-formed tables are determined by their nodes and their lookups. *)
Lemma table_ext (t1 t2 : table) : table_wf t1 → table_wf t2 → t_nodes t1 = t_nodes t2 →
  (∀ n k f, t_get t1 n k f = t_get t2 n k f) → t1 = t2.
Proof.
  intros [Hl1 Hk1] [Hl2 Hk2] Hn Hg.
  assert (rm t1 = rm t2) as E.
  { apply map_eq. intros n. unfold t_get in Hg. specialize (Hg n).
    destruct (rm t1 !! n) as [km1|] eqn:E1; destruct (rm t2 !! n) as [km2|] eqn:E2; [| | |done].
    - f_equal. apply KeyMap_ext; [by eapply Hk1|by eapply Hk2|apply Hg].
    - apply not_elem_of_dom in E2. apply elem_of_dom_2 in E1. unfold t_nodes in Hn. set_solver.
    - apply not_elem_of_dom in E1. apply elem_of_dom_2 in E2. unfold t_nodes in Hn. set_solver. }
  unfold RMap_wf in *. destruct t1, t2; simpl in *. congruence.
Qed.

(** Counting: the [Len] of a node's [KeyMap]. *)
Lemma KeyMap_wf_at t n km : table_wf t → rm t !! n = Some km → KeyMap_wf km.
Proof. intros [_ Hk] E. by eapply Hk. Qed.
End table.
Abbreviation table T := (RMap Z (@KeyMap T)).

(** ** Loops that update a table

    [view] observes a state, [upd] is the body of the loop and [eff a] what one iteration does
    to each observation: [None] leaves it, [Some o] sets it to [o]. *)
Section loops.
Context {A S K V : Type} (view : S → K → option V) (upd : S → A → S)
  (eff : A → K → option (option V)) (I : S → Prop).
Context (Hinv : ∀ s a, I s → I (upd s a)).
Context (Heff : ∀ s a k, I s →
  view (upd s a) k = match eff a k with Some o => o | None => view s k end).

Lemma loop_inv l s : I s → I (fold_left upd l s).
Proof. by apply fold_inv. Qed.

(** No iteration touches the observation. *)
Lemma loop_miss l s k : I s → (∀ a, a ∈ l → eff a k = None) →
  view (fold_left upd l s) k = view s k.
Proof.
  revert s. induction l as [|a l IH]; intros s Hs Hl; [done|]. cbn [fold_left].
  rewrite IH; [|by apply Hinv|intros b Hb; apply Hl; by right].
  by rewrite Heff, Hl by (done || left).
Qed.

(** Some iteration sets it, and all that touch it agree. *)
Lemma loop_hit l s k o : I s → (∃ a, a ∈ l ∧ eff a k = Some o) →
  (∀ a, a ∈ l → eff a k = None ∨ eff a k = Some o) → view (fold_left upd l s) k = o.
Proof.
  revert s. induction l as [|a l IH]; intros s Hs (b & Hb & Hbo) Hl.
  { by apply elem_of_nil in Hb. }
  cbn [fold_left].
  destruct (decide (Exists (λ a, eff a k ≠ None) l)) as [Hex|Hex].
  - apply IH; [by apply Hinv| |intros c Hc; apply Hl; by right].
    apply Exists_exists in Hex as (c & Hc & Hn). exists c. split; [done|].
    destruct (Hl c) as [?|?]; [by right|done|done].
  - rewrite loop_miss; [|by apply Hinv|].
    + rewrite Heff by done. apply elem_of_cons in Hb as [->|Hb]; [by rewrite Hbo|].
      destruct Hex. apply Exists_exists. exists b. split; [done|]. by rewrite Hbo.
    + intros c Hc. destruct (eff c k) eqn:E; [|done]. destruct Hex.
      apply Exists_exists. exists c. split; [done|]. by rewrite E.
Qed.
End loops.

(** A [Range] whose callback never stops is a fold. *)
Lemma range_while_fold {A S} (h : A → S → bool * S) (g : S → A → S) (l : list A) (s : S) :
  (∀ a s, h a s = (true, g s a)) → range_while h l s = fold_left g l s.
Proof.
  intros E. revert s. induction l as [|a l IH]; intros s; [done|]. simpl. by rewrite E.
Qed.

Lemma range_while_pairs {A B S} (g : A → B → S → S) (l : list (A * B)) (s : S) :
  range_while (λ '(a, b) s, (true, g a b s)) l s = fold_left (λ s x, g x.1 x.2 s) l s.
Proof. revert s. induction l as [|[a b] l IH]; intros s; [done|]. simpl. apply IH. Qed.

(** ** The registry and its operations *)
Record registry := mkRegistry {
  userClients : table string;      (* node -> uid -> cid -> network *)
  channelClients : table string;   (* node -> channel -> cid -> network *)
  clientChannels : table unit      (* node -> cid -> channel *)
}.

Definition empty_registry : registry := mkRegistry RMap_empty RMap_empty RMap_empty.

(** The two [KeyMap]s of a node that the channel operations update together. *)
Abbreviation kms := (@KeyMap string * @KeyMap unit)%type.

Section operations.
Context `{!GoRange Z, !GoRange string}.

(** [broker.userOpenedOp]. *)
Definition userOpened (op : userOpenedOp) (b : registry) : registry :=
  let '(uc, ut) := table_GetOrSet (opened_nodeID op) (userClients b) in
  let '(cc, ct) := table_GetOrSet (opened_nodeID op) (channelClients b) in
  let '(ch, ht) := table_GetOrSet (opened_nodeID op) (clientChannels b) in
  let uc := SetKey (opened_uid op) (opened_cid op) (opened_net op) uc in
  let '(cc, ch) :=
    fold_left (λ s '(channel, _),
      let '(cc, ch) := s : kms in
      let ch := SetKey (opened_cid op) channel tt ch in
      let cc := SetKey channel (opened_cid op) (opened_net op) cc in
      (cc, ch)) (go_range (opened_channels op)) (cc, ch) in
  mkRegistry (table_put (opened_nodeID op) uc ut) (table_put (opened_nodeID op) cc ct)
    (table_put (opened_nodeID op) ch ht).

(** [broker.userClosedOp]: the deferred call deletes the field [op.uid] of the client's
    channels, after the channels were visited. *)
Definition userClosed (op : userClosedOp) (b : registry) : registry :=
  let ut :=
    match RMap_Get (closed_nodeID op) (userClients b) with
    | Some uc =>
        table_put (closed_nodeID op) (DeleteKey (closed_uid op) (closed_cid op) uc) (userClients b)
    | None => userClients b
    end in
  match RMap_Get (closed_nodeID op) (clientChannels b) with
  | None => mkRegistry ut (channelClients b) (clientChannels b)
  | Some ch =>
      let deferred :=
        table_put (closed_nodeID op) (DeleteKey (closed_cid op) (closed_uid op) ch)
          (clientChannels b) in
      match RMap_Get (closed_nodeID op) (channelClients b) with
      | None => mkRegistry ut (channelClients b) deferred
      | Some cc =>
          let cc := RangeKey (closed_cid op)
            (λ '(channel, _) cc, (true, DeleteKey channel (closed_cid op) cc)) ch cc in
          mkRegistry ut (table_put (closed_nodeID op) cc (channelClients b)) deferred
      end
  end.

(** [broker.joinChannelOp]: for every node, every client of the user, every channel. *)
Definition joinChannel (op : joinChannelOp) (b : registry) : registry :=
  RMap_Range (λ '(id, uc) b,
    let '(cc, ct) := table_GetOrSet id (channelClients b) in
    let '(ch, ht) := table_GetOrSet id (clientChannels b) in
    let '(cc, ch) :=
      RangeKey (join_uid op) (λ '(cid, net) s,
        (true, fold_left (λ s '(channel, _),
                 let '(cc, ch) := s : kms in
                 let cc := SetKey channel cid net cc in
                 let ch := SetKey cid channel tt ch in
                 (cc, ch)) (go_range (join_channels op)) s)) uc (cc, ch) in
    (true, mkRegistry (userClients b) (table_put id cc ct) (table_put id ch ht)))
    (userClients b) b.

(** [broker.leaveChannelOp]. *)
Definition leaveChannel (op : leaveChannelOp) (b : registry) : registry :=
  RMap_Range (λ '(id, uc) b,
    let '(cc, ct) := table_GetOrSet id (channelClients b) in
    let '(ch, ht) := table_GetOrSet id (clientChannels b) in
    let '(cc, ch) :=
      RangeKey (leave_uid op) (λ '(cid, net) s,
        (true, fold_left (λ s '(channel, _),
                 let '(cc, ch) := s : kms in
                 let cc := DeleteKey channel cid cc in
                 let ch := DeleteKey cid channel ch in
                 (cc, ch)) (go_range (leave_channels op)) s)) uc (cc, ch) in
    (true, mkRegistry (userClients b) (table_put id cc ct) (table_put id ch ht)))
    (userClients b) b.

(** The broker's part of [applyRemoveNode]. *)
Definition removeNode_tables (id : Z) (b : registry) : registry :=
  mkRegistry (snd (RMap_Delete id (userClients b))) (snd (RMap_Delete id (channelClients b)))
    (snd (RMap_Delete id (clientChannels b))).

(** The dispatch of [applyRaftOp] on a decoded operation. *)
Definition apply_op (op : opdata) (b : registry) : registry :=
  match op with
  | OpOpened op => userOpened op b
  | OpClosed op => userClosed op b
  | OpJoin op => joinChannel op b
  | OpLeave op => leaveChannel op b
  end.

(** [applyRaftOp]: an entry that does not decode is logged and skipped. *)
Definition applyRaftOp (data : bytes) (b : registry) : outcome error registry :=
  match decodeRaftOp data with
  | Ok op => Ok (apply_op op b)
  | Err _ => Ok b
  | Panic w => Panic w
  end.
End operations.

(** ** Walking over the clients of a user

    Joining and leaving have the same shape: [upd cid net s channel] is the body of the
    innermost loop, [vc net] and [vh] the values it gives to the two entries. *)
Section walk.
Context `{!GoRange Z, !GoRange string}.
Context (upd : string → string → kms → string → kms) (vc : string → option string)
  (vh : option unit) (I : kms → Prop).
Context (Hinv : ∀ cid net s channel, I s → I (upd cid net s channel)).
Context (Hcc : ∀ cid net s channel k f, I s →
  GetKey k f (upd cid net s channel).1 =
    if decide (k = channel ∧ f = cid) then vc net else GetKey k f s.1).
Context (Hch : ∀ cid net s channel k f, I s →
  GetKey k f (upd cid net s channel).2 =
    if decide (k = cid ∧ f = channel) then vh else GetKey k f s.2).

Definition walk_client (channels : gmap string string) (cid net : string) (s : kms) : kms :=
  fold_left (λ s '(channel, _), upd cid net s channel) (go_range channels) s.

Definition walk_user (channels : gmap string string) (uid : string) (uc : @KeyMap string) (s : kms)
  : kms :=
  RangeKey uid (λ '(cid, net) s, (true, walk_client channels cid net s)) uc s.

Definition walk_node (channels : gmap string string) (uid : string) (b : registry)
    (x : Z * @KeyMap string) : registry :=
  let '(cc, ct) := table_GetOrSet x.1 (channelClients b) in
  let '(ch, ht) := table_GetOrSet x.1 (clientChannels b) in
  let '(cc, ch) := walk_user channels uid x.2 (cc, ch) in
  mkRegistry (userClients b) (table_put x.1 cc ct) (table_put x.1 ch ht).

Definition walk_nodes (channels : gmap string string) (uid : string) (b : registry) : registry :=
  fold_left (walk_node channels uid) (go_range (rm (userClients b))) b.

Lemma walk_client_inv channels cid net s : I s → I (walk_client channels cid net s).
Proof.
  unfold walk_client. apply loop_inv. intros s' [channel v] Hs. by apply Hinv.
Qed.

Lemma walk_client_cc channels cid net s k f : I s →
  GetKey k f (walk_client channels cid net s).1 =
    if decide (f = cid ∧ is_Some (channels !! k)) then vc net else GetKey k f s.1.
Proof.
  intros Hs. unfold walk_client.
  pose (view := λ (s : kms) '(k, f), GetKey k f s.1).
  pose (eff := λ (a : string * string) (kf : string * string),
    if decide (kf.1 = a.1 ∧ kf.2 = cid) then Some (vc net) else None).
  change (GetKey k f s.1) with (view s (k, f)).
  change (GetKey k f ?x.1) with (view x (k, f)).
  assert (∀ s a kf, I s → view (let '(channel, _) := a in upd cid net s channel) kf =
    match eff a kf with Some o => o | None => view s kf end) as Heff.
  { intros s' [channel v] [k' f'] Hs'. unfold view, eff; simpl. rewrite Hcc by done.
    by case_decide. }
  assert (∀ s (a : string * string), I s → I (let '(channel, _) := a in upd cid net s channel))
    as Hi by (intros s' [channel v]; apply Hinv).
  case_decide as Hd.
  - destruct Hd as [-> [v Hv]]. apply (loop_hit view _ eff I Hi Heff); [done| |].
    + exists (k, v). split; [by apply elem_of_go_range|]. unfold eff; simpl. by rewrite decide_True.
    + intros a _. unfold eff. case_decide; auto.
  - rewrite (loop_miss view _ eff I Hi Heff); [done|done|].
    intros [channel v] Hin. unfold eff; simpl. rewrite decide_False; [done|].
    intros [-> ->]. apply Hd. split; [done|]. apply elem_of_go_range in Hin. by exists v.
Qed.

Lemma walk_client_ch channels cid net s k f : I s →
  GetKey k f (walk_client channels cid net s).2 =
    if decide (k = cid ∧ is_Some (channels !! f)) then vh else GetKey k f s.2.
Proof.
  intros Hs. unfold walk_client.
  pose (view := λ (s : kms) '(k, f), GetKey k f s.2).
  pose (eff := λ (a : string * string) (kf : string * string),
    if decide (kf.1 = cid ∧ kf.2 = a.1) then Some vh else None).
  change (GetKey k f s.2) with (view s (k, f)).
  change (GetKey k f ?x.2) with (view x (k, f)).
  assert (∀ s a kf, I s → view (let '(channel, _) := a in upd cid net s channel) kf =
    match eff a kf with Some o => o | None => view s kf end) as Heff.
  { intros s' [channel v] [k' f'] Hs'. unfold view, eff; simpl. rewrite Hch by done.
    by case_decide. }
  assert (∀ s (a : string * string), I s → I (let '(channel, _) := a in upd cid net s channel))
    as Hi by (intros s' [channel v]; apply Hinv).
  case_decide as Hd.
  - destruct Hd as [-> [v Hv]]. apply (loop_hit view _ eff I Hi Heff); [done| |].
    + exists (f, v). split; [by apply elem_of_go_range|]. unfold eff; simpl. by rewrite decide_True.
    + intros a _. unfold eff. case_decide; auto.
  - rewrite (loop_miss view _ eff I Hi Heff); [done|done|].
    intros [channel v] Hin. unfold eff; simpl. rewrite decide_False; [done|].
    intros [-> ->]. apply Hd. split; [done|]. apply elem_of_go_range in Hin. by exists v.
Qed.

Lemma walk_user_fold channels uid uc s :
  walk_user channels uid uc s =
    fold_left (λ s x, walk_client channels x.1 x.2 s)
      (go_range (from_option mm ∅ (RMap_Get uid uc))) s.
Proof.
  unfold walk_user, RangeKey. destruct (RMap_Get uid uc) as [v|]; simpl.
  - apply range_while_pairs.
  - assert (go_range (∅ : gmap string string) = []) as ->; [|done].
    apply nil_length_inv. by rewrite go_range_length.
Qed.
Lemma elem_of_user_fields (uc : @KeyMap string) uid cid net :
  (cid, net) ∈ go_range (from_option mm ∅ (RMap_Get uid uc)) ↔ GetKey uid cid uc = Some net.
Proof.
  rewrite elem_of_go_range. unfold GetKey. destruct (RMap_Get uid uc); simpl; [done|].
  by rewrite lookup_empty.
Qed.

Lemma walk_user_inv channels uid uc s : I s → I (walk_user channels uid uc s).
Proof.
  rewrite walk_user_fold. apply loop_inv. intros s' [cid net] Hs. by apply walk_client_inv.
Qed.

Lemma walk_user_cc channels uid uc s k f : I s →
  GetKey k f (walk_user channels uid uc s).1 =
    match GetKey uid f uc with
    | Some net => if decide (is_Some (channels !! k)) then vc net else GetKey k f s.1
    | None => GetKey k f s.1
    end.
Proof.
  intros Hs. rewrite walk_user_fold.
  pose (view := λ (s : kms) '(k, f), GetKey k f s.1).
  pose (eff := λ (a : string * string) (kf : string * string),
    if decide (kf.2 = a.1 ∧ is_Some (channels !! kf.1)) then Some (vc a.2) else None).
  change (GetKey k f s.1) with (view s (k, f)).
  change (GetKey k f ?x.1) with (view x (k, f)).
  assert (∀ s a kf, I s → view (walk_client channels a.1 a.2 s) kf =
    match eff a kf with Some o => o | None => view s kf end) as Heff.
  { intros s' [cid net] [k' f'] Hs'. unfold view, eff; simpl. rewrite walk_client_cc by done.
    by case_decide. }
  assert (∀ s (a : string * string), I s → I (walk_client channels a.1 a.2 s))
    as Hi by (intros s' a; apply walk_client_inv).
  destruct (GetKey uid f uc) as [net|] eqn:E; [case_decide as Hk|].
  - apply (loop_hit view _ eff I Hi Heff); [done| |].
    + exists (f, net). split; [by apply elem_of_user_fields|]. unfold eff; simpl.
      by rewrite decide_True.
    + intros [cid net'] Hin. apply elem_of_user_fields in Hin. unfold eff; simpl.
      case_decide as Hd; [|auto]. destruct Hd as [-> _]. rewrite E in Hin. injection Hin as ->. auto.
  - apply (loop_miss view _ eff I Hi Heff); [done|].
    intros [cid net'] Hin. unfold eff; simpl. rewrite decide_False by naive_solver. done.
  - apply (loop_miss view _ eff I Hi Heff); [done|].
    intros [cid net'] Hin. apply elem_of_user_fields in Hin. unfold eff; simpl.
    rewrite decide_False; [done|]. intros [-> _]. congruence.
Qed.

Lemma walk_user_ch channels uid uc s k f : I s →
  GetKey k f (walk_user channels uid uc s).2 =
    if decide (is_Some (GetKey uid k uc) ∧ is_Some (channels !! f)) then vh else GetKey k f s.2.
Proof.
  intros Hs. rewrite walk_user_fold.
  pose (view := λ (s : kms) '(k, f), GetKey k f s.2).
  pose (eff := λ (a : string * string) (kf : string * string),
    if decide (kf.1 = a.1 ∧ is_Some (channels !! kf.2)) then Some vh else None).
  change (GetKey k f s.2) with (view s (k, f)).
  change (GetKey k f ?x.2) with (view x (k, f)).
  assert (∀ s a kf, I s → view (walk_client channels a.1 a.2 s) kf =
    match eff a kf with Some o => o | None => view s kf end) as Heff.
  { intros s' [cid net] [k' f'] Hs'. unfold view, eff; simpl. rewrite walk_client_ch by done.
    by case_decide. }
  assert (∀ s (a : string * string), I s → I (walk_client channels a.1 a.2 s))
    as Hi by (intros s' a; apply walk_client_inv).
  case_decide as Hd.
  - destruct Hd as [[net E] Hf]. apply (loop_hit view _ eff I Hi Heff); [done| |].
    + exists (k, net). split; [by apply elem_of_user_fields|]. unfold eff; simpl.
      by rewrite decide_True.
    + intros a _. unfold eff. case_decide; auto.
  - apply (loop_miss view _ eff I Hi Heff); [done|].
    intros [cid net'] Hin. apply elem_of_user_fields in Hin. unfold eff; simpl.
    rewrite decide_False; [done|]. intros [-> ?]. apply Hd. eauto.
Qed.

(** The invariant of the two tables while the nodes are visited. *)
Definition tables_inv (b : registry) : Prop :=
  RMap_wf (channelClients b) ∧ RMap_wf (clientChannels b) ∧
  ∀ n, I (default KeyMap_empty (rm (channelClients b) !! n),
          default KeyMap_empty (rm (clientChannels b) !! n)).

(** One node, in terms of [table_modify]. *)
Lemma walk_node_tables channels uid b x :
  let s := walk_user channels uid x.2
             (default KeyMap_empty (rm (channelClients b) !! x.1),
              default KeyMap_empty (rm (clientChannels b) !! x.1)) in
  walk_node channels uid b x =
    mkRegistry (userClients b) (table_modify x.1 (λ _, s.1) (channelClients b))
      (table_modify x.1 (λ _, s.2) (clientChannels b)).
Proof.
  unfold walk_node, table_modify.
  destruct (rm_table_GetOrSet x.1 (channelClients b)) as [E1 _].
  destruct (rm_table_GetOrSet x.1 (clientChannels b)) as [E2 _].
  destruct (table_GetOrSet x.1 (channelClients b)) as [cc ct].
  destruct (table_GetOrSet x.1 (clientChannels b)) as [ch ht]. simpl in E1, E2. subst cc ch.
  by destruct (walk_user _ _ _ _) as [cc ch].
Qed.

Lemma RMap_wf_table_modify {T} id (g : @KeyMap T → @KeyMap T) t :
  RMap_wf t → RMap_wf (table_modify id g t).
Proof.
  intros Ht. pose proof (RMap_wf_GetOrSet id KeyMap_empty t Ht) as Hw.
  destruct (rm_table_GetOrSet id t) as [E1 E2]. unfold table_modify, table_GetOrSet in *.
  destruct (RMap_GetOrSet id KeyMap_empty t) as [[km b] t']. simpl in *.
  apply RMap_wf_put; [done|]. rewrite E2, lookup_insert_eq. by eauto.
Qed.

Lemma walk_node_inv channels uid b x : tables_inv b → tables_inv (walk_node channels uid b x).
Proof.
  intros (H1 & H2 & H3). rewrite walk_node_tables. split_and!; simpl.
  - by apply RMap_wf_table_modify.
  - by apply RMap_wf_table_modify.
  - intros n. rewrite !rm_table_modify. destruct (decide (n = x.1)) as [->|Hn].
    + rewrite !lookup_insert_eq. simpl. rewrite <-surjective_pairing. by apply walk_user_inv.
    + by rewrite !lookup_insert_ne.
Qed.
Lemma walk_node_cc channels uid b x n k f : tables_inv b →
  t_get (channelClients (walk_node channels uid b x)) n k f =
    match (if decide (n = x.1) then GetKey uid f x.2 else None) with
    | Some net => if decide (is_Some (channels !! k)) then vc net
                  else t_get (channelClients b) n k f
    | None => t_get (channelClients b) n k f
    end.
Proof.
  intros (_ & _ & Hb). rewrite walk_node_tables. simpl. rewrite t_get_modify.
  destruct (decide (n = x.1)) as [->|]; [|done].
  rewrite walk_user_cc by done. simpl. by rewrite t_get_default.
Qed.

Lemma walk_node_ch channels uid b x n k f : tables_inv b →
  t_get (clientChannels (walk_node channels uid b x)) n k f =
    if decide (n = x.1 ∧ is_Some (GetKey uid k x.2) ∧ is_Some (channels !! f)) then vh
    else t_get (clientChannels b) n k f.
Proof.
  intros (_ & _ & Hb). rewrite walk_node_tables. simpl. rewrite t_get_modify.
  destruct (decide (n = x.1)) as [->|Hn].
  - rewrite walk_user_ch by done. simpl. rewrite t_get_default.
    repeat case_decide; try done; exfalso; naive_solver.
  - by rewrite decide_False by naive_solver.
Qed.

Lemma walk_nodes_users channels uid b : userClients (walk_nodes channels uid b) = userClients b.
Proof.
  unfold walk_nodes. generalize (go_range (rm (userClients b))). intros l. revert b.
  induction l as [|x l IH]; intros b; [done|]. cbn [fold_left]. rewrite IH.
  by rewrite walk_node_tables.
Qed.

Lemma walk_nodes_inv channels uid b : tables_inv b → tables_inv (walk_nodes channels uid b).
Proof. unfold walk_nodes. apply loop_inv. intros s x. apply walk_node_inv. Qed.

Lemma walk_nodes_cc channels uid b n k f : tables_inv b →
  t_get (channelClients (walk_nodes channels uid b)) n k f =
    match t_get (userClients b) n uid f with
    | Some net => if decide (is_Some (channels !! k)) then vc net
                  else t_get (channelClients b) n k f
    | None => t_get (channelClients b) n k f
    end.
Proof.
  intros Hb.
  pose (view := λ (b : registry) '(n, k, f), t_get (channelClients b) n k f).
  pose (eff := λ (x : Z * @KeyMap string) '(n, k, f),
    match (if decide (n = x.1) then GetKey uid f x.2 else None) with
    | Some net => if decide (is_Some (channels !! k)) then Some (vc net) else None
    | None => None
    end).
  assert (∀ b x key, tables_inv b → view (walk_node channels uid b x) key =
    match eff x key with Some o => o | None => view b key end) as Heff.
  { intros b' x [[n' k'] f'] Hb'. unfold view, eff. rewrite walk_node_cc by done.
    destruct (decide (n' = x.1)); [|done]. destruct (GetKey uid f' x.2); [|done]. by case_decide. }
  pose proof (walk_node_inv channels uid) as Hi.
  assert (∀ x, x ∈ go_range (rm (userClients b)) → n = x.1 →
    t_get (userClients b) n uid f = GetKey uid f x.2) as Hx.
  { intros [id uc] Hin ->. apply elem_of_go_range in Hin. unfold t_get. simpl. by rewrite Hin. }
  change (t_get (channelClients ?x) n k f) with (view x (n, k, f)). unfold walk_nodes.
  destruct (t_get (userClients b) n uid f) as [net|] eqn:E; [case_decide as Hk|].
  - apply (loop_hit view _ eff tables_inv (λ s a, Hi s a) Heff); [done| |].
    + unfold t_get in E. destruct (rm (userClients b) !! n) as [uc|] eqn:En; [|done]. simpl in E.
      exists (n, uc). split; [by apply elem_of_go_range|]. unfold eff; simpl.
      rewrite decide_True by done. rewrite E. by rewrite decide_True.
    + intros x Hin. unfold eff. destruct (decide (n = x.1)) as [Hn|]; [|auto].
      rewrite <-(Hx x Hin Hn). rewrite decide_True by done. auto.
  - apply (loop_miss view _ eff tables_inv (λ s a, Hi s a) Heff); [done|].
    intros x Hin. unfold eff. destruct (decide (n = x.1)) as [Hn|]; [|done].
    rewrite <-(Hx x Hin Hn). by rewrite decide_False.
  - apply (loop_miss view _ eff tables_inv (λ s a, Hi s a) Heff); [done|].
    intros x Hin. unfold eff. destruct (decide (n = x.1)) as [Hn|]; [|done].
    by rewrite <-(Hx x Hin Hn).
Qed.

Lemma walk_nodes_ch channels uid b n k f : tables_inv b →
  t_get (clientChannels (walk_nodes channels uid b)) n k f =
    if decide (is_Some (t_get (userClients b) n uid k) ∧ is_Some (channels !! f)) then vh
    else t_get (clientChannels b) n k f.
Proof.
  intros Hb.
  pose (view := λ (b : registry) '(n, k, f), t_get (clientChannels b) n k f).
  pose (eff := λ (x : Z * @KeyMap string) '(n, k, f),
    if decide (n = x.1 ∧ is_Some (GetKey uid k x.2) ∧ is_Some (channels !! f))
    then Some vh else None).
  assert (∀ b x key, tables_inv b → view (walk_node channels uid b x) key =
    match eff x key with Some o => o | None => view b key end) as Heff.
  { intros b' x [[n' k'] f'] Hb'. unfold view, eff. rewrite walk_node_ch by done.
    by case_decide. }
  pose proof (walk_node_inv channels uid) as Hi.
  change (t_get (clientChannels ?x) n k f) with (view x (n, k, f)). unfold walk_nodes.
  case_decide as Hd.
  - destruct Hd as [[net E] Hf].
    apply (loop_hit view _ eff tables_inv (λ s a, Hi s a) Heff); [done| |].
    + unfold t_get in E. destruct (rm (userClients b) !! n) as [uc|] eqn:En; [|done]. simpl in E.
      exists (n, uc). split; [by apply elem_of_go_range|]. unfold eff; simpl.
      rewrite decide_True; [done|]. by eauto.
    + intros x _. unfold eff. case_decide; auto.
  - apply (loop_miss view _ eff tables_inv (λ s a, Hi s a) Heff); [done|].
    intros [id uc] Hin. apply elem_of_go_range in Hin. unfold eff; simpl.
    rewrite decide_False; [done|]. intros (-> & Hs & Hf). apply Hd. split; [|done].
    unfold t_get. by rewrite Hin.
Qed.

(** Every node with users gets its entries in the other two tables. *)
Lemma walk_nodes_nodes channels uid b :
  t_nodes (channelClients (walk_nodes channels uid b)) =
    t_nodes (userClients b) ∪ t_nodes (channelClients b) ∧
  t_nodes (clientChannels (walk_nodes channels uid b)) =
    t_nodes (userClients b) ∪ t_nodes (clientChannels b).
Proof using GoRange0 GoRange1.
  clear Hinv Hcc Hch I vc vh.
  assert (∀ l b, t_nodes (channelClients (fold_left (walk_node channels uid) l b)) =
      list_to_set l.*1 ∪ t_nodes (channelClients b) ∧
    t_nodes (clientChannels (fold_left (walk_node channels uid) l b)) =
      list_to_set l.*1 ∪ t_nodes (clientChannels b)) as Hl.
  { clear b. induction l as [|x l IH]; intros b; [set_solver|]. cbn [fold_left].
    destruct (IH (walk_node channels uid b x)) as [-> ->].
    rewrite walk_node_tables. simpl. rewrite !t_nodes_modify. set_solver. }
  unfold walk_nodes. destruct (Hl (go_range (rm (userClients b))) b) as [-> ->].
  assert (list_to_set (go_range (rm (userClients b))).*1 = t_nodes (userClients b)) as ->; [|done].
  apply set_eq. intros n. rewrite elem_of_list_to_set, list_elem_of_fmap. unfold t_nodes.
  rewrite elem_of_dom. split.
  - intros ([id uc] & -> & Hin). apply elem_of_go_range in Hin. by exists uc.
  - intros [uc E]. exists (n, uc). split; [done|]. by apply elem_of_go_range.
Qed.
End walk.

(** ** Specification of the operations *)
Section specs.
Context `{!GoRange Z, !GoRange string}.

Definition join_upd (cid net : string) (s : kms) (channel : string) : kms :=
  let '(cc, ch) := s in (SetKey channel cid net cc, SetKey cid channel tt ch).

Definition leave_upd (cid net : string) (s : kms) (channel : string) : kms :=
  let '(cc, ch) := s in (DeleteKey channel cid cc, DeleteKey cid channel ch).

Definition kms_wf (s : kms) : Prop := KeyMap_wf s.1 ∧ KeyMap_wf s.2.
Definition kms_small (s : kms) : Prop :=
  (KeyMap_wf s.1 ∧ KeyMap_wf s.2) ∧ KeyMap_small s.1 ∧ KeyMap_small s.2.

Lemma join_upd_inv cid net s channel : kms_wf s → kms_wf (join_upd cid net s channel).
Proof. destruct s. intros []. split; by apply KeyMap_wf_SetKey. Qed.

Lemma join_upd_cc cid net s channel k f : kms_wf s →
  GetKey k f (join_upd cid net s channel).1 =
    if decide (k = channel ∧ f = cid) then Some net else GetKey k f s.1.
Proof. destruct s. intros _. apply GetKey_SetKey. Qed.

Lemma join_upd_ch cid net s channel k f : kms_wf s →
  GetKey k f (join_upd cid net s channel).2 =
    if decide (k = cid ∧ f = channel) then Some tt else GetKey k f s.2.
Proof. destruct s. intros _. apply GetKey_SetKey. Qed.

Lemma leave_upd_inv cid net s channel : kms_small s → kms_small (leave_upd cid net s channel).
Proof.
  destruct s as [cc ch]. intros [[? ?] [? ?]]. simpl in *.
  split; split; simpl; auto using KeyMap_wf_DeleteKey, KeyMap_small_DeleteKey.
Qed.

Lemma leave_upd_cc cid net s channel k f : kms_small s →
  GetKey k f (leave_upd cid net s channel).1 =
    if decide (k = channel ∧ f = cid) then None else GetKey k f s.1.
Proof. destruct s. intros [_ []]. by apply GetKey_DeleteKey. Qed.

Lemma leave_upd_ch cid net s channel k f : kms_small s →
  GetKey k f (leave_upd cid net s channel).2 =
    if decide (k = cid ∧ f = channel) then None else GetKey k f s.2.
Proof. destruct s. intros [_ []]. by apply GetKey_DeleteKey. Qed.

Lemma joinChannel_walk op b :
  joinChannel op b = walk_nodes join_upd (join_channels op) (join_uid op) b.
Proof.
  apply range_while_fold. intros [id uc] b'. unfold walk_node; simpl.
  destruct (table_GetOrSet id (channelClients b')) as [cc ct].
  destruct (table_GetOrSet id (clientChannels b')) as [ch ht].
  change (RangeKey _ _ uc (cc, ch)) with (walk_user join_upd (join_channels op) (join_uid op) uc (cc, ch)).
  by destruct (walk_user _ _ _ _ _).
Qed.

Lemma leaveChannel_walk op b :
  leaveChannel op b = walk_nodes leave_upd (leave_channels op) (leave_uid op) b.
Proof.
  apply range_while_fold. intros [id uc] b'. unfold walk_node; simpl.
  destruct (table_GetOrSet id (channelClients b')) as [cc ct].
  destruct (table_GetOrSet id (clientChannels b')) as [ch ht].
  change (RangeKey _ _ uc (cc, ch))
    with (walk_user leave_upd (leave_channels op) (leave_uid op) uc (cc, ch)).
  by destruct (walk_user _ _ _ _ _).
Qed.

(** ** Well-formed registries *)
Definition registry_wf (b : registry) : Prop :=
  table_wf (userClients b) ∧ table_wf (channelClients b) ∧ table_wf (clientChannels b).

Definition registry_small (b : registry) : Prop :=
  table_small (userClients b) ∧ table_small (channelClients b) ∧ table_small (clientChannels b).

#[export] Instance registry_small_dec b : Decision (registry_small b).
Proof. unfold registry_small. apply _. Defined.

Lemma table_small_default {T} (t : table T) n : table_small t →
  KeyMap_small (default KeyMap_empty (rm t !! n)).
Proof. intros Ht. destruct (rm t !! n) eqn:E; [by eapply Ht|apply KeyMap_small_empty]. Qed.

Lemma table_wf_default {T} (t : table T) n : table_wf t →
  KeyMap_wf (default KeyMap_empty (rm t !! n)).
Proof. intros [_ Ht]. destruct (rm t !! n) eqn:E; [by eapply Ht|apply KeyMap_wf_empty]. Qed.

Lemma table_wf_of_default {T} (t : table T) : RMap_wf t →
  (∀ n, KeyMap_wf (default KeyMap_empty (rm t !! n))) → table_wf t.
Proof. intros Hl Hk. split; [done|]. intros n km E. specialize (Hk n). by rewrite E in Hk. Qed.

Lemma tables_inv_wf b : registry_wf b → tables_inv kms_wf b.
Proof.
  intros (_ & H1 & H2). split_and!; [apply H1|apply H2|].
  intros n. split; by apply table_wf_default.
Qed.

Lemma tables_inv_small b : registry_wf b → registry_small b → tables_inv kms_small b.
Proof.
  intros (_ & H1 & H2) (_ & H3 & H4). split_and!; [apply H1|apply H2|].
  intros n. split; split; by (apply table_wf_default || apply table_small_default).
Qed.

Lemma registry_wf_walk b b' : registry_wf b → userClients b' = userClients b →
  tables_inv kms_wf b' → registry_wf b'.
Proof.
  intros (Hu & _ & _) E (H1 & H2 & H3). split_and!; [by rewrite E|..];
    apply table_wf_of_default; try done; intros n; apply (H3 n).
Qed.

Lemma tables_inv_weaken b : tables_inv kms_small b → tables_inv kms_wf b.
Proof. intros (H1 & H2 & H3). split_and!; [done..|]. intros n. apply (H3 n). Qed.
(** ** The abstract registry

    What a registry says: who is connected where, which clients a channel delivers to, which
    channels a client is in, and the nodes each table knows.  The abstract operations are
    pointwise updates of these functions. *)
Record view := mkView {
  v_users : Z → string → string → option string;     (* node, uid, cid *)
  v_members : Z → string → string → option string;   (* node, channel, cid *)
  v_subs : Z → string → string → option unit;        (* node, cid, channel *)
  v_unodes : gset Z;
  v_cnodes : gset Z;
  v_hnodes : gset Z
}.

Definition view_of (b : registry) : view :=
  mkView (t_get (userClients b)) (t_get (channelClients b)) (t_get (clientChannels b))
    (t_nodes (userClients b)) (t_nodes (channelClients b)) (t_nodes (clientChannels b)).

(** Views are compared pointwise. *)
#[export] Instance view_equiv : Equiv view := λ v w,
  (∀ n k f, v_users v n k f = v_users w n k f) ∧
  (∀ n k f, v_members v n k f = v_members w n k f) ∧
  (∀ n k f, v_subs v n k f = v_subs w n k f) ∧
  v_unodes v = v_unodes w ∧ v_cnodes v = v_cnodes w ∧ v_hnodes v = v_hnodes w.

#[export] Instance view_equivalence : Equivalence (≡@{view}).
Proof.
  unfold equiv, view_equiv. split.
  - intros v. split_and!; done.
  - intros v w (? & ? & ? & ? & ? & ?). split_and!; done.
  - intros v w x (? & ? & ? & ? & ? & ?) (? & ? & ? & ? & ? & ?). split_and!; etrans; eauto.
Qed.

Definition view_opened (op : userOpenedOp) (v : view) : view :=
  let 'mkUserOpened uid cid net id channels := op in
  mkView
    (λ n u c, if decide (n = id ∧ u = uid ∧ c = cid) then Some net else v_users v n u c)
    (λ n ch c, if decide (n = id ∧ c = cid ∧ is_Some (channels !! ch)) then Some net
               else v_members v n ch c)
    (λ n c ch, if decide (n = id ∧ c = cid ∧ is_Some (channels !! ch)) then Some tt
               else v_subs v n c ch)
    ({[id]} ∪ v_unodes v) ({[id]} ∪ v_cnodes v) ({[id]} ∪ v_hnodes v).

Definition view_closed (op : userClosedOp) (v : view) : view :=
  let 'mkUserClosed uid cid id := op in
  mkView
    (λ n u c, if decide (n = id ∧ u = uid ∧ c = cid) then None else v_users v n u c)
    (λ n ch c, if decide (n = id ∧ c = cid ∧ is_Some (v_subs v n c ch)) then None
               else v_members v n ch c)
    (λ n c ch, if decide (n = id ∧ c = cid ∧ ch = uid) then None else v_subs v n c ch)
    (v_unodes v) (v_cnodes v) (v_hnodes v).

Definition view_join (op : joinChannelOp) (v : view) : view :=
  let 'mkJoin uid channels := op in
  mkView (v_users v)
    (λ n ch c, match v_users v n uid c with
               | Some net => if decide (is_Some (channels !! ch)) then Some net
                             else v_members v n ch c
               | None => v_members v n ch c
               end)
    (λ n c ch, if decide (is_Some (v_users v n uid c) ∧ is_Some (channels !! ch)) then Some tt
               else v_subs v n c ch)
    (v_unodes v) (v_unodes v ∪ v_cnodes v) (v_unodes v ∪ v_hnodes v).

Definition view_leave (op : leaveChannelOp) (v : view) : view :=
  let 'mkLeave uid channels := op in
  mkView (v_users v)
    (λ n ch c, match v_users v n uid c with
               | Some _ => if decide (is_Some (channels !! ch)) then None else v_members v n ch c
               | None => v_members v n ch c
               end)
    (λ n c ch, if decide (is_Some (v_users v n uid c) ∧ is_Some (channels !! ch)) then None
               else v_subs v n c ch)
    (v_unodes v) (v_unodes v ∪ v_cnodes v) (v_unodes v ∪ v_hnodes v).

Definition view_apply (op : opdata) : view → view :=
  match op with
  | OpOpened op => view_opened op
  | OpClosed op => view_closed op
  | OpJoin op => view_join op
  | OpLeave op => view_leave op
  end.

#[export] Instance view_apply_proper op : Proper ((≡) ==> (≡)) (view_apply op).
Proof.
  intros v w (Hu & Hm & Hs & E1 & E2 & E3).
  destruct op as [[uid cid net id chs]|[uid cid id]|[uid chs]|[uid chs]]; cbn [view_apply];
    unfold view_opened, view_closed, view_join, view_leave;
    split_and!; simpl; intros; rewrite ?Hu, ?Hm, ?Hs, ?E1, ?E2, ?E3; done.
Qed.

(** Well-formed registries are determined by their views. *)
Lemma view_of_inj b1 b2 : registry_wf b1 → registry_wf b2 → view_of b1 ≡ view_of b2 → b1 = b2.
Proof.
  intros (H1 & H2 & H3) (H4 & H5 & H6) (Hu & Hm & Hs & E1 & E2 & E3).
  destruct b1, b2; simpl in *. f_equal; by apply table_ext.
Qed.

(** ** The operations implement the abstract ones *)
Lemma joinChannel_refines op b : registry_wf b →
  registry_wf (joinChannel op b) ∧ view_of (joinChannel op b) ≡ view_join op (view_of b).
Proof.
  intros Hb. pose proof (tables_inv_wf b Hb) as Hi. rewrite joinChannel_walk.
  pose proof (walk_nodes_users join_upd (join_channels op) (join_uid op) b) as Eu.
  split.
  - eapply registry_wf_walk; [done|done|]. by apply walk_nodes_inv; [apply join_upd_inv|].
  - destruct op as [uid chs]; simpl in *.
    destruct (walk_nodes_nodes join_upd chs uid b) as [E1 E2].
    split_and!; simpl; rewrite ?Eu; try done; intros n k f.
    + by rewrite (walk_nodes_cc join_upd Some kms_wf join_upd_inv join_upd_cc).
    + by rewrite (walk_nodes_ch join_upd (Some tt) kms_wf join_upd_inv join_upd_ch).
Qed.

Lemma leaveChannel_refines op b : registry_wf b → registry_small b →
  registry_wf (leaveChannel op b) ∧ view_of (leaveChannel op b) ≡ view_leave op (view_of b).
Proof.
  intros Hb Hs. pose proof (tables_inv_small b Hb Hs) as Hi. rewrite leaveChannel_walk.
  pose proof (walk_nodes_users leave_upd (leave_channels op) (leave_uid op) b) as Eu.
  split.
  - eapply registry_wf_walk; [done|done|]. apply tables_inv_weaken.
    by apply walk_nodes_inv; [apply leave_upd_inv|].
  - destruct op as [uid chs]; simpl in *.
    destruct (walk_nodes_nodes leave_upd chs uid b) as [E1 E2].
    split_and!; simpl; rewrite ?Eu; try done; intros n k f.
    + by rewrite (walk_nodes_cc leave_upd (λ _, None) kms_small leave_upd_inv leave_upd_cc).
    + by rewrite (walk_nodes_ch leave_upd None kms_small leave_upd_inv leave_upd_ch).
Qed.

(** [userOpened] in terms of [table_modify] and [walk_client]. *)
Lemma userOpened_tables op b :
  let n := opened_nodeID op in
  let s := walk_client join_upd (opened_channels op) (opened_cid op) (opened_net op)
             (default KeyMap_empty (rm (channelClients b) !! n),
              default KeyMap_empty (rm (clientChannels b) !! n)) in
  userOpened op b =
    mkRegistry
      (table_modify n (SetKey (opened_uid op) (opened_cid op) (opened_net op)) (userClients b))
      (table_modify n (λ _, s.1) (channelClients b))
      (table_modify n (λ _, s.2) (clientChannels b)).
Proof.
  destruct op as [uid cid net id chs]. unfold userOpened, table_modify. simpl.
  destruct (rm_table_GetOrSet id (channelClients b)) as [E1 _].
  destruct (rm_table_GetOrSet id (clientChannels b)) as [E2 _].
  destruct (table_GetOrSet id (userClients b)) as [uc ut].
  destruct (table_GetOrSet id (channelClients b)) as [cc ct].
  destruct (table_GetOrSet id (clientChannels b)) as [ch ht]. simpl in E1, E2. subst cc ch.
  change (fold_left _ (go_range chs) ?s) with (walk_client join_upd chs cid net s).
  by destruct (walk_client _ _ _ _ _).
Qed.

Lemma userOpened_refines op b : registry_wf b →
  registry_wf (userOpened op b) ∧ view_of (userOpened op b) ≡ view_opened op (view_of b).
Proof.
  intros Hb. pose proof Hb as (Hu & Hc & Hh). rewrite userOpened_tables.
  set (n0 := opened_nodeID op).
  set (s0 := (default KeyMap_empty (rm (channelClients b) !! n0),
              default KeyMap_empty (rm (clientChannels b) !! n0))).
  assert (kms_wf s0) as Hs0 by (split; by apply table_wf_default).
  pose proof (walk_client_inv join_upd kms_wf join_upd_inv (opened_channels op) (opened_cid op)
    (opened_net op) s0 Hs0) as Hs.
  split.
  - split_and!; simpl.
    + apply table_wf_modify; [done|]. intros km Hkm _. by apply KeyMap_wf_SetKey.
    + apply table_wf_modify; [done|]. intros _ _ _. apply Hs.
    + apply table_wf_modify; [done|]. intros _ _ _. apply Hs.
  - destruct op as [uid cid net id chs]; simpl in *. subst n0.
    split_and!; simpl; try apply t_nodes_modify; intros n k f; rewrite t_get_modify;
      (destruct (decide (n = id)) as [->|Hn]; [|by rewrite decide_False by naive_solver]).
    + rewrite GetKey_SetKey, t_get_default. repeat case_decide; naive_solver.
    + rewrite (walk_client_cc join_upd Some kms_wf join_upd_inv join_upd_cc) by done.
      simpl. rewrite t_get_default. repeat case_decide; naive_solver.
    + rewrite (walk_client_ch join_upd (Some tt) kms_wf join_upd_inv join_upd_ch) by done.
      simpl. rewrite t_get_default. repeat case_decide; naive_solver.
Qed.
(** The loop of [userClosedOp] over the channels of the client. *)
Lemma close_loop cid (ch : @KeyMap unit) (cc : @KeyMap string) :
  KeyMap_wf cc → KeyMap_small cc →
  let cc' := RangeKey cid (λ '(channel, _) cc, (true, DeleteKey channel cid cc)) ch cc in
  KeyMap_wf cc' ∧
  ∀ k f, GetKey k f cc' =
    if decide (f = cid ∧ is_Some (GetKey cid k ch)) then None else GetKey k f cc.
Proof.
  intros Hw Hs. set (fields := from_option mm ∅ (RMap_Get cid ch)).
  assert (RangeKey cid (λ '(channel, _) cc, (true, DeleteKey channel cid cc)) ch cc =
    fold_left (λ cc x, DeleteKey x.1 cid cc) (go_range fields) cc) as ->.
  { unfold RangeKey, fields. destruct (RMap_Get cid ch) as [v|]; simpl.
    - apply range_while_fold. by intros [channel v'] s.
    - assert (go_range (∅ : gmap string unit) = []) as ->; [|done].
      apply nil_length_inv. by rewrite go_range_length. }
  pose (I := λ cc : @KeyMap string, KeyMap_wf cc ∧ KeyMap_small cc).
  pose (eff := λ (x : string * unit) (kf : string * string),
    if decide (kf.1 = x.1 ∧ kf.2 = cid) then Some (@None string) else None).
  pose (view := λ (cc : @KeyMap string) '(k, f), GetKey k f cc).
  assert (∀ s (a : string * unit), I s → I (DeleteKey a.1 cid s)) as Hi.
  { intros s [a u] []. split; [by apply KeyMap_wf_DeleteKey|by apply KeyMap_small_DeleteKey]. }
  assert (∀ s a kf, I s → view (DeleteKey a.1 cid s) kf =
    match eff a kf with Some o => o | None => view s kf end) as Heff.
  { intros s [a u] [k f] []. unfold view, eff; simpl. rewrite GetKey_DeleteKey by done.
    by case_decide. }
  cbv zeta. split.
  { assert (I (fold_left (λ cc x, DeleteKey x.1 cid cc) (go_range fields) cc)) as []; [|done].
    apply loop_inv; [done|by split]. }
  assert (∀ k u, (k, u) ∈ go_range fields ↔ GetKey cid k ch = Some u) as Hin.
  { intros k u. unfold fields. rewrite elem_of_go_range. unfold GetKey.
    destruct (RMap_Get cid ch); simpl; [done|]. by rewrite lookup_empty. }
  intros k f. change (GetKey k f cc) with (view cc (k, f)).
  change (GetKey k f (fold_left ?u ?l ?x)) with (view (fold_left u l x) (k, f)).
  case_decide as Hd.
  - destruct Hd as [-> [u Hu]]. apply (loop_hit view _ eff I Hi Heff); [by split| |].
    + exists (k, u). split; [by apply Hin|]. unfold eff; simpl. by rewrite decide_True.
    + intros a _. unfold eff. case_decide; auto.
  - apply (loop_miss view _ eff I Hi Heff); [by split|].
    intros [k' u] Hk. apply Hin in Hk. unfold eff; simpl.
    rewrite decide_False; [done|]. intros [-> ->]. by eauto.
Qed.

Lemma table_put_get {T} id (km : @KeyMap T) t n k f :
  t_get (table_put id km t) n k f = if decide (n = id) then GetKey k f km else t_get t n k f.
Proof.
  unfold t_get, table_put. simpl. destruct (decide (n = id)) as [->|Hn].
  - by rewrite lookup_insert_eq.
  - by rewrite lookup_insert_ne.
Qed.

Lemma table_put_wf {T} id (km km' : @KeyMap T) t : table_wf t → rm t !! id = Some km' →
  KeyMap_wf km → table_wf (table_put id km t).
Proof.
  intros [Hl Hk] E Hkm. split; [by apply RMap_wf_put; [|eauto]|]. by apply map_Forall_insert_2.
Qed.

Lemma table_put_nodes {T} id (km km' : @KeyMap T) t : rm t !! id = Some km' →
  t_nodes (table_put id km t) = t_nodes t.
Proof.
  intros E. unfold t_nodes, table_put. simpl. rewrite dom_insert_L.
  apply elem_of_dom_2 in E. set_solver.
Qed.

Lemma t_get_at {T} (t : table T) n km k f : rm t !! n = Some km → t_get t n k f = GetKey k f km.
Proof. intros E. unfold t_get. by rewrite E. Qed.

(** Deleting one field in the table of a node, when the node has one. *)
Definition table_delete {T} (id : Z) (k f : string) (t : table T) : table T :=
  match RMap_Get id t with
  | Some km => table_put id (DeleteKey k f km) t
  | None => t
  end.

Lemma table_delete_spec {T} id k f (t : table T) : table_wf t → table_small t →
  table_wf (table_delete id k f t) ∧ t_nodes (table_delete id k f t) = t_nodes t ∧
  ∀ n k' f', t_get (table_delete id k f t) n k' f' =
    if decide (n = id ∧ k' = k ∧ f' = f) then None else t_get t n k' f'.
Proof.
  intros Hw Hs. unfold table_delete, RMap_Get. destruct (rm t !! id) as [km|] eqn:E.
  - pose proof (KeyMap_wf_at _ _ _ Hw E) as Hkw. pose proof (Hs _ _ E) as Hks. simpl in Hks.
    split_and!.
    + eapply table_put_wf; [done|done|]. by apply KeyMap_wf_DeleteKey.
    + by eapply table_put_nodes.
    + intros n k' f'. rewrite table_put_get. destruct (decide (n = id)) as [->|Hn].
      * rewrite GetKey_DeleteKey, (t_get_at _ _ _ _ _ E) by done.
        repeat case_decide; naive_solver.
      * by rewrite decide_False by naive_solver.
  - split_and!; [done..|]. intros n k' f'.
    case_decide as Hd; [|done]. destruct Hd as (-> & _). unfold t_get. by rewrite E.
Qed.

Lemma userClosed_refines op b : registry_wf b → registry_small b →
  registry_wf (userClosed op b) ∧ view_of (userClosed op b) ≡ view_closed op (view_of b).
Proof.
  intros (Hu & Hc & Hh) (Su & Sc & Sh). destruct op as [uid cid id]. unfold userClosed; simpl.
  change (match RMap_Get id (userClients b) with
          | Some uc => table_put id (DeleteKey uid cid uc) (userClients b)
          | None => userClients b
          end) with (table_delete id uid cid (userClients b)).
  destruct (table_delete_spec id uid cid _ Hu Su) as (Hu' & Nu & Gu).
  destruct (table_delete_spec id cid uid _ Hh Sh) as (Hh' & Nh & Gh).
  assert (∀ ct ht, table_wf ct → t_nodes ct = t_nodes (channelClients b) →
    ht = table_delete id cid uid (clientChannels b) →
    (∀ n k f, t_get ct n k f =
      if decide (n = id ∧ f = cid ∧ is_Some (t_get (clientChannels b) n f k)) then None
      else t_get (channelClients b) n k f) →
    registry_wf (mkRegistry (table_delete id uid cid (userClients b)) ct ht) ∧
    view_of (mkRegistry (table_delete id uid cid (userClients b)) ct ht) ≡
      view_closed (mkUserClosed uid cid id) (view_of b)) as Hfin.
  { intros ct ht Hct Nct -> Gct. split; [by split_and!|]. by split_and!; simpl. }
  unfold table_delete in Hfin at 3. unfold RMap_Get in *.
  destruct (rm (clientChannels b) !! id) as [ch|] eqn:Eh.
  - destruct (rm (channelClients b) !! id) as [cc|] eqn:Ec.
    + destruct (close_loop cid ch cc (KeyMap_wf_at _ _ _ Hc Ec) (Sc _ _ Ec)) as [Hw Hg].
      apply Hfin; [by eapply table_put_wf|by eapply table_put_nodes| |].
      { unfold table_delete, RMap_Get. by rewrite Eh. }
      intros n k f. rewrite table_put_get. destruct (decide (n = id)) as [->|Hn].
      * rewrite Hg, (t_get_at _ _ _ _ _ Eh), (t_get_at _ _ _ _ _ Ec).
        repeat case_decide; naive_solver.
      * by rewrite decide_False by naive_solver.
    + apply Hfin; [done|done|unfold table_delete, RMap_Get; by rewrite Eh|].
      intros n k f. case_decide as Hd; [|done]. destruct Hd as (-> & _ & _).
      unfold t_get. by rewrite Ec.
  - apply Hfin; [done|done|unfold table_delete, RMap_Get; by rewrite Eh|].
    intros n k f. rewrite decide_False; [done|]. intros (-> & _ & Hs).
    unfold t_get in Hs. rewrite Eh in Hs. by destruct Hs.
Qed.

Lemma apply_op_refines op b : registry_wf b → registry_small b →
  registry_wf (apply_op op b) ∧ view_of (apply_op op b) ≡ view_apply op (view_of b).
Proof.
  intros Hb Hs. destruct op as [op|op|op|op]; cbn [apply_op view_apply].
  - by apply userOpened_refines.
  - by apply userClosed_refines.
  - by apply joinChannel_refines.
  - by apply leaveChannel_refines.
Qed.
End specs.

(** ** Histories

    What a broker does to the registry, in the order of the committed log: the four operations
    and the removal of a node. *)
Inductive event := EvOp (op : opdata) | EvRemove (id : Z).

Section histories.
Context `{!GoRange Z, !GoRange string}.

Definition apply_event (e : event) (b : registry) : registry :=
  match e with
  | EvOp op => apply_op op b
  | EvRemove id => removeNode_tables id b
  end.

Definition apply_events (es : list event) (b : registry) : registry :=
  fold_left (λ b e, apply_event e b) es b.

Definition view_event (e : event) (v : view) : view :=
  match e with
  | EvOp op => view_apply op v
  | EvRemove id =>
      mkView (λ n u c, if decide (n = id) then None else v_users v n u c)
        (λ n ch c, if decide (n = id) then None else v_members v n ch c)
        (λ n c ch, if decide (n = id) then None else v_subs v n c ch)
        (v_unodes v ∖ {[id]}) (v_cnodes v ∖ {[id]}) (v_hnodes v ∖ {[id]})
  end.

Definition view_events (es : list event) (v : view) : view :=
  fold_left (λ v e, view_event e v) es v.

(** The registry stays small in every state of the history: no user has 2^31 clients, no
    channel 2^31 members on a node. *)
Fixpoint small_along (es : list event) (b : registry) : Prop :=
  registry_small b ∧
  match es with
  | [] => True
  | e :: es => small_along es (apply_event e b)
  end.

#[export] Instance small_along_dec es b : Decision (small_along es b).
Proof.
  revert b. induction es as [|e es IH]; intros b; cbn [small_along]; apply _.
Defined.

Lemma t_nodes_Delete {T} id (t : table T) : t_nodes (snd (RMap_Delete id t)) = t_nodes t ∖ {[id]}.
Proof. unfold t_nodes. rewrite rm_Delete. apply dom_delete_L. Qed.

Lemma apply_event_refines e b : registry_wf b → registry_small b →
  registry_wf (apply_event e b) ∧ view_of (apply_event e b) ≡ view_event e (view_of b).
Proof.
  intros Hb Hs. destruct e as [op|id]; [by apply apply_op_refines|].
  destruct Hb as (Hu & Hc & Hh). split.
  - split_and!; by apply table_wf_Delete.
  - split_and!; simpl; intros; try apply t_nodes_Delete; apply t_get_Delete.
Qed.

#[export] Instance view_event_proper e : Proper ((≡) ==> (≡)) (view_event e).
Proof.
  destruct e as [op|id]; [apply view_apply_proper|].
  intros v w (Hu & Hm & Hs & E1 & E2 & E3).
  split_and!; simpl; intros; rewrite ?Hu, ?Hm, ?Hs, ?E1, ?E2, ?E3; done.
Qed.

Lemma view_events_proper es v w : v ≡ w → view_events es v ≡ view_events es w.
Proof.
  revert v w. induction es as [|e es IH]; intros v w E; [done|].
  apply IH. by apply view_event_proper.
Qed.

Lemma apply_events_refines es b : registry_wf b → small_along es b →
  registry_wf (apply_events es b) ∧ view_of (apply_events es b) ≡ view_events es (view_of b).
Proof.
  revert b. induction es as [|e es IH]; intros b Hb [Hs Hes]; [done|].
  destruct (apply_event_refines e b Hb Hs) as [Hw Hv].
  destruct (IH _ Hw Hes) as [Hw' Hv']. split; [done|].
  unfold apply_events, view_events in *. cbn [fold_left]. rewrite Hv'.
  by apply view_events_proper.
Qed.

Lemma registry_wf_empty : registry_wf empty_registry.
Proof. split_and!; apply table_wf_empty. Qed.

(** The bytes of the committed entries, applied one after the other. *)
Fixpoint apply_log (log : list bytes) (b : registry) : outcome error registry :=
  match log with
  | [] => Ok b
  | data :: log => b <~ applyRaftOp data b; apply_log log b
  end.

Fixpoint log_small (log : list bytes) (b : registry) : Prop :=
  registry_small b ∧
  match log with
  | [] => True
  | data :: log => match applyRaftOp data b with Ok b => log_small log b | _ => True end
  end.

#[export] Instance log_small_dec log b : Decision (log_small log b).
Proof.
  revert b. induction log as [|data log IH]; intros b; cbn [log_small]; [apply _|].
  apply and_dec; [apply _|]. destruct (applyRaftOp data b); apply _.
Defined.
End histories.

(** Whom a channel delivers to is registered as subscribed and as connected on that node. *)
Definition view_inv (v : view) : Prop := ∀ n ch c net, v_members v n ch c = Some net →
  v_subs v n c ch = Some tt ∧ ∃ u net', v_users v n u c = Some net'.

Lemma view_inv_proper v w : v ≡ w → view_inv v → view_inv w.
Proof.
  intros (Hu & Hm & Hs & _) Hi n ch c net E. rewrite <-Hm in E.
  destruct (Hi n ch c net E) as [E1 (u & net' & E2)]. rewrite <-Hs. split; [done|].
  exists u, net'. by rewrite <-Hu.
Qed.

Lemma view_inv_event e v : view_inv v → view_inv (view_event e v).
Proof.
  intros Hi n ch c net. destruct e as [[[uid cid net' id chs]|[uid cid id]|[uid chs]|[uid chs]]|id];
    cbn [view_event view_apply view_opened view_closed view_join view_leave v_members v_subs v_users].
  - case_decide as Hd.
    + intros _. destruct Hd as (-> & -> & Hch). split; [done|]. exists uid, net'. by rewrite decide_True.
    + intros E. destruct (Hi _ _ _ _ E) as [E1 (u & net2 & E2)]. split; [done|].
      exists u. case_decide; by eauto.
  - case_decide as Hd; [done|]. intros E. destruct (Hi _ _ _ _ E) as [E1 (u & net2 & E2)].
    rewrite decide_False by naive_solver. split; [done|].
    exists u, net2. rewrite decide_False by naive_solver. done.
  - destruct (v_users v n uid c) as [net2|] eqn:Eu; [case_decide as Hch|]; intros E.
    + split; [by rewrite decide_True by eauto|by eauto].
    + destruct (Hi _ _ _ _ E) as [E1 Hu]. split; [|done]. by rewrite decide_False by naive_solver.
    + destruct (Hi _ _ _ _ E) as [E1 Hu]. split; [|done].
      by rewrite decide_False by (intros [[? ?] _]; done).
  - destruct (v_users v n uid c) as [net2|] eqn:Eu; [case_decide as Hch; [done|]|]; intros E;
      destruct (Hi _ _ _ _ E) as [E1 Hu]; (split; [|done]).
    + by rewrite decide_False by naive_solver.
    + by rewrite decide_False by (intros [[? ?] _]; done).
  - case_decide; [done|]. apply Hi.
Qed.

Lemma view_inv_events es v : view_inv v → view_inv (view_events es v).
Proof.
  revert v. induction es as [|e es IH]; intros v Hv; [done|]. by apply IH, view_inv_event.
Qed.

Lemma view_inv_empty : view_inv (view_of empty_registry).
Proof. by intros n ch c net. Qed.

Lemma view_inv_reached `{!GoRange Z, !GoRange string} es : small_along es empty_registry →
  view_inv (view_of (apply_events es empty_registry)).
Proof.
  intros Hs. destruct (apply_events_refines es empty_registry registry_wf_empty Hs) as [_ Hv].
  eapply view_inv_proper; [symmetry; exact Hv|]. apply view_inv_events, view_inv_empty.
Qed.

(** ** Properties of the registry *)

(** C3 (refinement): from a well-formed registry, any history of committed operations and node
    removals takes the three nested concurrent maps to exactly the state the abstract
    operations describe, keeps them well-formed (no empty inner map, exact counters), for every
    order in which Go iterates over its maps. *)
Theorem registry_refines `{!GoRange Z, !GoRange string} (es : list event) (b : registry) :
  registry_wf b → small_along es b →
  registry_wf (apply_events es b) ∧ view_of (apply_events es b) ≡ view_events es (view_of b).
Proof. apply apply_events_refines. Qed.

(** C8 (replicas agree): two brokers that apply the same committed entries, each iterating over
    its maps in its own order, end in the same registry, or panic at the same entry. *)
Theorem replicas_agree (Z1 Z2 : GoRange Z) (S1 S2 : GoRange string) (log : list bytes)
    (b : registry) :
  registry_wf b → @log_small Z1 S1 log b →
  @apply_log Z1 S1 log b = @apply_log Z2 S2 log b.
Proof.
  revert b. induction log as [|data log IH]; intros b Hb [Hs Hlog]; [done|].
  cbn [apply_log]. unfold applyRaftOp in *.
  change (@decodeRaftOp S2 data) with (@decodeRaftOp S1 data).
  destruct (@decodeRaftOp S1 data) as [op|e|w]; cbn [obind] in *; [|by apply IH|done].
  destruct (@apply_op_refines Z1 S1 op b Hb Hs) as [Hw1 Hv1].
  destruct (@apply_op_refines Z2 S2 op b Hb Hs) as [Hw2 Hv2].
  assert (@apply_op Z1 S1 op b = @apply_op Z2 S2 op b) as E.
  { apply view_of_inj; [done|done|]. by rewrite Hv1, Hv2. }
  rewrite <-E. by apply IH.
Qed.

(** A log in which alice connects with two clients, joins a channel and one client leaves. *)
Definition sample_log : list bytes :=
  @op_entry range_forward <$>
    [OpOpened (mkUserOpened "alice" "phone" "tcp" 1 {["news" := ""; "sport" := ""]});
     OpOpened (mkUserOpened "alice" "web" "ws" 2 ∅);
     OpJoin (mkJoin "alice" {["chess" := ""; "go" := ""]});
     OpClosed (mkUserClosed "alice" "phone" 1)].

Lemma replicas_agree_witness :
  @log_small range_forward range_forward sample_log empty_registry ∧
  @apply_log range_forward range_forward sample_log empty_registry =
    @apply_log range_backward range_backward sample_log empty_registry.
Proof.
  split; [vm_decide|]. apply replicas_agree; [apply registry_wf_empty|vm_decide].
Defined.

Definition sample_events : list event :=
  EvOp <$> [OpOpened (mkUserOpened "alice" "phone" "tcp" 1 {["news" := ""]});
            OpJoin (mkJoin "alice" {["chess" := ""]});
            OpClosed (mkUserClosed "alice" "phone" 1)].

Lemma registry_refines_witness :
  view_of (@apply_events range_forward range_backward sample_events empty_registry) ≡
    view_events sample_events (view_of empty_registry) ∧
  t_get (clientChannels (@apply_events range_forward range_backward sample_events empty_registry))
    1 "phone" "news" = Some tt.
Proof.
  split; [|by vm_compute].
  apply (@registry_refines range_forward range_backward); [apply registry_wf_empty|vm_decide].
Defined.

(** C29 (delivery invariant): in every registry reached from the empty one, a channel delivers
    only to clients that are registered as connected on that node and as members of that
    channel. *)
Theorem members_connected `{!GoRange Z, !GoRange string} (es : list event) n ch cid net :
  small_along es empty_registry →
  let b := apply_events es empty_registry in
  t_get (channelClients b) n ch cid = Some net →
  t_get (clientChannels b) n cid ch = Some tt ∧
  ∃ uid net', t_get (userClients b) n uid cid = Some net'.
Proof. intros Hs b E. exact (view_inv_reached es Hs n ch cid net E). Qed.

Lemma members_connected_witness :
  let b := @apply_events range_forward range_forward (take 2 sample_events) empty_registry in
  t_get (channelClients b) 1 "chess" "phone" = Some "tcp" ∧
  t_get (clientChannels b) 1 "phone" "chess" = Some tt.
Proof.
  split; [by vm_compute|].
  apply (@members_connected range_forward range_forward (take 2 sample_events) 1 "chess" "phone" "tcp");
    [vm_decide|by vm_compute].
Defined.

(** In a reached registry, closing a client removes its entry and every
    delivery to it on that node.  The client's own list of channels, however, is kept: the
    deferred call deletes the field named like the user, so every other channel stays listed
    after the client is gone. *)
Theorem userClosed_effect `{!GoRange Z, !GoRange string} (es : list event) uid cid n :
  small_along es empty_registry →
  let b := apply_events es empty_registry in
  let b' := userClosed (mkUserClosed uid cid n) b in
  t_get (userClients b') n uid cid = None ∧
  (∀ ch, t_get (channelClients b') n ch cid = None) ∧
  (∀ ch, ch ≠ uid → t_get (clientChannels b') n cid ch = t_get (clientChannels b) n cid ch) ∧
  (∀ u c, (u ≠ uid ∨ c ≠ cid) → t_get (userClients b') n u c = t_get (userClients b) n u c).
Proof.
  intros Hs b b'. pose proof (view_inv_reached es Hs) as Hi. fold b in Hi.
  destruct (apply_events_refines es empty_registry registry_wf_empty Hs) as [Hw _]. fold b in Hw.
  assert (registry_small b) as Hsb.
  { unfold b. clear -Hs. revert Hs. generalize empty_registry.
    induction es as [|e es IH]; intros r [Hr Hs]; [done|]. by apply IH. }
  destruct (userClosed_refines (mkUserClosed uid cid n) b Hw Hsb) as [_ (Hu & Hm & Hh & _)].
  simpl in Hu, Hm, Hh. fold b' in Hu, Hm, Hh. split_and!.
  - rewrite Hu. by rewrite decide_True.
  - intros ch. rewrite Hm. case_decide as Hd; [done|].
    destruct (t_get (channelClients b) n ch cid) as [net|] eqn:E; [|done].
    destruct (Hi n ch cid net E) as [E' _]. simpl in E'. destruct Hd. by rewrite E'.
  - intros ch Hch. rewrite Hh. by rewrite decide_False by naive_solver.
  - intros u c Hne. rewrite Hu. by rewrite decide_False by naive_solver.
Qed.

Lemma userClosed_effect_witness :
  let b := @apply_events range_forward range_forward (take 2 sample_events) empty_registry in
  let b' := @userClosed range_forward (mkUserClosed "alice" "phone" 1) b in
  t_get (channelClients b') 1 "chess" "phone" = None ∧
  t_get (clientChannels b') 1 "phone" "chess" = Some tt.
Proof.
  pose proof (@userClosed_effect range_forward range_forward (take 2 sample_events) "alice" "phone" 1
    ltac:(vm_decide)) as (_ & H1 & H2 & _).
  split; [apply H1|]. rewrite (H2 "chess") by done. by vm_compute.
Defined.

(** Stale network: when a client opens again on the same node over another network, its
    user entry changes but the channels it had joined earlier keep the old network, to which
    messages to the channel are then addressed. *)
Theorem reopen_keeps_network `{!GoRange Z, !GoRange string} (b : registry) op ch net :
  registry_wf b →
  t_get (channelClients b) (opened_nodeID op) ch (opened_cid op) = Some net →
  opened_channels op !! ch = None →
  t_get (userClients (userOpened op b)) (opened_nodeID op) (opened_uid op) (opened_cid op) =
    Some (opened_net op) ∧
  t_get (channelClients (userOpened op b)) (opened_nodeID op) ch (opened_cid op) = Some net.
Proof.
  intros Hb E Hch. destruct (userOpened_refines op b Hb) as [_ (Hu & Hm & _)].
  destruct op as [uid cid net' id chs]. simpl in *. rewrite Hu, Hm. split.
  - by rewrite decide_True.
  - rewrite decide_False; [done|]. intros (_ & _ & [? Hc]). congruence.
Qed.

Lemma reopen_keeps_network_witness :
  let b := @apply_events range_forward range_forward (take 2 sample_events) empty_registry in
  t_get (channelClients (@userOpened range_forward
    (mkUserOpened "alice" "phone" "ws" 1 ∅) b)) 1 "chess" "phone" = Some "tcp".
Proof.
  apply (@reopen_keeps_network range_forward range_forward _
    (mkUserOpened "alice" "phone" "ws" 1 ∅) "chess" "tcp"); [|by vm_compute|done].
  apply (@apply_events_refines range_forward range_forward (take 2 sample_events) empty_registry);
    [apply registry_wf_empty|vm_decide].
Defined.
