(* ===== verification/Snapshot.v ===== *)
(** * Snapshots of the registry (src/cluster/broker.go, [makeSnapshot], [recoverFromSnapshot])

    A snapshot holds the contents of the three tables as nested Go maps.  The raft library
    transports it as JSON: objects with their members in the order of the keys, every string in
    them as UTF-8 ([json_string]), of two members with the same key the last one read.  The text
    itself (quotes, escapes, decimal numbers) is not modelled. *)
From stdpp Require Import sorting.
From S2P Require Import Prelude Errors Utf8 Coder Safe RaftOps Registry.

Record snapshot := mkSnapshot {
  UserClients : gmap Z (gmap string (gmap string string));
  ChannelClients : gmap Z (gmap string (gmap string string));
  ClientChannels : gmap Z (gmap string (gmap string unit))
}.

(** ** JSON

    What encoding/json makes of a map with string keys and with ids as keys (the ids stay apart,
    so their order does not matter), and back: a repeated key starts with a new value. *)
Definition key_le {A} (x y : string * A) : Prop := String.leb x.1 y.1 = true.
#[export] Instance key_le_dec {A} (x y : string * A) : Decision (key_le x y).
Proof. unfold key_le. apply _. Defined.

Definition json_object {A B} (f : A → B) (m : gmap string A) : list (string * B) :=
  (λ x : string * A, (json_string x.1, f x.2)) <$> merge_sort key_le (map_to_list m).
Definition json_ids {A B} (f : A → B) (m : gmap Z A) : list (Z * B) := prod_map id f <$> map_to_list m.
Definition of_object {K A B} `{Countable K} (g : A → B) (l : list (K * A)) : gmap K B :=
  fold_left (λ m x, <[x.1 := g x.2]> m) l ∅.

Definition json_table (T : Type) : Type := list (Z * list (string * list (string * T))).

Record snapshot_json := mkSnapshotJson {
  json_UserClients : json_table string;
  json_ChannelClients : json_table string;
  json_ClientChannels : json_table unit
}.

(** A table, with what becomes of its leaves: networks are strings, [struct{}] is [{}]. *)
Definition table_Marshal {T} (leaf : T → T) (s : gmap Z (gmap string (gmap string T))) : json_table T :=
  json_ids (json_object (json_object leaf)) s.
Definition table_Unmarshal {T} (l : json_table T) : gmap Z (gmap string (gmap string T)) :=
  of_object (of_object (of_object id)) l.

Definition snapshot_Marshal (s : snapshot) : snapshot_json :=
  mkSnapshotJson (table_Marshal json_string (UserClients s)) (table_Marshal json_string (ChannelClients s))
    (table_Marshal id (ClientChannels s)).

(** [json.Unmarshal(snap.Data, &s)] in [applySnapshot]. *)
Definition snapshot_Unmarshal (s : snapshot_json) : snapshot :=
  mkSnapshot (table_Unmarshal (json_UserClients s)) (table_Unmarshal (json_ChannelClients s))
    (table_Unmarshal (json_ClientChannels s)).

Section snapshot.
Context `{!GoRange Z, !GoRange string}.

(** One of the three loops of [makeSnapshot]. *)
Definition dump_table {T} (t : table T) : gmap Z (gmap string (gmap string T)) :=
  RMap_Range (λ '(id, v) acc,
    let '(ucmap, acc) :=
      match acc !! id with
      | Some ucmap => (ucmap, acc)
      | None => (∅, <[id := ∅]> acc)
      end in
    let ucmap := KeyMap_Range (λ '(uid, cids) ucmap, (true, <[uid := Map_Load cids]> ucmap)) v ucmap in
    (true, <[id := ucmap]> acc)) t ∅.

Definition makeSnapshot (b : registry) : snapshot_json :=
  snapshot_Marshal (mkSnapshot (dump_table (userClients b)) (dump_table (channelClients b))
    (dump_table (clientChannels b))).

(** One of the three loops of [recoverFromSnapshot], on a fresh table. *)
Definition load_table {T} (s : gmap Z (gmap string (gmap string T))) : table T :=
  fold_left (λ t '(id, ucmap),
    let '(km, t) := table_GetOrSet id t in
    let km := fold_left (λ km '(uid, cids), KeyMap_Set uid (NewMap (Some cids)) km)
                (go_range ucmap) km in
    table_put id km t) (go_range s) RMap_empty.

Definition recoverFromSnapshot (s : snapshot) : registry :=
  mkRegistry (load_table (UserClients s)) (load_table (ChannelClients s))
    (load_table (ClientChannels s)).
End snapshot.

(** ** Loops that build a map

    [proj] is the map inside the state; the loop inserts, for each entry of the ranged map, a
    value computed from it under a key that is new. *)
Section build.
Context {K A B S : Type} `{GoRange K} (proj : S → gmap K B) (upd : S → K * A → S) (g : A → B).
Context (Hupd : ∀ s k a, proj s !! k = None → proj (upd s (k, a)) = <[k := g a]> (proj s)).

Lemma build_list l s : NoDup l.*1 → (∀ k, k ∈ l.*1 → proj s !! k = None) →
  proj (fold_left upd l s) = list_to_map (prod_map id g <$> l) ∪ proj s.
Proof.
  revert s. induction l as [|[k a] l IH]; intros s Hnd Hnew.
  { simpl. by rewrite (left_id_L ∅ (∪)). }
  apply NoDup_cons in Hnd as [Hk Hnd]. cbn [fold_left].
  assert (proj s !! k = None) as Hs by (apply Hnew; by left).
  rewrite IH.
  - rewrite Hupd by done. rewrite fmap_cons. simpl.
    rewrite <-insert_union_l, insert_union_r; [done|].
    apply not_elem_of_list_to_map_1. rewrite <-list_fmap_compose. exact Hk.
  - done.
  - intros k' Hin. rewrite Hupd, lookup_insert_ne by (done || (intros ->; done)).
    apply Hnew. by right.
Qed.

Lemma build_range (m : gmap K A) s : proj s = ∅ → proj (fold_left upd (go_range m) s) = g <$> m.
Proof.
  intros Hs. rewrite build_list.
  - rewrite Hs, (right_id_L ∅ (∪)), list_to_map_fmap. by rewrite list_to_map_go_range.
  - apply NoDup_go_range.
  - intros k _. by rewrite Hs, lookup_empty.
Qed.
End build.

(** The contents of a table. *)
Definition table_contents {T} (t : table T) : gmap Z (gmap string (gmap string T)) :=
  (λ km : @KeyMap T, mm <$> rm km) <$> rm t.

Section roundtrip.
Context `{!GoRange Z, !GoRange string}.

Lemma dump_table_contents {T} (t : table T) : dump_table t = table_contents t.
Proof.
  unfold dump_table, RMap_Range.
  rewrite (range_while_fold _ (λ (acc : gmap Z (gmap string (gmap string T))) (x : Z * @KeyMap T),
    <[x.1 := fold_left (λ ucmap y, <[y.1 := mm y.2]> ucmap) (go_range (rm x.2))
               (default ∅ (acc !! x.1))]> acc)).
  - apply (build_range id); [|done]. intros acc id km E. simpl in *. rewrite E. simpl. f_equal.
    apply (build_range (λ x, x) (λ ucmap y, <[y.1 := mm y.2]> ucmap) mm); done.
  - intros [id v] acc. cbn [fst snd]. unfold KeyMap_Range, RMap_Range.
    assert (∀ m, range_while (λ '(uid, cids) ucmap, (true, <[uid := Map_Load cids]> ucmap))
      (go_range (rm v)) m = fold_left (λ (ucmap : gmap string (gmap string T)) y,
      <[y.1 := mm y.2]> ucmap) (go_range (rm v)) m) as Hr.
    { intros m. apply range_while_fold. by intros []. }
    destruct (acc !! id) as [ucmap|] eqn:E; rewrite Hr; [done|]. by rewrite insert_insert_eq.
Qed.

(** The [KeyMap] rebuilt from one map of a snapshot. *)
Lemma load_keymap {T} (m : gmap string (gmap string T)) :
  let km := fold_left (λ km '(uid, cids), KeyMap_Set uid (NewMap (Some cids)) km)
              (go_range m) KeyMap_empty in
  rm km = (mkMap <$> m) ∧ RMap_wf km.
Proof.
  split.
  - apply (build_range rm); [|done]. intros s k a _. apply rm_Set.
  - apply (loop_inv (λ (km : @KeyMap T) '(uid, cids), KeyMap_Set uid (NewMap (Some cids)) km) RMap_wf);
      [|apply RMap_wf_empty].
    intros s [k a] Hs. by apply RMap_wf_Set.
Qed.

Lemma load_table_spec {T} (s : gmap Z (gmap string (gmap string T))) :
  RMap_wf (load_table s) ∧
  rm (load_table s) = (λ m, mkRMap (mkMap <$> m) (i32 (Z.of_nat (size m)))) <$> s.
Proof.
  set (body := λ (t : table T) '(id, ucmap),
    let '(km, t) := table_GetOrSet id t in
    let km := fold_left (λ km '(uid, cids), KeyMap_Set uid (NewMap (Some cids)) km)
                (go_range ucmap) km in
    table_put id km t).
  assert (∀ t id m, body t (id, m) =
    table_modify id (λ km, fold_left (λ km '(uid, cids), KeyMap_Set uid (NewMap (Some cids)) km)
      (go_range m) km) t) as Hb by done.
  split.
  - apply (loop_inv body RMap_wf); [|apply RMap_wf_empty].
    intros t [id m] Ht. rewrite Hb. by apply RMap_wf_table_modify.
  - apply (build_range rm body); [|done].
    intros t id m E. rewrite Hb, rm_table_modify, E. simpl. f_equal.
    destruct (load_keymap m) as [E1 E2]. unfold RMap_wf in E2. rewrite E1, map_size_fmap in E2.
    destruct (fold_left _ _ _) as [rm0 rl0]. simpl in *. by subst.
Qed.

Lemma load_dump {T} (t : table T) : table_wf t → load_table (table_contents t) = t.
Proof.
  intros Ht. destruct (load_table_spec (table_contents t)) as [Hw E].
  assert (rm (load_table (table_contents t)) = rm t) as Er.
  { rewrite E. unfold table_contents. rewrite <-map_fmap_compose.
    rewrite <-(map_fmap_id (rm t)) at 2. apply map_fmap_ext. intros n km Hn.
    destruct (KeyMap_wf_at _ _ _ Ht Hn) as [Hk _]. unfold RMap_wf in Hk.
    destruct km as [m l]. simpl in *. rewrite map_size_fmap, <-Hk. f_equal.
    rewrite <-map_fmap_compose. rewrite <-(map_fmap_id m) at 2.
    apply map_fmap_ext. by intros k [v] _. }
  destruct Ht as [Hl _]. unfold RMap_wf in *. rewrite Er in Hw.
  destruct t, (load_table _). simpl in *. congruence.
Qed.

Lemma load_table_contents {T} (s : gmap Z (gmap string (gmap string T))) : table_contents (load_table s) = s.
Proof.
  destruct (load_table_spec s) as [_ E]. unfold table_contents. rewrite E, <-map_fmap_compose.
  rewrite <-(map_fmap_id s) at 2. apply map_fmap_ext. intros n m _. simpl.
  rewrite <-map_fmap_compose. rewrite <-(map_fmap_id m) at 2. by apply map_fmap_ext.
Qed.
End roundtrip.

(** ** The round trip through JSON *)
Section json.
Context {K : Type} `{Countable K} {A B : Type} (g : A → B).

Lemma of_object_lookup (l : list (K * A)) k b : of_object g l !! k = Some b → ∃ a, (k, a) ∈ l ∧ b = g a.
Proof.
  unfold of_object. induction l as [|[k' a] l IH] using rev_ind; [simpl; by rewrite lookup_empty|].
  rewrite fold_left_app. simpl. setoid_rewrite elem_of_app. destruct (decide (k' = k)) as [->|Hne].
  - rewrite lookup_insert_eq. intros [= <-]. exists a. split; [|done]. right. by apply list_elem_of_singleton.
  - rewrite lookup_insert_ne by done. intros (x & Hx & ->)%IH. exists x. auto.
Qed.

Lemma of_object_NoDup (l : list (K * A)) : NoDup l.*1 → of_object g l = list_to_map (prod_map id g <$> l).
Proof.
  intros Hl. unfold of_object. rewrite (build_list (λ x, x) (λ m x, <[x.1 := g x.2]> m) g); [|done..|].
  - apply (right_id_L ∅ (∪)).
  - intros k _. by rewrite lookup_empty.
Qed.
End json.

(** A map of which the keys are UTF-8 and the values satisfy [P]. *)
Definition utf8_map {A} (P : A → Prop) (m : gmap string A) : Prop :=
  map_Forall (λ k x, valid_utf8 k = true ∧ P x) m.

Section objects.
Context {A B : Type} (f : A → B) (g : B → A) (P : A → Prop).

Lemma object_roundtrip (m : gmap string A) :
  (∀ x, P x → g (f x) = x) → utf8_map P m → of_object g (json_object f m) = m.
Proof.
  intros Hgf Hm. set (l := merge_sort key_le (map_to_list m)).
  assert (l ≡ₚ map_to_list m) as Hl by apply merge_sort_Permutation.
  assert (NoDup l.*1) as Hnd by (rewrite Hl; apply NoDup_fst_map_to_list).
  assert (∀ i x, l !! i = Some x → valid_utf8 x.1 = true ∧ P x.2) as Hall.
  { intros i [k x] Hi. apply (Hm k x), elem_of_map_to_list. rewrite <-Hl. by eapply list_elem_of_lookup_2. }
  assert (json_object f m = prod_map id f <$> l) as ->.
  { apply list_fmap_ext. intros i x Hi. unfold prod_map. f_equal. by eapply json_string_id, Hall. }
  rewrite of_object_NoDup by (by rewrite <-list_fmap_compose).
  rewrite <-list_fmap_compose. rewrite (list_fmap_ext _ id).
  - rewrite list_fmap_id. rewrite <-(list_to_map_to_list m). by apply list_to_map_proper.
  - intros i [k x] Hi. unfold prod_map. simpl. f_equal. by eapply Hgf, (Hall _ _ Hi).
Qed.

Lemma object_valid (m : gmap string A) : (∀ x, P (g (f x))) → utf8_map P (of_object g (json_object f m)).
Proof.
  intros HP k x (y & ([k' z] & [= -> ->] & _)%list_elem_of_fmap & ->)%of_object_lookup.
  split; [apply json_string_valid|apply HP].
Qed.

Lemma ids_roundtrip (m : gmap Z A) :
  (∀ x, P x → g (f x) = x) → map_Forall (λ _, P) m → of_object g (json_ids f m) = m.
Proof.
  intros Hgf Hm. unfold json_ids. rewrite of_object_NoDup.
  - rewrite <-list_fmap_compose, (list_fmap_ext _ id).
    + by rewrite list_fmap_id, list_to_map_to_list.
    + intros i [k x] Hi%list_elem_of_lookup_2%elem_of_map_to_list. unfold prod_map. simpl. f_equal.
      by apply Hgf, (Hm k x).
  - rewrite <-list_fmap_compose. apply (NoDup_fst_map_to_list m).
Qed.

Lemma ids_valid (m : gmap Z A) : (∀ x, P (g (f x))) → map_Forall (λ _, P) (of_object g (json_ids f m)).
Proof. intros HP k x (y & ([k' z] & [= -> ->] & _)%list_elem_of_fmap & ->)%of_object_lookup. apply HP. Qed.
End objects.

(** All the strings of a table are UTF-8, its leaves by [P]. *)
Definition utf8_table {T} (P : T → Prop) (s : gmap Z (gmap string (gmap string T))) : Prop :=
  map_Forall (λ _, utf8_map (utf8_map P)) s.

(** Every id, client id, channel and network of a registry is UTF-8. *)
Definition utf8_registry (b : registry) : Prop :=
  utf8_table (λ s, valid_utf8 s = true) (table_contents (userClients b)) ∧
  utf8_table (λ s, valid_utf8 s = true) (table_contents (channelClients b)) ∧
  utf8_table (λ _, True) (table_contents (clientChannels b)).

#[export] Instance utf8_registry_dec b : Decision (utf8_registry b).
Proof. unfold utf8_registry, utf8_table, utf8_map. apply _. Defined.

Lemma table_json {T} (leaf : T → T) (P : T → Prop) s :
  (∀ x, P (leaf x)) → (∀ x, P x → leaf x = x) →
  utf8_table P (table_Unmarshal (table_Marshal leaf s)) ∧
  (utf8_table P s → table_Unmarshal (table_Marshal leaf s) = s).
Proof.
  intros HP Hid. split.
  - apply ids_valid. intros m. apply object_valid. intros n. by apply object_valid.
  - apply ids_roundtrip. intros m. apply object_roundtrip. intros n. by apply object_roundtrip.
Qed.

(** C18 (snapshots): whatever the iteration orders on both sides, a registry of which every string is
    UTF-8 is what a node that installs its snapshot gets, nodes without users included.  It is the only
    kind: what is installed is UTF-8 throughout, so a registry with an id, client id or channel that is
    not UTF-8, as a client may send, comes back as another one. *)
Theorem snapshot_roundtrip (Z1 Z2 : GoRange Z) (S1 S2 : GoRange string) (b : registry) :
  registry_wf b →
  let b' := @recoverFromSnapshot Z2 S2 (snapshot_Unmarshal (@makeSnapshot Z1 S1 b)) in
  utf8_registry b' ∧ (b' = b ↔ utf8_registry b).
Proof.
  intros (Hu & Hc & Hh). cbn zeta. unfold recoverFromSnapshot, makeSnapshot, snapshot_Marshal, snapshot_Unmarshal.
  cbn [UserClients ChannelClients ClientChannels json_UserClients json_ChannelClients json_ClientChannels].
  rewrite !dump_table_contents.
  assert (∀ s, valid_utf8 (json_string s) = true) as Hv by apply json_string_valid.
  destruct (table_json json_string (λ s, valid_utf8 s = true) (table_contents (userClients b)))
    as [U1 U2]; [done|apply json_string_id|].
  destruct (table_json json_string (λ s, valid_utf8 s = true) (table_contents (channelClients b)))
    as [C1 C2]; [done|apply json_string_id|].
  destruct (table_json id (λ _, True) (table_contents (clientChannels b))) as [H1 H2]; [done..|].
  match goal with |- utf8_registry ?b' ∧ _ => assert (utf8_registry b') as Hb end.
  { unfold utf8_registry. cbn [userClients channelClients clientChannels]. by rewrite !load_table_contents. }
  split; [done|]. split; [by intros <-|]. intros (U3 & C3 & H3).
  rewrite U2, C2, H2, !load_dump by done. by destruct b.
Qed.

(** The login of a user whose id is [zoë] in Latin-1. *)
Definition latin1_user : string := string_of_bytes [x7a; x6f; xeb].
Definition latin1_registry : registry :=
  @apply_events range_forward range_forward [EvOp (OpOpened (mkUserOpened latin1_user "c" "tcp" 1 ∅))] empty_registry.

Lemma snapshot_roundtrip_witness :
  let b := @apply_events range_forward range_forward sample_events empty_registry in
  let restored b := @recoverFromSnapshot range_backward range_backward
    (snapshot_Unmarshal (@makeSnapshot range_forward range_forward b)) in
  restored b = b ∧ restored latin1_registry ≠ latin1_registry.
Proof.
  split.
  - refine (proj2 (proj2 (snapshot_roundtrip range_forward range_backward range_forward range_backward _ _)) _).
    + apply (@apply_events_refines range_forward range_forward); [apply registry_wf_empty|vm_decide].
    + vm_decide.
  - refine (λ E, _ (proj1 (proj2 (snapshot_roundtrip range_forward range_backward range_forward range_backward
      latin1_registry _)) E)).
    + vm_decide.
    + apply (@apply_events_refines range_forward range_forward); [apply registry_wf_empty|vm_decide].
Defined.
