(* ===== verification/Server.v ===== *)
(** * Connections and the server (src/internal/network/conn.go, src/server/server.go)

    The world is the heap of connections of one server and the state of the server.  A
    connection has the identity of its CONNECT packet, the [closed] flag, its send queue and
    whether its socket was closed; what the queue executed is what was written to the socket.
    The callbacks between [conn] and its [delegate] are calls between the definitions of this
    file: [conn.Close] calls [server.OnClose], [server.OnConnect] closes the connection it
    replaces.  A call whose context never ends may block for ever and then has no result
    ([None]).  Statistics are added in [Stats], logging is left out. *)
From S2P Require Import Prelude Errors Coder Packet Queue Safe.

Record conn := mkConn {
  c_id : option Identity;
  c_closed : bool;
  c_queue : @Queue bytes;
  c_raw_closed : bool
}.

Record world := mkWorld {
  heap : gmap nat conn;                (* every connection made so far *)
  conns : RMap string nat;             (* server.conns: client id -> connection *)
  s_closed : bool;
  closed_ids : list Identity           (* the calls of closeHandler, in order *)
}.

(** The handlers of [server.options]. *)
Record handlers := mkHandlers {
  connectHandler : Connect → uint8;
  messageHandler : Message → option Identity → option error;
  requestHandler : Request → option Identity → outcome error bytes
}.

Definition put_conn (i : nat) (c : conn) (w : world) : world :=
  mkWorld (<[i := c]> (heap w)) (conns w) (s_closed w) (closed_ids w).

Definition with_conns (m : RMap string nat) (w : world) : world :=
  mkWorld (heap w) m (s_closed w) (closed_ids w).

(** [network.newConn]: [queue.New] panics on a capacity below one. *)
Definition newConn (id : option Identity) (capacity : Z) : outcome error conn :=
  q <~ New capacity; Ok (mkConn id false q false).

Definition conn_ID (c : conn) : option Identity := c_id c.
Definition conn_IsIdle (c : conn) : bool := IsIdle (c_queue c).
Definition conn_IsClosed (c : conn) : bool := c_closed c.

Section server.
Context `{!GoRange uint8, !GoRange string}.

(** [packet.Marshal] with a fresh encoder; [Packet.Marshal_ok] shows the pool is irrelevant. *)
Definition marshal (p : Packet) : outcome error bytes := fst (Marshal 0 [] p).

(** [SendPacket] ([jump] false) and [jumpPacket] ([jump] true). *)
Definition pushPacket (jump : bool) (ctx : option error) (p : Packet) (c : conn)
  : option (outcome error unit * conn) :=
  if c_closed c then Some (Err (EXerr ConnectionIsClosed), c)
  else match marshal p with
       | Err e => Some (Err e, c)
       | Panic w => Some (Panic w, c)
       | Ok data =>
           '(r, q) ← Push_now ctx jump data (c_queue c);
           Some (r, mkConn (c_id c) (c_closed c) q (c_raw_closed c))
       end.

Definition SendPacket : option error → Packet → conn → option (outcome error unit * conn) :=
  pushPacket false.
Definition jumpPacket : option error → Packet → conn → option (outcome error unit * conn) :=
  pushPacket true.

Definition conn_SendMessage (ctx : option error) (p : Message) (c : conn)
  : option (outcome error unit * conn) := SendPacket ctx (PMessage p) c.

Definition SendPong (c : conn) : option (outcome error unit * conn) :=
  jumpPacket None (PPong NewPong) c.

Definition ConnackCode (code : uint8) (c : conn) : option (outcome error unit * conn) :=
  jumpPacket None (PConnack (NewConnack code)) c.

(** Running a method of the [i]-th connection in the heap. *)
Definition on_conn {A} (i : nat) (f : conn → option (A * conn)) (w : world) : option (A * world) :=
  c ← heap w !! i; '(a, c) ← f c; Some (a, put_conn i c w).

(** [server.OnClose]: the entry is deleted by client id, whichever connection it holds. *)
Definition OnClose (id : option Identity) (w : world) : world :=
  match id with
  | None => w
  | Some id =>
      let '(deleted, m) := RMap_Delete (ClientID id) (conns w) in
      let w := with_conns m w in
      if deleted : bool
      then mkWorld (heap w) (conns w) (s_closed w) (closed_ids w ++ [id])
      else w
  end.

(** [conn.Close]. *)
Definition conn_Close (i : nat) (w : world) : world :=
  match heap w !! i with
  | None => w
  | Some c =>
      if c_closed c then w
      else OnClose (c_id c) (put_conn i (mkConn (c_id c) true (Close_now (c_queue c)) true) w)
  end.

(** [conn.CloseCode]: the result of the jump is ignored. *)
Definition CloseCode (code : uint8) (i : nat) (w : world) : option world :=
  '(_, w) ← on_conn i (jumpPacket None (PClose (NewClose code))) w;
  Some (conn_Close i w).

(** ** The server *)

(** [server.OnConnect] for the new connection [i]. *)
Definition OnConnect (h : handlers) (i : nat) (p : Connect) (w : world) : option (uint8 * world) :=
  let code := connectHandler h p in
  if decide (code = ConnectAccepted) then
    id ← connect_Identity p;
    let '(old, m) := RMap_Swap (ClientID id) i (conns w) in
    let w := with_conns m w in
    w ← (match old with
         | Some old => CloseCode CloseDuplicateLogin old w
         | None => Some w
         end);
    '(_, w) ← on_conn i (ConnackCode ConnectAccepted) w;
    Some (code, w)
  else
    '(_, w) ← on_conn i (ConnackCode code) w;
    Some (code, conn_Close i w).

(** [doConnecton] once the CONNECT packet was read: a fresh connection with the packet's
    identity. *)
Definition accept (h : handlers) (capacity : Z) (p : Connect) (w : world)
  : outcome error (option (uint8 * world)) :=
  c <~ newConn (connect_Identity p) capacity;
  let i := fresh (dom (heap w)) in
  Ok (OnConnect h i p (put_conn i c w)).

Definition GetConn (cid : string) (w : world) : option nat := RMap_Get cid (conns w).

Definition IsActive (cid : string) (w : world) : bool :=
  match RMap_Get cid (conns w) ≫= (λ i, heap w !! i) with
  | Some c => negb (conn_IsClosed c)
  | None => false
  end.

Definition ConnCount (w : world) : Z := RMap_Len (conns w).

(** [ConnInfo]; [ip] gives the address each raw connection was made with. *)
Record conn_info := mkConnInfo { info_IP : string; info_UID : string; info_CID : string }.

Definition ConnInfo (ip : nat → string) (cid : string) (w : world) : option conn_info :=
  i ← RMap_Get cid (conns w);
  c ← heap w !! i;
  id ← conn_ID c;
  Some (mkConnInfo (ip i) (UserID id) (ClientID id)).

Definition KickConn (cid : string) (w : world) : option (bool * world) :=
  match RMap_Get cid (conns w) with
  | Some i => w ← CloseCode CloseKickedOut i w; Some (true, w)
  | None => Some (false, w)
  end.

Definition SendMessage (ctx : option error) (cid : string) (p : Message) (w : world)
  : option (outcome error unit * world) :=
  if s_closed w then Some (Err (EXerr ServerIsClosed), w)
  else match RMap_Get cid (conns w) with
       | None => Some (Err (EXerr ConnectionNotFound), w)
       | Some i => on_conn i (conn_SendMessage ctx p) w
       end.

(** The body of the [Range] of [Brodcast]: attempts and successes. *)
Definition brodcast_one (ctx : option error) (p : Message) (acc : option (Z * Z * world))
    (x : string * nat) : option (Z * Z * world) :=
  '(total, success, w) ← acc;
  '(r, w) ← on_conn x.2 (conn_SendMessage ctx p) w;
  Some (i32 (total + 1), match r with Ok _ => i32 (success + 1) | _ => success end, w).

Definition Brodcast (ctx : option error) (p : Message) (w : world)
  : option (outcome error (Z * Z) * world) :=
  if s_closed w then Some (Err (EXerr ServerIsClosed), w)
  else
    '(total, success, w) ← fold_left (brodcast_one ctx p) (go_range (rm (conns w)))
                              (Some (0, 0, w));
    Some (Ok (total, success), w).

(** [ExpelAllConns]: an entry deleted before [Range] reaches it is skipped. *)
Definition ExpelAllConns (w : world) : option world :=
  w ← fold_left (λ acc x, w ← acc;
        match RMap_Get x.1 (conns w) with
        | Some i => CloseCode CloseServerExpeled i w
        | None => Some w
        end) (go_range (rm (conns w))) (Some w);
  Some (with_conns RMap_empty w).

(** One pass of the loop of [Shutdown] over the connections: idle ones are closed, the others
    counted. *)
Definition Shutdown_pass (w : world) : Z * world :=
  fold_left (λ '(activeConn, w) x,
    match RMap_Get x.1 (conns w) ≫= (λ i, c ← heap w !! i; Some (i, c)) with
    | Some (i, c) => if conn_IsIdle c then (activeConn, conn_Close i w) else (activeConn + 1, w)
    | None => (activeConn, w)
    end) (go_range (rm (conns w))) (0, w).

(** The pause before the next pass, in nanoseconds. *)
Definition Millisecond : Z := 1000000.
Definition Shutdown_wait (activeConn : Z) : Z :=
  let waitTime := i64 (Millisecond * activeConn) in
  if 1000000000 <? waitTime then i64 (Millisecond * 1000)
  else if waitTime <? Millisecond * 50 then Millisecond * 50
  else waitTime.

(** The start of [Shutdown]: only one call goes on. *)
Definition Shutdown_begin (w : world) : outcome error world :=
  if s_closed w then Err (EXerr ServerAlreadyClosed)
  else Ok (mkWorld (heap w) (conns w) true (closed_ids w)).

(** [OnMessage]: the handler's error is logged only. *)
Definition OnMessage (h : handlers) (p : Message) (c : conn) : option error :=
  messageHandler h p (conn_ID c).

(** The response [OnRequest] sends. *)
Definition response_of (h : handlers) (p : Request) (id : option Identity) : outcome error Response :=
  match requestHandler h p id with
  | Ok body => Ok (Request_Response p StatusOK (Some body))
  | Err rerr =>
      let code := match rerr with EStatus code => code | _ => StatusInternalError end in
      Ok (Request_Response p code None)
  | Panic w => Panic w
  end.

Definition OnRequest (h : handlers) (p : Request) (c : conn)
  : option (outcome error unit * conn) :=
  match response_of h p (conn_ID c) with
  | Ok res => SendPacket None (PResponse res) c
  | Err e => Some (Err e, c)
  | Panic w => Some (Panic w, c)
  end.

(** [conn.RecvPacket] for the packets that concern the server; RESPONSE and PONG go to the
    waiting calls of [SendRequest] and [SendPing]. *)
Definition RecvPacket (h : handlers) (i : nat) (p : Packet) (w : world) : option world :=
  c ← heap w !! i;
  if c_closed c then Some w
  else match p with
       | PMessage p => let _ := OnMessage h p c in Some w
       | PRequest p => '(_, w) ← on_conn i (OnRequest h p) w; Some w
       | PPing _ => '(_, w) ← on_conn i SendPong w; Some w
       | PClose _ => Some (conn_Close i w)
       | _ => Some w
       end.

(** ** Steps of the server *)
Inductive server_action :=
| SAccept (p : Connect)
| SRecv (i : nat) (p : Packet)
| SKick (cid : string)
| SSend (ctx : option error) (cid : string) (p : Message)
| SBrodcast (ctx : option error) (p : Message)
| SReadError (code : uint8) (i : nat)   (* the read loop of a transport fails: CloseCode *)
| SExpel
| SRun (i : nat) (a : @action bytes).   (* the send queue of a connection *)

Definition server_step (h : handlers) (capacity : Z) (a : server_action) (w : world)
  : option world :=
  match a with
  | SAccept p =>
      match accept h capacity p w with
      | Ok r => '(_, w) ← r; Some w
      | _ => None
      end
  | SRecv i p => RecvPacket h i p w
  | SKick cid => '(_, w) ← KickConn cid w; Some w
  | SSend ctx cid p => '(_, w) ← SendMessage ctx cid p w; Some w
  | SBrodcast ctx p => '(_, w) ← Brodcast ctx p w; Some w
  | SReadError code i => CloseCode code i w
  | SExpel => ExpelAllConns w
  | SRun i a =>
      c ← heap w !! i; q ← qstep a (c_queue c);
      match a with
      | ARun | ARunTasks => Some (put_conn i (mkConn (c_id c) (c_closed c) q (c_raw_closed c)) w)
      | _ => None
      end
  end.

Definition empty_world : world := mkWorld ∅ RMap_empty false [].

Definition server_run (h : handlers) (capacity : Z) (acts : list server_action) (w : world)
  : option world := fold_left (λ m a, m ≫= server_step h capacity a) acts (Some w).
End server.

(** ** Lemmas on connections *)
Section lemmas.
Context `{!GoRange uint8, !GoRange string}.

Lemma marshal_frame p : Packet_wf p → zlen (packet_body p) <= MAX_LEN → marshal p = Ok (frame p).
Proof.
  intros Hp Hl. unfold marshal. destruct (Marshal_ok 0 [] p) as [-> _]; [by constructor|done|].
  unfold Marshal_spec. destruct (Z.leb_spec (zlen (packet_body p)) MAX_LEN); [done|lia].
Qed.

(** A packet whose body is a code byte and no properties. *)
Lemma marshal_code p : Packet_wf p → (∃ c, packet_body p = [c; x00]) → marshal p = Ok (frame p).
Proof. intros Hp [c E]. apply marshal_frame; [done|]. by rewrite E. Qed.

Lemma marshal_connack code : marshal (PConnack (NewConnack code)) = Ok (frame (PConnack (NewConnack code))).
Proof.
  apply marshal_code; [vm_decide|]. exists code. simpl. unfold enc_props.
  by rewrite go_range_empty.
Qed.

Lemma marshal_close code : marshal (PClose (NewClose code)) = Ok (frame (PClose (NewClose code))).
Proof.
  apply marshal_code; [vm_decide|]. exists code. simpl. unfold enc_props.
  by rewrite go_range_empty.
Qed.

Lemma pushPacket_keeps jump ctx p c r c' : pushPacket jump ctx p c = Some (r, c') →
  c_id c' = c_id c ∧ c_closed c' = c_closed c ∧ c_raw_closed c' = c_raw_closed c.
Proof.
  unfold pushPacket. destruct (c_closed c) eqn:Ec; [intros [= <- <-]; by rewrite Ec|].
  destruct (marshal p); [|intros [= <- <-]; by rewrite Ec..].
  destruct (Push_now _ _ _ _) as [[r' q]|]; [|done]. simpl. by intros [= <- <-].
Qed.

Lemma on_conn_heap {A} i (f : conn → option (A * conn)) w a w' :
  on_conn i f w = Some (a, w') → ∃ c c', heap w !! i = Some c ∧ f c = Some (a, c') ∧
    w' = put_conn i c' w.
Proof.
  unfold on_conn. destruct (heap w !! i) as [c|]; [|done]. simpl.
  destruct (f c) as [[a' c']|] eqn:E; [|done]. simpl. intros [= -> <-]. by exists c, c'.
Qed.

(** Registered connections exist, are open and have the client id they are registered under. *)
Definition server_inv (w : world) : Prop :=
  RMap_wf (conns w) ∧
  ∀ cid i, rm (conns w) !! cid = Some i →
    ∃ c id, heap w !! i = Some c ∧ c_id c = Some id ∧ ClientID id = cid ∧ c_closed c = false.

(** Connections registered under different ids are different. *)
Lemma registered_inj k1 k2 i w : server_inv w → rm (conns w) !! k1 = Some i →
  rm (conns w) !! k2 = Some i → k1 = k2.
Proof.
  intros [_ Hr] H1 H2. destruct (Hr _ _ H1) as (c1 & id1 & E1 & F1 & <- & _).
  destruct (Hr _ _ H2) as (c2 & id2 & E2 & F2 & <- & _). by simplify_eq.
Qed.

Lemma server_inv_put i c c' w : server_inv w → heap w !! i = Some c → c_id c' = c_id c →
  c_closed c' = c_closed c → server_inv (put_conn i c' w).
Proof.
  intros [Hl Hr] Ei Eid Ecl. split; [done|]. intros cid j Ej.
  destruct (Hr cid j Ej) as (c0 & id & Hj & ? & ? & ?). simpl.
  destruct (decide (j = i)) as [->|Hne].
  - exists c', id. rewrite lookup_insert_eq. simplify_eq. split_and!; congruence.
  - exists c0, id. by rewrite lookup_insert_ne.
Qed.

Lemma server_inv_push i jump ctx p w r w' : server_inv w →
  on_conn i (pushPacket jump ctx p) w = Some (r, w') → server_inv w'.
Proof.
  intros Hw E. apply on_conn_heap in E as (c & c' & Ei & Ep & ->).
  apply pushPacket_keeps in Ep as (? & ? & ?). by eapply server_inv_put.
Qed.

(** What [conn.Close] does to an open connection. *)
Lemma conn_Close_open i c id w : heap w !! i = Some c → c_closed c = false → c_id c = Some id →
  conn_Close i w =
    mkWorld (<[i := mkConn (Some id) true (Close_now (c_queue c)) true]> (heap w))
      (snd (RMap_Delete (ClientID id) (conns w))) (s_closed w)
      (if decide (is_Some (rm (conns w) !! ClientID id)) then closed_ids w ++ [id]
       else closed_ids w).
Proof.
  intros Ei Ec Eid. unfold conn_Close. rewrite Ei, Ec, Eid. unfold OnClose, put_conn. simpl.
  unfold RMap_Delete. destruct (rm (conns w) !! ClientID id) eqn:E; simpl.
  - done.
  - done.
Qed.

Lemma server_inv_Close i w : server_inv w → server_inv (conn_Close i w).
Proof.
  intros [Hl Hr]. destruct (heap w !! i) as [c|] eqn:Ei; [|by unfold conn_Close; rewrite Ei].
  destruct (c_closed c) eqn:Ec; [by unfold conn_Close; rewrite Ei, Ec|].
  destruct (c_id c) as [id|] eqn:Eid.
  - rewrite (conn_Close_open i c id w) by done. split; [by apply RMap_wf_Delete|].
    simpl. rewrite rm_Delete. intros cid j Ej. apply lookup_delete_Some in Ej as [Hne Ej].
    destruct (Hr cid j Ej) as (c0 & id0 & Hj & ? & ? & ?).
    exists c0, id0. rewrite lookup_insert_ne; [done|]. intros ->. congruence.
  - unfold conn_Close. rewrite Ei, Ec, Eid. simpl. split; [done|]. simpl. intros cid j Ej.
    destruct (Hr cid j Ej) as (c0 & id0 & Hj & ? & ? & ?).
    exists c0, id0. rewrite lookup_insert_ne; [done|]. intros ->. congruence.
Qed.

Lemma server_inv_CloseCode code i w w' : server_inv w → CloseCode code i w = Some w' →
  server_inv w'.
Proof.
  intros Hw. unfold CloseCode. destruct (on_conn _ _ w) as [[r w1]|] eqn:E; [|done]. simpl.
  intros [= <-]. by eapply server_inv_Close, server_inv_push.
Qed.

(** Registering an open connection under its own client id. *)
Lemma server_inv_register i c id w : server_inv w → heap w !! i = Some c → c_id c = Some id →
  c_closed c = false →
  server_inv (with_conns (snd (RMap_Swap (ClientID id) i (conns w))) w).
Proof.
  intros [Hl Hr] Ei Eid Ec. split; [by apply RMap_wf_Swap|]. simpl.
  assert (rm (snd (RMap_Swap (ClientID id) i (conns w))) = <[ClientID id := i]> (rm (conns w))) as ->.
  { unfold RMap_Swap. by destruct (rm (conns w) !! ClientID id). }
  intros cid j Ej. destruct (decide (cid = ClientID id)) as [->|Hne].
  - rewrite lookup_insert_eq in Ej. injection Ej as <-. eauto 10.
  - rewrite lookup_insert_ne in Ej by done. by apply Hr.
Qed.

Lemma server_inv_new i c w : server_inv w → i ∉ dom (heap w) → server_inv (put_conn i c w).
Proof.
  intros [Hl Hr] Hi. split; [done|]. intros cid j Ej.
  destruct (Hr cid j Ej) as (c0 & id0 & Hj & ? & ? & ?). exists c0, id0. simpl.
  rewrite lookup_insert_ne; [done|]. intros ->. apply Hi, elem_of_dom. by eauto.
Qed.

Lemma server_inv_OnConnect h i c p w code w' : server_inv w → heap w !! i = Some c →
  c_id c = connect_Identity p → c_closed c = false →
  OnConnect h i p w = Some (code, w') → server_inv w'.
Proof.
  intros Hw Ei Eid Ec. unfold OnConnect. case_decide as Hcode.
  - destruct (connect_Identity p) as [id|]; [|done]. simpl.
    pose proof (server_inv_register i c id w Hw Ei Eid Ec) as Hreg.
    destruct (RMap_Swap (ClientID id) i (conns w)) as [old m]. simpl in *.
    destruct old as [old|]; simpl.
    + destruct (CloseCode CloseDuplicateLogin old _) as [w1|] eqn:E1; [|done]. simpl.
      destruct (on_conn i (ConnackCode ConnectAccepted) w1) as [[r w2]|] eqn:E2; [|done]. simpl.
      intros [= <- <-]. eapply server_inv_push; [|exact E2].
      by eapply server_inv_CloseCode.
    + destruct (on_conn i (ConnackCode ConnectAccepted) _) as [[r w2]|] eqn:E2; [|done]. simpl.
      intros [= <- <-]. by eapply server_inv_push.
  - destruct (on_conn i (ConnackCode (connectHandler h p)) w) as [[r w1]|] eqn:E1; [|done]. simpl.
    intros [= <- <-]. by eapply server_inv_Close, server_inv_push.
Qed.

Lemma server_inv_empty : server_inv empty_world.
Proof. split; [done|]. by intros cid i. Qed.
Lemma server_inv_on_conn {A} i (f : conn → option (A * conn)) w a w' : server_inv w →
  (∀ c a c', f c = Some (a, c') → c_id c' = c_id c ∧ c_closed c' = c_closed c) →
  on_conn i f w = Some (a, w') → server_inv w'.
Proof.
  intros Hw Hf E. apply on_conn_heap in E as (c & c' & Ei & Ep & ->).
  apply Hf in Ep as [? ?]. by eapply server_inv_put.
Qed.

Lemma push_keeps jump ctx p c r c' : pushPacket jump ctx p c = Some (r, c') →
  c_id c' = c_id c ∧ c_closed c' = c_closed c.
Proof. intros E. by apply pushPacket_keeps in E as (? & ? & _). Qed.

Lemma OnRequest_keeps h p c r c' : OnRequest h p c = Some (r, c') →
  c_id c' = c_id c ∧ c_closed c' = c_closed c.
Proof.
  unfold OnRequest. destruct (response_of h p (conn_ID c)); [apply push_keeps|..];
    by intros [= _ <-].
Qed.

Lemma newConn_ok id capacity c : newConn id capacity = Ok c →
  c_id c = id ∧ c_closed c = false ∧ 1 <= capacity ∧
  c_queue c = mkQueue [] false [] false capacity false CNone RTop ∅ [] [].
Proof.
  unfold newConn, New. destruct (Z.ltb_spec capacity 1); [done|]. simpl. by intros [= <-].
Qed.

Lemma brodcast_inv ctx p l acc : 
  match acc with Some (_, _, w) => server_inv w | None => True end →
  match fold_left (brodcast_one ctx p) l acc with Some (_, _, w) => server_inv w | None => True end.
Proof.
  apply (fold_inv (brodcast_one ctx p)
    (λ acc, match acc with Some (_, _, w) => server_inv w | None => True end)).
  intros [[[t s] w]|] x Hw; simpl; [|done].
  destruct (on_conn x.2 _ w) as [[r w1]|] eqn:E; [|done]. simpl.
  eapply server_inv_on_conn; [done| |exact E]. intros c a c'. apply push_keeps.
Qed.

Lemma server_inv_step h capacity a w w' : server_inv w →
  server_step h capacity a w = Some w' → server_inv w'.
Proof.
  intros Hw. destruct a as [p|i p|cid|ctx cid p|ctx p|code i| |i a]; cbn [server_step].
  - unfold accept. destruct (newConn (connect_Identity p) capacity) as [c|e|x] eqn:Ec; [|done..].
    apply newConn_ok in Ec as (Eid & Ecl & _). simpl. set (i := fresh (dom (heap w))).
    destruct (OnConnect h i p _) as [[code w1]|] eqn:E; [|done]. simpl. intros [= <-].
    refine (server_inv_OnConnect h i c p _ code w1 _ _ Eid Ecl E); [|apply lookup_insert_eq].
    apply server_inv_new; [done|apply is_fresh].
  - unfold RecvPacket. destruct (heap w !! i) as [c|]; [|done]. simpl.
    destruct (c_closed c); [by intros [= <-]|].
    destruct p; try (by intros [= <-]).
    + destruct (on_conn i _ w) as [[r w1]|] eqn:E; [|done]. simpl. intros [= <-].
      eapply server_inv_on_conn; [done| |exact E]. intros c0 a c0'. apply OnRequest_keeps.
    + destruct (on_conn i _ w) as [[r w1]|] eqn:E; [|done]. simpl. intros [= <-].
      by eapply server_inv_push.
    + intros [= <-]. by apply server_inv_Close.
  - unfold KickConn. destruct (RMap_Get cid (conns w)) as [i|]; [|by intros [= <-]].
    destruct (CloseCode _ i w) as [w1|] eqn:E; [|done]. simpl. intros [= <-].
    by eapply server_inv_CloseCode.
  - unfold SendMessage. destruct (s_closed w); [by intros [= <-]|].
    destruct (RMap_Get cid (conns w)) as [i|]; [|by intros [= <-]].
    destruct (on_conn i _ w) as [[r w1]|] eqn:E; [|done]. simpl. intros [= <-].
    by eapply server_inv_push.
  - unfold Brodcast. destruct (s_closed w); [by intros [= <-]|].
    pose proof (brodcast_inv ctx p (go_range (rm (conns w))) (Some (0, 0, w)) Hw) as Hb.
    destruct (fold_left _ _ _) as [[[t s] w1]|]; [|done]. simpl. by intros [= <-].
  - by apply server_inv_CloseCode.
  - unfold ExpelAllConns. destruct (fold_left _ _ _) as [w1|]; [|done]. simpl. intros [= <-].
    split; [done|]. by intros cid i.
  - destruct (heap w !! i) as [c|] eqn:Ei; [|done]. simpl.
    destruct (qstep a (c_queue c)) as [q|]; [|done]. simpl.
    destruct a; try done; intros [= <-]; by eapply server_inv_put.
Qed.

Lemma server_inv_run h capacity acts w w' : server_inv w →
  server_run h capacity acts w = Some w' → server_inv w'.
Proof.
  unfold server_run. revert w. induction acts as [|a acts IH]; intros w Hw; cbn [fold_left].
  { by intros [= ->]. }
  change (Some w ≫= server_step h capacity a) with (server_step h capacity a w).
  destruct (server_step h capacity a w) as [w1|] eqn:E.
  - intros Hr. eapply IH; [|exact Hr]. by eapply server_inv_step.
  - intros Hr. exfalso. revert Hr. clear. induction acts; [done|]. simpl. done.
Qed.
End lemmas.

(** ** Logging in *)
Section login.
Context `{!GoRange uint8, !GoRange string}.

(** The CONNACK on a new connection is queued at once. *)
Lemma ConnackCode_new id capacity code c : newConn id capacity = Ok c →
  ConnackCode code c =
    Some (Ok tt, mkConn id false
                   (send true (frame (PConnack (NewConnack code))) (c_queue c)) (c_raw_closed c)).
Proof.
  intros Hc. apply newConn_ok in Hc as (Eid & Ecl & _ & Eq).
  unfold ConnackCode, jumpPacket, pushPacket. rewrite Ecl, marshal_connack. unfold Push_now.
  destruct c as [cid cl q raw]. simpl in *. by subst.
Qed.

Lemma newConn_Ok id capacity : 1 <= capacity → ∃ c, newConn id capacity = Ok c.
Proof. intros Hc. unfold newConn, New. destruct (Z.ltb_spec capacity 1); [lia|]. by eexists. Qed.

Lemma lookup_put i c w : heap (put_conn i c w) !! i = Some c.
Proof. apply lookup_insert_eq. Qed.
End login.

(** ** Properties of the server *)

(** C7 (registration invariant): in every world the server reaches, through logins, packets,
    kicks, broadcasts, read errors and the work of the send queues, a registered client's
    connection is open and carries that client id, so [IsActive] says exactly who is
    registered, [ConnInfo] answers with that id and the address of that connection, and
    [ConnCount] is the number of registered clients. *)
Theorem server_registered `{!GoRange uint8, !GoRange string} h capacity acts w :
  server_run h capacity acts empty_world = Some w →
  (∀ cid, IsActive cid w = bool_decide (is_Some (GetConn cid w))) ∧
  (∀ ip cid info, ConnInfo ip cid w = Some info →
     info_CID info = cid ∧ ∃ i, GetConn cid w = Some i ∧ info_IP info = ip i) ∧
  ConnCount w = i32 (Z.of_nat (size (rm (conns w)))).
Proof.
  intros Hr. pose proof (server_inv_run _ _ _ _ _ server_inv_empty Hr) as [Hl Hc].
  split_and!; [| |exact Hl].
  - intros cid. unfold IsActive, GetConn, RMap_Get.
    destruct (rm (conns w) !! cid) as [i|] eqn:E; [|done]. simpl.
    destruct (Hc cid i E) as (c & id & -> & _ & _ & Hcl). unfold conn_IsClosed. by rewrite Hcl.
  - intros ip cid info. unfold ConnInfo, GetConn, RMap_Get.
    destruct (rm (conns w) !! cid) as [i|] eqn:E; [|done]. simpl.
    destruct (Hc cid i E) as (c & id & -> & Eid & Hid & _). simpl. unfold conn_ID. rewrite Eid.
    simpl. intros [= <-]. by eauto.
Qed.

(** Handlers that accept everybody, do nothing with messages and echo requests. *)
Definition echo_handlers : handlers :=
  mkHandlers (λ _, ConnectAccepted) (λ _ _, None) (λ p _, Ok (request_Body p)).

Definition login_of (uid cid : string) : Connect := NewConnect (Some (mkIdentity uid cid "")).

Definition world_after (h : handlers) (acts : list server_action) : world :=
  default empty_world (@server_run range_forward range_forward h 8 acts empty_world).

Lemma server_registered_witness :
  IsActive "phone" (world_after echo_handlers
    [SAccept (login_of "alice" "phone"); SAccept (login_of "bob" "pad"); SRun 0 ARun;
     SKick "pad"]) = true ∧
  ConnCount (world_after echo_handlers
    [SAccept (login_of "alice" "phone"); SAccept (login_of "bob" "pad"); SRun 0 ARun;
     SKick "pad"]) = 1.
Proof.
  pose proof (@server_registered range_forward range_forward echo_handlers 8
    [SAccept (login_of "alice" "phone"); SAccept (login_of "bob" "pad"); SRun 0 ARun; SKick "pad"]
    _ ltac:(vm_compute; reflexivity)) as (H1 & _ & H3).
  split; [exact (H1 "phone")|exact H3].
Defined.

(** The state after an accepted login of a free client id, field by field. *)
Lemma accept_free `{!GoRange uint8} h capacity p id w :
  1 <= capacity → connectHandler h p = ConnectAccepted → connect_Identity p = Some id →
  GetConn (ClientID id) w = None →
  let i := fresh (dom (heap w)) in
  ∃ w' c, accept h capacity p w = Ok (Some (ConnectAccepted, w')) ∧
    heap w' = <[i := c]> (heap w) ∧ rm (conns w') = <[ClientID id := i]> (rm (conns w)) ∧
    c_closed c = false ∧ c_id c = Some id ∧
    jumps (c_queue c) = [frame (PConnack (NewConnack ConnectAccepted))] ∧
    ConnCount w' = i32 (ConnCount w + 1) ∧ closed_ids w' = closed_ids w ∧ s_closed w' = s_closed w.
Proof.
  intros Hcap Hacc Hid Hfree i. unfold accept. rewrite Hid.
  destruct (newConn_Ok (Some id) capacity Hcap) as [c Hc]. rewrite Hc. cbn [obind].
  fold i. unfold GetConn, RMap_Get in *.
  unfold OnConnect. rewrite Hacc, decide_True by done. rewrite Hid. simpl.
  unfold RMap_Swap. rewrite Hfree. simpl. unfold on_conn. simpl. rewrite lookup_insert_eq. simpl.
  rewrite (ConnackCode_new _ _ _ _ Hc). simpl.
  eexists _, _. split_and!; [reflexivity|simpl; by rewrite insert_insert_eq|done|..].
  all: try done; apply newConn_ok in Hc as (? & ? & _ & Eq); rewrite ?Eq; done.
Qed.

(** An accepted CONNECT of a client id that is not registered always completes;
    the new connection is registered under its client id, is open, has the CONNACK as its first
    frame to write, and nobody else is affected. *)
Theorem login_registers `{!GoRange uint8, !GoRange string} h capacity p id w :
  1 <= capacity → connectHandler h p = ConnectAccepted → connect_Identity p = Some id →
  GetConn (ClientID id) w = None →
  ∃ w' i c, accept h capacity p w = Ok (Some (ConnectAccepted, w')) ∧
    heap w !! i = None ∧ heap w' = <[i := c]> (heap w) ∧
    GetConn (ClientID id) w' = Some i ∧
    (∀ cid, cid ≠ ClientID id → GetConn cid w' = GetConn cid w) ∧
    c_closed c = false ∧ jumps (c_queue c) = [frame (PConnack (NewConnack ConnectAccepted))] ∧
    ConnCount w' = i32 (ConnCount w + 1) ∧ closed_ids w' = closed_ids w.
Proof.
  intros Hcap Hacc Hid Hfree.
  destruct (accept_free h capacity p id w Hcap Hacc Hid Hfree) as (w' & c & E & Eh & Em & Hc & _ & ? & ? & ? & _).
  exists w', (fresh (dom (heap w))), c. unfold GetConn, RMap_Get. rewrite Em, lookup_insert_eq.
  split_and!; try done; [apply not_elem_of_dom, is_fresh|intros cid Hne; by rewrite lookup_insert_ne].
Qed.

Lemma login_registers_witness :
  1 <= 8 ∧ GetConn "phone" empty_world = None ∧
  ∃ w' i c, @accept range_forward echo_handlers 8 (login_of "alice" "phone") empty_world =
    Ok (Some (ConnectAccepted, w')) ∧
    heap empty_world !! i = None ∧ heap w' = <[i := c]> (heap empty_world) ∧
    GetConn "phone" w' = Some i ∧
    (∀ cid, cid ≠ "phone" → GetConn cid w' = GetConn cid empty_world) ∧
    c_closed c = false ∧
    jumps (c_queue c) = [@frame range_forward (PConnack (NewConnack ConnectAccepted))] ∧
    ConnCount w' = i32 (ConnCount empty_world + 1) ∧ closed_ids w' = closed_ids empty_world.
Proof.
  split; [done|split; [done|]].
  apply (@login_registers range_forward range_forward echo_handlers 8 (login_of "alice" "phone")
    (mkIdentity "alice" "phone" "") empty_world); done.
Defined.

(** When a client id that is already registered logs in again, the old
    connection's closing callback deletes the entry just written for the new one: after the
    accepted login nobody is registered under the client id, the new connection is open but
    unknown to the server, and the close handler was called for the client. *)
Theorem duplicate_login_unregisters `{!GoRange uint8, !GoRange string} h capacity p id old w code w' :
  server_inv w → connectHandler h p = ConnectAccepted → connect_Identity p = Some id →
  GetConn (ClientID id) w = Some old →
  accept h capacity p w = Ok (Some (code, w')) →
  code = ConnectAccepted ∧ GetConn (ClientID id) w' = None ∧ IsActive (ClientID id) w' = false ∧
  (∃ id0, ClientID id0 = ClientID id ∧ closed_ids w' = closed_ids w ++ [id0]) ∧
  ∃ i c, heap w !! i = None ∧ heap w' !! i = Some c ∧ c_id c = Some id ∧ c_closed c = false.
Proof.
  intros [Hl Hr] Hacc Hid Hreg. unfold accept. rewrite Hid.
  destruct (newConn (Some id) capacity) as [c|e|x] eqn:Hc; [|done..]. cbn [obind].
  set (i := fresh (dom (heap w))). unfold GetConn, RMap_Get in *.
  assert (heap w !! i = None) as Hi by apply not_elem_of_dom, is_fresh.
  destruct (Hr _ _ Hreg) as (c0 & id0 & Ho & Eid0 & Ecid & Ecl).
  assert (old ≠ i) as Hne by (intros ->; congruence).
  unfold OnConnect. rewrite Hacc, decide_True by done. rewrite Hid. simpl.
  unfold RMap_Swap. rewrite Hreg. simpl. unfold CloseCode.
  destruct (on_conn old _ _) as [[r w1]|] eqn:E1; [|done]. simpl.
  apply on_conn_heap in E1 as (c1 & c1' & E1 & Ep & ->). simpl in E1.
  rewrite lookup_insert_ne in E1 by done. rewrite E1 in Ho. injection Ho as ->.
  apply push_keeps in Ep as [Eid' Ecl'].
  erewrite (conn_Close_open old c1' id0); [|apply lookup_put|congruence|congruence].
  simpl. rewrite Ecid. unfold on_conn. simpl.
  do 2 (rewrite (lookup_insert_ne _ old i) by done). rewrite (lookup_insert_eq _ i). simpl.
  rewrite (ConnackCode_new _ _ _ _ Hc). simpl. intros [= <- <-]. unfold IsActive, RMap_Get. simpl.
  rewrite rm_Delete. simpl. rewrite lookup_delete_eq. split_and!; [done..| |].
  - exists id0. split; [done|]. rewrite decide_True; [done|]. by rewrite lookup_insert_eq.
  - exists i, (mkConn (Some id) false
      (send true (frame (PConnack (NewConnack ConnectAccepted))) (c_queue c)) (c_raw_closed c)).
    rewrite lookup_insert_eq. done.
Qed.

Definition logged_in : world := world_after echo_handlers [SAccept (login_of "alice" "phone")].

Lemma logged_in_inv : server_inv logged_in.
Proof.
  apply (@server_inv_run range_forward range_forward echo_handlers 8
    [SAccept (login_of "alice" "phone")] empty_world); [apply server_inv_empty|].
  vm_compute. reflexivity.
Qed.

Lemma duplicate_login_unregisters_witness :
  IsActive "phone" logged_in = true ∧
  IsActive "phone" (world_after echo_handlers
    [SAccept (login_of "alice" "phone"); SAccept (login_of "alice" "phone")]) = false.
Proof.
  split; [by vm_compute|].
  apply (@duplicate_login_unregisters range_forward range_forward echo_handlers 8
    (login_of "alice" "phone") (mkIdentity "alice" "phone" "") 0 logged_in ConnectAccepted);
    [apply logged_in_inv|done|done|by vm_compute|by vm_compute].
Defined.

(** A CONNECT that the connect handler rejects always completes, but when
    it names the client id of somebody who is logged in, closing the rejected connection
    deletes that client's registration and calls the close handler, while the client's own
    connection stays open. *)
Theorem rejected_login_unregisters `{!GoRange uint8, !GoRange string} h capacity p id old w :
  1 <= capacity → server_inv w → connectHandler h p ≠ ConnectAccepted →
  connect_Identity p = Some id → GetConn (ClientID id) w = Some old →
  ∃ w' c, accept h capacity p w = Ok (Some (connectHandler h p, w')) ∧
    GetConn (ClientID id) w' = None ∧ closed_ids w' = closed_ids w ++ [id] ∧
    heap w' !! old = Some c ∧ heap w !! old = Some c ∧ c_closed c = false.
Proof.
  intros Hcap [Hl Hr] Hrej Hid Hreg. unfold accept. rewrite Hid.
  destruct (newConn_Ok (Some id) capacity Hcap) as [c Hc]. rewrite Hc. cbn [obind].
  set (i := fresh (dom (heap w))). unfold GetConn, RMap_Get in *.
  assert (heap w !! i = None) as Hi by apply not_elem_of_dom, is_fresh.
  destruct (Hr _ _ Hreg) as (c0 & id0 & Ho & _ & _ & Ecl).
  assert (old ≠ i) as Hne by (intros ->; congruence).
  unfold OnConnect. rewrite decide_False by done. unfold on_conn. simpl.
  rewrite lookup_insert_eq. simpl. rewrite (ConnackCode_new _ _ _ _ Hc). simpl.
  erewrite (conn_Close_open i _ id); [|apply lookup_put|done|done]. simpl.
  rewrite decide_True by eauto.
  eexists _, c0. split_and!; [reflexivity|simpl..].
  - rewrite rm_Delete. apply lookup_delete_eq.
  - done.
  - by rewrite !lookup_insert_ne.
  - done.
  - done.
Qed.

Definition strict_handlers : handlers :=
  mkHandlers
    (λ p, match connect_Identity p with
          | Some id => if decide (Password id = "secret") then ConnectAccepted else ConnectAuthfail
          | None => ConnectAuthfail
          end) (λ _ _, None) (λ p _, Ok (request_Body p)).

Lemma rejected_login_unregisters_witness :
  ∃ w' c, @accept range_forward strict_handlers 8 (login_of "mallory" "phone") logged_in =
    Ok (Some (ConnectAuthfail, w')) ∧
    GetConn "phone" w' = None ∧
    closed_ids w' = closed_ids logged_in ++ [mkIdentity "mallory" "phone" ""] ∧
    heap w' !! 0%nat = Some c ∧ heap logged_in !! 0%nat = Some c ∧ c_closed c = false.
Proof.
  apply (@rejected_login_unregisters range_forward range_forward strict_handlers 8
    (login_of "mallory" "phone") (mkIdentity "mallory" "phone" "") 0 logged_in);
    [done|apply logged_in_inv|by vm_compute|done|by vm_compute].
Defined.

(** A request received on an open connection with room in its send
    queue is answered by exactly one response, queued last, that carries the request's id: with
    status OK and the handler's body, with the status code the handler failed with, or with
    InternalError for any other error. *)
Theorem request_reply `{!GoRange uint8, !GoRange string} h i p c w :
  heap w !! i = Some c → c_closed c = false →
  closed (c_queue c) = false → tasks_nil (c_queue c) = false →
  zlen (tasks (c_queue c)) < tasks_cap (c_queue c) →
  inU 16 (request_ID p) →
  match requestHandler h p (c_id c) with
  | Ok body => zlen body < 2 ^ 32 | Err _ => True | Panic _ => False
  end →
  ∃ res q, RecvPacket h i (PRequest p) w =
      Some (put_conn i (mkConn (c_id c) (c_closed c) q (c_raw_closed c)) w) ∧
    tasks q = tasks (c_queue c) ++ [frame (PResponse res)] ∧ jumps q = jumps (c_queue c) ∧
    response_id res = request_ID p ∧
    match requestHandler h p (c_id c) with
    | Ok body => response_Code res = StatusOK ∧ response_Body res = body
    | Err (EStatus s) => response_Code res = s ∧ response_Body res = []
    | _ => response_Code res = StatusInternalError ∧ response_Body res = []
    end.
Proof.
  intros Ei Ecl Hq Htn Hroom Hid Hh.
  assert (∀ code body, zlen body < 2 ^ 32 →
    SendPacket None (PResponse (mkResponse ∅ (request_ID p) code body)) c =
    Some (Ok tt, mkConn (c_id c) (c_closed c)
      (send false (frame (PResponse (mkResponse ∅ (request_ID p) code body))) (c_queue c))
      (c_raw_closed c))) as Hsend.
  { intros code body Hb. unfold SendPacket, pushPacket. rewrite Ecl, marshal_frame.
    - unfold Push_now. rewrite Hq, Htn. destruct (Z.ltb_spec (zlen (tasks (c_queue c)))
        (tasks_cap (c_queue c))); [|lia]. done.
    - split; [by split; vm_decide|done].
    - simpl. unfold enc_props. rewrite go_range_empty. simpl. rewrite !zlen_cons.
      unfold MAX_LEN. lia. }
  unfold RecvPacket. rewrite Ei. cbn [mbind option_bind]. rewrite Ecl.
  unfold on_conn. rewrite Ei. cbn [mbind option_bind]. unfold OnRequest, response_of, conn_ID.
  unfold Request_Response.
  destruct (requestHandler h p (c_id c)) as [body|e|x]; [| |done].
  - cbn [default]. unfold id. rewrite Hsend by done. cbn. rewrite Ecl.
    eexists _, _. split; [reflexivity|]. done.
  - cbn [default]. rewrite Hsend by done. cbn. rewrite Ecl.
    eexists _, _. split; [reflexivity|]. split_and!; [done..|]. by destruct e.
Qed.

Lemma request_reply_witness :
  ∃ c, heap logged_in !! 0%nat = Some c ∧
  ∃ res q, @RecvPacket range_forward echo_handlers 0
      (PRequest (mkRequest ∅ 7 "echo" [x01; x02])) logged_in =
      Some (put_conn 0 (mkConn (c_id c) (c_closed c) q (c_raw_closed c)) logged_in) ∧
    tasks q = tasks (c_queue c) ++ [@frame range_forward (PResponse res)] ∧
    jumps q = jumps (c_queue c) ∧
    response_id res = 7 ∧ (response_Code res = StatusOK ∧ response_Body res = [x01; x02]).
Proof.
  eexists. split; [vm_compute; reflexivity|].
  apply (@request_reply range_forward range_forward echo_handlers 0
    (mkRequest ∅ 7 "echo" [x01; x02])); vm_compute; done.
Defined.
