(* ===== verification/Sessions.v ===== *)
(** * Sessions: every registered connection was accepted (src/server/server.go)

    Between logins the server only forgets registrations and never changes the identity of a
    connection; a login registers a connection only when the connect handler accepts it.  So the
    identity of a registered connection came in a CONNECT packet that the handler accepted. *)
From S2P Require Import Prelude Errors Coder Packet Queue Safe Server.

Section sessions.
Context `{!GoRange uint8, !GoRange string}.

(** [w'] registers no connection [w] does not, the connections keep their identities and the
    server is closed as before. *)
Definition shrinks (w w' : world) : Prop :=
  (∀ cid i, rm (conns w') !! cid = Some i → rm (conns w) !! cid = Some i) ∧
  (∀ i c, heap w !! i = Some c → ∃ c', heap w' !! i = Some c' ∧ c_id c' = c_id c) ∧
  s_closed w' = s_closed w.

#[export] Instance shrinks_preorder : PreOrder shrinks.
Proof.
  split.
  - intros w. split_and!; [done| |done]. intros i c Ei. by exists c.
  - intros w1 w2 w3 (H1 & H2 & H5) (H3 & H4 & H6). split_and!; [auto| |congruence]. intros i c Ei.
    destruct (H2 i c Ei) as (c2 & E2 & I2). destruct (H4 i c2 E2) as (c3 & E3 & I3).
    exists c3. split; [done|congruence].
Qed.

Lemma shrinks_put i c c' w : heap w !! i = Some c → c_id c' = c_id c → shrinks w (put_conn i c' w).
Proof.
  intros Ei Eid. split_and!; [done| |done]. intros j c0 Ej. simpl. destruct (decide (j = i)) as [->|Hne].
  - exists c'. rewrite lookup_insert_eq. split; [done|]. congruence.
  - exists c0. by rewrite lookup_insert_ne.
Qed.

(** The loop of [ExpelAllConns]. *)
Definition expel_conn (acc : option world) (x : string * nat) : option world :=
  w ← acc;
  match RMap_Get x.1 (conns w) with
  | Some i => CloseCode CloseServerExpeled i w
  | None => Some w
  end.

(** ** Relations kept by every step but a login

    [R] holds when a connection changes but for its identity and whether it is closed, and when
    a connection is closed. *)
Section relation.
Context (R : world → world → Prop) `{!PreOrder R}.
Hypothesis R_put : ∀ i c c' w, heap w !! i = Some c → c_id c' = c_id c → c_closed c' = c_closed c →
  R w (put_conn i c' w).
Hypothesis R_Close : ∀ i w, R w (conn_Close i w).

Lemma rel_on_conn {A} i (f : conn → option (A * conn)) w a w' :
  (∀ c a c', f c = Some (a, c') → c_id c' = c_id c ∧ c_closed c' = c_closed c) →
  on_conn i f w = Some (a, w') → R w w'.
Proof using R_put.
  intros Hf E. apply on_conn_heap in E as (c & c' & Ei & Ep & ->).
  apply Hf in Ep as [? ?]. by eapply R_put.
Qed.

Lemma rel_push i jump ctx p w r w' : on_conn i (pushPacket jump ctx p) w = Some (r, w') → R w w'.
Proof using R_put. apply rel_on_conn. intros c a c'. apply push_keeps. Qed.

Lemma rel_CloseCode code i w w' : CloseCode code i w = Some w' → R w w'.
Proof using All.
  unfold CloseCode. destruct (on_conn _ _ w) as [[r w1]|] eqn:E; [|done]. simpl. intros [= <-].
  etrans; [by eapply rel_push|apply R_Close].
Qed.

Lemma rel_Brodcast ctx p w r w' : Brodcast ctx p w = Some (r, w') → R w w'.
Proof using R_put PreOrder0.
  unfold Brodcast. destruct (s_closed w); [by intros [= _ <-]|].
  destruct (fold_left _ _ _) as [[[t s] w1]|] eqn:E; [|done]. simpl. intros [= _ <-].
  refine (fold_rel R (λ x : Z * Z * world, x.2) (brodcast_one ctx p) _ (0, 0, w) (t, s, w1) _ _ E);
    [done|].
  intros [[t0 s0] w0] x [[t1 s1] w2]. simpl.
  destruct (on_conn x.2 _ w0) as [[r0 w3]|] eqn:E3; [|done]. simpl. intros [= _ _ <-].
  by eapply rel_push.
Qed.

Lemma rel_expel_fold l w w' : fold_left expel_conn l (Some w) = Some w' → R w w'.
Proof using All.
  refine (fold_rel R id expel_conn l w w' _ _); [done|]. intros w0 x w2. unfold expel_conn. simpl.
  destruct (RMap_Get x.1 (conns w0)) as [i|]; [apply rel_CloseCode|by intros [= <-]].
Qed.

Lemma rel_step h capacity a w w' : (∀ p, a ≠ SAccept p) →
  (ExpelAllConns w = Some w' → R w w') → server_step h capacity a w = Some w' → R w w'.
Proof using All.
  intros Ha Hexp. destruct a as [p|i p|cid|ctx cid p|ctx p|code i| |i a]; cbn [server_step].
  - by destruct (Ha p).
  - unfold RecvPacket. destruct (heap w !! i) as [c|]; [|done]. simpl.
    destruct (c_closed c); [by intros [= <-]|]. destruct p; try (by intros [= <-]).
    + destruct (on_conn i _ w) as [[r w1]|] eqn:E; [|done]. simpl. intros [= <-].
      eapply rel_on_conn; [|exact E]. intros c0 a c0'. apply OnRequest_keeps.
    + destruct (on_conn i _ w) as [[r w1]|] eqn:E; [|done]. simpl. intros [= <-].
      by eapply rel_push.
  - unfold KickConn. destruct (RMap_Get cid (conns w)) as [i|]; [|by intros [= <-]].
    destruct (CloseCode _ i w) as [w1|] eqn:E; [|done]. simpl. intros [= <-].
    by eapply rel_CloseCode.
  - unfold SendMessage. destruct (s_closed w); [by intros [= <-]|].
    destruct (RMap_Get cid (conns w)) as [i|]; [|by intros [= <-]].
    destruct (on_conn i _ w) as [[r w1]|] eqn:E; [|done]. simpl. intros [= <-].
    by eapply rel_push.
  - destruct (Brodcast ctx p w) as [[r w1]|] eqn:E; [|done]. simpl. intros [= <-].
    by eapply rel_Brodcast.
  - apply rel_CloseCode.
  - exact Hexp.
  - destruct (heap w !! i) as [c|] eqn:Ei; [|done]. simpl.
    destruct (qstep a (c_queue c)) as [q|]; [|done]. simpl.
    destruct a; try done; intros [= <-]; by eapply R_put.
Qed.
End relation.

(** ** Shrinking *)
Lemma shrinks_OnClose id w : shrinks w (OnClose id w).
Proof.
  unfold OnClose. destruct id as [id|]; [|done]. pose proof (rm_Delete (ClientID id) (conns w)) as Hd.
  destruct (RMap_Delete (ClientID id) (conns w)) as [deleted m]. simpl in Hd.
  assert (∀ ids, shrinks w (mkWorld (heap w) m (s_closed w) ids)) as H.
  { intros ids. split_and!; simpl; [|eauto|done]. intros cid i. rewrite Hd. by intros [_ ?]%lookup_delete_Some. }
  destruct deleted; apply H.
Qed.

Lemma shrinks_Close i w : shrinks w (conn_Close i w).
Proof.
  unfold conn_Close. destruct (heap w !! i) as [c|] eqn:Ei; [|done]. destruct (c_closed c); [done|].
  etrans; [|apply shrinks_OnClose]. by eapply shrinks_put.
Qed.

Lemma shrinks_change i c c' w : heap w !! i = Some c → c_id c' = c_id c → c_closed c' = c_closed c →
  shrinks w (put_conn i c' w).
Proof. intros Ei Eid _. by eapply shrinks_put. Qed.

Lemma shrinks_push i jump ctx p w r w' :
  on_conn i (pushPacket jump ctx p) w = Some (r, w') → shrinks w w'.
Proof. apply (rel_push shrinks shrinks_change). Qed.

Lemma shrinks_CloseCode code i w w' : CloseCode code i w = Some w' → shrinks w w'.
Proof. apply (rel_CloseCode shrinks shrinks_change shrinks_Close). Qed.

Lemma rm_Swap {K V} `{Countable K} (key : K) (v : V) m : rm (snd (RMap_Swap key v m)) = <[key := v]> (rm m).
Proof. unfold RMap_Swap. by destruct (rm m !! key). Qed.

Lemma shrinks_expel l w w' : fold_left expel_conn l (Some w) = Some w' → shrinks w w'.
Proof. apply (rel_expel_fold shrinks shrinks_change shrinks_Close). Qed.

Lemma shrinks_Expel w w' : ExpelAllConns w = Some w' → shrinks w w'.
Proof.
  unfold ExpelAllConns. change (fold_left _ _ _) with (fold_left expel_conn (go_range (rm (conns w))) (Some w)).
  destruct (fold_left expel_conn _ _) as [w1|] eqn:E; [|done]. simpl. intros [= <-].
  etrans; [by eapply shrinks_expel|]. split_and!; [done| |done]. intros i c Ei. by exists c.
Qed.

Lemma shrinks_step h capacity a w w' : (∀ p, a ≠ SAccept p) →
  server_step h capacity a w = Some w' → shrinks w w'.
Proof.
  intros Ha. apply (rel_step shrinks shrinks_change shrinks_Close); [done|apply shrinks_Expel].
Qed.

(** ** Registered connections satisfy what accepted logins do *)
Definition all_registered (Q : Identity → Prop) (w : world) : Prop :=
  ∀ cid i, rm (conns w) !! cid = Some i → ∃ c id, heap w !! i = Some c ∧ c_id c = Some id ∧ Q id.

Lemma all_registered_shrinks Q w w' : all_registered Q w → shrinks w w' → all_registered Q w'.
Proof.
  intros H (Hc & Hh & _) cid i E. destruct (H cid i (Hc cid i E)) as (c & id & Ei & Eid & HQ).
  destruct (Hh i c Ei) as (c' & E' & I'). exists c', id. split_and!; [done|congruence|done].
Qed.

Lemma all_registered_login Q h i c p w code w' : all_registered Q w → heap w !! i = Some c →
  c_id c = connect_Identity p →
  (∀ id, connectHandler h p = ConnectAccepted → connect_Identity p = Some id → Q id) →
  OnConnect h i p w = Some (code, w') → all_registered Q w'.
Proof.
  intros Hw Ei Eid HQ. unfold OnConnect. case_decide as Hcode.
  - destruct (connect_Identity p) as [id|] eqn:Ep; [|done]. simpl.
    assert (all_registered Q (with_conns (snd (RMap_Swap (ClientID id) i (conns w))) w)) as H1.
    { intros cid j. simpl. rewrite rm_Swap. destruct (decide (cid = ClientID id)) as [->|Hne].
      - rewrite lookup_insert_eq. intros [= <-]. exists c, id. auto.
      - rewrite lookup_insert_ne by done. apply Hw. }
    destruct (RMap_Swap (ClientID id) i (conns w)) as [old m]. simpl in *. destruct old as [old|]; simpl.
    + destruct (CloseCode CloseDuplicateLogin old _) as [w1|] eqn:E1; [|done]. simpl.
      destruct (on_conn i (ConnackCode ConnectAccepted) w1) as [[r w2]|] eqn:E2; [|done]. simpl.
      intros [= _ <-]. eapply all_registered_shrinks; [exact H1|].
      etrans; [by eapply shrinks_CloseCode|by eapply shrinks_push].
    + destruct (on_conn i (ConnackCode ConnectAccepted) _) as [[r w2]|] eqn:E2; [|done]. simpl.
      intros [= _ <-]. eapply all_registered_shrinks; [exact H1|by eapply shrinks_push].
  - destruct (on_conn i (ConnackCode (connectHandler h p)) w) as [[r w1]|] eqn:E1; [|done]. simpl.
    intros [= _ <-]. eapply all_registered_shrinks; [exact Hw|].
    etrans; [by eapply shrinks_push|apply shrinks_Close].
Qed.

Lemma all_registered_step Q h capacity a w w' : all_registered Q w →
  (∀ p id, a = SAccept p → connectHandler h p = ConnectAccepted → connect_Identity p = Some id → Q id) →
  server_step h capacity a w = Some w' → all_registered Q w'.
Proof.
  intros Hw HQ Ha. assert ((∃ p, a = SAccept p) ∨ ∀ p, a ≠ SAccept p) as [[p ->]|Hno]
    by (destruct a; eauto; by right).
  - cbn [server_step] in Ha. unfold accept in Ha.
    destruct (newConn (connect_Identity p) capacity) as [c|e|x] eqn:Ec; [|done..].
    apply newConn_ok in Ec as (Eid & _). simpl in Ha. set (i := fresh (dom (heap w))) in Ha.
    destruct (OnConnect h i p _) as [[code w1]|] eqn:E; [|done]. simpl in Ha. injection Ha as <-.
    refine (all_registered_login Q h i c p _ code w1 _ _ Eid _ E); [|apply lookup_insert_eq|eauto].
    intros cid j Ej. destruct (Hw cid j Ej) as (c0 & id0 & Hj & ? & ?). exists c0, id0. simpl.
    rewrite lookup_insert_ne; [done|]. intros <-. apply (is_fresh (dom (heap w))), elem_of_dom. by eauto.
  - eapply all_registered_shrinks; [exact Hw|]. by eapply shrinks_step.
Qed.

(** In every world the server reaches, the identity of a registered connection is that of a
    CONNECT packet among the logins, one that the connect handler accepted. *)
Lemma registered_accepted h capacity acts w : server_run h capacity acts empty_world = Some w →
  all_registered (λ id, ∃ p, SAccept p ∈ acts ∧ connectHandler h p = ConnectAccepted ∧
    connect_Identity p = Some id) w.
Proof.
  set (Q := λ id, _). intros Hr.
  assert (∀ l w0, (∀ a, a ∈ l → a ∈ acts) → all_registered Q w0 →
    fold_left (λ m a, m ≫= server_step h capacity a) l (Some w0) = Some w → all_registered Q w) as H.
  { induction l as [|a l IH]; intros w0 Hl H0; cbn [fold_left]; [by intros [= <-]|].
    change (Some w0 ≫= server_step h capacity a) with (server_step h capacity a w0).
    destruct (server_step h capacity a w0) as [w1|] eqn:E.
    - apply IH; [set_solver|]. eapply all_registered_step; [exact H0| |exact E].
      intros p id -> Hc Hi. exists p. split; [apply Hl; set_solver|done].
    - intros Hn. exfalso. revert Hn. clear. induction l; [done|]. by simpl. }
  apply (H acts empty_world); [done| |exact Hr]. by intros cid i.
Qed.
End sessions.
