(* ===== verification/Closing.v ===== *)
(** * Closing a connection with a reason (src/internal/network/conn.go)

    [CloseCode] puts a CLOSE packet in front of the send queue, closes the queue and then the
    socket; a rejected login does the same with its CONNACK.  The runner of the queue writes
    concurrently.  [Server] takes such a call for one step; here its atomic steps, those of the
    queue ([Queue]) and those of other senders are interleaved, up to the call of [OnClose].  A write
    may fail on an open socket after any number of bytes: the runner logs the error and goes on with
    the next frame. *)
From S2P Require Import Prelude Errors Coder Packet Queue Server.
Local Open Scope Z_scope.

(** Where the call is: before the check of [closed] in [jumpPacket], in [Push], before the
    compare-and-swap of [Close], in [sendQueue.Close], before [raw.Close], returned. *)
Inductive close_pc := CcJump | CcPush | CcSwap | CcQueue | CcRaw | CcDone.

Record wire := mkWire {
  w_queue : @Queue bytes;
  w_closed : bool;               (* conn.closed *)
  w_open : bool;                 (* the socket *)
  w_pc : close_pc;
  w_log : list (bytes * nat)     (* the calls of [WriteData]: the frame, and how many of its bytes the
                                    socket took *)
}.

(** What went out. *)
Definition w_bytes (w : wire) : bytes := mjoin ((λ x, take x.2 x.1) <$> w_log w).

Definition whole (x : bytes * nat) : Prop := x.2 = length x.1.

(** The call of [Push] in [jumpPacket] has this number; other senders have others. *)
Definition close_id : nat := 0.

Inductive wire_action :=
| WClose                         (* the next step of the call *)
| WRun (tasks : bool) (fails : option nat)   (* the runner; a write fails after so many bytes *)
| WSend (a : @action bytes).     (* a step of another sender *)

(** The next step of [CloseCode], or of [ConnackCode] and [Close]; [data] is the frame. *)
Definition close_code_step (data : bytes) (w : wire) : option wire :=
  let q := w_queue w in
  match w_pc w with
  | CcJump =>
      if w_closed w then Some (mkWire q (w_closed w) (w_open w) CcSwap (w_log w))
      else q ← qstep (ACall close_id true data) q;
           Some (mkWire q (w_closed w) (w_open w) CcPush (w_log w))
  | CcPush =>
      match pushes q !! close_id with
      | Some (PReturned _) => Some (mkWire q (w_closed w) (w_open w) CcSwap (w_log w))
      | _ => q ← qstep (APush close_id) q; Some (mkWire q (w_closed w) (w_open w) CcPush (w_log w))
      end
  | CcSwap =>
      if w_closed w then Some (mkWire q true (w_open w) CcDone (w_log w))
      else Some (mkWire q true (w_open w) CcQueue (w_log w))
  | CcQueue =>
      match closing q with
      | CFinished => Some (mkWire q (w_closed w) (w_open w) CcRaw (w_log w))
      | _ => q ← qstep AClose q; Some (mkWire q (w_closed w) (w_open w) CcQueue (w_log w))
      end
  | CcRaw => Some (mkWire q (w_closed w) false CcDone (w_log w))
  | CcDone => None
  end.

(** A task of the runner is [raw.WriteData(data)]: on the closed socket it fails at once. *)
Definition write_step (tasks : bool) (fails : option nat) (w : wire) : option wire :=
  q ← qstep (if tasks then ARunTasks else ARun) (w_queue w);
  let log := match runner (w_queue w), tasks with
             | RTask _ data, false =>
                 let taken := if w_open w then
                                match fails with Some n => Nat.min n (length data) | None => length data end
                              else 0%nat in
                 w_log w ++ [(data, taken)]
             | _, _ => w_log w
             end in
  Some (mkWire q (w_closed w) (w_open w) (w_pc w) log).

(** Other calls of [Push]; they may also give up. *)
Definition sender_step (a : @action bytes) (w : wire) : option wire :=
  match a with
  | ACall id _ _ | APush id | ACtx id _ =>
      if decide (id = close_id) then None
      else q ← qstep a (w_queue w);
           Some (mkWire q (w_closed w) (w_open w) (w_pc w) (w_log w))
  | _ => None
  end.

Definition wire_step (data : bytes) (a : wire_action) (w : wire) : option wire :=
  match a with
  | WClose => close_code_step data w
  | WRun tasks fails => write_step tasks fails w
  | WSend a => sender_step a w
  end.

Definition wire_run (data : bytes) (acts : list wire_action) (w : wire) : option wire :=
  fold_left (λ m a, m ≫= wire_step data a) acts (Some w).

(** The call is about to start on an open connection. *)
Definition about_to_close (q : @Queue bytes) : wire := mkWire q false true CcJump [].

(** ** What is written *)

(** No write fails while the socket is open. *)
Definition errorless (acts : list wire_action) : bool :=
  forallb (λ a, match a with WRun _ (Some _) => false | _ => true end) acts.

(** Each executed frame was given to the socket once, in order; those given after it was closed were
    not taken at all, and those before were taken whole unless writes failed ([ok] says none did). *)
Definition wire_inv (ok : bool) (q0 : @Queue bytes) (w : wire) : Prop :=
  (executed (w_queue w)).*2 = (executed q0).*2 ++ (w_log w).*1 ∧
  ∃ before after, w_log w = before ++ after ∧ Forall (λ x, x.2 = 0%nat) after ∧
    (w_open w = true → after = []) ∧ (ok = true → Forall whole before).

Lemma executed_keeps a (q q' : @Queue bytes) : qstep a q = Some q' →
  (∀ j t, a = ARun → runner q ≠ RTask j t) → executed q' = executed q.
Proof.
  intros E Hr. destruct a as [id j t|id|id e| | |]; cbn [qstep] in E.
  - destruct (pushes q !! id); by simplify_eq.
  - destruct (pushes q !! id) as [p|]; [|done]. destruct p as [| |[] t nc|]; simpl in E.
    + by simplify_eq.
    + by simplify_eq.
    + destruct (jumps_closed q); [by simplify_eq|]. destruct (_ <? _); by simplify_eq.
    + destruct nc; [done|]. destruct (_ <? _); by simplify_eq.
    + done.
  - destruct (pushes q !! id) as [[]|]; by simplify_eq.
  - unfold close_step in E. destruct (closing q); by simplify_eq.
  - unfold run_step, recv_jumps in E. destruct (runner q) as [| |j t|] eqn:Er; [| | |done].
    + destruct (jumps q); [destruct (jumps_closed q)|]; by simplify_eq.
    + destruct (jumps q); [destruct (jumps_closed q)|]; by simplify_eq.
    + by destruct (Hr j t eq_refl).
  - unfold run_tasks_step in E. destruct (runner q) as [|[]| |]; try done.
    destruct (tasks q); by simplify_eq.
Qed.

Lemma wire_inv_queue ok q0 w q c o p : wire_inv ok q0 w → executed q = executed (w_queue w) →
  (o = true → w_open w = true) → wire_inv ok q0 (mkWire q c o p (w_log w)).
Proof.
  intros (Ex & b & a & E & Ha & Ho & Hb) Eq Hi. split; simpl; [by rewrite Eq|]. exists b, a. split_and!; auto.
Qed.

Lemma wire_inv_qstep a ok q0 w q c p : wire_inv ok q0 w → a ≠ ARun → qstep a (w_queue w) = Some q →
  wire_inv ok q0 (mkWire q c (w_open w) p (w_log w)).
Proof. intros Hw Ha E. apply wire_inv_queue; [done| |done]. by eapply executed_keeps. Qed.

Lemma finish_executed j t (q q' : @Queue bytes) : runner q = RTask j t → qstep ARun q = Some q' →
  executed q' = executed q ++ [(j, t)].
Proof. intros Er. cbn [qstep]. unfold run_step. rewrite Er. by intros [= <-]. Qed.

(** The runner hands over a frame. *)
Lemma wire_inv_write ok q0 w q c p j d n : wire_inv ok q0 w →
  executed q = executed (w_queue w) ++ [(j, d)] → (w_open w = false → n = 0%nat) →
  (ok = true → w_open w = true → n = length d) →
  wire_inv ok q0 (mkWire q c (w_open w) p (w_log w ++ [(d, n)])).
Proof.
  intros (Ex & b & a & E & Ha & Ho & Hb) Eq H0 Hn. split; simpl.
  { by rewrite Eq, !fmap_app, Ex, <-app_assoc. }
  rewrite E. destruct (w_open w) eqn:Eo.
  - rewrite (Ho eq_refl), app_nil_r. exists (b ++ [(d, n)]), []. rewrite app_nil_r. split_and!; [done..|].
    intros Hok. apply Forall_app. split; [by apply Hb|]. repeat constructor. by apply Hn.
  - exists b, (a ++ [(d, n)]). rewrite app_assoc. split_and!; [done| |done|done].
    apply Forall_app. split; [done|]. repeat constructor. by apply H0.
Qed.

Lemma wire_inv_step data a (ok : bool) q0 w w' : wire_inv ok q0 w →
  (ok = true → errorless [a] = true) → wire_step data a w = Some w' → wire_inv ok q0 w'.
Proof.
  intros Hw Hok Ha. assert (∀ a p q c, a ≠ ARun → qstep a (w_queue w) = Some q →
    wire_inv ok q0 (mkWire q c (w_open w) p (w_log w))) as Hq by (intros; by eapply wire_inv_qstep).
  assert (∀ c o p, (o = true → w_open w = true) → wire_inv ok q0 (mkWire (w_queue w) c o p (w_log w))) as Hs
    by (intros; by apply wire_inv_queue).
  destruct a as [|t f|a]; cbn [wire_step] in Ha.
  - unfold close_code_step in Ha. destruct (w_pc w).
    + destruct (w_closed w); [simplify_eq; by apply Hs|].
      destruct (qstep _ _) as [q|] eqn:E; [|done]. cbn [mbind option_bind] in Ha. simplify_eq.
      eapply Hq; [|exact E]; done.
    + destruct (pushes (w_queue w) !! close_id) as [[| | |]|];
        first [simplify_eq; by apply Hs|(destruct (qstep _ _) as [q|] eqn:E; [|done]); cbn [mbind option_bind] in Ha; simplify_eq; (eapply Hq; [|exact E]; done)].
    + destruct (w_closed w); simplify_eq; by apply Hs.
    + destruct (closing (w_queue w));
        first [simplify_eq; by apply Hs|(destruct (qstep _ _) as [q|] eqn:E; [|done]); cbn [mbind option_bind] in Ha; simplify_eq; (eapply Hq; [|exact E]; done)].
    + simplify_eq. by apply Hs.
    + done.
  - unfold write_step in Ha. destruct (qstep _ _) as [q|] eqn:E; [|done]. cbn [mbind option_bind] in Ha.
    destruct t; [destruct (runner (w_queue w)); simplify_eq; (eapply Hq; [|exact E]; done)|].
    destruct (runner (w_queue w)) as [|n|j d|] eqn:Er;
      try (simplify_eq; apply wire_inv_queue; [done| |done]; eapply executed_keeps; [done|by rewrite Er]).
    pose proof (finish_executed j d _ _ Er E) as Ex. simplify_eq.
    eapply wire_inv_write; [done|exact Ex|by intros ->|]. intros Ho ->.
    destruct f; [by specialize (Hok Ho)|done].
  - unfold sender_step in Ha. destruct a; try done; (destruct (decide _); [done|]);
      (destruct (qstep _ _) as [q|] eqn:E; [|done]); cbn [mbind option_bind] in Ha; simplify_eq; (eapply Hq; [|exact E]; done).
Qed.

Lemma wire_run_cons data a acts w : wire_run data (a :: acts) w =
  w ← wire_step data a w; wire_run data acts w.
Proof.
  unfold wire_run. cbn [fold_left]. change (Some w ≫= wire_step data a) with (wire_step data a w).
  destruct (wire_step data a w) as [w1|]; [done|]. cbn [mbind option_bind]. induction acts; done.
Qed.

Lemma wire_run_inv data ok q0 acts w w' : wire_inv ok q0 w → (ok = true → errorless acts = true) →
  wire_run data acts w = Some w' → wire_inv ok q0 w'.
Proof.
  revert w. induction acts as [|a acts IH]; intros w Hw Hok; [by intros [= <-]|].
  rewrite wire_run_cons. destruct (wire_step data a w) as [w1|] eqn:E; [|done]. cbn [mbind option_bind].
  unfold errorless in Hok. cbn [forallb] in Hok.
  apply IH; [|intros Ho; by destruct (andb_prop _ _ (Hok Ho))].
  eapply wire_inv_step; [done| |done]. intros Ho. destruct (andb_prop _ _ (Hok Ho)) as [Hx _].
  unfold errorless. cbn [forallb]. by rewrite Hx.
Qed.

Lemma about_to_close_inv ok q : wire_inv ok q (about_to_close q).
Proof. split; simpl; [by rewrite app_nil_r|]. exists [], []. split_and!; (done || constructor). Qed.

(** The closed socket stays closed and takes nothing. *)
Lemma shut_step data a w w' : w_open w = false → wire_step data a w = Some w' →
  w_open w' = false ∧ w_bytes w' = w_bytes w.
Proof.
  intros Ho Ha. unfold w_bytes. destruct a as [|t f|a]; cbn [wire_step] in Ha.
  - unfold close_code_step in Ha.
    destruct (w_pc w); repeat case_match; simplify_eq; try done;
      by destruct (qstep _ _); simplify_eq/=.
  - unfold write_step in Ha. destruct (qstep _ _) as [q|]; [|done]. cbn [mbind option_bind] in Ha.
    rewrite Ho in Ha. destruct (runner (w_queue w)); try (by simplify_eq).
    destruct t; simplify_eq; [done|]. simpl. split; [done|].
    rewrite fmap_app, join_app. simpl. by rewrite app_nil_r.
  - unfold sender_step in Ha. destruct a; try done; (destruct (decide _); [done|]);
      by destruct (qstep _ _); simplify_eq/=.
Qed.

Lemma shut_run data acts w w' : w_open w = false → wire_run data acts w = Some w' →
  w_open w' = false ∧ w_bytes w' = w_bytes w.
Proof.
  revert w. induction acts as [|a acts IH]; intros w Ho; [by intros [= <-]|].
  rewrite wire_run_cons. destruct (wire_step data a w) as [w1|] eqn:E; [|done]. cbn [mbind option_bind].
  apply shut_step in E as [Ho1 <-]; [|done]. by apply IH.
Qed.

(** Nothing is being sent: the runner waits. *)
Definition quiet (q : @Queue bytes) : Prop :=
  jumps q = [] ∧ tasks q = [] ∧ jumps_closed q = false ∧ tasks_nil q = false ∧ closed q = false ∧
  closing q = CNone ∧ runner q = RInner false ∧ pushes q = ∅.

(** C28 (the reason of a close): whatever the interleaving and whatever writes fail, every frame the
    queue executed was handed to the socket once, in order; what was handed over after the socket was
    closed was not taken, nothing goes out from then on, and if no write failed all the frames before
    went out whole.  But the frame with the reason is written by the runner, and the caller closes the
    socket without waiting for it: on a quiet connection one schedule of the same two goroutines
    writes it, another hands it to a socket that is already closed, and when the write fails on the
    open socket it is lost as well, with the socket still open. *)
Theorem close_reason data q :
  (∀ acts w, wire_run data acts (about_to_close q) = Some w →
     (executed (w_queue w)).*2 = (executed q).*2 ++ (w_log w).*1 ∧
     (∃ before after, w_log w = before ++ after ∧ Forall (λ x, x.2 = 0%nat) after ∧
        (w_open w = true → after = []) ∧ (errorless acts = true → Forall whole before)) ∧
     ∀ acts' w', w_open w = false → wire_run data acts' w = Some w' →
       w_open w' = false ∧ w_bytes w' = w_bytes w) ∧
  (quiet q →
     (∃ acts w, errorless acts = true ∧ wire_run data acts (about_to_close q) = Some w ∧ w_pc w = CcDone ∧
        runner (w_queue w) = RDone ∧ w_bytes w = data) ∧
     (∃ acts w, errorless acts = true ∧ wire_run data acts (about_to_close q) = Some w ∧ w_pc w = CcDone ∧
        runner (w_queue w) = RDone ∧ w_log w = [(data, 0%nat)]) ∧
     (∃ acts w, wire_run data acts (about_to_close q) = Some w ∧ w_open w = true ∧
        w_log w = [(data, 0%nat)])).
Proof.
  split.
  - intros acts w Hr.
    destruct (wire_run_inv data (errorless acts) q acts _ w (about_to_close_inv _ q) (λ H, H) Hr) as [Ex Hi].
    split_and!; [done|done|]. intros acts' w'. apply shut_run.
  - destruct q as [js jc ts tn tc cl cg rn ps ac ex]. intros Hq. unfold quiet in Hq. simpl in Hq.
    destruct Hq as (-> & -> & -> & -> & -> & -> & -> & ->). split_and!.
    + exists ([WClose; WClose; WClose; WClose; WRun false None; WRun false None] ++ replicate 7 WClose ++ [WRun false None]).
      eexists. split; [done|]. split; [vm_compute; reflexivity|]. split_and!; [done..|].
      unfold w_bytes. simpl. by rewrite app_nil_r, take_ge.
    + exists (replicate 11 WClose ++ [WRun false None; WRun false None; WRun false None]).
      eexists. split; [done|]. split; [vm_compute; reflexivity|done].
    + exists [WClose; WClose; WClose; WClose; WRun false None; WRun false (Some 0%nat)].
      eexists. split; [vm_compute; reflexivity|done].
Qed.

(** A fresh connection whose runner waits, and the frame of a CLOSE. *)
Definition idle_queue : @Queue bytes := mkQueue [] false [] false 8 false CNone (RInner false) ∅ [] [].

Definition kicked_frame : bytes := @frame range_forward (PClose (NewClose CloseKickedOut)).

Lemma close_reason_witness :
  (∃ acts w, errorless acts = true ∧ wire_run kicked_frame acts (about_to_close idle_queue) = Some w ∧
     w_pc w = CcDone ∧ runner (w_queue w) = RDone ∧ w_bytes w = kicked_frame) ∧
  (∃ acts w, errorless acts = true ∧ wire_run kicked_frame acts (about_to_close idle_queue) = Some w ∧
     w_pc w = CcDone ∧ runner (w_queue w) = RDone ∧ w_log w = [(kicked_frame, 0%nat)]) ∧
  (∃ acts w, wire_run kicked_frame acts (about_to_close idle_queue) = Some w ∧ w_open w = true ∧
     w_log w = [(kicked_frame, 0%nat)]).
Proof. by apply (close_reason kicked_frame idle_queue). Defined.
