(* ===== verification/Delivery.v ===== *)
(** * From the senders of one side to the reader of the other

    The whole way of the packets of a connection: senders marshal them and push the frames
    (src/internal/network/conn.go [SendPacket], [CloseCode]), the queue and its runner write them to
    the socket (src/internal/queue/queue.go), the other side reads frames
    (src/packet/packet.go [ReadFrom]).  The runs are those of [Closing], from the creation of the
    queue on, with writes that fail.  [ReadFrom] needs every [Read] to deliver what it asks for: the
    bytes arrive in segments made of whole pieces ([Stream.made_of]); otherwise it misreads. *)
From S2P Require Import Prelude Errors Coder Packet Stream Queue Server Closing.
Local Open Scope Z_scope.

(** ** What all tasks of a queue have in common *)
Section carried.
Context {T : Type} (P : T → Prop).

Definition push_carries (p : @push_state T) : Prop :=
  match p with PStart _ t | PChecked _ t | PSelect _ t _ => P t | PReturned _ => True end.

Definition carries (q : @Queue T) : Prop :=
  map_Forall (λ _ p, push_carries p) (pushes q) ∧ Forall P (accepted q).*2.

Lemma carries_push id p q : carries q → push_carries p → carries (with_push id p q).
Proof. intros [Hp Ha] Hq. split; [by apply map_Forall_insert_2|done]. Qed.

Lemma carries_send j t q : carries q → P t → carries (send j t q).
Proof.
  intros [Hp Ha] Ht. assert (accepted (send j t q) = accepted q ++ [(j, t)]) as E by by destruct j.
  split; [by destruct j|]. rewrite E, fmap_app. apply Forall_app. by repeat constructor.
Qed.

Lemma carries_qstep a q q' : (∀ id j t, a = ACall id j t → P t) → carries q → qstep a q = Some q' → carries q'.
Proof.
  intros Ht Hq Ha. destruct a as [id j t|id|id e| | |]; cbn [qstep] in Ha.
  - destruct (pushes q !! id); [done|]. simplify_eq. apply carries_push; [done|by eapply Ht].
  - destruct (pushes q !! id) as [p|] eqn:E; [|done]. pose proof (proj1 Hq id p E) as Hp.
    destruct p as [j t|j t|[] t nc|r]; simpl in Ha, Hp.
    + simplify_eq. apply carries_push; [done|]. by destruct (closed q).
    + simplify_eq. by apply carries_push.
    + destruct (jumps_closed q); [simplify_eq; by apply carries_push|].
      destruct (_ <? _); [|done]. simplify_eq. apply carries_push; [by apply (carries_send true)|done].
    + destruct nc; [done|]. destruct (_ <? _); [|done]. simplify_eq. apply carries_push; [by apply (carries_send false)|done].
    + done.
  - destruct (pushes q !! id) as [[]|]; try done. simplify_eq. by apply carries_push.
  - unfold close_step in Ha. by destruct (closing q); simplify_eq.
  - unfold run_step, recv_jumps in Ha. destruct (runner q); [| | |done].
    + destruct (jumps q); [destruct (jumps_closed q)|]; by simplify_eq.
    + destruct (jumps q); [destruct (jumps_closed q)|]; by simplify_eq.
    + by simplify_eq.
  - unfold run_tasks_step in Ha. destruct (runner q) as [|[]| |]; try done. by destruct (tasks q); simplify_eq.
Qed.

(** What was executed was accepted. *)
Lemma elem_of_kind (l : list (bool * T)) j t : t ∈ of_kind j l ↔ (j, t) ∈ l.
Proof.
  unfold of_kind. rewrite list_elem_of_fmap. split.
  - intros ([j' t'] & -> & Hin). apply list_elem_of_In, filter_In in Hin as [Hin Hj].
    apply eqb_prop in Hj. simpl in *. subst. by apply list_elem_of_In.
  - intros Hin. exists (j, t). split; [done|]. apply list_elem_of_In, filter_In. split; [by apply list_elem_of_In|].
    apply eqb_reflx.
Qed.

Lemma carries_executed capacity q : queue_inv capacity q → carries q → Forall P (executed q).*2.
Proof.
  intros Hi [_ Ha]. apply Forall_fmap, Forall_forall. intros [j t] Hin. simpl.
  assert (t ∈ of_kind j (accepted q)) as Hacc.
  { apply elem_of_kind in Hin. destruct j; rewrite ?(inv_jumps _ _ Hi), ?(inv_tasks _ _ Hi); by apply elem_of_app; left. }
  apply elem_of_kind in Hacc. rewrite Forall_fmap, Forall_forall in Ha. by apply (Ha (j, t)).
Qed.
End carried.

(** ** The queue of a wire *)

(** The frames that other senders push satisfy [P]. *)
Definition sends (P : bytes → Prop) (acts : list wire_action) : Prop :=
  Forall (λ a, match a with WSend (ACall _ _ t) => P t | _ => True end) acts.

Section wires.
Context (P : bytes → Prop) (capacity : Z).

Definition wire_ok (w : wire) : Prop := queue_inv capacity (w_queue w) ∧ carries P (w_queue w).

Lemma wire_ok_qstep a w q c o p ws : wire_ok w → (∀ id j t, a = ACall id j t → P t) →
  qstep a (w_queue w) = Some q → wire_ok (mkWire q c o p ws).
Proof.
  intros [Hi Hc] Ht E. split; simpl; [|by eapply carries_qstep].
  eapply queue_inv_step; [exact Hi|]. by exists a.
Qed.

Lemma wire_ok_step data a w w' : P data →
  match a with WSend (ACall _ _ t) => P t | _ => True end →
  wire_ok w → wire_step data a w = Some w' → wire_ok w'.
Proof.
  intros Hd Ha Hw Hs.
  assert (∀ a q c o p ws, (∀ id j t, a = ACall id j t → P t) → qstep a (w_queue w) = Some q →
    wire_ok (mkWire q c o p ws)) as Hq by (intros; by eapply wire_ok_qstep).
  assert (∀ c o p ws, wire_ok (mkWire (w_queue w) c o p ws)) as Hsame by done.
  destruct a as [|t f|a]; cbn [wire_step] in Hs.
  - unfold close_code_step in Hs. destruct (w_pc w).
    + destruct (w_closed w); [by simplify_eq|]. destruct (qstep _ _) as [q|] eqn:E; [|done].
      cbn [mbind option_bind] in Hs. simplify_eq. eapply Hq; [|exact E]. by intros ??? [= _ _ <-].
    + destruct (pushes (w_queue w) !! close_id) as [[| | |]|];
        first [by simplify_eq|(destruct (qstep _ _) as [q|] eqn:E; [|done]); cbn [mbind option_bind] in Hs; simplify_eq; by (eapply Hq; [|exact E])].
    + destruct (w_closed w); by simplify_eq.
    + destruct (closing (w_queue w));
        first [by simplify_eq|(destruct (qstep _ _) as [q|] eqn:E; [|done]); cbn [mbind option_bind] in Hs; simplify_eq; by (eapply Hq; [|exact E])].
    + by simplify_eq.
    + done.
  - unfold write_step in Hs. destruct (qstep _ _) as [q|] eqn:E; [|done]. cbn [mbind option_bind] in Hs.
    simplify_eq. eapply Hq; [|exact E]. by destruct t.
  - unfold sender_step in Hs. destruct a; try done; (destruct (decide _); [done|]);
      (destruct (qstep _ _) as [q|] eqn:E; [|done]); cbn [mbind option_bind] in Hs; simplify_eq;
      (eapply Hq; [|exact E]); try done. by intros ??? [= _ _ <-].
Qed.

Lemma wire_ok_run data acts w w' : P data → sends P acts → wire_ok w →
  wire_run data acts w = Some w' → wire_ok w'.
Proof.
  intros Hd Hs. revert w. induction Hs as [|a acts Ha _ IH]; intros w Hw; [by intros [= <-]|].
  rewrite wire_run_cons. destruct (wire_step data a w) as [w1|] eqn:E; [|done].
  apply IH. by eapply wire_ok_step.
Qed.
End wires.

(** ** Packets *)
Section packets.
Context `{!GoRange uint8}.

Definition sendable (p : Packet) : Prop := Packet_wf p ∧ zlen (packet_body p) <= MAX_LEN.
Definition is_frame (d : bytes) : Prop := ∃ p, sendable p ∧ d = frame p.

(** The packet of a frame. *)
Definition unframe (d : bytes) : Packet := match Unmarshal d with Ok p => p | _ => PPing NewPing end.

Lemma unframe_frame p : sendable p → unframe (frame p) = p.
Proof.
  intros [Hp Hl]. unfold unframe. pose proof (Unmarshal_frame p [] Hp Hl) as E.
  rewrite app_nil_r in E. by rewrite E.
Qed.

Definition unframes (l : list (bool * bytes)) : list (bool * Packet) := (λ x, (x.1, unframe x.2)) <$> l.

Lemma of_kind_unframes j l : of_kind j (unframes l) = unframe <$> of_kind j l.
Proof.
  unfold of_kind, unframes. induction l as [|[k d] l IH]; [done|].
  cbn [fmap list_fmap List.filter fst snd]. destruct (eqb k j); [|done].
  cbn [fmap list_fmap fst snd]. by f_equal.
Qed.

Lemma frames_unframes l : Forall is_frame l → frame <$> (unframe <$> l) = l ∧ Forall sendable (unframe <$> l).
Proof.
  induction 1 as [|d l (p & Hp & ->) _ [IH1 IH2]]; [done|].
  rewrite !fmap_cons, unframe_frame, IH1 by done. split; [done|by constructor].
Qed.

Lemma unframes_snd l : (unframes l).*2 = unframe <$> l.*2.
Proof. unfold unframes. by rewrite <-!list_fmap_compose. Qed.

(** The queue's frames are frames of packets. *)
Lemma frames_back (l : list (bool * bytes)) : Forall is_frame l.*2 → l = (λ x, (x.1, frame x.2)) <$> unframes l.
Proof.
  induction l as [|[j d] l IH]; [done|]. rewrite fmap_cons. intros [(p & Hp & E) Hl]%Forall_cons.
  simpl in E. subst d. unfold unframes in *. cbn [fmap list_fmap fst snd]. rewrite unframe_frame by done.
  f_equal. by apply IH.
Qed.

(** Frames taken whole are on the wire. *)
Lemma whole_bytes (log : list (bytes * nat)) : Forall whole log →
  mjoin ((λ x, take x.2 x.1) <$> log) = mjoin log.*1.
Proof.
  induction 1 as [|[d n] log Hd _ IH]; [done|]. rewrite !fmap_cons.
  change (mjoin (?a :: ?l)) with (a ++ mjoin l). rewrite IH. unfold whole in Hd. simpl in *. by rewrite Hd, firstn_all.
Qed.

Lemma sent_bytes n w ps : Forall whole (take n (w_log w)) → (take n (w_log w)).*1 = frame <$> ps →
  mjoin (frame <$> ps) `prefix_of` w_bytes w.
Proof.
  intros Hw <-. unfold w_bytes. rewrite <-(take_drop n (w_log w)) at 2.
  rewrite fmap_app, join_app, whole_bytes by done. by eexists.
Qed.

(** C5 (refinement): a connection delivers.  From its creation on and in any interleaving of
    senders, the runner and a call that closes it, of the packets that the queue accepted those that
    jump and those that do not are each executed in the order in which they were accepted, none lost,
    none twice, and their frames are handed to the socket in the order of execution; what is handed
    over after the socket was closed is not taken, what is handed over before goes out whole unless a
    write fails.  Of the first frames that went out whole, when their bytes arrive in segments made of
    whole pieces, the other side reads exactly the packets, in that order; and when a small body
    arrives in two parts it decodes the first part padded with zeroes. *)
Theorem delivered_in_order (capacity : Z) (q0 : @Queue bytes) (last : Packet)
    (acts : list wire_action) (w : wire) :
  New capacity = Ok q0 → sendable last → sends is_frame acts →
  wire_run (frame last) acts (about_to_close q0) = Some w →
  ∃ queued handed : list (bool * Packet),
    Forall sendable queued.*2 ∧ Forall sendable handed.*2 ∧
    accepted (w_queue w) = (λ x, (x.1, frame x.2)) <$> queued ∧
    executed (w_queue w) = (λ x, (x.1, frame x.2)) <$> handed ∧
    (∀ jump, of_kind jump handed `prefix_of` of_kind jump queued) ∧
    (runner (w_queue w) = RDone → of_kind true handed = of_kind true queued) ∧
    (w_log w).*1 = frame <$> handed.*2 ∧
    (∃ before after, w_log w = before ++ after ∧ Forall (λ x, x.2 = 0%nat) after ∧
       (w_open w = true → after = []) ∧ (errorless acts = true → Forall whole before)) ∧
    (∀ n rd rest, Forall whole (take n (w_log w)) →
       let sent := take n handed.*2 in
       mjoin (frame <$> sent) `prefix_of` w_bytes w ∧
       (reader_wf rest → made_of rd (mjoin (frame_segments <$> sent) ++ rest) →
        mjoin rd = mjoin (frame <$> sent) ++ mjoin rest ∧
        ∃ rd', read_packets (length sent) rd = (sent, rd') ∧ made_of rd' rest)) ∧
    (∀ p b1 b2 rest, p ∈ handed.*2 → zlen (packet_body p) <= MID_LEN_1 → packet_body p = b1 ++ b2 →
       b1 ≠ [] → b2 ≠ [] →
       ∃ header, frame p = header ++ b1 ++ b2 ∧
         packet_ReadFrom (header :: b1 :: b2 :: rest) =
           (unpack header (b1 ++ replicate (length b2) x00), b2 :: rest)).
Proof.
  intros H0 Hlast Hs Hr. assert (q0 = mkQueue [] false [] false capacity false CNone RTop ∅ [] []) as E0.
  { revert H0. unfold New. destruct (capacity <? 1); [done|]. by intros [= <-]. }
  assert (wire_ok is_frame capacity w) as [Hi Hc].
  { eapply wire_ok_run; [|exact Hs| |exact Hr]; [by exists last|].
    split; [by apply queue_inv_New|]. subst q0. split; [apply map_Forall_empty|constructor]. }
  destruct (wire_run_inv _ (errorless acts) q0 acts _ w (about_to_close_inv _ q0) (λ H, H) Hr) as [Ex Hlog].
  rewrite E0 in Ex. simpl in Ex.
  pose proof (carries_executed _ _ _ Hi Hc) as Hex. destruct Hc as [_ Hacc].
  exists (unframes (accepted (w_queue w))), (unframes (executed (w_queue w))).
  destruct (frames_unframes _ Hacc) as [_ Ha]. destruct (frames_unframes _ Hex) as [He1 He].
  assert ((w_log w).*1 = frame <$> (unframes (executed (w_queue w))).*2) as Hhanded.
  { by rewrite unframes_snd, He1, Ex. }
  split_and!; [by rewrite unframes_snd|by rewrite unframes_snd|by apply frames_back|by apply frames_back| | |done|done| |].
  - intros jump. rewrite !of_kind_unframes.
    destruct jump; rewrite ?(inv_jumps _ _ Hi), ?(inv_tasks _ _ Hi), fmap_app; by apply prefix_app_r.
  - intros Hd. rewrite !of_kind_unframes. rewrite (inv_jumps _ _ Hi).
    destruct (inv_done _ _ Hi Hd) as [-> _]. unfold running. by rewrite Hd, !app_nil_r.
  - intros n rd rest Hw sent. split; [|intros Hrest Hrd; split].
    + apply (sent_bytes n); [done|]. unfold sent. by rewrite fmap_take, Hhanded, <-fmap_take.
    + by rewrite (made_of_bytes _ _ Hrd), join_app, segments_frames.
    + apply read_packets_made_of; [|done|done]. unfold sent. rewrite unframes_snd. by apply Forall_take.
  - intros p b1 b2 rest _ Hl Hb H1 H2. destruct (ReadFrom_short_read p b1 b2 rest Hl Hb H1 H2) as (header & _ & ? & ?).
    by exists header.
Qed.
End packets.

(** A message is sent and written while the connection is being closed. *)
Definition sent_message : bytes := @frame range_forward sample_message.

Definition delivery_run : list wire_action :=
  [WSend (ACall 1 false sent_message); WClose; WSend (APush 1); WSend (APush 1); WSend (APush 1);
   WRun false None; WRun true None; WClose; WClose; WRun false None; WClose].

Lemma delivered_in_order_witness :
  ∃ q0 w, New 8 = Ok q0 ∧
    wire_run (@frame range_forward (PClose (NewClose CloseKickedOut))) delivery_run (about_to_close q0) = Some w ∧
    w_log w = [(sent_message, length sent_message)] ∧
    ∃ queued handed : list (bool * Packet),
      accepted (w_queue w) = (λ x, (x.1, @frame range_forward x.2)) <$> queued ∧
      (w_log w).*1 = @frame range_forward <$> handed.*2 ∧
      ∃ rd', @read_packets range_forward (length (take 1 handed.*2))
        (mjoin (@frame_segments range_forward <$> take 1 handed.*2) ++ []) = (take 1 handed.*2, rd').
Proof.
  set (q0 := @mkQueue bytes [] false [] false 8 false CNone RTop ∅ [] []).
  assert (∃ w, wire_run (@frame range_forward (PClose (NewClose CloseKickedOut))) delivery_run
    (about_to_close q0) = Some w ∧ w_log w = [(sent_message, length sent_message)]) as (w & Hw & Hwr)
    by (eexists; split; [vm_compute; reflexivity|reflexivity]).
  exists q0, w. split; [reflexivity|]. split; [exact Hw|]. split; [exact Hwr|].
  destruct (@delivered_in_order range_forward 8 q0 (PClose (NewClose CloseKickedOut)) delivery_run w)
    as (queued & handed & _ & _ & H1 & _ & _ & _ & H2 & _ & H3 & _).
  - reflexivity.
  - split; vm_decide.
  - repeat constructor. exists sample_message. split; [split; vm_decide|reflexivity].
  - exact Hw.
  - exists queued, handed. split; [exact H1|]. split; [exact H2|].
    destruct (H3 1%nat (mjoin (@frame_segments range_forward <$> take 1 handed.*2) ++ []) [])
      as [_ [_ (rd' & E & _)]].
    + rewrite Hwr. by repeat constructor.
    + constructor.
    + apply made_of_refl.
    + by exists rd'.
Defined.
