(* ===== verification/Stats.v ===== *)
(** * Statistics of the server (src/stats/handler.go; server.go, transport_*.go, conn.go)

    [StatsHandler] is the Go interface of a statistics handler.  The operations of [Server] are given
    with the calls they make to the handler: a login ([doConnecton] of the transports), a message
    or request received, a message or request sent, a packet queued.  A deferred call is made when
    the function returns, with the arguments it had at the [defer].  What [UpdateQueue] is told by
    packets sent inside other calls is left out of [stats_step].

    Readings of the clock are arguments: [t0] is the first [time.Now] of a function, [t1] the
    next.  The context a handler makes for a call is an abstract type: what follows of it is the
    error it ends with ([h_Err]), which a blocked push returns, and what the server's own handlers do
    with it. *)
From S2P Require Import Prelude Errors Coder Packet Queue Safe Server Sessions.

(** ** What a handler is told *)
Record ConnBegin := mkConnBegin { cb_BeginTime : Z }.

Record ConnEnd := mkConnEnd { ce_BeginTime : Z; ce_EndTime : Z; ce_Error : option error }.

Record MessageBegin := mkMessageBegin {
  mb_Kind : uint8; mb_Inout : string; mb_Network : string; mb_BeginTime : Z; mb_PayloadSize : Z }.

Record MessageEnd := mkMessageEnd {
  me_Kind : uint8; me_Error : option error; me_Inout : string; me_Network : string;
  me_EndTime : Z; me_BeginTime : Z }.

Record RequestBegin := mkRequestBegin {
  rb_Inout : string; rb_Method : string; rb_Network : string; rb_BodySize : Z; rb_BeginTime : Z }.

Record RequestEnd := mkRequestEnd {
  re_Inout : string; re_Error : option error; re_EndTime : Z; re_Method : string;
  re_Network : string; re_BodySize : Z; re_BeginTime : Z; re_StatusCode : uint8 }.

(** The interface: [C] is the context, [S] the state of the handler. *)
Class StatsHandler (C S : Type) := {
  h_background : C;
  (* the error of a context derived from one whose error is the second argument *)
  h_Err : C → option error → option error;
  h_ConnectBegin : C → ConnBegin → S → outcome error (C * S);
  h_ConnectEnd : C → ConnEnd → S → outcome error S;
  h_Disconnect : C → S → outcome error S;
  h_MessageBegin : C → MessageBegin → S → outcome error (C * S);
  h_MessageEnd : C → MessageEnd → S → outcome error S;
  h_RequestBegin : C → RequestBegin → S → outcome error (C * S);
  h_RequestEnd : C → RequestEnd → S → outcome error S;
  h_UpdateQueue : C → Z → S → outcome error S
}.

Section instrumented.
Context {C S : Type} `{!StatsHandler C S}.

(** [if handler != nil { ctx = handler.Begin(ctx, ...) }] and the deferred end. *)
Definition begin_call (f : S → outcome error (C * S)) (ctx : C) (s : option S)
  : outcome error (C * option S) :=
  match s with
  | None => Ok (ctx, None)
  | Some s => x <~ f s; Ok (x.1, Some x.2)
  end.

Definition end_call (f : S → outcome error S) (s : option S) : outcome error (option S) :=
  match s with
  | None => Ok None
  | Some s => s <~ f s; Ok (Some s)
  end.

(** [server.OnClose] calls [Disconnect] after each call of [closeHandler]; [n] of them. *)
Definition disconnects (n : nat) (s : option S) : outcome error (option S) :=
  Nat.iter n (λ m, s <~ m; end_call (h_Disconnect h_background) s) (Ok s).

(** The calls of [closeHandler] between two worlds. *)
Definition newly_closed (w w' : world) : nat := length (closed_ids w') - length (closed_ids w).

Context `{!GoRange uint8, !GoRange string}.
Context (h : C → handlers) (capacity : Z) (network : string).

(** A call that returns [A]: [None] when it blocks for ever. *)
Abbreviation result A := (option (outcome error (A * world * option S))).

(** [doConnecton]; [pkt] is the result of [waitConnPacket].  The arguments of the deferred
    [ConnectEnd] are evaluated while [err] is still nil; the connect handler gets the context of
    [ConnectBegin]. *)
Definition doConnecton (t0 t1 : Z) (pkt : outcome error Connect) (w : world) (s : option S)
  : result (outcome error uint8) :=
  match begin_call (h_ConnectBegin h_background (mkConnBegin t0)) h_background s with
  | Err e => Some (Err e)
  | Panic x => Some (Panic x)
  | Ok (ctx, s) =>
      let deferred r w s := s <~ end_call (h_ConnectEnd ctx (mkConnEnd t0 t1 None)) s;
                            Ok (r, w, s) in
      match pkt with
      | Err e => Some (deferred (Err e) w s)
      | Panic x => Some (Panic x)
      | Ok p =>
          match accept (h ctx) capacity p w with
          | Err e => Some (Err e)
          | Panic x => Some (Panic x)
          | Ok None => None
          | Ok (Some (code, w')) =>
              let r := if decide (code = ConnectAccepted) then Ok code else Err (EConnect code) in
              Some (s <~ disconnects (newly_closed w w') s; deferred r w' s)
          end
      end
  end.

(** The CONNECT of [transportUDP.handleConn]. *)
Definition udp_doConnecton (t0 t1 : Z) (p : Connect) : world → option S → result (outcome error uint8) :=
  doConnecton t0 t1 (Ok p).

(** [SendPacket] and [jumpPacket] with the call of [UpdateQueue]. *)
Definition stats_pushPacket (jump : bool) (ctx : option error) (hctx : C) (p : Packet) (c : conn)
    (s : option S) : option (outcome error (outcome error unit * conn * option S)) :=
  '(r, c') ← pushPacket jump ctx p c;
  match r with
  | Ok _ => Some (s <~ end_call (h_UpdateQueue hctx (Len (c_queue c'))) s; Ok (r, c', s))
  | _ => Some (Ok (r, c', s))
  end.

(** The context of a push after a [Begin]: the caller's when there is no handler. *)
Definition push_ctx (hctx : C) (ctx : option error) (s : option S) : option error :=
  match s with None => ctx | Some _ => h_Err hctx ctx end.

(** [server.SendMessage]: the message is sent with the context of [MessageBegin]; the kind is not
    passed on to [MessageEnd], and its error is nil. *)
Definition stats_SendMessage (t0 t1 : Z) (hctx : C) (ctx : option error) (cid : string) (p : Message)
    (w : world) (s : option S) : result (outcome error unit) :=
  let info := mkMessageBegin (Kind p) "out" network t0 (zlen (Payload p)) in
  match begin_call (h_MessageBegin hctx info) hctx s with
  | Err e => Some (Err e)
  | Panic x => Some (Panic x)
  | Ok (hctx, s) =>
      '(r, w) ← SendMessage (push_ctx hctx ctx s) cid p w;
      Some (s <~ end_call (h_MessageEnd hctx (mkMessageEnd x00 None "out" network t1 t0)) s;
            Ok (r, w, s))
  end.

(** [server.OnMessage]. *)
Definition stats_OnMessage (t0 t1 : Z) (p : Message) (c : conn) (s : option S)
  : outcome error (option error * option S) :=
  let info := mkMessageBegin (Kind p) "in" network t0 (zlen (Payload p)) in
  x <~ begin_call (h_MessageBegin h_background info) h_background s;
  let err := OnMessage (h x.1) p c in
  s <~ end_call (h_MessageEnd x.1 (mkMessageEnd (Kind p) None "in" network t1 t0)) x.2;
  Ok (err, s).

(** [server.OnRequest]: the deferred function reads [err] and [res] when it runs; [err] was
    overwritten with the result of [SendPacket]. *)
Definition stats_OnRequest (t0 t1 : Z) (p : Request) (c : conn) (s : option S)
  : option (outcome error (outcome error unit * conn * option S)) :=
  let info := mkRequestBegin "in" (Method p) network (zlen (request_Body p)) t0 in
  match begin_call (h_RequestBegin h_background info) h_background s with
  | Err e => Some (Err e)
  | Panic x => Some (Panic x)
  | Ok (hctx, s) =>
      match response_of (h hctx) p (conn_ID c) with
      | Err e => Some (Ok (Err e, c, s))
      | Panic x => Some (Panic x)
      | Ok res =>
          '(r, c) ← SendPacket (push_ctx hctx None s) (PResponse res) c;
          match r with
          | Panic x => Some (Panic x)
          | _ =>
              let err := match r with Err e => Some e | _ => None end in
              Some (s <~ end_call (h_RequestEnd hctx (mkRequestEnd "in" err t1 (Method p) network
                           (zlen (response_Body res)) t0 (response_Code res))) s;
                    Ok (r, c, s))
          end
      end
  end.

(** [server.SendRequest]: [call] is the call of [SendRequest] on the connection ([Requests]) with the
    context of [RequestBegin], which first looks whether the connection is closed; the method is not passed on to [RequestEnd]. *)
Definition server_SendRequest (t0 t1 : Z) (hctx : C) (cid : string) (p : Request)
    (call : C → nat → outcome error Response) (w : world) (s : option S)
  : outcome error (outcome error Response * option S) :=
  let info := mkRequestBegin "out" (Method p) network (zlen (request_Body p)) t0 in
  x <~ begin_call (h_RequestBegin hctx info) hctx s;
  let r := if s_closed w then Err (EXerr ServerIsClosed)
           else match RMap_Get cid (conns w) ≫= (λ i, c ← heap w !! i; Some (i, c)) with
                | None => Err (EXerr ConnectionNotFound)
                | Some (i, c) => if conn_IsClosed c then Err (EXerr ConnectionIsClosed) else call x.1 i
                end in
  match r with
  | Panic x => Panic x
  | _ =>
      let err := match r with Err e => Some e | _ => None end in
      let '(code, size) := match r with Ok res => (response_Code res, zlen (response_Body res))
                                   | _ => (x00, 0) end in
      s <~ end_call (h_RequestEnd x.1 (mkRequestEnd "out" err t1 "" network size t0 code)) x.2;
      Ok (r, s)
  end.

(** ** The steps of the server with their statistics

    Besides the steps of [Server] there is the connection whose CONNECT never comes. *)
Variant stats_action := AServer (a : server_action) | ANoConnect (e : error).

Definition plain_step (a : server_action) (w : world) (s : option S)
  : option (outcome error (world * option S)) :=
  w' ← server_step (h h_background) capacity a w;
  Some (s <~ disconnects (newly_closed w w') s; Ok (w', s)).

Definition stats_step (t0 t1 : Z) (a : stats_action) (w : world) (s : option S)
  : option (outcome error (world * option S)) :=
  match a with
  | ANoConnect e => r ← doConnecton t0 t1 (Err e) w s; Some (x <~ r; Ok (x.1.2, x.2))
  | AServer (SAccept p) => r ← doConnecton t0 t1 (Ok p) w s; Some (x <~ r; Ok (x.1.2, x.2))
  | AServer (SSend ctx cid p) =>
      r ← stats_SendMessage t0 t1 h_background ctx cid p w s; Some (x <~ r; Ok (x.1.2, x.2))
  | AServer (SRecv i (PMessage p)) =>
      c ← heap w !! i;
      if c_closed c then Some (Ok (w, s))
      else Some (x <~ stats_OnMessage t0 t1 p c s; Ok (w, x.2))
  | AServer (SRecv i (PRequest p)) =>
      c ← heap w !! i;
      if c_closed c then Some (Ok (w, s))
      else r ← stats_OnRequest t0 t1 p c s; Some (x <~ r; Ok (put_conn i x.1.2 w, x.2))
  | AServer a => plain_step a w s
  end.

Fixpoint stats_run (acts : list (Z * Z * stats_action)) (w : world) (s : option S)
  : option (outcome error (world * option S)) :=
  match acts with
  | [] => Some (Ok (w, s))
  | (t0, t1, a) :: acts =>
      r ← stats_step t0 t1 a w s;
      match r with
      | Ok (w, s) => stats_run acts w s
      | Err e => Some (Err e)
      | Panic x => Some (Panic x)
      end
  end.

(** What the server itself is asked to do. *)
Definition server_actions (acts : list (Z * Z * stats_action)) : list server_action :=
  omap (λ x, match x.2 with AServer a => Some a | ANoConnect _ => None end) acts.

(** The server's handlers in the context a login gets. *)
Definition begin_handlers (t0 : Z) (s : option S) : handlers :=
  match begin_call (h_ConnectBegin h_background (mkConnBegin t0)) h_background s with
  | Ok (ctx, _) => h ctx
  | _ => h h_background
  end.

End instrumented.

(** ** Registrations and calls of the close handler

    Each registration is either still there or was reported to [closeHandler] once. *)
Section users.
Context `{!GoRange uint8, !GoRange string}.

Definition users (w : world) : Z := Z.of_nat (size (rm (conns w))) + zlen (closed_ids w).

(** [w'] has reported every registration it lost since [w], and kept what was reported. *)
Definition conserves (w w' : world) : Prop :=
  users w' = users w ∧ closed_ids w `prefix_of` closed_ids w'.

#[export] Instance conserves_preorder : PreOrder conserves.
Proof.
  split; [by intros w|]. intros w1 w2 w3 [H1 P1] [H2 P2]. split; [congruence|by etrans].
Qed.

Lemma conserves_on_conn {A} i (f : conn → option (A * conn)) w a w' :
  on_conn i f w = Some (a, w') → conserves w w'.
Proof. intros E. by apply on_conn_heap in E as (c & c' & _ & _ & ->). Qed.

Lemma conserves_OnClose id w : conserves w (OnClose id w).
Proof.
  unfold OnClose. destruct id as [id|]; [|done]. unfold RMap_Delete.
  destruct (rm (conns w) !! ClientID id) as [i|] eqn:E; [|done].
  unfold conserves, users. simpl. rewrite map_size_delete_Some by eauto. split.
  - assert (size (rm (conns w)) ≠ 0%nat) as Hs.
    { intros Hz%map_size_empty_inv. by rewrite Hz, lookup_empty in E. }
    unfold zlen. rewrite length_app. simpl. lia.
  - by eexists.
Qed.

Lemma conserves_Close i w : conserves w (conn_Close i w).
Proof.
  unfold conn_Close. destruct (heap w !! i) as [c|]; [|done]. destruct (c_closed c); [done|].
  etrans; [|apply conserves_OnClose]. done.
Qed.

Lemma conserves_change i c c' w : heap w !! i = Some c → c_id c' = c_id c → c_closed c' = c_closed c →
  conserves w (put_conn i c' w).
Proof. done. Qed.

Lemma conserves_CloseCode code i w w' : CloseCode code i w = Some w' → conserves w w'.
Proof. apply (rel_CloseCode conserves conserves_change conserves_Close). Qed.

Lemma conserves_expel l w w' : fold_left expel_conn l (Some w) = Some w' → conserves w w'.
Proof. apply (rel_expel_fold conserves conserves_change conserves_Close). Qed.

(** ** Expelling everybody *)
Lemma CloseCode_unregisters code k i w w' : server_inv w → rm (conns w) !! k = Some i →
  CloseCode code i w = Some w' → rm (conns w') !! k = None.
Proof.
  intros [_ Hr] Hk. unfold CloseCode. destruct (on_conn _ _ w) as [[r w1]|] eqn:E; [|done]. simpl.
  intros [= <-]. destruct (Hr k i Hk) as (c & id & Ei & Eid & <- & Hc).
  apply on_conn_heap in E as (c0 & c' & Ei0 & Ep & ->). simplify_eq.
  apply pushPacket_keeps in Ep as (Hid & Hcl & _).
  rewrite (conn_Close_open i c' id) by (simpl; rewrite ?lookup_insert_eq; congruence).
  simpl. rewrite rm_Delete. apply lookup_delete_eq.
Qed.

Lemma expel_None l : fold_left expel_conn l None = None.
Proof. induction l as [|x l IH]; [done|exact IH]. Qed.

Lemma expel_unregisters l w w' : server_inv w → fold_left expel_conn l (Some w) = Some w' →
  ∀ k, k ∈ l.*1 → rm (conns w') !! k = None.
Proof.
  revert w. induction l as [|x l IH]; intros w Hw; cbn [fold_left].
  { intros _ k Hk. by apply elem_of_nil in Hk. }
  destruct (expel_conn (Some w) x) as [w1|] eqn:E; [|by rewrite expel_None].
  intros Hl k Hk. rewrite fmap_cons in Hk.
  assert (server_inv w1 ∧ rm (conns w1) !! x.1 = None) as [Hw1 Hx].
  { unfold expel_conn, RMap_Get in E. simpl in E. destruct (rm (conns w) !! x.1) as [i|] eqn:Ex.
    - split; [by eapply server_inv_CloseCode|by eapply CloseCode_unregisters].
    - by injection E as <-. }
  apply elem_of_cons in Hk as [->|Hk]; [|by eapply IH].
  apply shrinks_expel in Hl as [Hs _].
  destruct (rm (conns w') !! x.1) as [i|] eqn:Ei; [|done]. apply Hs in Ei. congruence.
Qed.

(** After the loop nobody is registered: emptying the map changes nothing. *)
Lemma ExpelAllConns_fold w w' : server_inv w → ExpelAllConns w = Some w' →
  rm (conns w') = ∅ ∧ ∃ w1, fold_left expel_conn (go_range (rm (conns w))) (Some w) = Some w1 ∧
    rm (conns w1) = ∅ ∧ w' = with_conns RMap_empty w1.
Proof.
  intros Hw. unfold ExpelAllConns.
  change (fold_left _ _ _) with (fold_left expel_conn (go_range (rm (conns w))) (Some w)).
  destruct (fold_left expel_conn _ _) as [w1|] eqn:E; [|done]. simpl. intros [= <-].
  split; [done|]. exists w1. split_and!; [done| |done].
  pose proof (shrinks_expel _ _ _ E) as [Hs _].
  apply map_empty. intros k. destruct (rm (conns w1) !! k) as [i|] eqn:Ei; [|done].
  rewrite <-Ei. eapply expel_unregisters; [exact Hw|exact E|].
  apply list_elem_of_fmap. exists (k, i). split; [done|]. apply elem_of_go_range. by apply Hs.
Qed.

Lemma conserves_Expel w w' : server_inv w → ExpelAllConns w = Some w' → conserves w w'.
Proof.
  intros Hw (_ & w1 & E & He & ->)%ExpelAllConns_fold; [|done].
  etrans; [by eapply conserves_expel|]. split; [|done]. unfold users. simpl. by rewrite He.
Qed.

(** ** Steps *)
Context (h : handlers) (capacity : Z).

(** The step registers a client id nobody is registered under. *)
Definition registers (a : server_action) (w : world) : bool :=
  match a with
  | SAccept p =>
      bool_decide (connectHandler h p = ConnectAccepted) &&
      match connect_Identity p with
      | Some id => bool_decide (RMap_Get (ClientID id) (conns w) = None)
      | None => false
      end
  | _ => false
  end.

Lemma users_register i cid w : users (with_conns (snd (RMap_Swap cid i (conns w))) w) =
  users w + Z.b2z (bool_decide (RMap_Get cid (conns w) = None)).
Proof.
  unfold users, RMap_Get. simpl. rewrite rm_Swap. case_bool_decide as E; simpl.
  - rewrite map_size_insert_None by done. lia.
  - rewrite map_size_insert_Some by (by apply not_eq_None_Some). lia.
Qed.

Lemma users_accept p w w' : server_step h capacity (SAccept p) w = Some w' →
  users w' = users w + Z.b2z (registers (SAccept p) w) ∧ closed_ids w `prefix_of` closed_ids w'.
Proof.
  cbn [server_step registers]. unfold accept.
  destruct (newConn (connect_Identity p) capacity) as [c|e|x]; [|done..]. simpl.
  destruct (OnConnect h _ p _) as [[code w1]|] eqn:E; [|done]. simpl. intros [= <-].
  change (users w) with (users (put_conn (fresh (dom (heap w))) c w)).
  change (closed_ids w) with (closed_ids (put_conn (fresh (dom (heap w))) c w)).
  change (conns w) with (conns (put_conn (fresh (dom (heap w))) c w)).
  revert E. generalize (fresh (dom (heap w))) as i. intros i. generalize (put_conn i c w) as w0. intros w0.
  unfold OnConnect. case_decide as Hc.
  - rewrite bool_decide_true by done. destruct (connect_Identity p) as [id|]; [|done]. simpl.
    rewrite <-(users_register i). set (w2 := with_conns (snd (RMap_Swap (ClientID id) i (conns w0))) w0).
    change (closed_ids w0) with (closed_ids w2). intros E. enough (conserves w2 w1) as [? ?] by done.
    destruct (RMap_Swap (ClientID id) i (conns w0)) as [old m]. simpl in *. destruct old as [old|].
    + destruct (CloseCode CloseDuplicateLogin old _) as [w3|] eqn:E3; [|done]. simpl in E.
      destruct (on_conn i (ConnackCode ConnectAccepted) w3) as [[r w4]|] eqn:E4; [|done].
      injection E as <- <-. etrans; [by eapply conserves_CloseCode|by eapply conserves_on_conn].
    + simpl in E. destruct (on_conn i (ConnackCode ConnectAccepted) _) as [[r w4]|] eqn:E4; [|done].
      injection E as <- <-. by eapply conserves_on_conn.
  - rewrite bool_decide_false by done. simpl.
    destruct (on_conn i (ConnackCode (connectHandler h p)) w0) as [[r w2]|] eqn:E1; [|done]. simpl.
    intros [= <- <-]. rewrite Z.add_0_r.
    enough (conserves w0 (conn_Close i w2)) as [? ?] by done.
    etrans; [by eapply conserves_on_conn|apply conserves_Close].
Qed.

Lemma conserves_step a w w' : server_inv w → (∀ p, a ≠ SAccept p) →
  server_step h capacity a w = Some w' → conserves w w'.
Proof.
  intros Hw Ha. apply (rel_step conserves conserves_change conserves_Close); [done|by apply conserves_Expel].
Qed.

Lemma users_step a w w' : server_inv w → server_step h capacity a w = Some w' →
  users w' = users w + Z.b2z (registers a w) ∧ closed_ids w `prefix_of` closed_ids w'.
Proof.
  intros Hw Ha. assert ((∃ p, a = SAccept p) ∨ ∀ p, a ≠ SAccept p) as [[p ->]|Hno]
    by (destruct a; eauto; by right).
  - by apply users_accept.
  - destruct (conserves_step a w w' Hw Hno Ha) as [-> ?]. split; [|done].
    destruct a; simpl; try lia. by destruct (Hno p).
Qed.

(** The number of registrations in a run. *)
Fixpoint registrations (acts : list server_action) (w : world) : Z :=
  match acts with
  | [] => 0
  | a :: acts =>
      match server_step h capacity a w with
      | Some w' => Z.b2z (registers a w) + registrations acts w'
      | None => 0
      end
  end.

Lemma server_run_cons a acts w : server_run h capacity (a :: acts) w =
  w' ← server_step h capacity a w; server_run h capacity acts w'.
Proof.
  unfold server_run. cbn [fold_left]. change (Some w ≫= server_step h capacity a) with (server_step h capacity a w).
  destruct (server_step h capacity a w) as [w1|]; [done|]. cbn [mbind option_bind].
  induction acts; [done|]. by simpl.
Qed.

Lemma users_run acts w w' : server_inv w → server_run h capacity acts w = Some w' →
  users w' = users w + registrations acts w ∧ closed_ids w `prefix_of` closed_ids w'.
Proof.
  revert w. induction acts as [|a acts IH]; intros w Hw.
  - intros [= <-]. simpl. split; [lia|done].
  - rewrite server_run_cons. cbn [registrations].
    destruct (server_step h capacity a w) as [w1|] eqn:E; [|done]. cbn [mbind option_bind]. intros Hr.
    destruct (users_step a w w1 Hw E) as [E1 P1].
    destruct (IH w1 (server_inv_step h capacity a w w1 Hw E) Hr) as [E2 P2].
    split; [lia|by etrans].
Qed.
End users.

(** ** Properties *)
Section properties.
Context {C S : Type} `{!StatsHandler C S} `{!GoRange uint8, !GoRange string}.
Context (h : C → handlers) (capacity : Z) (network : string).

Lemma doConnecton_step t0 t1 p w s r w' s' :
  doConnecton h capacity t0 t1 (Ok p) w s = Some (Ok (r, w', s')) →
  server_step (begin_handlers h t0 s) capacity (SAccept p) w = Some w'.
Proof.
  unfold doConnecton, begin_handlers. cbn [server_step].
  destruct (begin_call _ _ s) as [[ctx s1]| |]; [|done..].
  destruct (accept (h ctx) capacity p w) as [[[code w1]|]| |]; [|done..]. simpl. intros H.
  destruct (disconnects (newly_closed w w1) s1) as [s2| |]; [|done..]. simpl in H.
  destruct (end_call _ s2) as [s3| |]; [|done..]. by injection H as <- <- <-.
Qed.

Lemma doConnecton_failed t0 t1 e w s r w' s' :
  doConnecton h capacity t0 t1 (Err e) w s = Some (Ok (r, w', s')) → w' = w.
Proof.
  unfold doConnecton. destruct (begin_call _ _ s) as [[ctx s1]| |]; [|done..]. simpl.
  destruct (end_call _ s1) as [s2| |]; [|done..]. by intros [= _ <- _].
Qed.

Lemma SendMessage_step t0 t1 hctx ctx cid p w s r w' s' :
  stats_SendMessage network t0 t1 hctx ctx cid p w s = Some (Ok (r, w', s')) →
  ∃ hctx' s1, begin_call (h_MessageBegin hctx (mkMessageBegin (Kind p) "out" network t0 (zlen (Payload p)))) hctx s
    = Ok (hctx', s1) ∧ SendMessage (push_ctx hctx' ctx s1) cid p w = Some (r, w').
Proof.
  unfold stats_SendMessage. destruct (begin_call _ _ s) as [[c s1]| |]; [|done..].
  destruct (SendMessage _ cid p w) as [[r1 w1]|] eqn:E; [|done]. cbn [mbind option_bind]. intros [= H].
  destruct (end_call _ s1); [|done..]. injection H as <- <- _. by exists c, s1.
Qed.

(** What [OnRequest] sends, and with which context. *)
Lemma OnRequest_step t0 t1 p c s r c' s' :
  stats_OnRequest h network t0 t1 p c s = Some (Ok (r, c', s')) →
  ∃ hctx s1, begin_call (h_RequestBegin h_background (mkRequestBegin "in" (Method p) network (zlen (request_Body p)) t0))
    h_background s = Ok (hctx, s1) ∧
    match response_of (h hctx) p (conn_ID c) with
    | Ok res => SendPacket (push_ctx hctx None s1) (PResponse res) c = Some (r, c')
    | Err e => (r, c') = (Err e, c)
    | Panic _ => False
    end.
Proof.
  unfold stats_OnRequest. destruct (begin_call _ _ s) as [[x s1]| |]; [|done..]. intros H. exists x, s1.
  split; [done|]. destruct (response_of (h x) p (conn_ID c)) as [res|e|]; [|by injection H as -> -> _|done].
  destruct (SendPacket _ (PResponse res) c) as [[r1 c1]|]; [|done]. cbn [mbind option_bind] in H.
  destruct r1; [..|done]; injection H as H; (destruct (end_call _ s1); [|done..]); by injection H as <- -> _.
Qed.

Lemma plain_step_server a w s w' s' : plain_step h capacity a w s = Some (Ok (w', s')) →
  server_step (h h_background) capacity a w = Some w'.
Proof.
  unfold plain_step. destruct (server_step (h h_background) capacity a w) as [w1|]; [|done]. simpl. intros [= H].
  destruct (disconnects _ s); [|done..]. by injection H as -> _.
Qed.

(** ** Registrations, whatever the handler does *)
Definition stats_registers (t0 : Z) (a : stats_action) (w : world) (s : option S) : bool :=
  match a with
  | AServer a => registers (begin_handlers h t0 s) a w
  | ANoConnect _ => false
  end.

Fixpoint stats_registrations (acts : list (Z * Z * stats_action)) (w : world) (s : option S) : Z :=
  match acts with
  | [] => 0
  | (t0, t1, a) :: acts =>
      match stats_step h capacity network t0 t1 a w s with
      | Some (Ok (w', s')) => Z.b2z (stats_registers t0 a w s) + stats_registrations acts w' s'
      | _ => 0
      end
  end.

(** What a step keeps: the invariant, and every registration. *)
Definition keeps (n : Z) (w w' : world) : Prop :=
  server_inv w' ∧ users w' = users w + n ∧ closed_ids w `prefix_of` closed_ids w'.

Lemma keeps_refl w : server_inv w → keeps 0 w w.
Proof. intros Hw. split_and!; [done|lia|done]. Qed.

Lemma keeps_server h0 a w w' : server_inv w → server_step h0 capacity a w = Some w' →
  keeps (Z.b2z (registers h0 a w)) w w'.
Proof.
  intros Hw Ha. split; [by eapply server_inv_step|]. by eapply users_step.
Qed.

Lemma keeps_plain t0 a w s w' s' : server_inv w → (∀ p, a ≠ SAccept p) →
  plain_step h capacity a w s = Some (Ok (w', s')) → keeps (Z.b2z (stats_registers t0 (AServer a) w s)) w w'.
Proof.
  intros Hw Ha E%plain_step_server. apply keeps_server in E; [|done]. simpl.
  destruct a; simpl in *; try done. by destruct (Ha p).
Qed.

Lemma keeps_request t0 t1 i p c w s r c' s' : server_inv w → heap w !! i = Some c →
  stats_OnRequest h network t0 t1 p c s = Some (Ok (r, c', s')) → keeps 0 w (put_conn i c' w).
Proof.
  intros Hw Ei (hctx & s1 & _ & E)%OnRequest_step.
  assert (c_id c' = c_id c ∧ c_closed c' = c_closed c) as [Hid Hcl].
  { destruct (response_of _ _ _); [by apply push_keeps in E|by injection E as _ ->|done]. }
  split; [by eapply server_inv_put|]. split; [|done]. unfold users. simpl. lia.
Qed.

Lemma stats_step_keeps t0 t1 a w s w' s' : server_inv w →
  stats_step h capacity network t0 t1 a w s = Some (Ok (w', s')) →
  keeps (Z.b2z (stats_registers t0 a w s)) w w'.
Proof.
  intros Hw. destruct a as [a|e].
  - destruct a as [p|i p|cid|ctx cid p|ctx p|code i| |i a]; cbn [stats_step];
      try (intros E; by eapply keeps_plain).
    + destruct (doConnecton h capacity t0 t1 (Ok p) w s) as [[[[r w1] s1]| |]|] eqn:E; [|done..].
      intros [= <- <-]. apply doConnecton_step in E. by apply keeps_server.
    + destruct p; try (intros E; by eapply keeps_plain);
        (destruct (heap w !! i) as [c|] eqn:Ei; [|done]); cbn [mbind option_bind];
        (destruct (c_closed c); [intros [= <- _]; by apply keeps_refl|]).
      * intros [= H]. destruct (stats_OnMessage _ _ _ _ _ _ _); [|done..]. injection H as <- _. by apply keeps_refl.
      * destruct (stats_OnRequest h network t0 t1 _ c s) as [[[[r c1] s1]| |]|] eqn:E; [|done..].
        intros [= <- _]. by eapply keeps_request.
    + destruct (stats_SendMessage _ _ _ _ _ _ _ _ _) as [[[[r w1] s1]| |]|] eqn:E; [|done..].
      intros [= <- <-]. apply SendMessage_step in E as (hctx & s0 & _ & E).
      apply (keeps_server (h h_background) (SSend (push_ctx hctx ctx s0) cid p)); [done|]. cbn [server_step]. by rewrite E.
  - cbn [stats_step]. destruct (doConnecton h capacity t0 t1 (Err e) w s) as [[[[r w1] s1]| |]|] eqn:E; [|done..].
    intros [= <- <-]. apply doConnecton_failed in E as ->. by apply keeps_refl.
Qed.

Lemma stats_run_keeps acts w s w' s' : server_inv w →
  stats_run h capacity network acts w s = Some (Ok (w', s')) → keeps (stats_registrations acts w s) w w'.
Proof.
  revert w s. induction acts as [|[[t0 t1] a] acts IH]; intros w s Hw; [intros [= -> _]; by apply keeps_refl|].
  cbn [stats_run stats_registrations].
  destruct (stats_step _ _ _ _ _ a w s) as [[[w1 s1]| |]|] eqn:E; [|done..]. cbn [mbind option_bind]. intros Hr.
  destruct (stats_step_keeps _ _ _ _ _ _ _ Hw E) as (Hw1 & E1 & P1).
  destruct (IH w1 s1 Hw1 Hr) as (? & E2 & P2). split_and!; [done|lia|by etrans].
Qed.

(** ** Handlers whose contexts the server does not notice

    Every context ends when the caller's does, and the server's handlers do not look into it. *)
Definition transparent : Prop := ∀ ctx : C, (∀ e, h_Err ctx e = e) ∧ h ctx = h h_background.

Context (Ht : transparent).
#[local] Hint Resolve plain_step_server : core.

Lemma push_ctx_transparent ctx e s : push_ctx ctx e s = e.
Proof using Ht. destruct s; [apply (Ht ctx)|done]. Qed.

Lemma begin_handlers_transparent t0 s : begin_handlers h t0 s = h h_background.
Proof using Ht. unfold begin_handlers. destruct (begin_call _ _ s) as [[ctx ?]| |]; [|done..]. apply Ht. Qed.

Lemma stats_step_server t0 t1 a w s w' s' :
  stats_step h capacity network t0 t1 (AServer a) w s = Some (Ok (w', s')) →
  server_step (h h_background) capacity a w = Some w'.
Proof using Ht.
  destruct a as [p|i p|cid|ctx cid p|ctx p|code i| |i a]; cbn [stats_step]; eauto.
  - destruct (doConnecton h capacity t0 t1 (Ok p) w s) as [[[[r w1] s1]| |]|] eqn:E; [|done..].
    intros [= <- <-]. apply doConnecton_step in E. by rewrite begin_handlers_transparent in E.
  - destruct p; eauto; cbn [server_step]; unfold RecvPacket;
      (destruct (heap w !! i) as [c|] eqn:Ei; [|done]); cbn [mbind option_bind];
      (destruct (c_closed c); [by intros [= <- _]|]).
    + intros [= H]. destruct (stats_OnMessage _ _ _ _ _ _ _); [|done..]. by injection H as <- _.
    + destruct (stats_OnRequest h network t0 t1 _ c s) as [[[[r c1] s1]| |]|] eqn:E; [|done..].
      intros [= <- _]. apply OnRequest_step in E as (hctx & s2 & _ & E). rewrite push_ctx_transparent in E.
      rewrite (proj2 (Ht hctx)) in E. unfold on_conn. rewrite Ei. cbn [mbind option_bind]. unfold OnRequest.
      destruct (response_of _ _ _); [by rewrite E|injection E as -> ->; done|done].
  - destruct (stats_SendMessage _ _ _ _ _ _ _ _ _) as [[[[r w1] s1]| |]|] eqn:E; [|done..].
    intros [= <- <-]. apply SendMessage_step in E as (hctx & s0 & _ & E). rewrite push_ctx_transparent in E.
    cbn [server_step]. by rewrite E.
Qed.

Lemma stats_run_server acts w s w' s' : stats_run h capacity network acts w s = Some (Ok (w', s')) →
  server_run (h h_background) capacity (server_actions acts) w = Some w' ∧
  stats_registrations acts w s = registrations (h h_background) capacity (server_actions acts) w.
Proof using Ht.
  revert w s. induction acts as [|[[t0 t1] a] acts IH]; intros w s; [by intros [= -> _]|].
  cbn [stats_run stats_registrations].
  destruct (stats_step _ _ _ _ _ a w s) as [[[w1 s1]| |]|] eqn:E; [|done..]. cbn [mbind option_bind]. intros Hr.
  destruct (IH _ _ Hr) as [Hrun ->]. destruct a as [a|e].
  - change (server_actions ((t0, t1, AServer a) :: acts)) with (a :: server_actions acts).
    apply stats_step_server in E. rewrite server_run_cons, E. cbn [registrations stats_registers].
    by rewrite E, begin_handlers_transparent.
  - change (server_actions ((t0, t1, ANoConnect e) :: acts)) with (server_actions acts).
    assert (w1 = w) as ->; [|by rewrite Z.add_0_l]. cbn [stats_step] in E.
    destruct (doConnecton h capacity t0 t1 (Err e) w s) as [[[[r w2] s2]| |]|] eqn:Ec; [|done..].
    injection E as <- <-. by eapply doConnecton_failed.
Qed.
End properties.

(** A handler that makes no context of its own, and one that cancels the context of every message. *)
#[local] Instance silent : StatsHandler unit unit := {|
  h_background := tt; h_Err _ e := e;
  h_ConnectBegin _ _ _ := Ok (tt, tt); h_ConnectEnd _ _ _ := Ok tt; h_Disconnect _ _ := Ok tt;
  h_MessageBegin _ _ _ := Ok (tt, tt); h_MessageEnd _ _ _ := Ok tt;
  h_RequestBegin _ _ _ := Ok (tt, tt); h_RequestEnd _ _ _ := Ok tt; h_UpdateQueue _ _ _ := Ok tt |}.

#[local] Instance cancelling : StatsHandler (option error) unit := {|
  h_background := None; h_Err ctx e := match ctx with Some x => Some x | None => e end;
  h_ConnectBegin ctx _ _ := Ok (ctx, tt); h_ConnectEnd _ _ _ := Ok tt; h_Disconnect _ _ := Ok tt;
  h_MessageBegin _ _ _ := Ok (Some ECanceled, tt); h_MessageEnd _ _ _ := Ok tt;
  h_RequestBegin ctx _ _ := Ok (ctx, tt); h_RequestEnd _ _ _ := Ok tt; h_UpdateQueue _ _ _ := Ok tt |}.

(** A login and two messages to a client whose queue has room for one. *)
Definition two_messages : list (Z * Z * stats_action) :=
  let m := AServer (SSend None "phone" (mkMessage ∅ x01 [x68; x69])) in
  [(1, 2, AServer (SAccept (login_of "alice" "phone"))); (3, 4, m); (5, 6, m)].


(** Two registrations, one of them lost to a second login of the same client. *)
Definition two_logins : list (Z * Z * stats_action) :=
  [(1, 2, AServer (SAccept (login_of "alice" "phone"))); (3, 4, AServer (SAccept (login_of "bob" "pad")));
   (4, 5, ANoConnect EEOF); (5, 6, AServer (SAccept (login_of "alice" "phone")))].

Definition after_two_logins : option (outcome error (world * option unit)) :=
  @stats_run unit unit _ range_forward range_forward (λ _, echo_handlers) 8 "tcp" two_logins empty_world (Some tt).

