(* ===== verification/Requests.v ===== *)
(** * Pending requests of a connection (src/internal/network/conn.go, [SendRequest],
    [recvResponse])

    Calls of [SendRequest] and the goroutines that handle received responses share a map from
    request ids to response channels behind a lock.  The channels are unbuffered and a response
    is sent while the lock is held.  The model is a transition system over the atomic steps;
    [rstep] is its executable step function. *)
From S2P Require Import Prelude Errors Packet.

(** A call of [SendRequest], with the id of its packet. *)
Inductive caller :=
| CStart (pid : Z)                                  (* before the id is assigned *)
| CAssigned (pid : Z)                               (* about to register its channel *)
| CRegistered (pid : Z)                             (* about to send the packet *)
| CWaiting (pid : Z)                                (* in the final select *)
| CLeaving (pid : Z) (r : outcome error Response)   (* in the deferred function *)
| CReturned (pid : Z) (r : outcome error Response).

(** A goroutine in [recvResponse]. *)
Inductive receiver :=
| VStart (res : Response)
| VSending (res : Response) (k : nat)               (* holds the lock, sends to the channel of k *)
| VDone (found : bool).

Record rstate := mkR {
  requestID : Z;                 (* atomic.Uint64 *)
  lock : option nat;             (* the receiver holding requestLock between two steps *)
  requestTasks : gmap Z nat;     (* id -> the call whose channel is stored *)
  callers : gmap nat caller;
  receivers : gmap nat receiver
}.

Definition initial : rstate := mkR 0 None ∅ ∅ ∅.

(** [uint16(c.requestID.Add(1) / math.MaxUint16)], given the counter after the addition. *)
Definition assigned_id (n : Z) : Z := u16 (n / 65535).

Inductive raction :=
| ACallRequest (k : nat) (pid : Z) (refused : option error)  (* as in [Ping] *)
| AAssign (k : nat)
| ARegister (k : nat)
| ASent (k : nat) (err : option error)
| ACtxDone (k : nat) (err : error)
| ALeave (k : nat)
| AReceive (j : nat) (res : Response)
| ALookup (j : nat)
| ADeliver (j : nat).

Definition set_caller (k : nat) (c : caller) (s : rstate) : rstate :=
  mkR (requestID s) (lock s) (requestTasks s) (<[k := c]> (callers s)) (receivers s).

Definition set_receiver (j : nat) (v : receiver) (l : option nat) (s : rstate) : rstate :=
  mkR (requestID s) l (requestTasks s) (callers s) (<[j := v]> (receivers s)).

Definition set_tasks (m : gmap Z nat) (s : rstate) : rstate :=
  mkR (requestID s) (lock s) m (callers s) (receivers s).

(** The steps of [SendRequest] for the call [k]. *)
Definition assign_step (k : nat) (s : rstate) : option rstate :=
  match callers s !! k with
  | Some (CStart pid) =>
      if pid =? 0 then
        let n := u64 (requestID s + 1) in
        Some (set_caller k (CAssigned (assigned_id n))
          (mkR n (lock s) (requestTasks s) (callers s) (receivers s)))
      else Some (set_caller k (CAssigned pid) s)
  | _ => None
  end.

Definition register_step (k : nat) (s : rstate) : option rstate :=
  match callers s !! k, lock s with
  | Some (CAssigned pid), None =>
      Some (set_caller k (CRegistered pid) (set_tasks (<[pid := k]> (requestTasks s)) s))
  | _, _ => None
  end.

(** [SendPacket] returns: on an error the call leaves, else it waits. *)
Definition sent_step (k : nat) (err : option error) (s : rstate) : option rstate :=
  match callers s !! k with
  | Some (CRegistered pid) =>
      Some (set_caller k (match err with Some e => CLeaving pid (Err e) | None => CWaiting pid end) s)
  | _ => None
  end.

Definition ctx_step (k : nat) (err : error) (s : rstate) : option rstate :=
  match callers s !! k with
  | Some (CWaiting pid) => Some (set_caller k (CLeaving pid (Err err)) s)
  | _ => None
  end.

(** The deferred function deletes the entry of its id, whoever stored it. *)
Definition leave_step (k : nat) (s : rstate) : option rstate :=
  match callers s !! k, lock s with
  | Some (CLeaving pid r), None =>
      Some (set_caller k (CReturned pid r) (set_tasks (delete pid (requestTasks s)) s))
  | _, _ => None
  end.

(** The steps of [recvResponse] for the goroutine [j]. *)
Definition lookup_step (j : nat) (s : rstate) : option rstate :=
  match receivers s !! j, lock s with
  | Some (VStart res), None =>
      match requestTasks s !! response_id res with
      | Some k => Some (set_receiver j (VSending res k) (Some j) s)
      | None => Some (set_receiver j (VDone false) None s)
      end
  | _, _ => None
  end.

(** The channel is unbuffered: the send and the receive happen together. *)
Definition deliver_step (j : nat) (s : rstate) : option rstate :=
  match receivers s !! j with
  | Some (VSending res k) =>
      match callers s !! k with
      | Some (CWaiting pid) =>
          Some (set_caller k (CLeaving pid (Ok res)) (set_receiver j (VDone true) None s))
      | _ => None
      end
  | _ => None
  end.

Definition rstep (a : raction) (s : rstate) : option rstate :=
  match a with
  | ACallRequest k pid refused =>
      match callers s !! k with
      | None => Some (set_caller k (match refused with Some e => CReturned pid (Err e) | None => CStart pid end) s)
      | Some _ => None
      end
  | AAssign k => assign_step k s
  | ARegister k => register_step k s
  | ASent k err => sent_step k err s
  | ACtxDone k err => ctx_step k err s
  | ALeave k => leave_step k s
  | AReceive j res =>
      match receivers s !! j with
      | None => Some (set_receiver j (VStart res) (lock s) s)
      | Some _ => None
      end
  | ALookup j => lookup_step j s
  | ADeliver j => deliver_step j s
  end.

(** [SendRequest] of client.go, the same code for a client that must be ready. *)
Definition client_rstep (ready : bool) (a : raction) (s : rstate) : option rstate :=
  match a with
  | ACallRequest k pid _ =>
      rstep (ACallRequest k pid (if ready then None else Some (EClient ErrConnectionNotReady))) s
  | _ => rstep a s
  end.

Definition step (s s' : rstate) : Prop := ∃ a, rstep a s = Some s'.

Definition run_requests (acts : list raction) (s : rstate) : option rstate :=
  fold_left (λ m a, m ≫= rstep a) acts (Some s).

Lemma run_requests_steps acts s s' : run_requests acts s = Some s' → steps step s s'.
Proof.
  unfold run_requests. revert s. induction acts as [|a acts IH]; intros s; cbn [fold_left].
  { intros [= ->]. apply steps_refl. }
  change (Some s ≫= rstep a) with (rstep a s). destruct (rstep a s) as [s1|] eqn:E.
  - intros H. apply (steps_step _ _ s1); [by exists a|by apply IH].
  - intros H. exfalso. revert H. clear. induction acts; [done|]. simpl. done.
Qed.

(** ** The invariant *)

(** The id of a call. *)
Definition caller_id (c : caller) : option Z :=
  match c with
  | CStart _ => None
  | CAssigned pid | CRegistered pid | CWaiting pid | CLeaving pid _ | CReturned pid _ => Some pid
  end.

Definition result_matches (c : caller) : Prop :=
  match c with
  | CLeaving pid (Ok res) | CReturned pid (Ok res) => response_id res = pid
  | _ => True
  end.

Record requests_inv (s : rstate) : Prop := {
  (* a stored channel belongs to a call with that id that has not returned *)
  inv_tasks : ∀ id k, requestTasks s !! id = Some k →
    ∃ c, callers s !! k = Some c ∧ caller_id c = Some id;
  (* the receiver that holds the lock is the one sending, to a call with the id of its response *)
  inv_sending : ∀ j res k, receivers s !! j = Some (VSending res k) →
    lock s = Some j ∧ ∃ c, callers s !! k = Some c ∧ caller_id c = Some (response_id res);
  inv_results : ∀ k c, callers s !! k = Some c → result_matches c
}.

Lemma requests_inv_initial : requests_inv initial.
Proof. split; intros *; simpl; by rewrite lookup_empty. Qed.

(** Changing the state of one call, keeping its id. *)
Lemma requests_inv_caller k c c' s : requests_inv s → callers s !! k = Some c →
  (∀ id, caller_id c = Some id → caller_id c' = Some id) → result_matches c' →
  requests_inv (set_caller k c' s).
Proof.
  intros [Ht Hs Hr] Ek Hid Hm.
  assert (∀ k' id, (∃ c0, callers s !! k' = Some c0 ∧ caller_id c0 = Some id) →
    ∃ c0, <[k := c']> (callers s) !! k' = Some c0 ∧ caller_id c0 = Some id) as Hk.
  { intros k' id (c0 & E & Hc0). destruct (decide (k' = k)) as [->|Hne].
    - exists c'. rewrite lookup_insert_eq. simplify_eq. auto.
    - exists c0. by rewrite lookup_insert_ne. }
  split; simpl.
  - intros id k' E. by apply Hk, Ht.
  - intros j res k' E. destruct (Hs j res k' E) as [? ?]. auto.
  - intros k' c0 E. destruct (decide (k' = k)) as [->|Hne].
    + rewrite lookup_insert_eq in E. by injection E as <-.
    + rewrite lookup_insert_ne in E by done. by eapply Hr.
Qed.

Lemma requests_inv_tasks m s : requests_inv s →
  (∀ id k, m !! id = Some k → ∃ c, callers s !! k = Some c ∧ caller_id c = Some id) →
  requests_inv (set_tasks m s).
Proof. intros [Ht Hs Hr] Hm. by split. Qed.

Lemma requests_inv_call k c0 s : requests_inv s → callers s !! k = None → result_matches c0 →
  requests_inv (set_caller k c0 s).
Proof.
  intros [Ht Hs Hr] Ek Hc0. split; simpl.
  - intros id k' E. destruct (Ht id k' E) as (c & Ec & ?). exists c.
    rewrite lookup_insert_ne by congruence. done.
  - intros j res k' E. destruct (Hs j res k' E) as [? (c & Ec & ?)]. split; [done|]. exists c.
    rewrite lookup_insert_ne by congruence. done.
  - intros k' c E. destruct (decide (k' = k)) as [->|Hne].
    + rewrite lookup_insert_eq in E. by injection E as <-.
    + rewrite lookup_insert_ne in E by done. by eapply Hr.
Qed.

Lemma requests_inv_receiver j v l s : requests_inv s →
  (∀ j' res k, j' ≠ j → receivers s !! j' = Some (VSending res k) → l = Some j') →
  (∀ res k, v = VSending res k →
     l = Some j ∧ ∃ c, callers s !! k = Some c ∧ caller_id c = Some (response_id res)) →
  requests_inv (set_receiver j v l s).
Proof.
  intros [Ht Hs Hr] Hl Hv. split; simpl; [done| |done].
  intros j' res k E. destruct (decide (j' = j)) as [->|Hne].
  - rewrite lookup_insert_eq in E. injection E as ->. by apply Hv.
  - rewrite lookup_insert_ne in E by done. split; [by eapply Hl|]. by apply (Hs j').
Qed.

Lemma requests_inv_step s s' : requests_inv s → step s s' → requests_inv s'.
Proof.
  intros Hs [a Ha]. pose proof Hs as [Ht Hsd Hr].
  destruct a as [k pid refused|k|k|k err|k err|k|j res|j|j]; cbn [rstep] in Ha.
  - destruct (callers s !! k) eqn:Ek; [done|]. injection Ha as <-.
    apply requests_inv_call; [done..|by destruct refused].
  - unfold assign_step in Ha. destruct (callers s !! k) as [[pid| | | | |]|] eqn:Ek; try done.
    destruct (pid =? 0); injection Ha as <-; [|by eapply requests_inv_caller].
    eapply (requests_inv_caller k (CStart pid)); try done; by split.
  - unfold register_step in Ha. destruct (callers s !! k) as [[|pid| | | |]|] eqn:Ek; try done.
    destruct (lock s); [done|]. injection Ha as <-.
    eapply (requests_inv_caller k (CAssigned pid)); try done.
    apply requests_inv_tasks; [done|]. intros id k' E.
    apply lookup_insert_Some in E as [[<- <-]|[_ E]]; [by eexists|by apply Ht].
  - unfold sent_step in Ha. destruct (callers s !! k) as [[| |pid| | |]|] eqn:Ek; try done.
    injection Ha as <-. destruct err; by eapply requests_inv_caller.
  - unfold ctx_step in Ha. destruct (callers s !! k) as [[| | |pid| |]|] eqn:Ek; try done.
    injection Ha as <-. by eapply requests_inv_caller.
  - unfold leave_step in Ha. destruct (callers s !! k) as [[| | | |pid r|]|] eqn:Ek; try done.
    destruct (lock s); [done|]. injection Ha as <-.
    eapply (requests_inv_caller k (CLeaving pid r)); [|done|done|exact (Hr _ _ Ek)].
    apply requests_inv_tasks; [done|]. intros id k' E.
    apply lookup_delete_Some in E as [_ E]. by apply Ht.
  - destruct (receivers s !! j) eqn:Ej; [done|]. injection Ha as <-.
    apply requests_inv_receiver; [done| |done]. intros j' res' k _ E. by destruct (Hsd _ _ _ E).
  - unfold lookup_step in Ha. destruct (receivers s !! j) as [[res| |]|] eqn:Ej; try done.
    destruct (lock s) eqn:El; [done|].
    assert (∀ j' res' k, receivers s !! j' = Some (VSending res' k) → False) as Hno.
    { intros j' res' k E. destruct (Hsd _ _ _ E). congruence. }
    destruct (requestTasks s !! response_id res) as [k|] eqn:Et; injection Ha as <-;
      apply requests_inv_receiver; try done;
      try (intros j' res' k' _ E; by destruct (Hno _ _ _ E)).
    intros res' k' [= <- <-]. split; [done|]. by apply Ht.
  - unfold deliver_step in Ha. destruct (receivers s !! j) as [[|res k|]|] eqn:Ej; try done.
    destruct (callers s !! k) as [[| | |pid| |]|] eqn:Ek; try done. injection Ha as <-.
    destruct (Hsd _ _ _ Ej) as [El (c & Ec & Hid)]. rewrite Ek in Ec. injection Ec as <-.
    eapply (requests_inv_caller k (CWaiting pid)); [|done|done|by injection Hid].
    apply requests_inv_receiver; [done| |done].
    intros j' res' k' Hne E. destruct (Hsd _ _ _ E). congruence.
Qed.

Lemma requests_inv_reached s : steps step initial s → requests_inv s.
Proof. apply steps_invariant; [intros ???; by apply requests_inv_step|apply requests_inv_initial]. Qed.

(** ** Stuck states

    A receiver holds the lock and sends to a call that no longer receives. *)
Definition stuck (s : rstate) : Prop := ∃ j res k pid r,
  lock s = Some j ∧ receivers s !! j = Some (VSending res k) ∧ callers s !! k = Some (CLeaving pid r).

Lemma stuck_step s s' : requests_inv s → stuck s → step s s' → stuck s'.
Proof.
  intros [_ Hsd _] (j & res & k & pid & r & El & Ej & Ek) [a Ha].
  assert (∀ k' c, k' ≠ k → callers s' = <[k' := c]> (callers s) → lock s' = lock s →
    receivers s' = receivers s → stuck s') as Hother.
  { intros k' c Hne Ec El' Er'. exists j, res, k, pid, r.
    by rewrite Ec, El', Er', lookup_insert_ne. }
  destruct a as [k' pid' refused|k'|k'|k' err|k' err|k'|j' res'|j'|j']; cbn [rstep] in Ha.
  - destruct (callers s !! k') eqn:Ek'; [done|]. injection Ha as <-.
    eapply (Hother k'); [congruence|done..].
  - unfold assign_step in Ha. destruct (callers s !! k') as [[pid'| | | | |]|] eqn:Ek'; try done.
    destruct (pid' =? 0); injection Ha as <-; by eapply (Hother k'); [congruence|..].
  - unfold register_step in Ha. rewrite El in Ha. by destruct (callers s !! k') as [[]|].
  - unfold sent_step in Ha. destruct (callers s !! k') as [[| |pid'| | |]|] eqn:Ek'; try done.
    injection Ha as <-. eapply (Hother k'); [congruence|done..].
  - unfold ctx_step in Ha. destruct (callers s !! k') as [[| | |pid'| |]|] eqn:Ek'; try done.
    injection Ha as <-. eapply (Hother k'); [congruence|done..].
  - unfold leave_step in Ha. rewrite El in Ha. by destruct (callers s !! k') as [[]|].
  - destruct (receivers s !! j') eqn:Ej'; [done|]. injection Ha as <-.
    exists j, res, k, pid, r. simpl. by rewrite lookup_insert_ne by congruence.
  - unfold lookup_step in Ha. rewrite El in Ha. by destruct (receivers s !! j') as [[]|].
  - unfold deliver_step in Ha. destruct (receivers s !! j') as [[|res' k'|]|] eqn:Ej'; try done.
    destruct (Hsd _ _ _ Ej') as [El' _]. rewrite El in El'. injection El' as <-.
    rewrite Ej in Ej'. injection Ej' as <- <-. by rewrite Ek in Ha.
Qed.

(** What is proved of the steps of a connection holds of a client. *)
Lemma client_rstep_step ready a s s' : client_rstep ready a s = Some s' → step s s'.
Proof. intros E. destruct a; by (eexists; exact E). Qed.

(** ** Properties of requests *)

(** In every interleaving, the response a call of [SendRequest] returns
    carries the id of its request, and at most one goroutine is between taking a response
    channel from the map and sending to it. *)
Theorem response_correlated s :
  steps step initial s →
  (∀ k pid res, callers s !! k = Some (CReturned pid (Ok res)) → response_id res = pid) ∧
  (∀ j1 j2 r1 r2 k1 k2, receivers s !! j1 = Some (VSending r1 k1) →
     receivers s !! j2 = Some (VSending r2 k2) → j1 = j2).
Proof.
  intros Hs. destruct (requests_inv_reached s Hs) as [_ Hsd Hr]. split.
  - intros k pid res E. exact (Hr _ _ E).
  - intros j1 j2 r1 r2 k1 k2 E1 E2. destruct (Hsd _ _ _ E1), (Hsd _ _ _ E2). congruence.
Qed.

(** A call with id 7 that is answered. *)
Definition answered : list raction :=
  [ACallRequest 0 7 None; AAssign 0; ARegister 0; ASent 0 None;
   AReceive 0 (mkResponse ∅ 7 StatusOK [x01]); ALookup 0; ADeliver 0; ALeave 0].

Definition answered_state : rstate := default initial (run_requests answered initial).

Lemma response_correlated_witness :
  callers answered_state !! 0%nat =
    Some (CReturned 7 (Ok (mkResponse ∅ 7 StatusOK [x01]))) ∧
  response_id (mkResponse ∅ 7 StatusOK [x01]) = 7.
Proof.
  split; [by vm_compute|].
  apply (response_correlated answered_state) with (k := 0%nat); [|by vm_compute].
  apply (run_requests_steps answered). by vm_compute.
Defined.

(** Request ids: the id assigned to a request without one is the counter divided by
    65535, so the first 65534 of them all get the id 0 and the next 65535 the id 1.  Two calls
    in flight then share an entry of the map, and the response to the first is handed to the
    second. *)
Theorem request_ids_collide :
  (∀ n, 1 <= n < 65535 → assigned_id n = 0) ∧
  (∀ n, 65535 <= n < 2 * 65535 → assigned_id n = 1) ∧
  (∀ res, response_id res = 0 → ∃ s, steps step initial s ∧
     callers s !! 0%nat = Some (CWaiting 0) ∧
     callers s !! 1%nat = Some (CLeaving 0 (Ok res)) ∧
     receivers s !! 0%nat = Some (VDone true)).
Proof.
  split_and!.
  - intros n Hn. unfold assigned_id. rewrite Z.div_small by lia. done.
  - intros n Hn. unfold assigned_id. rewrite <-(Z.div_unique n 65535 1 (n - 65535)) by lia. done.
  - intros [m id c b] Hres. simpl in Hres. subst id. eexists. split.
    + apply (run_requests_steps
        [ACallRequest 0 0 None; AAssign 0; ARegister 0; ASent 0 None;
         ACallRequest 1 0 None; AAssign 1; ARegister 1; ASent 1 None;
         AReceive 0 (mkResponse m 0 c b); ALookup 0; ADeliver 0]).
      reflexivity.
    + done.
Qed.

Lemma request_ids_collide_witness :
  assigned_id 65534 = 0 ∧
  ∃ s, steps step initial s ∧ callers s !! 0%nat = Some (CWaiting 0) ∧
    callers s !! 1%nat = Some (CLeaving 0 (Ok (mkResponse ∅ 0 StatusOK [x2a]))) ∧
    receivers s !! 0%nat = Some (VDone true).
Proof.
  split; [apply request_ids_collide; lia|].
  by apply (proj2 (proj2 request_ids_collide) (mkResponse ∅ 0 StatusOK [x2a])).
Defined.

(** C15 (deadlock): when the context of a call ends after a goroutine took its channel from the
    map but before the response was sent, the goroutine blocks on the channel while it holds
    the lock and the call blocks on the lock: such a state is reachable, and from it no step
    ever releases the lock, so neither the call nor any other one can register or return. *)
Theorem requests_deadlock :
  (∃ s, steps step initial s ∧ stuck s) ∧
  (∀ s s', steps step initial s → stuck s → steps step s s' →
     stuck s' ∧
     (∀ k, register_step k s' = None ∧ leave_step k s' = None) ∧
     (∀ j, lookup_step j s' = None ∧ deliver_step j s' = None)).
Proof.
  split.
  - eexists. split.
    + apply (run_requests_steps
        [ACallRequest 0 7 None; AAssign 0; ARegister 0; ASent 0 None;
         AReceive 0 (mkResponse ∅ 7 StatusOK []); ALookup 0; ACtxDone 0 EDeadline]).
      reflexivity.
    + by exists 0%nat, (mkResponse ∅ 7 StatusOK []), 0%nat, 7, (Err EDeadline).
  - intros s s' Hs Hst Hs'.
    assert (requests_inv s' ∧ stuck s') as [Hi Hst'].
    { refine (steps_invariant step (λ s, requests_inv s ∧ stuck s) _ s s' _ Hs').
      - intros s1 s2 [H1 H2] H. split; [by eapply requests_inv_step|by eapply stuck_step].
      - split; [by apply requests_inv_reached|done]. }
    split; [done|]. destruct Hst' as (j & res & k & pid & r & El & Ej & Ek). split.
    + intros k'. unfold register_step, leave_step. rewrite El. by destruct (callers s' !! k') as [[]|].
    + intros j'. unfold lookup_step, deliver_step. rewrite El.
      destruct (receivers s' !! j') as [[|res' k'|]|] eqn:Ej'; try done. split; [done|].
      destruct (inv_sending _ Hi _ _ _ Ej') as [El' _]. rewrite El in El'. injection El' as <-.
      rewrite Ej in Ej'. injection Ej' as <- <-. by rewrite Ek.
Qed.

(** The deadlocked state above, one call later. *)
Definition stuck_state : rstate :=
  default initial (run_requests
    [ACallRequest 0 7 None; AAssign 0; ARegister 0; ASent 0 None;
     AReceive 0 (mkResponse ∅ 7 StatusOK []); ALookup 0; ACtxDone 0 EDeadline] initial).

Lemma requests_deadlock_witness :
  stuck stuck_state ∧ register_step 1 (set_caller 1 (CStart 3) stuck_state) = None.
Proof.
  assert (stuck stuck_state) as Hst
    by (by exists 0%nat, (mkResponse ∅ 7 StatusOK []), 0%nat, 7, (Err EDeadline)).
  split; [done|].
  apply (proj2 requests_deadlock stuck_state (set_caller 1 (CStart 3) stuck_state)); [|done|].
  - apply (run_requests_steps [ACallRequest 0 7 None; AAssign 0; ARegister 0; ASent 0 None;
     AReceive 0 (mkResponse ∅ 7 StatusOK []); ALookup 0; ACtxDone 0 EDeadline]).
    by vm_compute.
  - apply steps_one. exists (ACallRequest 1 3 None). by vm_compute.
Defined.
