(* ===== verification/Ping.v ===== *)
(** * Pings of a connection (src/internal/network/conn.go [SendPing], src/client/client.go [sendPing],
    [recvPong], [pingChan])

    A call of [SendPing] makes a channel, stores it in [pingChan], sends the packet, waits on the
    channel [pingChan] holds then, and in a deferred function closes and clears [pingChan].  A
    received PONG sends on [pingChan] while holding [pingLock]; the channel is unbuffered.  The
    model is a transition system over the atomic steps; [pstep] is its executable step function.
    A channel is named by the call that made it. *)
From S2P Require Import Prelude Errors.

(** A call of [SendPing]. *)
Inductive pinger :=
| GStart                                   (* about to make its channel *)
| GMade                                    (* sending the packet *)
| GSelect (ch : option nat)                (* in the select, on the channel it evaluated *)
| GLeaving (r : outcome error unit)        (* in the deferred function *)
| GReturned (r : outcome error unit)
| GPanicked.

(** A goroutine in [recvPong]; it holds the lock while it sends. *)
Inductive ponger := QStart | QSending (ch : nat) | QDone (delivered : bool).

Record pstate := mkP {
  pingLock : option nat;           (* the ponger holding the lock between two steps *)
  pingChan : option nat;
  closedChans : gset nat;
  pingers : gmap nat pinger;
  pongers : gmap nat ponger
}.

Definition no_pings : pstate := mkP None None ∅ ∅ ∅.

Definition set_pinger (k : nat) (g : pinger) (s : pstate) : pstate :=
  mkP (pingLock s) (pingChan s) (closedChans s) (<[k := g]> (pingers s)) (pongers s).

Definition set_ponger (j : nat) (q : ponger) (l : option nat) (s : pstate) : pstate :=
  mkP l (pingChan s) (closedChans s) (pingers s) (<[j := q]> (pongers s)).

Inductive paction :=
| PCall (k : nat) (refused : option error)  (* the error of a closed connection, a client not ready *)
| PMake (k : nat)
| PSent (k : nat) (err : option error)   (* SendPacket returns; without an error the select starts *)
| PCtx (k : nat) (err : error)
| PClosedRecv (k : nat)                  (* receiving from a closed channel *)
| PLeave (k : nat)
| PPong (j : nat)
| PLookup (j : nat)
| PDeliver (j k : nat).

Definition make_step (k : nat) (s : pstate) : option pstate :=
  match pingers s !! k, pingLock s with
  | Some GStart, None =>
      Some (set_pinger k GMade
        (mkP (pingLock s) (Some k) (closedChans s) (pingers s) (pongers s)))
  | _, _ => None
  end.

Definition ping_sent_step (k : nat) (err : option error) (s : pstate) : option pstate :=
  match pingers s !! k with
  | Some GMade =>
      Some (set_pinger k (match err with Some e => GLeaving (Err e)
                                       | None => GSelect (pingChan s) end) s)
  | _ => None
  end.

Definition ping_ctx_step (k : nat) (err : error) (s : pstate) : option pstate :=
  match pingers s !! k with
  | Some (GSelect _) => Some (set_pinger k (GLeaving (Err err)) s)
  | _ => None
  end.

Definition closed_recv_step (k : nat) (s : pstate) : option pstate :=
  match pingers s !! k with
  | Some (GSelect (Some ch)) =>
      if decide (ch ∈ closedChans s) then Some (set_pinger k (GLeaving (Ok tt)) s) else None
  | _ => None
  end.

(** The deferred function: [close] of a nil or closed channel panics. *)
Definition ping_leave_step (k : nat) (s : pstate) : option pstate :=
  match pingers s !! k, pingLock s with
  | Some (GLeaving r), None =>
      Some (match pingChan s with
            | None => set_pinger k GPanicked s
            | Some ch =>
                if decide (ch ∈ closedChans s) then set_pinger k GPanicked s
                else set_pinger k (GReturned r)
                       (mkP None None ({[ch]} ∪ closedChans s) (pingers s) (pongers s))
            end)
  | _, _ => None
  end.

Definition pong_lookup_step (j : nat) (s : pstate) : option pstate :=
  match pongers s !! j, pingLock s with
  | Some QStart, None =>
      Some (match pingChan s with
            | Some ch => set_ponger j (QSending ch) (Some j) s
            | None => set_ponger j (QDone false) None s
            end)
  | _, _ => None
  end.

(** The send of [j] meets the receive of [k]. *)
Definition pong_deliver_step (j k : nat) (s : pstate) : option pstate :=
  match pongers s !! j, pingers s !! k with
  | Some (QSending ch), Some (GSelect (Some ch')) =>
      if decide (ch = ch')
      then Some (set_pinger k (GLeaving (Ok tt)) (set_ponger j (QDone true) None s))
      else None
  | _, _ => None
  end.

Definition pstep (a : paction) (s : pstate) : option pstate :=
  match a with
  | PCall k refused =>
      match pingers s !! k with
      | None => Some (set_pinger k (match refused with Some e => GReturned (Err e) | None => GStart end) s)
      | Some _ => None
      end
  | PMake k => make_step k s
  | PSent k err => ping_sent_step k err s
  | PCtx k err => ping_ctx_step k err s
  | PClosedRecv k => closed_recv_step k s
  | PLeave k => ping_leave_step k s
  | PPong j =>
      match pongers s !! j with None => Some (set_ponger j QStart (pingLock s) s) | Some _ => None end
  | PLookup j => pong_lookup_step j s
  | PDeliver j k => pong_deliver_step j k s
  end.

(** The two sides share the code: [SendPing] of conn.go refuses when the connection is closed,
    [sendPing] of client.go when the client is not ready; neither error is a timeout. *)
Class PingSide := {
  refusal : bool → option error;
  refusal_plain b e : refusal b = Some e → is_timeout e = false }.

#[export] Program Instance conn_side : PingSide :=
  {| refusal IsClosed := if IsClosed then Some (EXerr ConnectionIsClosed) else None |}.
Next Obligation. by intros [] e [= <-]. Qed.

#[export] Program Instance client_side : PingSide :=
  {| refusal IsReady := if IsReady then None else Some (EClient ErrConnectionNotReady) |}.
Next Obligation. by intros [] e [= <-]. Qed.

(** A step of one side; [flag] is its answer when the call starts. *)
Definition side_pstep {side : PingSide} (flag : bool) (a : paction) (s : pstate) : option pstate :=
  match a with
  | PCall k _ => pstep (PCall k (@refusal side flag)) s
  | _ => pstep a s
  end.

Definition run_pings (acts : list paction) (s : pstate) : option pstate :=
  fold_left (λ m a, m ≫= pstep a) acts (Some s).

Definition active (g : pinger) : bool :=
  match g with GReturned _ | GPanicked => false | _ => true end.

(** A schedule in which a call starts only when no other call is active. *)
Definition sequential_step (s s' : pstate) : Prop :=
  ∃ a, pstep a s = Some s' ∧
    match a with PCall _ _ => map_Forall (λ _ g, active g = false) (pingers s) | _ => True end.

Definition any_step (s s' : pstate) : Prop := ∃ a, pstep a s = Some s'.

(** ** Calls that do not overlap *)

(** At most one call [k] is active, and [pingChan] is its channel from the moment it made it. *)
Definition sequential_inv (s : pstate) : Prop :=
  (∀ ch, pingChan s = Some ch → ch ∉ closedChans s) ∧
  (∀ k, k ∈ closedChans s → ∃ r, pingers s !! k = Some (GReturned r)) ∧
  (∀ k g, pingers s !! k = Some g → g ≠ GPanicked) ∧
  (∀ k1 k2 g1 g2, pingers s !! k1 = Some g1 → pingers s !! k2 = Some g2 →
     active g1 = true → active g2 = true → k1 = k2) ∧
  (∀ k g, pingers s !! k = Some g →
     match g with
     | GMade | GLeaving _ => pingChan s = Some k
     | GSelect ch => ch = Some k ∧ pingChan s = Some k
     | _ => True
     end).

Lemma sequential_inv_initial : sequential_inv no_pings.
Proof. split_and!; intros *; simpl; rewrite ?lookup_empty; try done; set_solver. Qed.

(** One call changes, [pingChan] and the closed channels stay. *)
Lemma sequential_inv_pinger k g g' s : sequential_inv s → pingers s !! k = Some g →
  active g = true → g' ≠ GPanicked → active g' = true →
  match g' with
  | GMade | GLeaving _ => pingChan s = Some k
  | GSelect ch => ch = Some k ∧ pingChan s = Some k
  | _ => True
  end → sequential_inv (set_pinger k g' s).
Proof.
  intros (H1 & H2 & H3 & H4 & H5) Ek Hact Hp Hact' Hm. split_and!; simpl.
  - done.
  - intros k' Hk'. destruct (H2 k' Hk') as [r Er]. exists r.
    destruct (decide (k' = k)) as [->|Hne]; [|by rewrite lookup_insert_ne].
    rewrite Ek in Er. injection Er as ->. done.
  - intros k' g0. destruct (decide (k' = k)) as [->|Hne].
    + rewrite lookup_insert_eq. by intros [= <-].
    + rewrite lookup_insert_ne by done. apply H3.
  - assert (∀ k' g0, <[k := g']> (pingers s) !! k' = Some g0 → active g0 = true → k' = k) as Honly.
    { intros k' g0. destruct (decide (k' = k)) as [->|Hne]; [done|].
      rewrite lookup_insert_ne by done. intros E Ha. by eapply H4. }
    intros k1 k2 g1 g2 E1 E2 A1 A2. rewrite (Honly k1 g1), (Honly k2 g2); done.
  - intros k' g0. destruct (decide (k' = k)) as [->|Hne].
    + rewrite lookup_insert_eq. by intros [= <-].
    + rewrite lookup_insert_ne by done. apply H5.
Qed.

Lemma sequential_inv_ponger j q l s : sequential_inv s → sequential_inv (set_ponger j q l s).
Proof. done. Qed.

Lemma sequential_inv_step s s' : sequential_inv s → sequential_step s s' → sequential_inv s'.
Proof.
  intros Hs (a & Ha & Hseq). assert (Hs' := Hs). destruct Hs' as (H1 & H2 & H3 & H4 & H5).
  destruct a as [k cl|k|k err|k err|k|k|j|j|j k]; cbn [pstep] in Ha.
  - destruct (pingers s !! k) eqn:Ek; [done|]. injection Ha as <-. split_and!; simpl; [done|..].
    + intros k' Hk'. destruct (H2 k' Hk') as [r Er]. exists r. rewrite lookup_insert_ne by congruence. done.
    + intros k' g. destruct (decide (k' = k)) as [->|Hne].
      * rewrite lookup_insert_eq. intros [= <-]. by destruct cl.
      * rewrite lookup_insert_ne by done. apply H3.
    + assert (∀ k' g, <[k := match cl with Some e => GReturned (Err e) | None => GStart end]>
        (pingers s) !! k' = Some g → active g = true → k' = k) as Honly.
      { intros k' g. destruct (decide (k' = k)) as [->|Hne]; [done|].
        rewrite lookup_insert_ne by done. intros E Hg. by rewrite (Hseq _ _ E) in Hg. }
      intros k1 k2 g1 g2 E1 E2 A1 A2. rewrite (Honly k1 g1), (Honly k2 g2); done.
    + intros k' g. destruct (decide (k' = k)) as [->|Hne].
      * rewrite lookup_insert_eq. intros [= <-]. by destruct cl.
      * rewrite lookup_insert_ne by done. apply H5.
  - unfold make_step in Ha. destruct (pingers s !! k) as [[]|] eqn:Ek; try done.
    destruct (pingLock s); [done|]. injection Ha as <-.
    apply (sequential_inv_pinger k GStart GMade); try done. split_and!; simpl; try done.
    + intros ch [= <-] Hin. destruct (H2 _ Hin) as [r Er]. congruence.
    + intros k' g E. specialize (H5 k' g E).
      assert (active g = true → k' = k) as Hk by (intros Hg; by eapply H4).
      destruct g; try done; specialize (Hk eq_refl); subst; congruence.
  - unfold ping_sent_step in Ha. destruct (pingers s !! k) as [[]|] eqn:Ek; try done.
    injection Ha as <-. pose proof (H5 _ _ Ek) as Hc. simpl in Hc.
    destruct err; by apply (sequential_inv_pinger k GMade).
  - unfold ping_ctx_step in Ha. destruct (pingers s !! k) as [[]|] eqn:Ek; try done.
    injection Ha as <-. destruct (H5 _ _ Ek) as [_ Hc]. by eapply sequential_inv_pinger.
  - unfold closed_recv_step in Ha. destruct (pingers s !! k) as [[| |[ch|]| | |]|] eqn:Ek; try done.
    destruct (H5 _ _ Ek) as [[= ->] Hc]. rewrite decide_False in Ha by by apply H1. done.
  - unfold ping_leave_step in Ha. destruct (pingers s !! k) as [[| | |r| |]|] eqn:Ek; try done.
    destruct (pingLock s); [done|]. pose proof (H5 _ _ Ek) as Hc. simpl in Hc. rewrite Hc in Ha.
    rewrite decide_False in Ha by by apply H1. injection Ha as <-. split_and!; simpl; [done|..].
    + intros k' Hk'. destruct (decide (k' = k)) as [->|Hne].
      * rewrite lookup_insert_eq. eauto.
      * rewrite lookup_insert_ne by done. apply H2. set_solver.
    + intros k' g. destruct (decide (k' = k)) as [->|Hne].
      * rewrite lookup_insert_eq. by intros [= <-].
      * rewrite lookup_insert_ne by done. apply H3.
    + assert (∀ k' g, <[k := GReturned r]> (pingers s) !! k' = Some g → active g = false) as Hnone.
      { intros k' g. destruct (decide (k' = k)) as [->|Hne].
        - rewrite lookup_insert_eq. by intros [= <-].
        - rewrite lookup_insert_ne by done. intros E. destruct (active g) eqn:Hg; [|done].
          by destruct Hne; eapply H4. }
      intros k1 k2 g1 g2 E1 _ A1. rewrite (Hnone _ _ E1) in A1. done.
    + intros k' g. destruct (decide (k' = k)) as [->|Hne].
      * rewrite lookup_insert_eq. by intros [= <-].
      * rewrite lookup_insert_ne by done. intros E. specialize (H5 k' g E).
        assert (active g = true → k' = k) as Hk by (intros Hg; by eapply H4).
        destruct g; try done; specialize (Hk eq_refl); subst; congruence.
  - destruct (pongers s !! j); [done|]. by injection Ha as <-.
  - unfold pong_lookup_step in Ha. destruct (pongers s !! j) as [[]|]; try done.
    destruct (pingLock s); [done|]. injection Ha as <-. by destruct (pingChan s).
  - unfold pong_deliver_step in Ha. destruct (pongers s !! j) as [[|ch|]|]; try done.
    destruct (pingers s !! k) as [[| |[ch'|]| | |]|] eqn:Ek; try done.
    destruct (decide (ch = ch')) as [<-|]; [|done]. injection Ha as <-.
    destruct (H5 _ _ Ek) as [_ Hc]. by eapply sequential_inv_pinger.
Qed.

(** What is proved of any step holds of both sides. *)
Lemma side_pstep_any {side : PingSide} flag a s s' : side_pstep flag a s = Some s' → any_step s s'.
Proof. intros E. destruct a; by (eexists; exact E). Qed.

(** ** A pong nobody receives *)

(** A goroutine holds the lock to send, and no call is in its select or about to enter it. *)
Definition pong_stuck (s : pstate) : Prop :=
  ∃ j ch, pingLock s = Some j ∧ pongers s !! j = Some (QSending ch) ∧
    map_Forall (λ _ g, match g with GMade | GSelect _ => False | _ => True end) (pingers s) ∧
    map_Forall (λ j' q, match q with QSending _ => j' = j | _ => True end) (pongers s).

Lemma pong_stuck_pinger k g s : pong_stuck s →
  match g with GMade | GSelect _ => False | _ => True end → pong_stuck (set_pinger k g s).
Proof.
  intros (j & ch & Hl & Hq & Hg & Hu) Hk. exists j, ch. split_and!; [done..| |done].
  by apply map_Forall_insert_2.
Qed.

Lemma pong_stuck_step s s' : pong_stuck s → any_step s s' → pong_stuck s' ∧
  ∀ k g, pingers s !! k = Some g → pingers s' !! k = Some g.
Proof.
  intros Hs [a Ha]. assert (Hs' := Hs). destruct Hs' as (j & ch & Hl & Hq & Hg & Hu).
  destruct a as [k cl|k|k err|k err|k|k|j'|j'|j' k]; cbn [pstep] in Ha.
  - destruct (pingers s !! k) eqn:Ek; [done|]. injection Ha as <-.
    split; [apply pong_stuck_pinger; by destruct cl|]. intros k' r E. simpl.
    rewrite lookup_insert_ne by congruence. done.
  - unfold make_step in Ha. rewrite Hl in Ha. by destruct (pingers s !! k) as [[]|].
  - unfold ping_sent_step in Ha. destruct (pingers s !! k) as [[]|] eqn:Ek; try done.
    by destruct (Hg _ _ Ek).
  - unfold ping_ctx_step in Ha. destruct (pingers s !! k) as [[]|] eqn:Ek; try done.
    by destruct (Hg _ _ Ek).
  - unfold closed_recv_step in Ha. destruct (pingers s !! k) as [[]|] eqn:Ek; try done.
    by destruct (Hg _ _ Ek).
  - unfold ping_leave_step in Ha. rewrite Hl in Ha. by destruct (pingers s !! k) as [[]|].
  - destruct (pongers s !! j') eqn:Ej; [done|]. injection Ha as <-. split; [|done].
    exists j, ch. simpl. rewrite lookup_insert_ne by congruence. split_and!; [done..|].
    by apply map_Forall_insert_2.
  - unfold pong_lookup_step in Ha. rewrite Hl in Ha. by destruct (pongers s !! j') as [[]|].
  - unfold pong_deliver_step in Ha. destruct (pongers s !! j') as [[]|]; try done.
    destruct (pingers s !! k) as [[| |[]| | |]|] eqn:Ek; try done. by destruct (Hg _ _ Ek).
Qed.

(** ** Properties of pings *)

(** When calls of [SendPing] never overlap, none panics, and a call in
    its select waits on the channel it made, in every interleaving with received pongs.  But of
    two calls that are both in their deferred functions, the one that leaves second closes a
    nil channel and panics, whatever the state. *)
Theorem ping_panics_overlapping :
  (∀ s, steps sequential_step no_pings s →
     ∀ k g, pingers s !! k = Some g → g ≠ GPanicked ∧ (∀ ch, g = GSelect ch → ch = Some k)) ∧
  (∀ s s1 s2 k1 k2 r2, k1 ≠ k2 → pingers s !! k2 = Some (GLeaving r2) →
     pstep (PLeave k1) s = Some s1 → pstep (PLeave k2) s1 = Some s2 →
     pingers s1 !! k1 = Some GPanicked ∨ pingers s2 !! k2 = Some GPanicked).
Proof.
  split.
  - intros s Hs. pose proof (steps_invariant _ sequential_inv sequential_inv_step _ _
      sequential_inv_initial Hs) as (_ & _ & H3 & _ & H5).
    intros k g E. split; [by eapply H3|]. intros ch ->. by destruct (H5 _ _ E).
  - intros s s1 s2 k1 k2 r2 Hne E2. cbn [pstep]. unfold ping_leave_step.
    destruct (pingers s !! k1) as [[| | |r1| |]|] eqn:E1; try done.
    destruct (pingLock s) eqn:El; [done|]. intros [= <-].
    destruct (pingChan s) as [ch|] eqn:Ec.
    2: { intros _. left. apply lookup_insert_eq. }
    destruct (decide (ch ∈ closedChans s)).
    { intros _. left. apply lookup_insert_eq. }
    simpl. rewrite lookup_insert_ne, E2 by done. intros [= <-]. right. apply lookup_insert_eq.
Qed.

(** Two overlapping calls that both time out. *)
Definition overlapping : list paction :=
  [PCall 0 None; PCall 1 None; PMake 0; PMake 1; PSent 0 None; PSent 1 None; PCtx 0 EDeadline;
   PCtx 1 EDeadline].

Definition overlapped : pstate := default no_pings (run_pings overlapping no_pings).

Lemma ping_panics_overlapping_witness :
  match run_pings [PLeave 0; PLeave 1] overlapped with
  | Some s => pingers s !! 1%nat = Some GPanicked
  | None => False
  end.
Proof.
  destruct (pstep (PLeave 0) overlapped) as [s1|] eqn:E1; [|by vm_compute in E1].
  destruct (pstep (PLeave 1) s1) as [s2|] eqn:E2.
  - unfold run_pings. cbn [fold_left mbind option_bind].
    change (Some overlapped ≫= pstep (PLeave 0)) with (pstep (PLeave 0) overlapped).
    rewrite E1. cbn [mbind option_bind]. rewrite E2.
    destruct (proj2 ping_panics_overlapping overlapped s1 s2 0%nat 1%nat (Err EDeadline))
      as [Hp|Hp]; [done|by vm_compute|done|done| |done].
    exfalso. assert (option_map (λ s, pingers s !! 0%nat) (pstep (PLeave 0) overlapped) =
      Some (Some (GReturned (Err EDeadline)))) as E3 by (vm_compute; reflexivity).
    rewrite E1 in E3. cbn [option_map] in E3. congruence.
  - exfalso. assert (is_Some (pstep (PLeave 0) overlapped ≫= pstep (PLeave 1))) as [x Hx]
      by (vm_compute; by eexists).
    rewrite E1 in Hx. cbn [mbind option_bind] in Hx. congruence.
Defined.

(** When a goroutine that received a PONG took the channel of a call that does
    not overlap with others, and the context of the call ends before the send, the goroutine
    keeps [pingLock] for ever, the call never returns, and no later call can make its
    channel. *)
Theorem late_pong_deadlock s s1 j k err :
  steps sequential_step no_pings s →
  pongers s !! j = Some (QSending k) → pingLock s = Some j →
  (∀ j' ch, pongers s !! j' = Some (QSending ch) → j' = j) →
  (∃ ch, pingers s !! k = Some (GSelect ch)) →
  pstep (PCtx k err) s = Some s1 →
  ∀ s2, steps any_step s1 s2 →
    pingers s2 !! k = Some (GLeaving (Err err)) ∧ is_Some (pingLock s2) ∧
    ∀ k', pstep (PMake k') s2 = None ∧ pstep (PLeave k') s2 = None.
Proof.
  intros Hs Hq Hl Hu [ch Hk] Hctx.
  destruct (steps_invariant _ sequential_inv sequential_inv_step _ _ sequential_inv_initial Hs)
    as (_ & _ & _ & H4 & _).
  cbn [pstep] in Hctx. unfold ping_ctx_step in Hctx. rewrite Hk in Hctx. injection Hctx as <-.
  set (s1 := set_pinger k (GLeaving (Err err)) s).
  assert (pong_stuck s1 ∧ pingers s1 !! k = Some (GLeaving (Err err))) as H1.
  { split; [|apply lookup_insert_eq]. exists j, k. split_and!; [done..| |].
    - intros k' g. simpl. destruct (decide (k' = k)) as [->|Hne].
      + rewrite lookup_insert_eq. by intros [= <-].
      + rewrite lookup_insert_ne by done. intros E. destruct g; try done; by destruct Hne; eapply H4.
    - intros j' q E. destruct q; try done. by eapply Hu. }
  intros s2 Hsteps.
  assert (pong_stuck s2 ∧ pingers s2 !! k = Some (GLeaving (Err err))) as [(j2 & c2 & El & _) E2].
  { refine (steps_invariant any_step (λ x, pong_stuck x ∧ pingers x !! k = Some (GLeaving (Err err)))
      _ _ _ H1 Hsteps).
    intros x y [Hx Ex] Hxy. destruct (pong_stuck_step x y Hx Hxy) as [Hy Hkeep]. auto. }
  split_and!; [done|by eexists|]. intros k'. cbn [pstep]. unfold make_step, ping_leave_step.
  rewrite El. by destruct (pingers s2 !! k') as [[]|].
Qed.

(** One call, one pong that comes too late. *)
Definition late : list paction := [PCall 0 None; PMake 0; PSent 0 None; PPong 0; PLookup 0].

Definition late_state : pstate := default no_pings (run_pings late no_pings).

Lemma late_pong_deadlock_witness :
  match pstep (PCtx 0 EDeadline) late_state with
  | Some s1 => pingers s1 !! 0%nat = Some (GLeaving (Err EDeadline)) ∧ pstep (PLeave 0) s1 = None
  | None => False
  end.
Proof.
  destruct (pstep (PCtx 0 EDeadline) late_state) as [s1|] eqn:E; [|by vm_compute in E].
  destruct (late_pong_deadlock late_state s1 0 0 EDeadline) with (s2 := s1) as (H1 & _ & H2).
  - apply (steps_step _ _ (default no_pings (run_pings [PCall 0 None] no_pings))).
    { exists (PCall 0 None). split; [by vm_compute|]. simpl. apply map_Forall_empty. }
    apply (steps_step _ _ (default no_pings (run_pings [PCall 0 None; PMake 0] no_pings))).
    { exists (PMake 0). split; [by vm_compute|done]. }
    apply (steps_step _ _ (default no_pings (run_pings [PCall 0 None; PMake 0; PSent 0 None] no_pings))).
    { exists (PSent 0 None). split; [by vm_compute|done]. }
    apply (steps_step _ _
      (default no_pings (run_pings [PCall 0 None; PMake 0; PSent 0 None; PPong 0] no_pings))).
    { exists (PPong 0). split; [by vm_compute|done]. }
    apply steps_one. exists (PLookup 0). split; [by vm_compute|done].
  - by vm_compute.
  - by vm_compute.
  - assert (pongers late_state = {[0%nat := QSending 0]}) as -> by (vm_compute; reflexivity).
    by intros j' ch [<- _]%lookup_singleton_Some.
  - exists (Some 0%nat). by vm_compute.
  - exact E.
  - apply steps_refl.
  - split; [exact H1|apply H2].
Defined.
