(* ===== verification/Watchdog.v ===== *)
(** * The watchdog: the keep-alive and its pings (src/internal/keepalive/keepalive.go,
    src/internal/network/conn.go [pinger], src/client/client.go [SendPing], [sendPing])

    A run of the keep-alive calls [SendPing] when nothing was received for an interval, waits for it
    to return and only then arms the next timer.  [SendPing] of [pinger] and of [client] is the call
    of [Ping] under a context with a timeout; when it fails with a timeout the connection is closed.
    The model joins [Retry.KeepAlive] and [Ping]: a run that waits is named by its call.

    The theorems hold for both sides of a connection, instances of [PingSide]. *)
From S2P Require Import Prelude Errors Retry Ping.

Record watchdog := mkWatchdog {
  wd_alive : KeepAlive.KeepAlive;
  wd_pings : pstate;
  wd_blocked : gset nat;      (* the runs inside [SendPing] *)
  wd_timeouts : nat           (* the calls of [CloseCode] or [tryClose] with the timeout *)
}.

Definition New_watchdog (interval now : Z) : watchdog :=
  mkWatchdog (KeepAlive.New interval now) no_pings ∅ 0.

(** Removing and arming timers. *)
Definition without_timer (i : nat) (k : KeepAlive.KeepAlive) : KeepAlive.KeepAlive :=
  KeepAlive.mkKeepAlive (KeepAlive.interval k) (KeepAlive.stoped k) (KeepAlive.lastPacketTime k)
    (KeepAlive.now k) (KeepAlive.pings k) (delete i (KeepAlive.timers k)).

Definition rearm (k : KeepAlive.KeepAlive) : KeepAlive.KeepAlive :=
  KeepAlive.mkKeepAlive (KeepAlive.interval k) (KeepAlive.stoped k) (KeepAlive.lastPacketTime k)
    (KeepAlive.now k) (KeepAlive.pings k) (KeepAlive.now k + KeepAlive.interval k :: KeepAlive.timers k).

Section watchdog.
Context {side : PingSide}.

(** [run] up to the return of [sendPing], or to the call [k] of [SendPing]. *)
Definition run_begin (i k : nat) (flag : bool) (w : watchdog) : option watchdog :=
  due ← KeepAlive.timers (wd_alive w) !! i;
  if due <=? KeepAlive.now (wd_alive w) then
    let a := without_timer i (wd_alive w) in
    if KeepAlive.stoped a then Some (mkWatchdog a (wd_pings w) (wd_blocked w) (wd_timeouts w))
    else if i64 (KeepAlive.now a - KeepAlive.lastPacketTime a) <? KeepAlive.interval a then
      Some (mkWatchdog (rearm a) (wd_pings w) (wd_blocked w) (wd_timeouts w))
    else
      p ← side_pstep flag (PCall k None) (wd_pings w);
      Some (mkWatchdog (KeepAlive.sendPing a) p ({[k]} ∪ wd_blocked w) (wd_timeouts w))
  else None.

(** The call returns: [SendPing] looks at the error, [run] arms its timer. *)
Definition run_end (k : nat) (w : watchdog) : option watchdog :=
  match pingers (wd_pings w) !! k with
  | Some (GReturned r) =>
      if decide (k ∈ wd_blocked w) then
        Some (mkWatchdog (rearm (wd_alive w)) (wd_pings w) (wd_blocked w ∖ {[k]})
                (match r with
                 | Err e => if is_timeout e then S (wd_timeouts w) else wd_timeouts w
                 | _ => wd_timeouts w
                 end))
      else None
  | _ => None
  end.

Inductive wd_action :=
| WBegin (i k : nat) (flag : bool)
| WEnd (k : nat)
| WPing (a : paction)
| WStart
| WStop
| WUpdateTime
| WTick (t : Z).

Definition wd_next (a : wd_action) (w : watchdog) : option watchdog :=
  let keep f := Some (mkWatchdog (f (wd_alive w)) (wd_pings w) (wd_blocked w) (wd_timeouts w)) in
  match a with
  | WBegin i k flag => run_begin i k flag w
  | WEnd k => run_end k w
  | WPing (PCall _ _) => None      (* only the keep-alive calls it *)
  | WPing a => p ← side_pstep false a (wd_pings w); Some (mkWatchdog (wd_alive w) p (wd_blocked w) (wd_timeouts w))
  | WStart => keep KeepAlive.Start
  | WStop => keep KeepAlive.Stop
  | WUpdateTime => keep KeepAlive.UpdateTime
  | WTick t => if 0 <? t then keep (KeepAlive.tick t) else None
  end.

Definition wd_step (w w' : watchdog) : Prop := ∃ a, wd_next a w = Some w'.
Definition wd_step_running (w w' : watchdog) : Prop := ∃ a, a ≠ WStop ∧ wd_next a w = Some w'.

Definition wd_run (acts : list wd_action) (w : watchdog) : option watchdog :=
  fold_left (λ m a, m ≫= wd_next a) acts (Some w).

(** A run whose call returns at once is a run of [KeepAlive]. *)
Lemma run_begin_refused i k flag w w' : is_Some (refusal flag) → run_begin i k flag w = Some w' →
  match KeepAlive.run i (wd_alive w) with
  | Some a => wd_alive w' = a ∨ ∃ w2, run_end k w' = Some w2 ∧ wd_alive w2 = a
  | None => False
  end.
Proof.
  intros [e Er]. unfold run_begin, KeepAlive.run, without_timer, KeepAlive.sendPing.
  destruct (KeepAlive.timers (wd_alive w) !! i) as [due|]; [|done]. cbn [mbind option_bind].
  destruct (due <=? KeepAlive.now (wd_alive w)); [|done].
  cbn [KeepAlive.stoped KeepAlive.now KeepAlive.lastPacketTime KeepAlive.interval KeepAlive.pings KeepAlive.timers].
  destruct (KeepAlive.stoped (wd_alive w)) eqn:Es; [intros [= <-]; by left|].
  destruct (i64 _ <? _) eqn:El; [intros [= <-]; by left|].
  cbn [side_pstep pstep]. destruct (pingers (wd_pings w) !! k); [done|]. rewrite Er. cbn [mbind option_bind]. intros [= <-].
  right. unfold run_end. cbn [wd_pings pingers set_pinger wd_blocked wd_alive].
  rewrite lookup_insert_eq, decide_True by set_solver. by eexists.
Qed.

(** ** One chain *)

(** Until it is stopped a keep-alive has one timer or one run that waits. *)
Definition one_run (w : watchdog) : Prop :=
  (∀ k, k ∈ wd_blocked w → is_Some (pingers (wd_pings w) !! k)) ∧
  (length (KeepAlive.timers (wd_alive w)) + size (wd_blocked w))%nat =
    if KeepAlive.stoped (wd_alive w) then 0%nat else 1%nat.

Lemma pstep_dom s s' k : any_step s s' → is_Some (pingers s !! k) → is_Some (pingers s' !! k).
Proof.
  intros [a Ha] Hk. assert (∀ k' g s0, pingers s0 = pingers s → is_Some (pingers (set_pinger k' g s0) !! k)) as Hset.
  { intros k' g s0 E. simpl. rewrite E. destruct (decide (k = k')) as [->|?];
      [rewrite lookup_insert_eq; by eexists|by rewrite lookup_insert_ne]. }
  destruct a; cbn [pstep] in Ha;
    unfold make_step, ping_sent_step, ping_ctx_step, closed_recv_step, ping_leave_step, pong_lookup_step,
      pong_deliver_step in Ha; repeat case_match; simplify_eq; first [by apply Hset|done].
Qed.

Lemma sendPing_alive a : KeepAlive.timers (KeepAlive.sendPing a) = KeepAlive.timers a ∧
  KeepAlive.stoped (KeepAlive.sendPing a) = KeepAlive.stoped a.
Proof. destruct (KeepAlive.sendPing_fields a) as (? & ? & _). by split. Qed.

Lemma one_run_step w w' : one_run w → wd_step_running w w' → one_run w'.
Proof.
  intros [Hd Hn] (a & Ha & E). destruct a as [i k flag|k|a| | | |t]; cbn [wd_next] in E; [| | | |done| |].
  - unfold run_begin in E. destruct (KeepAlive.timers (wd_alive w) !! i) as [due|] eqn:Et; [|done].
    cbn [mbind option_bind] in E. destruct (due <=? _); [|done].
    apply lookup_lt_Some in Et as Hlt. pose proof (length_delete (KeepAlive.timers (wd_alive w)) i ltac:(eauto)) as Hl.
    cbn [without_timer KeepAlive.stoped] in E. destruct (KeepAlive.stoped (wd_alive w)) eqn:Es; [lia|].
    destruct (i64 _ <? _).
    + injection E as <-. split; [done|]. unfold rearm, without_timer. cbn. rewrite Es, Hl. lia.
    + destruct (side_pstep _ _ _) as [p|] eqn:Ep; [|done]. injection E as <-. split.
      * intros k'. cbn [wd_blocked wd_pings]. rewrite elem_of_union, elem_of_singleton. intros [->|Hk].
        -- cbn [side_pstep pstep] in Ep. destruct (pingers (wd_pings w) !! k); [done|]. injection Ep as <-. simpl.
           rewrite lookup_insert_eq. by eexists.
        -- eapply pstep_dom; [by eapply side_pstep_any|by apply Hd].
      * cbn [wd_alive wd_blocked]. destruct (sendPing_alive (without_timer i (wd_alive w))) as [-> ->].
        unfold without_timer. cbn [KeepAlive.timers KeepAlive.stoped]. rewrite Es, size_union, size_singleton, Hl; [lia|].
        apply disjoint_singleton_l. intros Hk. apply Hd in Hk as [g Hg]. cbn [side_pstep pstep] in Ep. by rewrite Hg in Ep.
  - unfold run_end in E. destruct (pingers (wd_pings w) !! k) as [[| | | |r|]|]; try done.
    destruct (decide (k ∈ wd_blocked w)) as [Hk|]; [|done]. injection E as <-. split.
    + intros k' [Hk' _]%elem_of_difference. by apply Hd.
    + cbn. rewrite size_difference, size_singleton by set_solver.
      assert (size (wd_blocked w) ≠ 0%nat) by (intros Hz%size_empty_inv; set_solver).
      destruct (KeepAlive.stoped (wd_alive w)); lia.
  - assert (∃ p, any_step (wd_pings w) p ∧ w' = mkWatchdog (wd_alive w) p (wd_blocked w) (wd_timeouts w)) as (p & Ep & ->).
    { destruct a; try done; (destruct (side_pstep _ _ _) as [p|] eqn:Ep; [|done]); injection E as <-;
        (exists p; split; [by eapply side_pstep_any|done]). }
    split; [|done]. intros k Hk. eapply pstep_dom; [done|by apply Hd].
  - injection E as <-. split; [done|]. unfold KeepAlive.Start. cbn [wd_alive wd_blocked].
    destruct (KeepAlive.stoped (wd_alive w)) eqn:Es; cbn; [lia|by rewrite Es].
  - by injection E as <-.
  - destruct (0 <? t); [|done]. by injection E as <-.
Qed.

(** ** The watchdog dies *)

(** A pong that came too late holds the lock; no run that waits can report a timeout. *)
Definition dead (w : watchdog) : Prop :=
  pong_stuck (wd_pings w) ∧
  ∀ k, k ∈ wd_blocked w → ∃ g, pingers (wd_pings w) !! k = Some g ∧
    match g with GReturned (Err e) => is_timeout e = false | _ => True end.

Lemma dead_step w w' : dead w → wd_step w w' →
  dead w' ∧ wd_timeouts w' = wd_timeouts w.
Proof.
  intros [Hs Hb] (a & E). destruct a as [i k flag|k|a| | | |t]; cbn [wd_next] in E.
  - unfold run_begin in E. destruct (KeepAlive.timers (wd_alive w) !! i) as [due|]; [|done].
    cbn [mbind option_bind] in E. destruct (due <=? _); [|done].
    destruct (KeepAlive.stoped _); [by injection E as <-|]. destruct (i64 _ <? _); [by injection E as <-|].
    destruct (side_pstep _ _ _) as [p|] eqn:Ep; [|done]. injection E as <-.
    destruct (pong_stuck_step (wd_pings w) p Hs ltac:(first [done|by eapply side_pstep_any])) as [Hs' Hk].
    split; [split|done]; [done|]. cbn [wd_blocked wd_pings]. intros k'. rewrite elem_of_union, elem_of_singleton.
    intros [->|Hin].
    + cbn [side_pstep pstep] in Ep. destruct (pingers (wd_pings w) !! k); [done|]. injection Ep as <-. simpl.
      rewrite lookup_insert_eq. eexists. split; [done|].
      destruct (refusal flag) as [e|] eqn:Er; [by eapply refusal_plain|done].
    + destruct (Hb k' Hin) as (g & Eg & Hg). exists g. split; [by apply Hk|done].
  - unfold run_end in E. destruct (pingers (wd_pings w) !! k) as [[| | | |r|]|] eqn:Ek; try done.
    destruct (decide (k ∈ wd_blocked w)) as [Hin|]; [|done]. injection E as <-.
    destruct (Hb k Hin) as (g & Eg & Hg). rewrite Ek in Eg. injection Eg as <-. split; [split|]; [done| |].
    + intros k' [Hk' _]%elem_of_difference. by apply Hb.
    + cbn. destruct r as [|e|]; [done|by rewrite Hg|done].
  - assert (∃ p, any_step (wd_pings w) p ∧ w' = mkWatchdog (wd_alive w) p (wd_blocked w) (wd_timeouts w)) as (p & Ep & ->).
    { destruct a; try done; (destruct (side_pstep _ _ _) as [p|] eqn:Ep; [|done]); injection E as <-;
        (exists p; split; [by eapply side_pstep_any|done]). }
    destruct (pong_stuck_step (wd_pings w) p Hs ltac:(first [done|by eapply side_pstep_any])) as [Hs' Hk]. split; [split|done]; [done|].
    intros k' Hin. destruct (Hb k' Hin) as (g & Eg & Hg). exists g. split; [by apply Hk|done].
  - by injection E as <-.
  - by injection E as <-.
  - by injection E as <-.
  - destruct (0 <? t); [|done]. by injection E as <-.
Qed.

Lemma wd_run_steps acts w w' : WStop ∉ acts → wd_run acts w = Some w' → steps wd_step_running w w'.
Proof.
  unfold wd_run. revert w. induction acts as [|a acts IH]; intros w Hno; cbn [fold_left]; [intros [= ->]; apply steps_refl|].
  apply not_elem_of_cons in Hno as [Ha Hno].
  change (Some w ≫= wd_next a) with (wd_next a w). destruct (wd_next a w) as [w1|] eqn:E.
  - intros H. apply (steps_step _ _ w1); [by exists a|by apply IH].
  - intros H. exfalso. revert H. clear. induction acts; [done|]. simpl. done.
Qed.
End watchdog.

(** ** Properties of the watchdog *)

(** The chains of timers: those pending and the runs that wait for their pong. *)
Definition chains (w : watchdog) : nat := length (KeepAlive.timers (wd_alive w)) + size (wd_blocked w).

(** C31 (watchdog): as long as [Stop] is not called, a keep-alive that was started has one timer or one
    run waiting for its pong; a [Stop] followed by a [Start], as on every reconnection of a client,
    adds another chain of timers to those there are.  But when a PONG is taken before the ping's context ends and sent after it, the run
    that waits never arms its timer again: whatever happens later, the keep-alive being stopped
    and started again included, no ping is about to be sent or waits for a pong, and no timeout
    is ever reported, so a connection that goes silent is never closed for it.  Such a state is
    reached with one ping. *)
Theorem watchdog_dies {side : PingSide} interval now0 :
  (∀ w, steps wd_step_running (New_watchdog interval now0) w →
     chains w = if KeepAlive.stoped (wd_alive w) then 0%nat else 1%nat) ∧
  (∀ w, KeepAlive.stoped (wd_alive w) = false →
     ∃ w', wd_run [WStop; WStart] w = Some w' ∧ chains w' = S (chains w)) ∧
  ((∃ flag, refusal flag = None) → 0 < interval < 2 ^ 63 → ∃ w, steps wd_step_running (New_watchdog interval now0) w ∧
     dead w ∧ KeepAlive.timers (wd_alive w) = []) ∧
  (∀ w w', dead w → steps wd_step w w' →
     wd_timeouts w' = wd_timeouts w ∧
     map_Forall (λ _ g, match g with GMade | GSelect _ => False | _ => True end) (pingers (wd_pings w'))).
Proof.
  split_and!.
  - intros w Hw. assert (one_run w) as [_ ?]; [|done].
    refine (steps_invariant _ one_run one_run_step _ _ _ Hw). split; [done|].
    cbn. by rewrite size_empty.
  - intros w _. by eexists.
  - intros [flag Hr] Hi. eexists. split.
    + apply (wd_run_steps [WStart; WTick interval; WBegin 0 0 flag; WPing (PMake 0); WPing (PSent 0 None);
        WPing (PPong 0); WPing (PLookup 0); WPing (PCtx 0 EDeadline)]).
      { rewrite !not_elem_of_cons. split_and!; try done. by intros ?%elem_of_nil. }
      unfold wd_run. cbn [fold_left mbind option_bind wd_next New_watchdog wd_alive].
      destruct (Z.ltb_spec 0 interval) as [_|]; [|lia]. cbn. rewrite (proj2 (Z.leb_le now0 (now0 + interval))) by lia.
      unfold KeepAlive.sendPing. cbn.
      replace (now0 + interval - now0) with interval by lia. rewrite wrapS_id by (unfold inS; lia).
      rewrite Z.ltb_irrefl, Hr. cbn. reflexivity.
    + split; [|done]. split.
      * exists 0%nat, 0%nat. cbn. split_and!; [done|done| |].
        -- rewrite !insert_insert_eq. by apply map_Forall_insert_2.
        -- rewrite !insert_insert_eq. by apply map_Forall_insert_2.
      * intros k. cbn. intros Hk. assert (k = 0%nat) as -> by set_solver. by eexists.
  - intros w w' Hd Hsteps. assert (dead w' ∧ wd_timeouts w' = wd_timeouts w) as [[(j & ch & _ & _ & Hg & _) _] Ht]; [|done].
    refine (steps_invariant _ (λ x, dead x ∧ wd_timeouts x = wd_timeouts w) _ _ _ _ Hsteps); [|done].
    intros x y [Hx Ex] Hxy. destruct (dead_step x y Hx Hxy) as [? ?]. split; [done|congruence].
Qed.

Lemma watchdog_dies_witness :
  (∃ w, steps (wd_step_running (side := conn_side)) (New_watchdog 15 0) w ∧ dead w ∧ KeepAlive.timers (wd_alive w) = []) ∧
  ∃ w, steps (wd_step_running (side := client_side)) (New_watchdog 15 0) w ∧ dead w ∧ KeepAlive.timers (wd_alive w) = [].
Proof.
  split.
  - apply (watchdog_dies (side := conn_side) 15 0); [by exists false|lia].
  - apply (watchdog_dies (side := client_side) 15 0); [by exists true|lia].
Defined.

(** A healthy watchdog closes a connection that goes silent: when its timer is due after an interval
    without a packet and no PONG comes before the context of the ping ends, the timeout is
    reported, and the next timer armed. *)
Theorem silence_closes {side : PingSide} w due k flag : refusal flag = None →
  KeepAlive.stoped (wd_alive w) = false → KeepAlive.timers (wd_alive w) = [due] →
  due <= KeepAlive.now (wd_alive w) →
  KeepAlive.interval (wd_alive w) <= i64 (KeepAlive.now (wd_alive w) - KeepAlive.lastPacketTime (wd_alive w)) →
  pingLock (wd_pings w) = None → pingers (wd_pings w) !! k = None → k ∉ closedChans (wd_pings w) →
  ∃ w', wd_run [WBegin 0 k flag; WPing (PMake k); WPing (PSent k None); WPing (PCtx k EDeadline);
                          WPing (PLeave k); WEnd k] w = Some w' ∧
    wd_timeouts w' = S (wd_timeouts w) ∧
    KeepAlive.timers (wd_alive w') = [KeepAlive.now (wd_alive w) + KeepAlive.interval (wd_alive w)].
Proof.
  intros Hr Hs Ht Hdue Hsil Hl Hk Hc. unfold wd_run. cbn [fold_left mbind option_bind wd_next].
  unfold run_begin, without_timer, KeepAlive.sendPing. rewrite Ht. cbn.
  rewrite (proj2 (Z.leb_le _ _) Hdue), Hs. destruct (Z.ltb_spec (i64 (KeepAlive.now (wd_alive w) -
    KeepAlive.lastPacketTime (wd_alive w))) (KeepAlive.interval (wd_alive w))) as [|_]; [lia|].
  rewrite Hk, Hr. cbn. unfold make_step. cbn. rewrite lookup_insert_eq, Hl. cbn.
  unfold ping_sent_step. cbn. rewrite lookup_insert_eq. cbn. unfold ping_ctx_step. cbn. rewrite lookup_insert_eq. cbn.
  unfold ping_leave_step. cbn. rewrite lookup_insert_eq, decide_False by done. cbn.
  unfold run_end. cbn. rewrite lookup_insert_eq, decide_True by set_solver. by eexists.
Qed.
