(* ===== verification/Client.v ===== *)
(** * The client (src/client: client.go, status.go, conn.go)

    A client connects, keeps itself alive and reconnects after failures.  Its methods run in
    many goroutines: the calls of [Connect], the bodies of the [time.AfterFunc] timers, the
    [recv] loops, one goroutine per received packet, the runner of the send queue, [SendPing].
    The model is a transition system over the client together with these goroutines; a step
    holds [statusLock] where the code does, and the network operations of [reconnect] are
    steps of their own.  The network connection is the interface [Conn] of conn.go, a type
    class; its TCP implementation over a socket is an instance.  Requests and pings in flight
    ([requestTasks], [pingChan]) are in [Requests] and [Ping]; here the timer of the keep-alive is
    armed when a ping is sent, [Watchdog] has the run that waits for its pong.  The logger is left
    out. *)
From S2P Require Import Prelude Errors Coder Packet Stream Queue Retry.

(** ** [Status] *)
Inductive Status := StatusUnknown | StatusClosed | StatusOpened | StatusOpening | StatusClosing.

#[export] Instance Status_eq_dec : EqDecision Status.
Proof. solve_decision. Defined.

Definition Status_string (s : Status) : string :=
  match s with
  | StatusUnknown => "Unknown"
  | StatusClosed => "Closed"
  | StatusOpened => "Opened"
  | StatusOpening => "Opening"
  | StatusClosing => "Closing"
  end.

(** ** [Conn] *)
Class Conn (C : Type) := {
  Dail : C → outcome error unit * C;
  conn_Close : C → outcome error unit * C;
  ReadPacket : C → outcome error Packet * C;
  WritePacket : Packet → C → outcome error unit * C
}.

(** ** The TCP connection

    [Net] is the package net: the result of the next [net.DialTCP] is an oracle of the
    connection, a socket is what will be read from it and what was written to it. *)
Record socket := mkSocket { incoming : reader; outgoing : bytes; werror : option error }.

Record tcpConn := mkTcp {
  tcp_conn : option socket;
  dials : list (outcome error socket)   (* results of the dials to come; then they fail *)
}.

Definition ErrDial : error := EOther "dial tcp: connection refused".

(** [tcpConn.Dail]: the previous socket is closed first. *)
Definition tcp_Dail (c : tcpConn) : outcome error unit * tcpConn :=
  match dials c with
  | [] => (Err ErrDial, mkTcp None [])
  | Ok s :: ds => (Ok tt, mkTcp (Some s) ds)
  | Err e :: ds => (Err e, mkTcp None ds)
  | Panic w :: ds => (Panic w, mkTcp None ds)
  end.

Definition tcp_Close (c : tcpConn) : outcome error unit * tcpConn :=
  (Ok tt, mkTcp None (dials c)).

(** What a method of [net.TCPConn] does on a nil pointer, when there is no socket. *)
Class NilSocket := { nil_socket : error + go_panic }.

Definition nil_result {A} `{NilSocket} : outcome error A :=
  match nil_socket with inl e => Err e | inr w => Panic w end.

Section tcp.
Context `{!GoRange uint8, !NilSocket}.

Definition tcp_ReadPacket (c : tcpConn) : outcome error Packet * tcpConn :=
  match tcp_conn c with
  | None => (nil_result, c)
  | Some s =>
      let '(r, incoming) := packet_ReadFrom (incoming s) in
      (r, mkTcp (Some (mkSocket incoming (outgoing s) (werror s))) (dials c))
  end.

Definition tcp_WritePacket (p : Packet) (c : tcpConn) : outcome error unit * tcpConn :=
  match tcp_conn c with
  | None => (nil_result, c)
  | Some s =>
      match fst (packet_WriteTo 0 [] (werror s) (outgoing s) p) with
      | Ok sent => (Ok tt, mkTcp (Some (mkSocket (incoming s) sent (werror s))) (dials c))
      | Err e => (Err e, c)
      | Panic w => (Panic w, c)
      end
  end.

#[export] Instance tcp_Conn : Conn tcpConn := {|
  Dail := tcp_Dail; conn_Close := tcp_Close;
  ReadPacket := tcp_ReadPacket; WritePacket := tcp_WritePacket |}.
End tcp.

(** ** The callbacks ([Handler]; [OnStatus] is recorded) *)
Record Handler := mkHandler {
  OnMessage : Message → option error;
  OnRequest : Request → outcome error bytes
}.

Definition emptyHandler : Handler := mkHandler (λ _, None) (λ _, Ok []).

(** ** The client *)

(** Where a call of [Connect] or the body of a timer is in [reconnect]: before
    [_setStatus(StatusOpening)] (only [Connect]), [Dail], [WritePacket], [ReadPacket],
    [setStatus(StatusOpened)]. *)
Inductive progress := AtOpening | AtDial | AtWrite | AtRead | AtOpened.

Record attempt := mkAttempt { by_timer : bool; at_ : progress }.

Section client.
Context {C B : Type} `{HC : Conn C} `{HB : Backoff B}.

(** The fields of the struct, then the goroutines: running [recv] loops, calls of [SendPing]
    waiting for their pong, received packets to be handled, calls of [sendPacket] about to push, pending timers (their delays), calls of
    [reconnect], calls of [tryClose] about to take the lock, the one of the queue's runner;
    the delays granted so far and the calls of [OnStatus]. *)
Record client := mkClient {
  cl_id : option Identity;
  cl_conn : C;
  cl_closed : bool;
  cl_status : Status;
  cl_retrier : option (Retrier B);
  cl_retrying : bool;
  cl_queue : @Queue Packet;
  cl_keepalive : KeepAlive.KeepAlive;
  receivers : nat;
  pinging : nat;
  inbox : list Packet;
  sending : list (bool * Packet);
  timers : list Z;
  attempts : list attempt;
  closings : list error;
  write_failed : option error;
  delays : list Z;
  changes : list Status
}.

Definition with_conn (x : C) (c : client) : client :=
  mkClient (cl_id c) x (cl_closed c) (cl_status c) (cl_retrier c) (cl_retrying c) (cl_queue c)
    (cl_keepalive c) (receivers c) (pinging c) (inbox c) (sending c) (timers c) (attempts c) (closings c)
    (write_failed c) (delays c) (changes c).
Definition with_closed (x : bool) (c : client) : client :=
  mkClient (cl_id c) (cl_conn c) x (cl_status c) (cl_retrier c) (cl_retrying c) (cl_queue c)
    (cl_keepalive c) (receivers c) (pinging c) (inbox c) (sending c) (timers c) (attempts c) (closings c)
    (write_failed c) (delays c) (changes c).
Definition with_status (x : Status) (c : client) : client :=
  mkClient (cl_id c) (cl_conn c) (cl_closed c) x (cl_retrier c) (cl_retrying c) (cl_queue c)
    (cl_keepalive c) (receivers c) (pinging c) (inbox c) (sending c) (timers c) (attempts c) (closings c)
    (write_failed c) (delays c) (changes c ++ [x]).
Definition with_retrier (x : option (Retrier B)) (r : bool) (c : client) : client :=
  mkClient (cl_id c) (cl_conn c) (cl_closed c) (cl_status c) x r (cl_queue c)
    (cl_keepalive c) (receivers c) (pinging c) (inbox c) (sending c) (timers c) (attempts c) (closings c)
    (write_failed c) (delays c) (changes c).
Definition with_queue (x : @Queue Packet) (c : client) : client :=
  mkClient (cl_id c) (cl_conn c) (cl_closed c) (cl_status c) (cl_retrier c) (cl_retrying c) x
    (cl_keepalive c) (receivers c) (pinging c) (inbox c) (sending c) (timers c) (attempts c) (closings c)
    (write_failed c) (delays c) (changes c).
Definition with_keepalive (x : KeepAlive.KeepAlive) (c : client) : client :=
  mkClient (cl_id c) (cl_conn c) (cl_closed c) (cl_status c) (cl_retrier c) (cl_retrying c)
    (cl_queue c) x (receivers c) (pinging c) (inbox c) (sending c) (timers c) (attempts c) (closings c)
    (write_failed c) (delays c) (changes c).
Definition with_recv (n : nat) (x : list Packet) (c : client) : client :=
  mkClient (cl_id c) (cl_conn c) (cl_closed c) (cl_status c) (cl_retrier c) (cl_retrying c)
    (cl_queue c) (cl_keepalive c) n (pinging c) x (sending c) (timers c) (attempts c) (closings c)
    (write_failed c) (delays c) (changes c).
Definition with_pinging (x : nat) (c : client) : client :=
  mkClient (cl_id c) (cl_conn c) (cl_closed c) (cl_status c) (cl_retrier c) (cl_retrying c)
    (cl_queue c) (cl_keepalive c) (receivers c) x (inbox c) (sending c) (timers c) (attempts c)
    (closings c) (write_failed c) (delays c) (changes c).
Definition with_sending (x : list (bool * Packet)) (c : client) : client :=
  mkClient (cl_id c) (cl_conn c) (cl_closed c) (cl_status c) (cl_retrier c) (cl_retrying c)
    (cl_queue c) (cl_keepalive c) (receivers c) (pinging c) (inbox c) x (timers c) (attempts c) (closings c)
    (write_failed c) (delays c) (changes c).
Definition with_timers (x : list Z) (d : list Z) (c : client) : client :=
  mkClient (cl_id c) (cl_conn c) (cl_closed c) (cl_status c) (cl_retrier c) (cl_retrying c)
    (cl_queue c) (cl_keepalive c) (receivers c) (pinging c) (inbox c) (sending c) x (attempts c) (closings c)
    (write_failed c) d (changes c).
Definition with_attempts (x : list attempt) (c : client) : client :=
  mkClient (cl_id c) (cl_conn c) (cl_closed c) (cl_status c) (cl_retrier c) (cl_retrying c)
    (cl_queue c) (cl_keepalive c) (receivers c) (pinging c) (inbox c) (sending c) (timers c) x (closings c)
    (write_failed c) (delays c) (changes c).
Definition with_closings (x : list error) (w : option error) (c : client) : client :=
  mkClient (cl_id c) (cl_conn c) (cl_closed c) (cl_status c) (cl_retrier c) (cl_retrying c)
    (cl_queue c) (cl_keepalive c) (receivers c) (pinging c) (inbox c) (sending c) (timers c) (attempts c) x
    w (delays c) (changes c).

(** [client.New], once the endpoint is parsed and the options are applied (see [Options]). *)
Definition NewClient (id : option Identity) (conn : C) (retrier : option (Retrier B))
    (pingInterval capacity now : Z) : outcome error client :=
  q <~ Queue.New capacity;
  Ok (mkClient id conn false StatusUnknown retrier false q (KeepAlive.New pingInterval now)
        0 0 [] [] [] [] [] None [] []).

Definition IsReady (c : client) : bool := bool_decide (cl_status c = StatusOpened).

(** [_setStatus]; [OnStatus] is called in a goroutine of its own. *)
Definition setStatus (status : Status) (c : client) : outcome error client :=
  if decide (cl_status c = status) then Ok c
  else
    let c := with_status status c in
    match status with
    | StatusClosed =>
        let '(r, conn) := conn_Close (cl_conn c) in
        match r with
        | Panic w => Panic w
        | _ => Ok (with_keepalive (KeepAlive.Stop (cl_keepalive c)) (with_conn conn c))
        end
    | StatusOpening | StatusClosing =>
        Ok (with_keepalive (KeepAlive.Stop (cl_keepalive c)) c)
    | StatusOpened =>
        Ok (with_recv (S (receivers c)) (inbox c)
              (with_keepalive (KeepAlive.Start (cl_keepalive c)) c))
    | StatusUnknown => Ok c
    end.

(** [tryClose], holding [statusLock]. *)
Definition tryClose (err : error) (c : client) : outcome error client :=
  if cl_retrying c then Ok c
  else if decide (cl_id c = None) then Ok c
  else if decide (cl_status c = StatusClosed ∨ cl_status c = StatusClosing) then Ok c
  else if decide (err = EReason CloseReasonNormal) then setStatus StatusClosed c
  else match cl_retrier c with
       | None => setStatus StatusClosed c
       | Some r =>
           match Retry err r with
           | ((_, false), r) => setStatus StatusClosed (with_retrier (Some r) false c)
           | ((delay, true), r) =>
               c <~ setStatus StatusOpening (with_retrier (Some r) true c);
               Ok (with_timers (timers c ++ [delay]) (delays c ++ [delay]) c)
           end
       end.

(** A call of [Connect] that passes the check of the status. *)
Definition client_Connect (c : client) : client :=
  match cl_status c with
  | StatusOpened | StatusOpening => c
  | _ => with_attempts (attempts c ++ [mkAttempt false AtOpening]) c
  end.

(** A failed [reconnect]: what [Connect] and the timer do before [tryClose(err)]. *)
Definition attempt_fail (i : nat) (a : attempt) (err : error) (c : client)
  : outcome error client :=
  let c := with_attempts (delete i (attempts c)) c in
  if by_timer a then Ok (with_closings (closings c ++ [err]) (write_failed c)
                           (with_retrier (cl_retrier c) false c))
  else match cl_retrier c with
       | None => Panic NilDereference
       | Some r => Ok (with_closings (closings c ++ [err]) (write_failed c)
                         (with_retrier (Some (Reset r)) false c))
       end.

(** The [i]-th call goes on to [p]. *)
Definition advance (i : nat) (a : attempt) (p : progress) (c : client) : client :=
  with_attempts (<[i := mkAttempt (by_timer a) p]> (attempts c)) c.

(** What [reconnect] makes of the first packet. *)
Definition check_ack (p : Packet) : option error :=
  match p with
  | PConnack ack =>
      if decide (connack_Code ack = ConnectAccepted) then None else Some (EConnect (connack_Code ack))
  | PClose cl => Some (EClose (close_Code cl))
  | _ => Some (EClient ErrConnectionFailed)
  end.

Definition attempt_step (i : nat) (c : client) : option (outcome error client) :=
  a ← attempts c !! i;
  Some (match at_ a with
    | AtOpening => c <~ setStatus StatusOpening c; Ok (advance i a AtDial c)
    | AtDial =>
        let '(r, conn) := Dail (cl_conn c) in
        match r with
        | Ok _ => Ok (advance i a AtWrite (with_conn conn c))
        | Err e => attempt_fail i a e (with_conn conn c)
        | Panic w => Panic w
        end
    | AtWrite =>
        let '(r, conn) := WritePacket (PConnect (NewConnect (cl_id c))) (cl_conn c) in
        match r with
        | Ok _ => Ok (advance i a AtRead (with_conn conn c))
        | Err e => attempt_fail i a e (with_conn conn c)
        | Panic w => Panic w
        end
    | AtRead =>
        let '(r, conn) := ReadPacket (cl_conn c) in
        match r with
        | Ok p =>
            match check_ack p with
            | None => Ok (advance i a AtOpened (with_conn conn c))
            | Some e => attempt_fail i a e (with_conn conn c)
            end
        | Err e => attempt_fail i a e (with_conn conn c)
        | Panic w => Panic w
        end
    | AtOpened => setStatus StatusOpened (with_attempts (delete i (attempts c)) c)
    end).

(** The [i]-th timer of [tryClose] fires. *)
Definition timer_fire (i : nat) (c : client) : option client :=
  _ ← timers c !! i;
  let c := with_timers (delete i (timers c)) (delays c) c in
  Some (if decide (cl_status c = StatusOpening)
        then with_attempts (attempts c ++ [mkAttempt true AtDial]) c
        else c).

(** The next call of [tryClose]. *)
Definition closing_step (i : nat) (c : client) : option (outcome error client) :=
  err ← closings c !! i;
  Some (tryClose err (with_closings (delete i (closings c)) (write_failed c) c)).

(** [sendPacket] by a goroutine of the client up to the push, and the push itself. *)
Definition sendPacket (jump : bool) (p : Packet) (c : client) : client :=
  if IsReady c then with_sending (sending c ++ [(jump, p)]) c else c.

Definition client_push_step (i : nat) (c : client) : option client :=
  '(jump, p) ← sending c !! i;
  '(_, q) ← Push_now None jump p (cl_queue c);
  Some (with_queue q (with_sending (delete i (sending c)) c)).

(** [SendMessage] by the user of the client. *)
Definition client_SendMessage (ctx : option error) (m : Message) (c : client)
  : option (outcome error unit * client) :=
  if IsReady c then
    '(r, q) ← Push_now ctx false (PMessage m) (cl_queue c); Some (r, with_queue q c)
  else Some (Err (EClient ErrConnectionNotReady), c).

(** The runner of the send queue; executing a task writes the packet, if the client is still
    ready, and calls [tryClose] when that fails. *)
Definition runner_step (tasks : bool) (c : client) : option (outcome error client) :=
  match write_failed c, runner (cl_queue c) with
  | Some err, RTask jump p =>
      Some (c <~ tryClose err (with_closings (closings c) None c);
            Ok (with_queue (finish_task jump p (cl_queue c)) c))
  | None, RTask jump p =>
      if IsReady c then
        let '(r, conn) := WritePacket p (cl_conn c) in
        match r with
        | Ok _ =>
            Some (Ok (with_queue (finish_task jump p (cl_queue c))
              (with_keepalive (KeepAlive.UpdateTime (cl_keepalive c)) (with_conn conn c))))
        | Err e => Some (Ok (with_closings (closings c) (Some e) (with_conn conn c)))
        | Panic w => Some (Panic w)
        end
      else Some (Ok (with_queue (finish_task jump p (cl_queue c)) c))
  | _, _ =>
      q ← qstep (if tasks then ARunTasks else ARun) (cl_queue c);
      Some (Ok (with_queue q c))
  end.

(** A [recv] loop reads. *)
Definition recv_step (c : client) : option (outcome error client) :=
  match receivers c with
  | O => None
  | S n =>
      let '(r, conn) := ReadPacket (cl_conn c) in
      match r with
      | Ok p => Some (Ok (with_recv (S n) (inbox c ++ [p]) (with_conn conn c)))
      | Err e => Some (Ok (with_closings (closings c ++ [e]) (write_failed c)
                             (with_recv n (inbox c) (with_conn conn c))))
      | Panic w => Some (Panic w)
      end
  end.

(** The response [handlePacket] sends to a request. *)
Definition response_to (h : Handler) (p : Request) : outcome error Response :=
  match OnRequest h p with
  | Ok body => Ok (Request_Response p StatusOK (Some body))
  | Err rerr =>
      let code := match rerr with EStatus code => code | _ => StatusBadRequest end in
      Ok (Request_Response p code None)
  | Panic w => Panic w
  end.

(** [handlePacket] for the [i]-th received packet. *)
Definition handlePacket (h : Handler) (i : nat) (c : client) : option (outcome error client) :=
  p ← inbox c !! i;
  let c := with_recv (receivers c) (delete i (inbox c)) c in
  let c := with_keepalive (KeepAlive.UpdateTime (cl_keepalive c)) c in
  Some (match p with
    | PMessage m => let _ := OnMessage h m in Ok c
    | PRequest p => res <~ response_to h p; Ok (sendPacket false (PResponse res) c)
    | PPing _ => Ok (sendPacket true (PPong NewPong) c)
    | PClose cl => Ok (with_closings (closings c ++ [EClose (close_Code cl)]) (write_failed c) c)
    | _ => Ok c
    end).

(** [Close]. *)
Definition client_Close (c : client) : outcome error client :=
  if cl_closed c then Ok c
  else
    let c := with_closed true c in
    let c := with_keepalive (KeepAlive.Stop (cl_keepalive c)) c in
    let c := with_queue (Close_now (cl_queue c)) c in
    let '(r, conn) := conn_Close (cl_conn c) in
    match r with
    | Panic w => Panic w
    | _ => Ok (with_conn conn c)
    end.

(** The keep-alive's [i]-th timer fires: a call of [SendPing] waits for its pong if the client
    is ready, and fails at once otherwise. *)
Definition keepalive_step (i : nat) (c : client) : option client :=
  k ← KeepAlive.run i (cl_keepalive c);
  let sent := bool_decide (KeepAlive.pings k ≠ KeepAlive.pings (cl_keepalive c)) in
  Some (with_keepalive k (if sent && IsReady c then with_pinging (S (pinging c)) c else c)).

(** A waiting [SendPing] returns: when it failed with a timeout, [tryClose] is called. *)
Definition ping_done (result : option error) (c : client) : option client :=
  match pinging c with
  | O => None
  | S n =>
      let c := with_pinging n c in
      Some (match result with
            | Some err =>
                if is_timeout err
                then with_closings (closings c ++ [EReason CloseReasonPingTimeout])
                       (write_failed c) c
                else c
            | None => c
            end)
  end.

Inductive client_action :=
| CConnect
| CAttempt (i : nat)
| CTimer (i : nat)
| CClosing (i : nat)
| CSend (ctx : option error) (m : Message)
| CPush (i : nat)
| CRun (tasks : bool)
| CRecv
| CHandle (i : nat)
| CPingDone (result : option error)
| CKeepAlive (i : nat)
| CTick (t : Z)
| CClose.

Definition client_step (h : Handler) (a : client_action) (c : client)
  : option (outcome error client) :=
  match a with
  | CConnect => Some (Ok (client_Connect c))
  | CAttempt i => attempt_step i c
  | CTimer i => Ok <$> timer_fire i c
  | CClosing i => closing_step i c
  | CSend ctx m => '(_, c) ← client_SendMessage ctx m c; Some (Ok c)
  | CPush i => Ok <$> client_push_step i c
  | CRun tasks => runner_step tasks c
  | CRecv => recv_step c
  | CHandle i => handlePacket h i c
  | CPingDone result => Ok <$> ping_done result c
  | CKeepAlive i => Ok <$> keepalive_step i c
  | CTick t => Some (Ok (with_keepalive (KeepAlive.tick t (cl_keepalive c)) c))
  | CClose => Some (client_Close c)
  end.

(** Executing a schedule: [None] when an action is not enabled. *)
Fixpoint client_run (h : Handler) (acts : list client_action) (c : client)
  : option (outcome error client) :=
  match acts with
  | [] => Some (Ok c)
  | a :: acts =>
      match client_step h a c with
      | Some (Ok c) => client_run h acts c
      | r => r
      end
  end.
End client.
Arguments client C B : clear implicits.

(** ** The invariant of the client *)
Section invariant.
Context {C B : Type} `{HC : Conn C} `{HB : Backoff B}.

(** [l] follows [s] without repeating a status. *)
Fixpoint no_repeat (s : Status) (l : list Status) : Prop :=
  match l with [] => True | x :: l => s ≠ x ∧ no_repeat x l end.

Definition retrier_ok (r : Retrier B) : Prop := 0 <= limit r < 2 ^ 63 ∧ 0 <= count r <= limit r.

(** The handler was told every status in turn; pings are sent only while the client is open. *)
Record client_inv (c : client C B) : Prop := {
  inv_last : cl_status c = List.last (changes c) StatusUnknown;
  inv_distinct : no_repeat StatusUnknown (changes c);
  inv_reached : Forall (λ s, s = StatusOpening ∨ s = StatusOpened ∨ s = StatusClosed) (changes c);
  inv_stopped : IsReady c = false → KeepAlive.stoped (cl_keepalive c) = true;
  inv_running : IsReady c = true → cl_closed c = false →
    KeepAlive.stoped (cl_keepalive c) = false;
  inv_retrier : match cl_retrier c with Some r => retrier_ok r | None => True end
}.

Lemma last_cons (y : Status) l s : List.last (y :: l) s = List.last l y.
Proof.
  revert y s. induction l as [|z l IH]; intros y s; [done|].
  change (List.last (z :: l) s = List.last (z :: l) y). by rewrite !IH.
Qed.

Lemma no_repeat_snoc l : ∀ s x, no_repeat s l → List.last l s ≠ x → no_repeat s (l ++ [x]).
Proof.
  induction l as [|y l IH]; intros s x Hl Hx; [done|]. destruct Hl as [Hy Hl].
  split; [done|]. apply IH; [done|]. by rewrite (last_cons y l s) in Hx.
Qed.

Lemma IsReady_true c : IsReady (C := C) (B := B) c = true ↔ cl_status c = StatusOpened.
Proof. apply bool_decide_eq_true. Qed.

Lemma IsReady_false c : IsReady (C := C) (B := B) c = false ↔ cl_status c ≠ StatusOpened.
Proof. apply bool_decide_eq_false. Qed.

Lemma Start_stoped k : KeepAlive.stoped (KeepAlive.Start k) = false.
Proof. unfold KeepAlive.Start. by destruct (KeepAlive.stoped k) eqn:E. Qed.

Lemma run_stoped i k k' : KeepAlive.run i k = Some k' → KeepAlive.stoped k' = KeepAlive.stoped k.
Proof.
  unfold KeepAlive.run. destruct (_ !! _); [|done]. destruct (_ <=? _); [|done].
  cbn [KeepAlive.stoped]. destruct (KeepAlive.stoped k) eqn:E; intros [= <-]; [done|].
  cbn [KeepAlive.stoped]. by rewrite (proj1 (KeepAlive.sendPing_fields _)).
Qed.

Lemma Retry_ok e r : retrier_ok r → retrier_ok (snd (Retry e r)).
Proof.
  intros [Hl Hc]. unfold Retry. case_match_go; [done|].
  destruct (Z.leb_spec (limit r) (count r)); [done|]. split; simpl; [done|].
  rewrite wrapS_id; unfold inS; lia.
Qed.

(** [_setStatus] to a status the client uses keeps the invariant. *)
Lemma setStatus_inv s c c' : s = StatusOpening ∨ s = StatusOpened ∨ s = StatusClosed →
  client_inv c → setStatus s c = Ok c' → client_inv c'.
Proof.
  intros Hs [Hlast Hdist Hreach Hstop Hrun Hret]. unfold setStatus.
  destruct (decide (cl_status c = s)) as [|Hne]; [intros [= <-]; by constructor|].
  assert (List.last (changes c ++ [s]) StatusUnknown = s) as Hl by apply last_last.
  assert (no_repeat StatusUnknown (changes c ++ [s])) as Hd.
  { apply no_repeat_snoc; [done|]. by rewrite <-Hlast. }
  assert (Forall (λ s, s = StatusOpening ∨ s = StatusOpened ∨ s = StatusClosed)
            (changes c ++ [s])) as Hr by (apply Forall_app; auto).
  destruct Hs as [-> | [-> | ->]].
  - intros [= <-]. constructor; done.
  - intros [= <-]. constructor; try done; cbn -[KeepAlive.Start]; rewrite Start_stoped; done.
  - destruct (conn_Close _) as [[] conn]; intros [=]; subst; constructor; done.
Qed.

Lemma tryClose_inv e c c' : client_inv c → tryClose e c = Ok c' → client_inv c'.
Proof.
  intros Hc. unfold tryClose.
  destruct (cl_retrying c); [intros [= <-]; done|].
  destruct (decide _); [intros [= <-]; done|].
  destruct (decide _); [intros [= <-]; done|].
  destruct (decide _); [by apply setStatus_inv; auto|].
  destruct (cl_retrier c) as [r|] eqn:Er; [|by apply setStatus_inv; auto].
  assert (∀ b, client_inv (with_retrier (Some (snd (Retry e r))) b c)) as Hc'.
  { intros b. destruct Hc as [? ? ? ? ? Hret]. rewrite Er in Hret.
    constructor; try done. by apply Retry_ok. }
  destruct (Retry e r) as [[delay []] r'].
  - destruct (setStatus _ _) as [c1| |] eqn:E; [|done..].
    apply setStatus_inv in E as [? ? ? ? ? ?]; [|by auto|done].
    intros [= <-]. by constructor.
  - apply setStatus_inv; auto.
Qed.

Lemma attempt_fail_inv i a e c c' : client_inv c → attempt_fail i a e c = Ok c' → client_inv c'.
Proof.
  intros [Hlast Hdist Hreach Hstop Hrun Hret]. unfold attempt_fail.
  destruct (by_timer a); [intros [= <-]; by constructor|]. cbn [cl_retrier with_attempts].
  destruct (cl_retrier c) as [r|] eqn:Er; [|done].
  intros [= <-]. constructor; try done. unfold retrier_ok in *. simpl in *. lia.
Qed.

Lemma attempt_step_inv i c c' : client_inv c → attempt_step i c = Some (Ok c') → client_inv c'.
Proof.
  intros Hc. unfold attempt_step. destruct (attempts c !! i) as [a|]; [|done]. simpl.
  assert (∀ x p, client_inv (advance i a p (with_conn x c))) as Hadv by (destruct Hc; by constructor).
  assert (∀ x e, Some (attempt_fail i a e (with_conn x c)) = Some (Ok c') → client_inv c') as Hfail.
  { intros x e E. apply (inj Some) in E. eapply attempt_fail_inv; [|done]. destruct Hc; by constructor. }
  destruct (at_ a).
  - destruct (setStatus _ _) as [c1| |] eqn:E; [|done..]. intros [= <-].
    apply setStatus_inv in E as []; auto. by constructor.
  - destruct (Dail _) as [[] conn]; [intros [= <-]; done| |done]. apply Hfail.
  - destruct (WritePacket _ _) as [[] conn]; [intros [= <-]; done| |done]. apply Hfail.
  - destruct (ReadPacket _) as [[p| |] conn]; [| |done]; [|apply Hfail].
    destruct (check_ack p); [apply Hfail|intros [= <-]; done].
  - intros E. apply (inj Some) in E. eapply setStatus_inv; [|..|done]; [auto|]. destruct Hc; by constructor.
Qed.

Lemma runner_step_inv t c c' : client_inv c → runner_step t c = Some (Ok c') → client_inv c'.
Proof.
  intros Hc. unfold runner_step.
  assert (∀ q, client_inv (with_queue q c)) as Hq by (destruct Hc; by constructor).
  assert ((q ← qstep (if t then ARunTasks else ARun) (cl_queue c); Some (@Ok error _ (with_queue q c))) =
    Some (Ok c') → client_inv c') as Hother.
  { destruct (qstep _ _); simpl; [|done]. intros [= <-]. done. }
  destruct (write_failed c) as [e|]; destruct (runner (cl_queue c)) as [| |j p|]; try done.
  - destruct (tryClose _ _) as [c1| |] eqn:E; [|done..]. intros [= <-].
    apply tryClose_inv in E; [|destruct Hc; by constructor]. destruct E; by constructor.
  - destruct (IsReady c) eqn:Er; [|intros [= <-]; done].
    destruct (WritePacket _ _) as [[] conn]; intros [= <-]; destruct Hc; by constructor.
Qed.

Lemma handlePacket_inv h i c c' : client_inv c → handlePacket h i c = Some (Ok c') → client_inv c'.
Proof.
  intros Hc. unfold handlePacket. destruct (inbox c !! i) as [p|]; [|done]. simpl.
  set (c1 := with_keepalive _ _). assert (client_inv c1) as H1 by (destruct Hc; by constructor).
  assert (∀ j p, client_inv (sendPacket j p c1)) as Hs.
  { intros j q. unfold sendPacket. destruct (IsReady c1); [|done]. destruct H1; by constructor. }
  destruct p; try (intros [= <-]; done).
  - destruct (response_to h _); [|done..]. intros [= <-]. done.
  - intros [= <-]. destruct H1; by constructor.
Qed.

Lemma client_Close_inv c c' : client_inv c → client_Close c = Ok c' → client_inv c'.
Proof.
  intros Hc. unfold client_Close. destruct (cl_closed c); [intros [= <-]; done|].
  destruct Hc. destruct (conn_Close _) as [[] conn]; intros [= <-]; by constructor.
Qed.

Lemma client_step_inv h a c c' : client_inv c → client_step h a c = Some (Ok c') → client_inv c'.
Proof.
  intros Hc. destruct a as [|i|i|i|ctx m|i|t| |i|r|i|t|]; cbn [client_step].
  - intros [= <-]. unfold client_Connect. destruct (cl_status c) eqn:E; try done;
      destruct Hc; by constructor.
  - by apply attempt_step_inv.
  - unfold timer_fire. destruct (timers c !! i); [|done]. simpl. intros [= <-].
    destruct (decide _); destruct Hc; by constructor.
  - unfold closing_step. destruct (closings c !! i); [|done]. simpl. intros E.
    apply (inj Some) in E. apply tryClose_inv in E; [done|]. destruct Hc; by constructor.
  - unfold client_SendMessage. destruct (IsReady c) eqn:Er; [|intros [= <-]; done].
    destruct (Push_now _ _ _ _) as [[r q]|]; [|done]. simpl. intros [= <-].
    destruct Hc; by constructor.
  - unfold client_push_step. destruct (sending c !! i) as [[j p]|]; [|done]. simpl.
    destruct (Push_now _ _ _ _) as [[r q]|]; [|done]. simpl. intros [= <-].
    destruct Hc; by constructor.
  - by apply runner_step_inv.
  - unfold recv_step. destruct (receivers c); [done|].
    destruct (ReadPacket _) as [[] conn]; intros [= <-]; destruct Hc; by constructor.
  - by apply handlePacket_inv.
  - unfold ping_done. destruct (pinging c); [done|]. simpl. intros [= <-].
    destruct r as [e|]; [destruct (is_timeout e)|]; destruct Hc; by constructor.
  - unfold keepalive_step. destruct (KeepAlive.run i _) as [k|] eqn:E; [|done]. simpl.
    apply run_stoped in E. intros [= <-].
    destruct (_ && _); destruct Hc; constructor; try done; simpl; by rewrite E.
  - intros [= <-]. destruct Hc; by constructor.
  - intros E. apply (inj Some) in E. by eapply client_Close_inv.
Qed.

Lemma client_run_inv h acts : ∀ c c', client_inv c → client_run h acts c = Some (Ok c') →
  client_inv c'.
Proof.
  induction acts as [|a acts IH]; intros c c' Hc; cbn [client_run]; [intros [= <-]; done|].
  destruct (client_step h a c) as [[c1| |]|] eqn:E; [|done..]. apply IH. by eapply client_step_inv.
Qed.
End invariant.

(** ** A server that cannot be reached *)
Section unreachable.
Context {C B : Type} `{HC : Conn C} `{HB : Backoff B}.
Context (lim : Z) (b : B).
Hypothesis lim_range : 0 <= lim < 2 ^ 62.

(** The states of a connection whose server cannot be reached. *)
Context (U : C → Prop).
Hypothesis dial_fails : ∀ c : C, U c → ∃ e c', Dail c = (Err e, c') ∧
  e ≠ EReason CloseReasonNormal ∧ U c'.
Hypothesis close_works : ∀ c : C, U c → is_panic (fst (conn_Close c)) = false ∧
  U (snd (conn_Close c)).

(** The one thing the client is doing: a call of [Connect], a dial, a [tryClose], a timer. *)
Inductive phase := PhOpening | PhDial (timer : bool) | PhClosing (e : error) | PhTimer (d : Z) | PhDone.

Definition in_phase (ph : phase) (c : client C B) : Prop :=
  match ph with
  | PhOpening => cl_status c = StatusUnknown ∧ attempts c = [mkAttempt false AtOpening] ∧
      closings c = [] ∧ timers c = [] ∧ cl_retrying c = false ∧ delays c = []
  | PhDial t => cl_status c = StatusOpening ∧ attempts c = [mkAttempt t AtDial] ∧
      closings c = [] ∧ timers c = [] ∧ cl_retrying c = t ∧ (t = false → delays c = [])
  | PhClosing e => cl_status c = StatusOpening ∧ attempts c = [] ∧ closings c = [e] ∧
      timers c = [] ∧ cl_retrying c = false ∧ e ≠ EReason CloseReasonNormal
  | PhTimer d => cl_status c = StatusOpening ∧ attempts c = [] ∧ closings c = [] ∧
      timers c = [d] ∧ cl_retrying c = true ∧ True
  | PhDone => cl_status c = StatusClosed ∧ attempts c = [] ∧ closings c = [] ∧
      timers c = [] ∧ cl_retrying c = false ∧ zlen (delays c) = lim
  end.

(** Steps left of [reconnect], the timers and [tryClose]. *)
Definition steps_left (ph : phase) (n : Z) : Z :=
  3 * (lim - n) +
  match ph with PhOpening => 3 | PhDial _ => 2 | PhClosing _ => 1 | PhTimer _ => 3 | PhDone => 0 end.

Definition trying (m : Z) (c : client C B) : Prop :=
  (is_Some (cl_id c) ∧ receivers c = O ∧ pinging c = O ∧ inbox c = [] ∧ sending c = [] ∧
     write_failed c = None ∧ U (cl_conn c)) ∧
  ∃ ph n, in_phase ph c ∧ 0 <= n <= lim ∧ cl_retrier c = Some (mkRetrier lim n None b) ∧
    delays c = (Next b <$> seqZ 1 n) ∧ m = steps_left ph n.

(** The actions that count: steps of [reconnect], timers and calls of [tryClose]. *)
Definition token (a : client_action) : Z :=
  match a with CAttempt _ | CTimer _ | CClosing _ => 1 | _ => 0 end.

Lemma trying_idle m c : trying m c → IsReady c = false.
Proof. intros (_ & ph & n & Hp & _). apply IsReady_false. destruct ph; destruct Hp as [-> _]; done. Qed.

Lemma singleton_lookup {A} (x y : A) i : [x] !! i = Some y → i = O ∧ x = y.
Proof. destruct i as [|i]; [by intros [= ->]|done]. Qed.

Lemma trying_attempt m c i r : trying m c → attempt_step i c = Some r →
  ∃ c', r = Ok c' ∧ trying (m - 1) c'.
Proof using dial_fails lim_range.
  intros ((Hid & Hr & Hp & Hi & Hs & Hw & HU) & ph & n & Hph & Hn & Hret & Hd & ->). unfold attempt_step.
  destruct ph as [|t|e|d|]; destruct Hph as (Hst & Ha & Hc & Ht & Hrt & Hx); rewrite Ha;
    try done; destruct i as [|i]; try done; intros E; apply (inj Some) in E as <-; cbn [at_].
  - unfold setStatus. rewrite Hst. rewrite decide_False by done. eexists. split; [done|].
    split; [done|]. exists (PhDial false), n. split_and!; try done; [|unfold steps_left; lia..].
    split_and!; try done. simpl. by rewrite Ha.
  - destruct (dial_fails (cl_conn c) HU) as (e & x & -> & He & HUx).
    unfold attempt_fail. cbn [by_timer with_attempts with_conn cl_retrier attempts].
    destruct t.
    + eexists. split; [done|]. split; [done|]. exists (PhClosing e), n.
      split_and!; try done; [|unfold steps_left; lia..].
      split_and!; try done; simpl; [by rewrite Ha|by rewrite Hc].
    + rewrite Hret. eexists. split; [done|]. split; [done|]. exists (PhClosing e), n.
      assert (n = 0) as ->.
      { rewrite Hx in Hd by done. apply (f_equal length) in Hd. rewrite length_fmap, length_seqZ in Hd.
        simpl in Hd. lia. }
      split_and!; try done; [|unfold steps_left; lia..].
      split_and!; try done; simpl; [by rewrite Ha|by rewrite Hc].
Qed.

Lemma trying_timer m c i c' : trying m c → timer_fire i c = Some c' → trying (m - 1) c'.
Proof using lim_range.
  intros ((Hid & Hr & Hp & Hi & Hs & Hw & HU) & ph & n & Hph & Hn & Hret & Hd & ->). unfold timer_fire.
  destruct ph as [|t|e|d|]; destruct Hph as (Hst & Ha & Hc & Ht & Hrt & Hx); rewrite Ht; try done.
  destruct i as [|i]; [|done]. cbn. rewrite Hst. rewrite decide_True by done.
  intros [= <-]. split; [done|]. exists (PhDial true), n.
  split_and!; try done; [|unfold steps_left; lia..]. split_and!; try done. simpl. by rewrite Ha.
Qed.

Lemma setStatus_closed (c : client C B) : cl_status c = StatusOpening → U (cl_conn c) → ∃ x, U x ∧
  setStatus StatusClosed c =
    Ok (with_keepalive (KeepAlive.Stop (cl_keepalive c)) (with_conn x (with_status StatusClosed c))).
Proof using close_works.
  intros Hst HU. unfold setStatus. rewrite Hst. rewrite decide_False by done.
  change (cl_conn (with_status StatusClosed c)) with (cl_conn c).
  change (cl_keepalive (with_status StatusClosed c)) with (cl_keepalive c).
  destruct (close_works (cl_conn c) HU) as [Hcl Hx].
  destruct (conn_Close (cl_conn c)) as [[] x]; [by exists x..|done].
Qed.

Lemma trying_closing m c i r : trying m c → closing_step i c = Some r →
  ∃ c', r = Ok c' ∧ trying (m - 1) c'.
Proof using close_works lim_range.
  intros ((Hid & Hr & Hp & Hi & Hs & Hw & HU) & ph & n & Hph & Hn & Hret & Hd & ->). unfold closing_step.
  destruct ph as [|t|e|d|]; destruct Hph as (Hst & Ha & Hc & Ht & Hrt & Hx); rewrite Hc; try done.
  destruct i as [|i]; [|done]. intros E; apply (inj Some) in E as <-.
  set (c1 := with_closings _ _ c). unfold tryClose.
  change (cl_retrying c1) with (cl_retrying c). change (cl_id c1) with (cl_id c).
  change (cl_status c1) with (cl_status c). change (cl_retrier c1) with (cl_retrier c).
  rewrite Hrt, Hst, Hret. rewrite decide_False by (intros Eid; rewrite Eid in Hid; by destruct Hid).
  rewrite decide_False by naive_solver. rewrite decide_False by done.
  unfold Retry; cbn [filter_fn limit count backoff].
  destruct (Z.leb_spec lim n).
  - destruct (setStatus_closed (with_retrier (Some (mkRetrier lim n None b)) false c1)) as (x & Hx' & ->);
      [done|done|]. eexists. split; [done|]. split; [done|]. exists PhDone, n.
    split_and!; try done; [|unfold steps_left; lia..].
    split_and!; try done. simpl. rewrite Hd. unfold zlen. rewrite length_fmap, length_seqZ. lia.
  - rewrite wrapS_id by (unfold inS; lia). unfold setStatus.
    change (cl_status (with_retrier _ true c1)) with (cl_status c).
    rewrite Hst, decide_True by done. eexists. split; [done|]. split; [done|].
    exists (PhTimer (Next b (n + 1))), (n + 1).
    split_and!; try done; [|lia..| |unfold steps_left; lia].
    + split_and!; try done. simpl. by rewrite Ht.
    + simpl. rewrite Hd, (seqZ_app 1 n 1), fmap_app by lia. f_equal. simpl. by rewrite Z.add_comm.
Qed.

(** Every other action leaves the phase alone. *)
Lemma trying_other m c a h r : trying m c → a ≠ CConnect → token a = 0 →
  client_step h a c = Some r → ∃ c', r = Ok c' ∧ trying m c'.
Proof using close_works.
  intros Htr Ha Ht. pose proof (trying_idle _ _ Htr) as Hidle.
  assert (∀ x, trying m (with_keepalive x c)) as Hk by done.
  assert (∀ x, trying m (with_queue x c)) as Hq by done.
  destruct (Htr) as ((Hid & Hr & Hp & Hi & Hs & Hw & HU) & Hrest).
  destruct a as [|i|i|i|ctx ms|i|t| |i|e|i|t|]; try done; cbn [client_step].
  - unfold client_SendMessage. rewrite Hidle. intros [= <-]. eauto.
  - unfold client_push_step. by rewrite Hs.
  - unfold runner_step. rewrite Hw, Hidle. destruct (runner (cl_queue c)).
    1,2,4: destruct (qstep _ _); simpl; [|done]; intros [= <-]; eauto.
    intros [= <-]. eauto.
  - unfold recv_step. by rewrite Hr.
  - unfold handlePacket. by rewrite Hi.
  - unfold ping_done. by rewrite Hp.
  - unfold keepalive_step. destruct (KeepAlive.run i _); [|done]. simpl. intros [= <-].
    rewrite Hidle, andb_false_r. eauto.
  - intros [= <-]. eauto.
  - intros [= <-]. unfold client_Close. destruct (cl_closed c); [eauto|].
    destruct (close_works (cl_conn c) HU) as [Hcl Hx].
    change (cl_conn (with_queue _ _)) with (cl_conn c).
    destruct (conn_Close (cl_conn c)) as [[] x]; [eexists; split; [done|]; split; [done|exact Hrest]..|done].
Qed.

Lemma trying_step m c a h r : trying m c → a ≠ CConnect → client_step h a c = Some r →
  ∃ c', r = Ok c' ∧ trying (m - token a) c'.
Proof using close_works dial_fails lim_range.
  intros Htr Ha. destruct (decide (token a = 0)) as [Ht|Ht].
  - rewrite Ht, Z.sub_0_r. by apply trying_other.
  - destruct a; try done; cbn [client_step token].
    + by apply trying_attempt.
    + destruct (timer_fire i c) as [c'|] eqn:E; [|done]. simpl. intros [= <-].
      exists c'. split; [done|]. by eapply trying_timer.
    + by apply trying_closing.
Qed.

(** While steps are left one of them is possible. *)
Lemma trying_enabled m c h : trying m c → m ≠ 0 → ∃ a r, token a = 1 ∧ client_step h a c = Some r.
Proof using lim_range.
  intros (_ & ph & n & Hph & Hn & _ & Hd & ->) Hm.
  destruct ph as [|t|e|d|]; destruct Hph as (Hst & Ha & Hc & Ht & Hrt & Hx).
  - exists (CAttempt 0). cbn [client_step]. unfold attempt_step. rewrite Ha. simpl. eauto.
  - exists (CAttempt 0). cbn [client_step]. unfold attempt_step. rewrite Ha. simpl. eauto.
  - exists (CClosing 0). cbn [client_step]. unfold closing_step. rewrite Hc. simpl. eauto.
  - exists (CTimer 0). cbn [client_step]. unfold timer_fire. rewrite Ht. simpl. eauto.
  - exfalso. apply Hm. unfold steps_left. rewrite Hd in Hx. unfold zlen in Hx.
    rewrite length_fmap, length_seqZ in Hx. lia.
Qed.

Lemma trying_run h acts : ∀ m c r, trying m c → CConnect ∉ acts →
  client_run h acts c = Some r →
  ∃ c', r = Ok c' ∧ trying (m - foldr (λ a n, token a + n) 0 acts) c'.
Proof using close_works dial_fails lim_range.
  induction acts as [|a acts IH]; intros m c r Htr Ha; cbn [client_run foldr].
  - intros [= <-]. rewrite Z.sub_0_r. eauto.
  - destruct (client_step h a c) as [r1|] eqn:E; [|done].
    apply not_elem_of_cons in Ha as [Ha1 Ha2].
    destruct (trying_step _ _ _ _ _ Htr (not_eq_sym Ha1) E) as (c1 & -> & H1). intros E2.
    destruct (IH _ _ _ H1 Ha2 E2) as (c2 & -> & H2). exists c2. split; [done|].
    by rewrite Z.sub_add_distr.
Qed.

Lemma trying_nonneg m c : trying m c → 0 <= m.
Proof.
  intros (_ & ph & n & _ & Hn & _ & _ & ->). unfold steps_left. destruct ph; lia.
Qed.

(** Some schedule brings the client to the end. *)
Lemma trying_finishes h m : 0 <= m → ∀ c, trying m c →
  ∃ acts c', (CConnect ∉ acts) ∧ client_run h acts c = Some (Ok c') ∧ trying 0 c'.
Proof using close_works dial_fails lim_range.
  revert m. refine (natlike_ind _ _ _).
  - intros c Hc. exists [], c. split_and!; [apply not_elem_of_nil|done|done].
  - intros m Hm IH c Hc. destruct (trying_enabled _ _ h Hc ltac:(lia)) as (a & r & Ht & E).
    assert (a ≠ CConnect) as Ha by (by intros ->).
    destruct (trying_step _ _ _ _ _ Hc Ha E) as (c1 & -> & H1).
    replace (Z.succ m - token a) with m in H1 by lia.
    destruct (IH c1 H1) as (acts & c' & Hn & E' & H').
    exists (a :: acts), c'. split_and!; [|cbn [client_run]; by rewrite E|done].
    apply not_elem_of_cons. done.
Qed.
End unreachable.

(** ** After a successful reconnection *)
Section latch.
Context {C B : Type} `{HC : Conn C} `{HB : Backoff B}.

(** Open, with [retrying] set and nothing left that would reset it. *)
Definition latched (d : list Z) (c : client C B) : Prop :=
  cl_status c = StatusOpened ∧ attempts c = [] ∧ timers c = [] ∧ delays c = d ∧
  cl_retrying c = true.

Lemma latched_tryClose d e c c' : latched d c → tryClose e c = Ok c' → c' = c.
Proof. intros (_ & _ & _ & _ & Hr). unfold tryClose. rewrite Hr. by intros [= <-]. Qed.

Lemma latched_step h d a c c' : latched d c → client_step h a c = Some (Ok c') → latched d c'.
Proof.
  intros Hc. assert (Hc' := Hc). destruct Hc' as (Hs & Ha & Ht & Hd & Hr).
  assert (∀ x, latched d (with_keepalive x c)) as Hk by done.
  assert (∀ x, latched d (with_queue x c)) as Hq by done.
  destruct a as [|i|i|i|ctx m|i|t| |i|r|i|t|]; cbn [client_step].
  - intros [= <-]. unfold client_Connect. by rewrite Hs.
  - unfold attempt_step. by rewrite Ha.
  - unfold timer_fire. by rewrite Ht.
  - unfold closing_step. destruct (closings c !! i); [|done]. simpl. intros E.
    apply (inj Some) in E. by apply (latched_tryClose d) in E as ->.
  - unfold client_SendMessage. destruct (IsReady c); [|intros [= <-]; done].
    destruct (Push_now _ _ _ _) as [[r q]|]; [|done]. simpl. intros [= <-]. done.
  - unfold client_push_step. destruct (sending c !! i) as [[j p]|]; [|done]. simpl.
    destruct (Push_now _ _ _ _) as [[r q]|]; [|done]. simpl. intros [= <-]. done.
  - unfold runner_step. destruct (write_failed c); destruct (runner (cl_queue c)).
    1,2,4,5,6,8: destruct (qstep _ _); simpl; [|done]; intros [= <-]; done.
    + destruct (tryClose _ _) as [c1| |] eqn:E; [|done..].
      apply (latched_tryClose d) in E as ->; [|done]. intros [= <-]. done.
    + destruct (IsReady c); [|intros [= <-]; done].
      destruct (WritePacket _ _) as [[] x]; intros [= <-]; done.
  - unfold recv_step. destruct (receivers c); [done|].
    destruct (ReadPacket _) as [[] x]; intros [= <-]; done.
  - unfold handlePacket. destruct (inbox c !! i) as [p|]; [|done]. simpl.
    destruct p; try (intros [= <-]; done); unfold sendPacket.
    + destruct (response_to h _); [|done..]. destruct (IsReady _); intros [= <-]; done.
    + destruct (IsReady _); intros [= <-]; done.
  - unfold ping_done. destruct (pinging c); [done|]. simpl. intros [= <-].
    destruct r as [e|]; [destruct (is_timeout e)|]; done.
  - unfold keepalive_step. destruct (KeepAlive.run i _); [|done]. simpl. intros [= <-].
    by destruct (_ && _).
  - intros [= <-]. done.
  - unfold client_Close. destruct (cl_closed c); [intros [= <-]; done|].
    destruct (conn_Close _) as [[] x]; intros [= <-]; done.
Qed.

Lemma latched_run h d acts : ∀ c c', latched d c → client_run h acts c = Some (Ok c') →
  latched d c'.
Proof.
  induction acts as [|a acts IH]; intros c c' Hc; cbn [client_run]; [intros [= <-]; done|].
  destruct (client_step h a c) as [[c1| |]|] eqn:E; [|done..]. apply IH. by eapply latched_step.
Qed.
End latch.

(** ** Properties of the client *)

(** Whatever the interleaving of user calls, timers, received packets
    and network failures, the handler is told each status once it changes, in order and never
    twice the same; only Opening, Opened and Closed occur after Unknown; the keep-alive runs
    exactly while an unclosed client is open; the retrier never grants more than its limit. *)
Theorem client_statuses {C B} `{HC : Conn C, HB : Backoff B} (h : Handler) (acts : list client_action)
    (id : option Identity) (conn : C) (lim : Z) (b : B) (ping capacity now : Z)
    (c0 c : client C B) :
  0 <= lim < 2 ^ 63 →
  NewClient id conn (Some (NewRetrier lim b)) ping capacity now = Ok c0 →
  client_run h acts c0 = Some (Ok c) →
  cl_status c = List.last (changes c) StatusUnknown ∧
  no_repeat StatusUnknown (changes c) ∧
  Forall (λ s, s = StatusOpening ∨ s = StatusOpened ∨ s = StatusClosed) (changes c) ∧
  (cl_closed c = false → KeepAlive.stoped (cl_keepalive c) = negb (IsReady c)) ∧
  (∀ r, cl_retrier c = Some r → 0 <= count r <= limit r).
Proof.
  intros Hl Hnew Hrun. assert (client_inv c0) as H0.
  { revert Hnew. unfold NewClient. destruct (Queue.New capacity); intros [=]; subst.
    constructor; try done. unfold NewRetrier; repeat split; simpl; lia. }
  destruct (client_run_inv _ _ _ _ H0 Hrun) as [? ? ? Hstop Hopen Hret].
  split_and!; [done..| |].
  - intros Hc. destruct (IsReady c); [by apply Hopen|by apply Hstop].
  - intros r Hr. rewrite Hr in Hret. apply Hret.
Qed.

Definition sample_id : Identity := mkIdentity "u" "c" "p".

#[local] Instance sample_nil : NilSocket := {| nil_socket := inl (EOther "invalid argument") |}.
#[local] Existing Instance range_forward.

(** Two servers that accept the login and then close the socket. *)
Definition accepting : socket :=
  mkSocket (frame_segments (PConnack (NewConnack ConnectAccepted))) [] None.

Definition sample_client : client tcpConn constantBackoff :=
  match NewClient (Some sample_id) (mkTcp None [Ok accepting; Ok accepting])
          (Some (NewRetrier 2 ConstantD)) (Second * 60) 8 0 with
  | Ok c => c
  | _ => mkClient None (mkTcp None []) false StatusUnknown None false
           (mkQueue [] false [] false 0 false CNone RTop ∅ [] [])
           (KeepAlive.New 0 0) 0 0 [] [] [] [] [] None [] []
  end.

Definition connect_actions : list client_action :=
  [CConnect; CAttempt 0; CAttempt 0; CAttempt 0; CAttempt 0; CAttempt 0].
Definition lose_actions : list client_action :=
  [CRecv; CClosing 0; CTimer 0; CAttempt 0; CAttempt 0; CAttempt 0].

Definition sample_after (acts : list client_action) : client tcpConn constantBackoff :=
  match client_run emptyHandler acts sample_client with
  | Some (Ok c) => c
  | _ => sample_client
  end.

Lemma client_statuses_witness :
  changes (sample_after (connect_actions ++ lose_actions)) =
    [StatusOpening; StatusOpened; StatusOpening] ∧
  cl_status (sample_after (connect_actions ++ lose_actions)) = StatusOpening.
Proof.
  assert (changes (sample_after (connect_actions ++ lose_actions)) =
    [StatusOpening; StatusOpened; StatusOpening]) as E by (vm_compute; reflexivity).
  split; [exact E|].
  rewrite (proj1 (client_statuses emptyHandler (connect_actions ++ lose_actions) (Some sample_id)
    (mkTcp None [Ok accepting; Ok accepting]) 2 ConstantD (Second * 60) 8 0 sample_client
    (sample_after (connect_actions ++ lose_actions)) ltac:(lia) ltac:(vm_compute; reflexivity)
    ltac:(vm_compute; reflexivity))), E. done.
Defined.

(** C10 (giving up): when every dial fails (the connection stays in a set [U] of states
    in which [Dail] fails), a client whose [Connect] is called once retries
    exactly [lim] times, with the pauses of its strategy, and then is closed: in every
    interleaving at most [3 * lim + 3] steps of [reconnect], timers and [tryClose] happen, one is
    possible until that many happened, and then the status is Closed and nothing is pending.
    Such an interleaving exists. *)
Theorem client_gives_up {C B} `{HC : Conn C, HB : Backoff B} (h : Handler) (id : Identity) (conn : C)
    (U : C → Prop) (lim : Z) (b : B) (ping capacity now : Z) (c0 : client C B) :
  0 <= lim < 2 ^ 62 →
  (∀ c, U c → ∃ e c', Dail c = (Err e, c') ∧ e ≠ EReason CloseReasonNormal ∧ U c') →
  (∀ c, U c → is_panic (fst (conn_Close c)) = false ∧ U (snd (conn_Close c))) →
  U conn →
  NewClient (Some id) conn (Some (NewRetrier lim b)) ping capacity now = Ok c0 →
  let used acts := foldr (λ a n, token a + n) 0 acts in
  let final c := cl_status c = StatusClosed ∧ delays c = (Next b <$> seqZ 1 lim) ∧
    timers c = [] ∧ attempts c = [] ∧ closings c = [] in
  (∀ acts r, CConnect ∉ acts → client_run h (CConnect :: acts) c0 = Some r →
     ∃ c, r = Ok c ∧ used acts <= 3 * lim + 3 ∧
       (used acts = 3 * lim + 3 → final c) ∧
       (used acts < 3 * lim + 3 → ∃ a, token a = 1 ∧ is_Some (client_step h a c))) ∧
  (∃ acts c, (CConnect ∉ acts) ∧ client_run h (CConnect :: acts) c0 = Some (Ok c) ∧ final c).
Proof.
  intros Hl Hdial Hclose HU Hnew used final.
  assert (trying lim b U (3 * lim + 3) (client_Connect c0)) as H0.
  { revert Hnew. unfold NewClient. destruct (Queue.New capacity); intros [=]; subst. split; [done|].
    exists PhOpening, 0. split_and!; try done; [lia|]. unfold steps_left. lia. }
  assert (∀ c, trying lim b U 0 c → final c) as Hfinal.
  { intros c (_ & ph & n & Hph & Hn & _ & Hd & Hm). unfold steps_left in Hm.
    destruct ph; try lia. destruct Hph as (? & ? & ? & ? & ? & Hx). assert (n = lim) as -> by lia.
    done. }
  split.
  - intros acts r Ha Hrun. cbn [client_run client_step] in Hrun.
    destruct (trying_run lim b Hl U Hdial Hclose _ _ _ _ _ H0 Ha Hrun) as (c & -> & Htr).
    exists c. pose proof (trying_nonneg _ _ _ _ _ Htr) as Hm. fold (used acts) in Htr, Hm.
    split_and!; [done|lia| |].
    + intros Hu. apply Hfinal. by replace 0 with (3 * lim + 3 - used acts) by lia.
    + intros Hu. destruct (trying_enabled lim b Hl U _ _ h Htr ltac:(lia)) as (a & r & ? & Er).
      exists a. split; [done|by exists r].
  - destruct (trying_finishes lim b Hl U Hdial Hclose h (3 * lim + 3) ltac:(lia) _ H0)
      as (acts & c & Ha & Hrun & Htr).
    exists acts, c. split_and!; [done..|by apply Hfinal].
Qed.

(** The same network with no server at all. *)
Definition offline_client : client tcpConn constantBackoff :=
  with_conn (mkTcp None []) sample_client.

Lemma client_gives_up_witness :
  0 <= 2 < 2 ^ 62 ∧
  ∃ acts c, client_run emptyHandler (CConnect :: acts) offline_client = Some (Ok c) ∧
    cl_status c = StatusClosed ∧ delays c = [3000000000; 3000000000].
Proof.
  split; [lia|].
  destruct (client_gives_up emptyHandler sample_id (mkTcp None []) (λ c, dials c = []) 2 ConstantD
    (Second * 60) 8 0 offline_client ltac:(lia)) as (_ & acts & c & _ & Hrun & Hst & Hd & _).
  - intros [s ds] Hds. simpl in Hds. subst ds. exists ErrDial, (mkTcp None []). done.
  - intros [s ds] Hds. done.
  - done.
  - vm_compute. reflexivity.
  - exists acts, c. split_and!; [exact Hrun|exact Hst|]. rewrite Hd. vm_compute. reflexivity.
Defined.

(** C16 (a reconnected client stays open): once the body of a timer has reconnected, with no
    other timer or call of [Connect] pending, [retrying] stays set: whatever happens afterwards
    - lost connections, CLOSE packets, ping timeouts, calls of [Connect] or [Close] - the status
    remains Opened and no further attempt to connect is ever made. *)
Theorem reconnect_latch {C B} `{HC : Conn C, HB : Backoff B} (h : Handler) (c c1 : client C B) :
  attempts c = [mkAttempt true AtOpened] → timers c = [] → cl_retrying c = true →
  cl_status c = StatusOpening →
  client_step h (CAttempt 0) c = Some (Ok c1) →
  cl_status c1 = StatusOpened ∧
  ∀ acts c2, client_run h acts c1 = Some (Ok c2) →
    cl_status c2 = StatusOpened ∧ attempts c2 = [] ∧ timers c2 = [] ∧ delays c2 = delays c1.
Proof.
  intros Ha Ht Hr Hs. cbn [client_step]. unfold attempt_step. rewrite Ha. cbn.
  unfold setStatus. cbn [cl_status with_attempts]. rewrite Hs, decide_False by done.
  intros [= <-]. split; [done|].
  match goal with |- ∀ acts c2, client_run h acts ?c1 = _ → _ => set (c0 := c1) end.
  intros acts c2 Hrun.
  assert (latched (delays c0) c0) as H0 by (split_and!; done).
  destruct (latched_run h (delays c0) acts c0 c2 H0 Hrun) as (? & ? & ? & ? & _). done.
Qed.

(** Connected, lost, reconnected by the timer up to the last step; afterwards the second
    connection is lost as well. *)
Lemma reconnect_latch_witness :
  cl_status (sample_after (connect_actions ++ lose_actions ++ [CAttempt 0; CRecv; CClosing 0])) =
    StatusOpened ∧
  cl_status (sample_after (connect_actions ++ lose_actions ++ [CAttempt 0; CRecv; CClosing 0; CConnect]))
    = StatusOpened.
Proof.
  destruct (reconnect_latch emptyHandler (sample_after (connect_actions ++ lose_actions))
    (sample_after (connect_actions ++ lose_actions ++ [CAttempt 0]))) as [_ Hlatch];
    try (vm_compute; reflexivity).
  split.
  - apply (Hlatch [CRecv; CClosing 0]). vm_compute. reflexivity.
  - apply (Hlatch [CRecv; CClosing 0; CConnect]). vm_compute. reflexivity.
Defined.

(** A CLOSE from the server is retried: an open client that receives a CLOSE packet,
    whatever its code, starts to reconnect as after a network failure, if its retrier allows;
    only the reason [CloseReasonNormal], which no packet carries, closes it for good. *)
Theorem server_close_reconnects {C B} `{HC : Conn C, HB : Backoff B} (h : Handler) (i : nat)
    (cl : Close) (r : Retrier B) (c : client C B) :
  inbox c !! i = Some (PClose cl) → closings c = [] → IsReady c = true →
  cl_retrying c = false → cl_id c ≠ None → cl_retrier c = Some r →
  passes r (EClose (close_Code cl)) = true → retrier_ok r → count r < limit r →
  (∃ c', client_run h [CHandle i; CClosing 0] c = Some (Ok c') ∧
     cl_status c' = StatusOpening ∧ cl_retrying c' = true ∧
     timers c' = timers c ++ [Next (backoff r) (count r + 1)]) ∧
  (∀ c', tryClose (EReason CloseReasonNormal) c = Ok c' →
     cl_status c' = StatusClosed ∧ timers c' = timers c).
Proof.
  intros Hi Hc Hready Hr Hid Hret Hf [Hl Hc0] Hlt. apply IsReady_true in Hready as Hst.
  assert (¬ (cl_status c = StatusClosed ∨ cl_status c = StatusClosing)) as Hopen
    by (rewrite Hst; naive_solver).
  split.
  - cbn [client_run client_step]. unfold handlePacket. rewrite Hi. cbn [mbind option_bind].
    unfold closing_step. cbn [closings with_closings with_recv with_keepalive]. rewrite Hc.
    cbn [app lookup list_lookup mbind option_bind].
    unfold tryClose. cbn [cl_retrying with_closings with_recv with_keepalive cl_id cl_status cl_retrier].
    rewrite Hr, !decide_False, Hret by done. unfold Retry.
    unfold passes in Hf. destruct (match filter_fn r with Some f => f _ | None => false end) eqn:Ef.
    { destruct (filter_fn r); [by rewrite Ef in Hf|done]. }
    destruct (Z.leb_spec (limit r) (count r)); [lia|].
    rewrite wrapS_id by (unfold inS; lia).
    unfold setStatus. cbn [cl_status with_retrier with_closings with_recv with_keepalive].
    rewrite Hst, decide_False by done. cbn. eexists. split; [done|]. done.
  - intros c'. unfold tryClose. rewrite Hr, decide_False, decide_False, decide_True by done.
    unfold setStatus. rewrite Hst, decide_False by done. cbn.
    destruct (conn_Close _) as [[] x]; intros [= <-]; done.
Qed.

(** The accepted client gets a CLOSE packet. *)
Definition closing_client : client tcpConn constantBackoff :=
  with_recv 1 [PClose (NewClose CloseKickedOut)] (sample_after connect_actions).

Lemma server_close_reconnects_witness :
  IsReady closing_client = true ∧
  ∃ c', client_run emptyHandler [CHandle 0; CClosing 0] closing_client = Some (Ok c') ∧
    timers c' = [3000000000].
Proof.
  split; [vm_compute; reflexivity|].
  destruct (server_close_reconnects emptyHandler 0 (NewClose CloseKickedOut)
    (NewRetrier 2 ConstantD) closing_client) as [(c' & E & _ & _ & Ht) _];
    try (vm_compute; reflexivity).
  - vm_compute. discriminate.
  - unfold retrier_ok, NewRetrier; simpl; lia.
  - exists c'. split; [exact E|]. rewrite Ht. vm_compute. reflexivity.
Defined.

(** A client without a retrier, which [tryClose] provides for, panics when [Connect] fails. *)
Theorem Connect_without_retrier {C B} `{HC : Conn C, HB : Backoff B} (h : Handler)
    (i : nat) (e : error) (x : C) (c : client C B) :
  cl_retrier c = None → attempts c !! i = Some (mkAttempt false AtDial) →
  Dail (cl_conn c) = (Err e, x) →
  client_step h (CAttempt i) c = Some (Panic NilDereference).
Proof.
  intros Hr Ha Hd. cbn [client_step]. unfold attempt_step. rewrite Ha. cbn.
  rewrite Hd. unfold attempt_fail. cbn. by rewrite Hr.
Qed.
