(* ===== verification/Broker.v ===== *)
(** * The broker (src/cluster: broker.go, listener.go, peer_client.go, peer_server.go)

    A broker owns listeners, one server per network, and routes messages, kicks and online
    checks to the brokers that the replicated registry names.  The state is the map of all
    brokers of the cluster; a call to a peer is [peerClient]'s method, a remote call, and
    [peerServer]'s method on the other broker.  gRPC is third-party code: the fate of a call to
    a peer is a parameter, [rpc].  The goroutines of one operation work on different brokers, so
    they are run one after the other, in the order of the range over the registry.  The parts
    of a broker's [cluster] that concern raft are in [Raft]. *)
From S2P Require Import Prelude Errors Coder Packet Queue Safe RaftOps Registry Server.

(** ** Listeners *)

(** [srv] is the embedded [server.Server]: nil until the listener is started. *)
Record listener := mkListener {
  l_port : Z; l_network : string; autoStart : bool; started : bool; srv : option world }.

Definition NewListener (network : string) (port : Z) (autoStart : bool) : listener :=
  mkListener port network autoStart false None.

Definition with_srv (w : world) (l : listener) : listener :=
  mkListener (l_port l) (l_network l) (autoStart l) (started l) (Some w).

Definition ISStarted (l : listener) : bool := started l.

(** [Start]: a new server each time. *)
Definition Listener_Start (l : listener) : listener :=
  if started l then l
  else mkListener (l_port l) (l_network l) (autoStart l) true (Some empty_world).

Section listener.
Context `{!GoRange uint8, !GoRange string}.

(** [ExpelAllConns] of the embedded server. *)
Definition Listener_ExpelAllConns (l : listener) : option (outcome error listener) :=
  match srv l with
  | None => Some (Panic NilDereference)
  | Some w => w ← ExpelAllConns w; Some (Ok (with_srv w l))
  end.

(** [Shutdown]; after [ExpelAllConns] no connection is registered and the first pass of the
    server's loop is the last. *)
Definition Listener_Shutdown (l : listener) : option (outcome error listener) :=
  if negb (started l) then Some (Ok l)
  else
    let l := mkListener (l_port l) (l_network l) (autoStart l) false (srv l) in
    r ← Listener_ExpelAllConns l;
    Some (l <~ r;
      match srv l with
      | None => Panic NilDereference
      | Some w => w <~ Shutdown_begin w; Ok (with_srv (snd (Shutdown_pass w)) l)
      end).
End listener.

(** ** Brokers *)
Record peerClient := mkPeer { p_addr : string; p_ready : bool }.

Record broker := mkBroker {
  nodeId : Z;
  reg : registry;
  listeners : gmap string listener;
  peers : RMap Z peerClient
}.

Definition with_listeners (x : gmap string listener) (b : broker) : broker :=
  mkBroker (nodeId b) (reg b) x (peers b).
Definition with_reg (x : registry) (b : broker) : broker :=
  mkBroker (nodeId b) x (listeners b) (peers b).
Definition with_peers (x : RMap Z peerClient) (b : broker) : broker :=
  mkBroker (nodeId b) (reg b) (listeners b) x.

(** All brokers, by id. *)
Abbreviation brokers := (gmap Z broker).

(** What becomes of a remote call: it is answered, fails before the peer handles it (or is never
    sent, as when a string in it is not UTF-8), is handled but the answer is lost, or is handled, ends
    in UNAVAILABLE and is sent again: the clients set a retryPolicy of three attempts, so the same call
    may be handled more than once.  gRPC wraps the error of a method in a status; the callers log it or
    pass it on, and the model keeps the error. *)
Inductive rpc := Delivered | Unsent (e : error) | NoReply (e : error) | Retried (r : rpc).

(** How many times a call is handled, and whether it is answered in the end. *)
Fixpoint handlings (r : rpc) : nat :=
  match r with Unsent _ => 0 | Delivered | NoReply _ => 1 | Retried r => S (handlings r) end.

Fixpoint replied (r : rpc) : bool :=
  match r with Delivered => true | Retried r => replied r | _ => false end.

Section broker.
Context `{!GoRange uint8, !GoRange string, !GoRange Z}.

(** *** Local operations *)

(** The server of a started listener. *)
Definition server_of (b : broker) (net : string) : option (listener * world) :=
  l ← listeners b !! net;
  if ISStarted l then w ← srv l; Some (l, w) else None.

Definition put_server (net : string) (l : listener) (w : world) (b : broker) : broker :=
  with_listeners (<[net := with_srv w l]> (listeners b)) b.

Definition isActive (targets : gmap string string) (b : broker) : bool :=
  existsb (λ '(cid, net), match server_of b net with
                          | Some (_, w) => IsActive cid w
                          | None => false
                          end) (go_range targets).

Definition kick_one (acc : option broker) (x : string * string) : option broker :=
  b ← acc;
  match server_of b x.2 with
  | Some (l, w) => '(_, w) ← KickConn x.1 w; Some (put_server x.2 l w b)
  | None => Some b
  end.

Definition kickConn (targets : gmap string string) (b : broker) : option broker :=
  fold_left kick_one (go_range targets) (Some b).

(** The counters and the broker. *)
Definition send_one (ctx : option error) (m : Message) (acc : option (Z * Z * broker))
    (x : string * string) : option (Z * Z * broker) :=
  '(total, success, b) ← acc;
  let total := i32 (total + 1) in
  match server_of b x.2 with
  | Some (l, w) =>
      '(r, w) ← SendMessage ctx x.1 m w;
      Some (total, match r with Ok _ => i32 (success + 1) | _ => success end, put_server x.2 l w b)
  | None => Some (total, success, b)
  end.

Definition sendToClients (ctx : option error) (m : Message) (cids : gmap string string)
    (b : broker) : option (Z * Z * broker) :=
  fold_left (send_one ctx m) (go_range cids) (Some (0, 0, b)).

Definition broadcast_listener (ctx : option error) (m : Message) (acc : option (Z * Z * broker))
    (x : string * listener) : option (Z * Z * broker) :=
  '(total, success, b) ← acc;
  match server_of b x.1 with
  | Some (l, w) =>
      '(r, w) ← Brodcast ctx m w;
      let '(t, s) := match r with Ok ts => ts | _ => (0, 0) end in
      Some (i32 (total + t), i32 (success + s), put_server x.1 l w b)
  | None => Some (total, success, b)
  end.

Definition sendToAll (ctx : option error) (m : Message) (b : broker) : option (Z * Z * broker) :=
  fold_left (broadcast_listener ctx m) (go_range (listeners b)) (Some (0, 0, b)).

Definition NotFound (network : string) : error :=
  EOther ("listener for network " ++ network ++ " not found")%string.

Definition startListener (network : string) (b : broker) : outcome error broker :=
  match listeners b !! network with
  | None => Err (NotFound network)
  | Some l => Ok (with_listeners (<[network := Listener_Start l]> (listeners b)) b)
  end.

Definition stopListener (network : string) (b : broker) : option (outcome error broker) :=
  match listeners b !! network with
  | None => Some (Err (NotFound network))
  | Some l =>
      r ← Listener_Shutdown l;
      Some (l <~ r; Ok (with_listeners (<[network := l]> (listeners b)) b))
  end.

(** [onClusterReady]: the listeners that start by themselves. *)
Definition onClusterReady (b : broker) : broker :=
  with_listeners ((λ l, if autoStart l then Listener_Start l else l) <$> listeners b) b.

(** [ExpelAllConns]: all listeners, started or not. *)
Definition broker_ExpelAllConns (b : broker) : option (outcome error broker) :=
  fold_left (λ acc x,
    r ← acc;
    match r with
    | Ok b =>
        r ← Listener_ExpelAllConns x.2;
        Some (l <~ r; Ok (with_listeners (<[x.1 := l]> (listeners b)) b))
    | r => Some r
    end) (go_range (listeners b)) (Some (Ok b)).

Definition broker_ConnCount (b : broker) : gmap string Z :=
  omap (λ l, if ISStarted l then ConnCount <$> srv l else None) (listeners b).

Definition ListUsers (node : Z) (b : broker) : outcome error (gmap string (gmap string string)) :=
  match RMap_Get node (userClients (reg b)) with
  | None => Err (EXerr PeerNotReady)
  | Some km => Ok (Map_Load <$> rm km)
  end.

(** The counts of [inspect]. *)
Definition inspect_counts (b : broker) : gmap Z Z * gmap string Z * gmap Z Z :=
  (KeyMap_Len <$> rm (userClients (reg b)), broker_ConnCount b,
   KeyMap_Len <$> rm (channelClients (reg b))).

(** *** The methods of [peerServer] *)

Definition peer_SendToUser (ctx : option error) (data : bytes) (targets : gmap string string)
    (b : broker) : option (outcome error (Z * Z) * broker) :=
  match coder_Unmarshal data with
  | Ok msg => '(t, s, b) ← sendToClients ctx msg targets b; Some (Ok (t, s), b)
  | Err _ => Some (Err (EXerr InvalidPeerMessage), b)
  | Panic w => Some (Panic w, b)
  end.

Definition peer_SendToAll (ctx : option error) (data : bytes) (b : broker)
  : option (outcome error (Z * Z) * broker) :=
  match coder_Unmarshal data with
  | Ok msg => '(t, s, b) ← sendToAll ctx msg b; Some (Ok (t, s), b)
  | Err _ => Some (Err (EXerr InvalidPeerMessage), b)
  | Panic w => Some (Panic w, b)
  end.

Definition peer_KickConn (targets : gmap string string) (b : broker)
  : option (outcome error unit * broker) := b ← kickConn targets b; Some (Ok tt, b).

Definition peer_IsOnline (targets : gmap string string) (b : broker)
  : option (outcome error bool * broker) := Some (Ok (isActive targets b), b).

Definition peer_StartListener (network : string) (b : broker)
  : option (outcome error unit * broker) :=
  Some (match startListener network b with
        | Ok b => (Ok tt, b) | Err e => (Err e, b) | Panic w => (Panic w, b)
        end).

Definition peer_StopListener (network : string) (b : broker)
  : option (outcome error unit * broker) :=
  r ← stopListener network b;
  Some (match r with Ok b => (Ok tt, b) | Err e => (Err e, b) | Panic w => (Panic w, b) end).

(** *** The methods of [peerClient]

    [call link id handle]: the remote call of the peer [id], whose broker handles it with
    [handle]. *)
Definition ErrUnavailable : error := EOther "unavailable".

Fixpoint attempts_of {A} (r : rpc) (id : Z)
    (handle : broker → option (outcome error A * broker)) (bs : brokers)
  : option (outcome error A * brokers) :=
  match r, bs !! id with
  | Unsent e, _ => Some (Err e, bs)
  | _, None => Some (Err ErrUnavailable, bs)
  | Delivered, Some b => '(a, b) ← handle b; Some (a, <[id := b]> bs)
  | NoReply e, Some b => '(_, b) ← handle b; Some (Err e, <[id := b]> bs)
  | Retried r, Some b => '(_, b) ← handle b; attempts_of r id handle (<[id := b]> bs)
  end.

Definition call {A} (link : Z → rpc) (id : Z)
    (handle : broker → option (outcome error A * broker)) (bs : brokers)
  : option (outcome error A * brokers) := attempts_of (link id) id handle bs.

(** A method of [peerClient]: [PeerNotReady] unless the peer is ready. *)
Definition peer_call {A} (link : Z → rpc) (p : peerClient) (id : Z)
    (handle : broker → option (outcome error A * broker)) (bs : brokers)
  : option (outcome error A * brokers) :=
  if p_ready p then call link id handle bs else Some (Err (EXerr PeerNotReady), bs).

(** [sendToUser], [sendToChannel]: the message is marshalled for the call. *)
Definition peer_send (ctx : option error) (link : Z → rpc) (m : Message)
    (cids : gmap string string) (p : peerClient) (id : Z) (bs : brokers)
  : option (outcome error (Z * Z) * brokers) :=
  if p_ready p then
    match fst (coder_Marshal 0 [] m) with
    | Ok data => call link id (peer_SendToUser ctx data cids) bs
    | Err e => Some (Err e, bs)
    | Panic w => Some (Panic w, bs)
    end
  else Some (Err (EXerr PeerNotReady), bs).

Definition peer_sendToAll (ctx : option error) (link : Z → rpc) (m : Message) (p : peerClient)
    (id : Z) (bs : brokers) : option (outcome error (Z * Z) * brokers) :=
  if p_ready p then
    match fst (coder_Marshal 0 [] m) with
    | Ok data => call link id (peer_SendToAll ctx data) bs
    | Err e => Some (Err e, bs)
    | Panic w => Some (Panic w, bs)
    end
  else Some (Err (EXerr PeerNotReady), bs).

Definition peer_isOnline (link : Z → rpc) (targets : gmap string string) (p : peerClient) (id : Z)
    (bs : brokers) : option (outcome error bool * brokers) :=
  peer_call link p id (peer_IsOnline targets) bs.

Definition peer_kickConn (link : Z → rpc) (targets : gmap string string) (p : peerClient) (id : Z)
    (bs : brokers) : option (outcome error unit * brokers) :=
  peer_call link p id (peer_KickConn targets) bs.
End broker.

(** *** Operations over the cluster *)
Section operations.
Context `{!GoRange uint8, !GoRange string, !GoRange Z}.

(** The clients under a key in one node's table: [value.Get(key)] and [cids.Load()]. *)
Definition clients_of (key : string) (km : @KeyMap string) : option (gmap string string) :=
  Map_Load <$> KeyMap_Get key km.

Definition peer_startListener (link : Z → rpc) (network : string) (p : peerClient) (id : Z)
    (bs : brokers) : option (outcome error unit * brokers) :=
  peer_call link p id (peer_StartListener network) bs.

Definition peer_stopListener (link : Z → rpc) (network : string) (p : peerClient) (id : Z)
    (bs : brokers) : option (outcome error unit * brokers) :=
  peer_call link p id (peer_StopListener network) bs.

(** Adding the counters of one answer; errors are logged only. *)
Definition add_counts (total success : Z) (r : outcome error (Z * Z)) : Z * Z :=
  match r with
  | Ok (t, s) => (i32 (total + t), i32 (success + s))
  | _ => (total, success)
  end.

(** One node of the [Range] of [SendToUser] and [SendToChannel]. *)
Definition send_node (me : Z) (b : broker) (ctx : option error) (link : Z → rpc) (m : Message)
    (key : string) (acc : option (Z * Z * brokers)) (x : Z * @KeyMap string)
  : option (Z * Z * brokers) :=
  '(total, success, bs) ← acc;
  match clients_of key x.2 with
  | None => Some (total, success, bs)
  | Some cids =>
      if decide (x.1 = me) then
        b ← bs !! me;
        '(t, s, b) ← sendToClients ctx m cids b;
        Some (add_counts total success (Ok (t, s)), <[me := b]> bs)
      else
        match RMap_Get x.1 (peers b) with
        | None => Some (total, success, bs)
        | Some p =>
            '(r, bs) ← peer_send ctx link m cids p x.1 bs;
            Some (add_counts total success r, bs)
        end
  end.

Definition SendToUser (me : Z) (ctx : option error) (link : Z → rpc) (uid : string) (m : Message)
    (bs : brokers) : option (outcome error (Z * Z) * brokers) :=
  if decide (uid = "") then Some (Err (EXerr InvalidUserID), bs)
  else
    b ← bs !! me;
    '(t, s, bs) ← fold_left (send_node me b ctx link m uid) (go_range (rm (userClients (reg b))))
                    (Some (0, 0, bs));
    Some (Ok (t, s), bs).

Definition SendToChannel (me : Z) (ctx : option error) (link : Z → rpc) (channel : string)
    (m : Message) (bs : brokers) : option (outcome error (Z * Z) * brokers) :=
  if decide (channel = "") then Some (Err (EXerr InvalidChannel), bs)
  else
    b ← bs !! me;
    '(t, s, bs) ← fold_left (send_node me b ctx link m channel)
                    (go_range (rm (channelClients (reg b)))) (Some (0, 0, bs));
    Some (Ok (t, s), bs).

(** [SendToAll]: the local connections and those of every peer. *)
Definition SendToAll (me : Z) (ctx : option error) (link : Z → rpc) (m : Message) (bs : brokers)
  : option (outcome error (Z * Z) * brokers) :=
  b ← bs !! me;
  '(t, s, b') ← sendToAll ctx m b;
  '(t, s, bs) ← fold_left (λ acc x,
      '(total, success, bs) ← acc;
      '(r, bs) ← peer_sendToAll ctx link m x.2 x.1 bs;
      Some (add_counts total success r, bs)) (go_range (rm (peers b)))
    (Some (i32 (0 + t), i32 (0 + s), <[me := b']> bs));
  Some (Ok (t, s), bs).

(** One node of the [Range] of [IsOnline]: whether a connection of the user answered. *)
Definition online_node (me : Z) (b : broker) (link : Z → rpc) (uid : string) (bs : brokers)
    (x : Z * @KeyMap string) : bool :=
  match clients_of uid x.2 with
  | None => false
  | Some cids =>
      if decide (x.1 = me) then isActive cids b
      else match RMap_Get x.1 (peers b) with
           | None => false
           | Some p =>
               match peer_isOnline link cids p x.1 bs with
               | Some (Ok true, _) => true
               | _ => false
               end
           end
  end.

(** The [Range] stops at the first such node. *)
Definition IsOnline (me : Z) (link : Z → rpc) (uid : string) (bs : brokers) : option bool :=
  b ← bs !! me; Some (existsb (online_node me b link uid bs) (go_range (rm (userClients (reg b))))).

Definition kick_node (me : Z) (b : broker) (link : Z → rpc) (uid : string)
    (acc : option brokers) (x : Z * @KeyMap string) : option brokers :=
  bs ← acc;
  match clients_of uid x.2 with
  | None => Some bs
  | Some cids =>
      if decide (x.1 = me) then
        b ← bs !! me; b ← kickConn cids b; Some (<[me := b]> bs)
      else match RMap_Get x.1 (peers b) with
           | None => Some bs
           | Some p => '(_, bs) ← peer_kickConn link cids p x.1 bs; Some bs
           end
  end.

Definition KickUser (me : Z) (link : Z → rpc) (uid : string) (bs : brokers) : option brokers :=
  b ← bs !! me;
  fold_left (kick_node me b link uid) (go_range (rm (userClients (reg b)))) (Some bs).

(** [StartListener]: this broker, then the peers until one fails.  The result is the error of
    the last call. *)
Definition StartListener (me : Z) (link : Z → rpc) (network : string) (bs : brokers)
  : option (outcome error unit * brokers) :=
  b ← bs !! me;
  match startListener network b with
  | Err e => Some (Err e, bs)
  | Panic w => Some (Panic w, bs)
  | Ok b' =>
      fold_left (λ acc x,
        '(r, bs) ← acc;
        match r with
        | Ok _ => peer_startListener link network x.2 x.1 bs
        | r => Some (r, bs)
        end) (go_range (rm (peers b))) (Some (Ok tt, <[me := b']> bs))
  end.

Definition StopListener (me : Z) (link : Z → rpc) (network : string) (bs : brokers)
  : option (outcome error unit * brokers) :=
  b ← bs !! me;
  r ← stopListener network b;
  match r with
  | Err e => Some (Err e, bs)
  | Panic w => Some (Panic w, bs)
  | Ok b' =>
      fold_left (λ acc x,
        '(r, bs) ← acc;
        match r with
        | Ok _ => peer_stopListener link network x.2 x.1 bs
        | r => Some (r, bs)
        end) (go_range (rm (peers b))) (Some (Ok tt, <[me := b']> bs))
  end.

(** *** The callbacks of the servers *)

Definition user_JoinChannel (submit : opdata → outcome error bytes) (uid : string)
    (channels : gmap string string) : outcome error bytes := submit (OpJoin (mkJoin uid channels)).

Definition user_LeaveChannel (submit : opdata → outcome error bytes) (uid : string)
    (channels : gmap string string) : outcome error bytes :=
  submit (OpLeave (mkLeave uid channels)).

(** [onUserClosed]: what is proposed to raft; the handler is told in any case. *)
Definition onUserClosed (me : Z) (submit : opdata → outcome error bytes) (id : Identity)
  : outcome error bytes := submit (OpClosed (mkUserClosed (UserID id) (ClientID id) me)).

(** The [Range] of [onUserConnect]: the client's old connections on other nodes are kicked. *)
Definition kick_old (me : Z) (b : broker) (link : Z → rpc) (id : Identity) (net : string)
    (acc : option brokers) (x : Z * @KeyMap string) : option brokers :=
  bs ← acc;
  if decide (x.1 = me) then Some bs
  else match GetKey (UserID id) (ClientID id) x.2 with
       | None => Some bs
       | Some _ =>
           match RMap_Get x.1 (peers b) with
           | None => Some bs
           | Some p =>
               '(_, bs) ← peer_kickConn link {[ClientID id := net]} p x.1 bs; Some bs
           end
       end.

(** [onUserConnect] for a CONNECT with an identity: the code, what was proposed, the brokers.
    [user_connect] and [user_channels] are the handler's [OnUserConnect] and
    [GetUserChannels], whose error is logged only. *)
Definition onUserConnect (me : Z) (link : Z → rpc) (user_connect : Connect → uint8)
    (user_channels : string → gmap string string * option error)
    (submit : opdata → outcome error bytes) (p : Connect) (net : string) (bs : brokers)
  : option (outcome error (uint8 * option bytes) * brokers) :=
  let code := user_connect p in
  if decide (code ≠ ConnectAccepted) then Some (Ok (code, None), bs)
  else
    match connect_Identity p with
    | None => Some (Panic NilDereference, bs)
    | Some id =>
        b ← bs !! me;
        bs ← fold_left (kick_old me b link id net) (go_range (rm (userClients (reg b)))) (Some bs);
        let '(chs, err) := user_channels (UserID id) in
        match submit (OpOpened (mkUserOpened (UserID id) (ClientID id) net me chs)) with
        | Ok data => Some (Ok (ConnectAccepted, Some data), bs)
        | Err _ => Some (Ok (ConnectAuthfail, None), bs)
        | Panic w => Some (Panic w, bs)
        end
    end.

(** [HandleRequest] and [onUserRequest]: the handler registered for the method. *)
Definition HandleRequest {H : Type} (method : string) (handler : H) (m : RMap string H)
  : RMap string H := snd (RMap_Set method handler m).

Definition onUserRequest (m : RMap string (Request → option Identity → outcome error bytes))
    (p : Request) (id : option Identity) : outcome error bytes :=
  match RMap_Get (Method p) m with
  | None => Err (EStatus StatusNotFound)
  | Some handler => handler p id
  end.
End operations.

(** ** Sending to the clients of one broker *)
Section deliver.
Context `{!GoRange uint8, !GoRange string}.
Context (e : error) (m : Message).

Abbreviation ctx := (Some e).

(** A connection after the message was sent to it. *)
Definition sent (c : conn) : conn :=
  match conn_SendMessage ctx m c with Some (_, c') => c' | None => c end.

(** The connection [i] is the one registered under a client id that is a target here. *)
Definition hit (net : string) (targets : gmap string string) (w : world) (i : nat) (c : conn) : bool :=
  match c_id c with
  | Some id => bool_decide (rm (conns w) !! ClientID id = Some i ∧ targets !! ClientID id = Some net)
  | None => false
  end.

Definition deliver_world (net : string) (targets : gmap string string) (w : world) : world :=
  if s_closed w then w
  else mkWorld (map_imap (λ i c, Some (if hit net targets w i c then sent c else c)) (heap w))
         (conns w) (s_closed w) (closed_ids w).

Definition deliver_listener (targets : gmap string string) (net : string) (l : listener) : listener :=
  match (if started l then srv l else None) with
  | Some w => with_srv (deliver_world net targets w) l
  | None => l
  end.

(** The specification of [sendToClients]: all at once, every target connection gets the
    message and nothing else changes. *)
Definition deliver (targets : gmap string string) (b : broker) : broker :=
  with_listeners (map_imap (λ net l, Some (deliver_listener targets net l)) (listeners b)) b.

(** Whether sending to a target succeeds. *)
Definition accepts (b : broker) (x : string * string) : bool :=
  match server_of b x.2 with
  | Some (_, w) => match SendMessage ctx x.1 m w with Some (Ok _, _) => true | _ => false end
  | None => false
  end.

Definition broker_inv (b : broker) : Prop :=
  map_Forall (λ _ l, match srv l with Some w => server_inv w | None => True end) (listeners b).

Lemma conn_SendMessage_ctx c : ∃ r c', conn_SendMessage ctx m c = Some (r, c').
Proof.
  unfold conn_SendMessage, SendPacket, pushPacket. destruct (c_closed c); [eauto|].
  destruct (marshal _); [|eauto..]. unfold Push_now.
  destruct (closed _); [simpl; eauto|]. destruct (_ && _); simpl; eauto.
Qed.

Lemma with_srv_id w l : srv l = Some w → with_srv w l = l.
Proof. destruct l. simpl. by intros ->. Qed.

Lemma deliver_world_ext net t1 t2 w :
  (∀ i c id, heap w !! i = Some c → c_id c = Some id → rm (conns w) !! ClientID id = Some i →
     (t1 !! ClientID id = Some net ↔ t2 !! ClientID id = Some net)) →
  deliver_world net t1 w = deliver_world net t2 w.
Proof.
  intros Ht. unfold deliver_world. destruct (s_closed w); [done|]. f_equal.
  apply map_eq. intros i. rewrite !map_lookup_imap.
  destruct (heap w !! i) as [c|] eqn:Ei; simpl; [|done]. do 2 f_equal.
  assert (hit net t1 w i c = hit net t2 w i c) as ->; [|done].
  unfold hit. destruct (c_id c) as [id|] eqn:Eid; [|done]. apply bool_decide_ext. naive_solver.
Qed.

Lemma deliver_world_empty net w : deliver_world net ∅ w = w.
Proof.
  destruct w as [hp cs cl ids]. unfold deliver_world. simpl. destruct cl; [done|]. f_equal.
  apply map_eq. intros i. rewrite map_lookup_imap. destruct (hp !! i) as [c|]; simpl; [|done].
  assert (hit net ∅ (mkWorld hp cs false ids) i c = false) as ->; [|done].
  unfold hit. destruct (c_id c); [|done]. apply bool_decide_eq_false.
  rewrite lookup_empty. naive_solver.
Qed.

Lemma deliver_empty b : deliver ∅ b = b.
Proof.
  destruct b as [n r ls ps]. unfold deliver, with_listeners. simpl. f_equal.
  apply map_eq. intros net. rewrite map_lookup_imap. destruct (ls !! net) as [l|]; simpl; [|done].
  f_equal. unfold deliver_listener. destruct (started l); [|done].
  destruct (srv l) as [w|] eqn:E; [|done]. rewrite deliver_world_empty. by apply with_srv_id.
Qed.

(** One more target. *)
Lemma deliver_world_insert net cid t w : server_inv w → t !! cid = None → s_closed w = false →
  match SendMessage ctx cid m (deliver_world net t w) with
  | Some (r, w') =>
      w' = deliver_world net (<[cid := net]> t) w ∧
      ∃ w0, SendMessage ctx cid m w = Some (r, w0)
  | None => False
  end.
Proof.
  intros [_ Hr] Ht Hcl. unfold SendMessage. unfold deliver_world at 1 2 3 4. rewrite Hcl.
  cbn [s_closed conns]. unfold RMap_Get.
  destruct (rm (conns w) !! cid) as [i|] eqn:Ei.
  - destruct (Hr _ _ Ei) as (c & id & Hc & Hid & Ecid & _).
    assert (hit net t w i c = false) as Hno.
    { unfold hit. rewrite Hid. apply bool_decide_eq_false. rewrite Ecid, Ht. naive_solver. }
    unfold on_conn. cbn [heap]. rewrite map_lookup_imap, Hc. simpl. rewrite Hno.
    destruct (conn_SendMessage_ctx c) as (r & c' & E). rewrite E. simpl.
    split; [|by eexists]. unfold deliver_world. rewrite Hcl. unfold put_conn. simpl. f_equal.
    apply map_eq. intros j. destruct (decide (j = i)) as [->|Hj].
    + rewrite lookup_insert_eq, map_lookup_imap, Hc. simpl.
      assert (hit net (<[cid := net]> t) w i c = true) as ->.
      { unfold hit. rewrite Hid. apply bool_decide_eq_true. by rewrite Ecid, lookup_insert_eq. }
      unfold sent. by rewrite E.
    + rewrite lookup_insert_ne, !map_lookup_imap by done.
      destruct (heap w !! j) as [d|] eqn:Hd; simpl; [|done]. do 2 f_equal.
      assert (hit net t w j d = hit net (<[cid := net]> t) w j d) as ->; [|done].
      unfold hit. destruct (c_id d) as [id'|] eqn:Hid'; [|done]. apply bool_decide_ext.
      destruct (decide (ClientID id' = cid)) as [E'|Hne].
      * rewrite E', Ei. naive_solver.
      * by rewrite lookup_insert_ne.
  - split; [|by eexists]. unfold deliver_world at 1. rewrite <-(deliver_world_ext net t).
    + unfold deliver_world. by rewrite Hcl.
    + intros i c id Hc Hid Hreg. assert (ClientID id ≠ cid) by congruence.
      by rewrite lookup_insert_ne.
Qed.

Lemma server_of_deliver t b net : server_of (deliver t b) net =
  (λ lw, (with_srv (deliver_world net t lw.2) lw.1, deliver_world net t lw.2)) <$> server_of b net.
Proof.
  unfold server_of, deliver. simpl. rewrite map_lookup_imap.
  destruct (listeners b !! net) as [l|]; simpl; [|done]. unfold deliver_listener, ISStarted.
  destruct (started l) eqn:Es; simpl.
  - destruct (srv l) as [w|] eqn:Ew; simpl; [by rewrite Es|by rewrite Es, Ew].
  - by rewrite Es.
Qed.

Lemma server_of_Some b net l w : server_of b net = Some (l, w) →
  listeners b !! net = Some l ∧ started l = true ∧ srv l = Some w.
Proof.
  unfold server_of, ISStarted. destruct (listeners b !! net) as [l'|]; simpl; [|done].
  destruct (started l') eqn:Es; [|done]. destruct (srv l') as [w'|] eqn:Ew; simpl; [|done].
  by intros [= <- <-].
Qed.

Lemma deliver_listener_other cid net net' t l : t !! cid = None → net' ≠ net →
  deliver_listener (<[cid := net]> t) net' l = deliver_listener t net' l.
Proof.
  intros Ht Hne. unfold deliver_listener. destruct (if started l then srv l else None); [|done].
  f_equal. apply deliver_world_ext. intros i c id _ _ _.
  destruct (decide (ClientID id = cid)) as [->|Hd].
  - rewrite lookup_insert_eq, Ht. naive_solver.
  - by rewrite lookup_insert_ne.
Qed.

Lemma deliver_world_closed net t w : s_closed w = true → deliver_world net t w = w.
Proof. intros Hc. unfold deliver_world. by rewrite Hc. Qed.

Lemma s_closed_deliver net t w : s_closed (deliver_world net t w) = s_closed w.
Proof. unfold deliver_world. by destruct (s_closed w) eqn:E. Qed.

(** Delivering to one more target changes only its listener. *)
Lemma deliver_insert cid net t b l w : t !! cid = None → server_of b net = Some (l, w) →
  put_server net l (deliver_world net (<[cid := net]> t) w) (deliver t b) =
    deliver (<[cid := net]> t) b.
Proof.
  intros Ht Hs. apply server_of_Some in Hs as (Hl & Hst & Hw).
  unfold put_server, deliver, with_listeners. simpl. f_equal. apply map_eq. intros net'.
  destruct (decide (net' = net)) as [->|Hne].
  - rewrite lookup_insert_eq, map_lookup_imap, Hl. simpl. unfold deliver_listener.
    by rewrite Hst, Hw.
  - rewrite lookup_insert_ne, !map_lookup_imap by done.
    destruct (listeners b !! net') as [l'|]; simpl; [|done]. f_equal.
    symmetry. by apply deliver_listener_other.
Qed.

Lemma deliver_insert_none cid net t b : t !! cid = None → server_of b net = None →
  deliver t b = deliver (<[cid := net]> t) b.
Proof.
  intros Ht Hs. unfold deliver, with_listeners. f_equal. apply map_eq. intros net'.
  rewrite !map_lookup_imap. destruct (listeners b !! net') as [l'|] eqn:El; simpl; [|done]. f_equal.
  destruct (decide (net' = net)) as [->|Hne]; [|symmetry; by apply deliver_listener_other].
  unfold server_of in Hs. rewrite El in Hs. simpl in Hs. unfold ISStarted in Hs.
  unfold deliver_listener. destruct (started l'); [|done]. by destruct (srv l').
Qed.

Lemma send_one_deliver t s P b cid net : broker_inv b → P !! cid = None →
  send_one ctx m (Some (i32 t, i32 s, deliver P b)) (cid, net) =
    Some (i32 (t + 1), i32 (s + (if accepts b (cid, net) then 1 else 0)),
          deliver (<[cid := net]> P) b).
Proof.
  intros Hb HP. unfold send_one. cbn [mbind option_bind fst snd].
  rewrite server_of_deliver, wrapS_add_idemp by lia. unfold accepts. cbn [fst snd].
  destruct (server_of b net) as [[l w]|] eqn:Hs; simpl.
  - destruct (server_of_Some _ _ _ _ Hs) as (Hl & Hst & Hw).
    pose proof (Hb _ _ Hl) as Hinv. simpl in Hinv. rewrite Hw in Hinv.
    destruct (s_closed w) eqn:Hcl.
    + unfold SendMessage. rewrite s_closed_deliver, Hcl. simpl. rewrite Z.add_0_r. f_equal.
      f_equal. change (put_server net (with_srv ?x l)) with (put_server net l).
      rewrite <-deliver_insert with (l := l) (w := w) by done.
      by rewrite !deliver_world_closed.
    + pose proof (deliver_world_insert net cid P w Hinv HP Hcl) as Hstep.
      destruct (SendMessage ctx cid m (deliver_world net P w)) as [[r w']|]; [|done].
      destruct Hstep as [-> [w0 ->]]. simpl.
      change (put_server net (with_srv ?x l)) with (put_server net l).
      rewrite deliver_insert by done. destruct r; [|by rewrite Z.add_0_r..].
      by rewrite wrapS_add_idemp.
  - rewrite Z.add_0_r. by rewrite <-deliver_insert_none.
Qed.

Lemma sendToClients_fold l : ∀ t s P b, broker_inv b → NoDup l.*1 →
  (∀ cid, cid ∈ l.*1 → P !! cid = None) →
  fold_left (send_one ctx m) l (Some (i32 t, i32 s, deliver P b)) =
    Some (i32 (t + zlen l), i32 (s + zlen (List.filter (accepts b) l)),
          deliver (list_to_map l ∪ P) b).
Proof.
  induction l as [|[cid net] l IH]; intros t s P b Hb Hnd HP; cbn [fold_left].
  { rewrite zlen_nil, !Z.add_0_r. change (list_to_map []) with (∅ : gmap string string).
    by rewrite (left_id_L ∅ (∪)). }
  apply NoDup_cons in Hnd as [Hni Hnd]. cbn [fmap list_fmap] in *.
  rewrite send_one_deliver by (try done; apply HP; set_solver).
  rewrite IH; [|done|done|].
  - f_equal. f_equal; [f_equal|].
    + rewrite zlen_cons. f_equal. lia.
    + cbn [List.filter]. destruct (accepts b (cid, net)); [rewrite zlen_cons|]; f_equal; lia.
    + f_equal. cbn [list_to_map foldr curry]. simpl.
      rewrite <-insert_union_l, insert_union_r; [done|].
      by apply not_elem_of_list_to_map_1.
  - intros c Hc. rewrite lookup_insert_ne; [apply HP; set_solver|]. intros ->. done.
Qed.

Lemma sendToClients_deliver cids b : broker_inv b →
  sendToClients ctx m cids b =
    Some (i32 (Z.of_nat (size cids)), i32 (zlen (List.filter (accepts b) (go_range cids))),
          deliver cids b).
Proof.
  intros Hb. unfold sendToClients.
  change (Some (0, 0, b)) with (Some (i32 0, i32 0, b)). rewrite <-(deliver_empty b) at 1.
  rewrite sendToClients_fold; [|done|apply NoDup_go_range|intros; apply lookup_empty].
  rewrite list_to_map_go_range, (right_id_L ∅ (∪)). unfold zlen. by rewrite go_range_length.
Qed.

(** The same message again. *)
Lemma sent_keeps c : c_id (sent c) = c_id c ∧ c_closed (sent c) = c_closed c.
Proof.
  unfold sent. destruct (conn_SendMessage_ctx c) as (r & c' & E). rewrite E. by apply push_keeps in E.
Qed.

Lemma deliver_world_inv net t w : server_inv w → server_inv (deliver_world net t w).
Proof.
  intros [Hl Hr]. unfold deliver_world. destruct (s_closed w); [done|]. split; [done|]. intros cid i Ei.
  destruct (Hr cid i Ei) as (c & id & Hc & Hid & ? & ?). simpl. rewrite map_lookup_imap, Hc. simpl.
  destruct (sent_keeps c) as [Eid Ecl]. destruct (hit net t w i c); [|by exists c, id].
  exists (sent c), id. split_and!; congruence.
Qed.

Lemma broker_inv_deliver t b : broker_inv b → broker_inv (deliver t b).
Proof.
  intros Hb net l. simpl. rewrite map_lookup_imap. destruct (listeners b !! net) as [l0|] eqn:E; [|done].
  simpl. intros [= <-]. specialize (Hb net l0 E). simpl in Hb. unfold deliver_listener.
  destruct (started l0); [|exact Hb].
  destruct (srv l0) as [w|] eqn:Ew; simpl; [by apply deliver_world_inv|by rewrite Ew].
Qed.

Definition deliver_times (k : nat) (targets : gmap string string) (b : broker) : broker :=
  Nat.iter k (deliver targets) b.

Lemma broker_inv_times k t b : broker_inv b → broker_inv (deliver_times k t b).
Proof. intros Hb. induction k; [done|]. by apply broker_inv_deliver. Qed.

Lemma deliver_times_empty k b : deliver_times k ∅ b = b.
Proof. induction k as [|k IH]; [done|]. simpl. rewrite IH. apply deliver_empty. Qed.

Lemma deliver_times_S k t b : deliver_times k t (deliver t b) = deliver_times (S k) t b.
Proof. unfold deliver_times. by rewrite Nat.iter_succ_r. Qed.
End deliver.

(** ** Routing over the cluster *)
Section routing.
Context `{!GoRange uint8, !GoRange string, !GoRange Z}.
Context (e : error) (m : Message) (me : Z) (b : broker) (link : Z → rpc)
  (tbl : table string) (key : string) (bs : brokers).

Abbreviation ctx := (Some e).

(** The client ids and networks registered under the key at a node. *)
Definition targets (n : Z) : gmap string string := t_fields tbl n key.

(** Whether the call to a node is handled there, and whether its answer comes back. *)
Definition handled (n : Z) : bool :=
  bool_decide (n = me) ||
  match RMap_Get n (peers b), link n with
  | None, _ | _, Unsent _ => false
  | Some p, _ => p_ready p && bool_decide (is_Some (bs !! n))
  end.

Definition answered (n : Z) : bool := handled n && (bool_decide (n = me) || replied (link n)).

(** How many times it is handled. *)
Definition deliveries (n : Z) : nat :=
  if handled n then if decide (n = me) then 1 else handlings (link n) else 0.

(** The specification of [SendToUser] and [SendToChannel]: every broker whose call is handled
    delivers to its targets, as often as it handles it. *)
Definition deliver_to (L : list Z) : brokers :=
  map_imap (λ n bn, Some (if bool_decide (n ∈ L) then deliver_times e m (deliveries n) (targets n) bn else bn)) bs.

Definition attempts (n : Z) : Z :=
  if answered n then Z.of_nat (size (targets n)) else 0.

Definition successes (n : Z) : Z :=
  if answered n then
    match bs !! n with
    | Some bn =>
        zlen (List.filter (accepts e m (deliver_times e m (pred (deliveries n)) (targets n) bn))
                (go_range (targets n)))
    | None => 0
    end
  else 0.

Lemma deliver_to_lookup L n : n ∉ L → deliver_to L !! n = bs !! n.
Proof.
  intros Hn. unfold deliver_to. rewrite map_lookup_imap.
  destruct (bs !! n); simpl; [|done]. by rewrite bool_decide_eq_false_2.
Qed.

Lemma deliver_to_skip L n : handled n = false ∨ targets n = ∅ → deliver_to L = deliver_to (n :: L).
Proof.
  intros Hn. apply map_eq. intros k. unfold deliver_to. rewrite !map_lookup_imap.
  destruct (bs !! k) as [bk|]; simpl; [|done]. f_equal. destruct (decide (k = n)) as [->|Hk].
  - assert (deliver_times e m (deliveries n) (targets n) bk = bk) as ->; [|by repeat case_bool_decide].
    unfold deliveries. destruct Hn as [-> | ->]; [done|apply deliver_times_empty].
  - assert (bool_decide (k ∈ L) = bool_decide (k ∈ n :: L)) as ->; [|done].
    apply bool_decide_ext. set_solver.
Qed.

Lemma deliver_to_insert L n bn : n ∉ L → bs !! n = Some bn →
  <[n := deliver_times e m (deliveries n) (targets n) bn]> (deliver_to L) = deliver_to (n :: L).
Proof.
  intros Hn Hb. apply map_eq. intros k. unfold deliver_to.
  destruct (decide (k = n)) as [->|Hk].
  - rewrite lookup_insert_eq, map_lookup_imap, Hb. simpl.
    by rewrite bool_decide_eq_true_2 by set_solver.
  - rewrite lookup_insert_ne, !map_lookup_imap by done.
    destruct (bs !! k) as [bk|]; simpl; [|done].
    assert (bool_decide (k ∈ L) = bool_decide (k ∈ n :: L)) as ->; [|done].
    apply bool_decide_ext. set_solver.
Qed.

Lemma wrapS_add2 t s : i32 (i32 t + i32 s) = i32 (t + s).
Proof. rewrite wrapS_add_idemp, Z.add_comm, wrapS_add_idemp, Z.add_comm by lia. done. Qed.

Lemma targets_at n km : rm tbl !! n = Some km →
  targets n = default ∅ (clients_of key km).
Proof.
  intros Hn.
  refine (eq_trans (f_equal (λ o : option KeyMap, from_option mm ∅ (o ≫= RMap_Get key)) Hn) _).
  unfold clients_of, KeyMap_Get, Map_Load. simpl.
  by destruct (RMap_Get key km).
Qed.

Hypothesis brokers_ok : map_Forall (λ _ bn, broker_inv bn) bs.
Hypothesis message_ok : enc_wf m ∧ zlen (enc_of m) < 2 ^ 63.

Lemma peer_SendToUser_deliver data cids bn : coder_Unmarshal data = Ok m → broker_inv bn →
  peer_SendToUser ctx data cids bn = Some (Ok (i32 (Z.of_nat (size cids)),
    i32 (zlen (List.filter (accepts e m bn) (go_range cids)))), deliver e m cids bn).
Proof using Type.
  clear. intros Eu Hb. unfold peer_SendToUser. rewrite Eu. by rewrite sendToClients_deliver.
Qed.

(** The attempts of a call that sends: the message is delivered at each, the last one answers. *)
Lemma attempts_deliver r n data cids bs1 bn :
  coder_Unmarshal data = Ok m → bs1 !! n = Some bn → broker_inv bn →
  ∃ a, attempts_of r n (peer_SendToUser ctx data cids) bs1 =
         Some (a, <[n := deliver_times e m (handlings r) cids bn]> bs1) ∧
    if replied r
    then a = Ok (i32 (Z.of_nat (size cids)), i32 (zlen (List.filter
               (accepts e m (deliver_times e m (pred (handlings r)) cids bn)) (go_range cids))))
    else ∃ x, a = Err x.
Proof using Type.
  clear brokers_ok. intros Eu. revert bs1 bn. induction r as [|x|x|r IH]; intros bs1 bn Hn Hb; cbn [attempts_of handlings replied]; rewrite ?Hn;
    rewrite ?(peer_SendToUser_deliver data cids bn Eu Hb); cbn [mbind option_bind].
  - by eexists.
  - exists (Err x). split; [|by exists x]. simpl. by rewrite insert_id.
  - exists (Err x). split; [done|by exists x].
  - destruct (IH (<[n := deliver e m cids bn]> bs1) (deliver e m cids bn)) as (a & E & Ha);
      [apply lookup_insert_eq|by apply broker_inv_deliver|].
    exists a. rewrite E, insert_insert_eq, deliver_times_S. split; [done|].
    destruct (replied r) eqn:Er; [|done]. rewrite Ha. destruct (handlings r) eqn:Eh; [by destruct r|].
    cbn [pred]. by rewrite deliver_times_S.
Qed.

Lemma handled_peer n p : n ≠ me → RMap_Get n (peers b) = Some p →
  handled n = match link n with Unsent _ => false | _ => p_ready p && bool_decide (is_Some (bs !! n)) end.
Proof using Type.
  clear. intros Hne Hp. unfold handled. rewrite bool_decide_eq_false_2, Hp by done. by destruct (link n).
Qed.

(** The remote part: the answer of a peer and the brokers afterwards. *)
Lemma peer_send_deliver p n L cids : n ≠ me → n ∉ L → RMap_Get n (peers b) = Some p →
  targets n = cids →
  ∃ r, peer_send ctx link m cids p n (deliver_to L) = Some (r, deliver_to (n :: L)) ∧
    ∀ t s, add_counts (i32 t) (i32 s) r = (i32 (t + attempts n), i32 (s + successes n)).
Proof using brokers_ok message_ok.
  intros Hne HL Hp Ht. destruct message_ok as [Hm Hl].
  destruct (Marshal_pool_independent 0 [] m) as (data & pool & Ed & _ & _ & Eu); [by constructor|done..|].
  pose proof (handled_peer n p Hne Hp) as Hh.
  assert (handled n = false → ∀ x : error, ∃ r, Some (Err x, deliver_to L) = Some (r, deliver_to (n :: L)) ∧
    ∀ t s, add_counts (i32 t) (i32 s) r = (i32 (t + attempts n), i32 (s + successes n))) as Hno.
  { intros Hf x. eexists. split; [by rewrite <-deliver_to_skip by (by left)|]. intros t s.
    unfold attempts, successes, answered. rewrite Hf. simpl. by rewrite !Z.add_0_r. }
  unfold peer_send. rewrite Ed. simpl fst.
  destruct (p_ready p) eqn:Er; [|apply Hno; rewrite Hh; by destruct (link n)].
  unfold call. destruct (bs !! n) as [bn|] eqn:Hb.
  2: { rewrite bool_decide_eq_false_2 in Hh by (by intros [? ?]).
       assert (∃ x, attempts_of (link n) n (peer_SendToUser ctx data cids) (deliver_to L) = Some (Err x, deliver_to L))
         as [x ->] by (destruct (link n); simpl; rewrite ?deliver_to_lookup, ?Hb by done; by eexists).
       apply Hno. rewrite Hh. by destruct (link n). }
  rewrite bool_decide_eq_true_2 in Hh by done.
  destruct (attempts_deliver (link n) n data cids (deliver_to L) bn Eu) as (a & -> & Ha);
    [by rewrite deliver_to_lookup|by eapply brokers_ok|].
  destruct (handled n) eqn:Ehn.
  - exists a. assert (deliveries n = handlings (link n)) as Hd by (unfold deliveries; by rewrite Ehn, decide_False).
    split; [by rewrite <-Ht, <-Hd, deliver_to_insert|]. intros t s.
    unfold attempts, successes, answered. rewrite Ehn, (bool_decide_eq_false_2 (n = me)), Hb, Hd, Ht by done.
    simpl. destruct (replied (link n)); [|destruct Ha as [x ->]; simpl; by rewrite !Z.add_0_r].
    rewrite Ha. simpl. by rewrite !wrapS_add2.
  - destruct (link n) as [|x|x|r]; try done. simpl in *. destruct Ha as [x' ->].
    rewrite insert_id by (by rewrite deliver_to_lookup). by apply Hno.
Qed.

Hypothesis me_here : bs !! me = Some b.

Lemma send_node_deliver t s L n km : n ∉ L → rm tbl !! n = Some km →
  send_node me b ctx link m key (Some (i32 t, i32 s, deliver_to L)) (n, km) =
    Some (i32 (t + attempts n), i32 (s + successes n), deliver_to (n :: L)).
Proof using me_here brokers_ok message_ok.
  intros HL Hkm. pose proof (targets_at n km Hkm) as Ht. unfold send_node.
  cbn [mbind option_bind fst snd]. destruct (clients_of key km) as [cids|]; simpl in Ht.
  2: { rewrite <-deliver_to_skip by (by right). unfold attempts, successes. rewrite Ht.
       change (Z.of_nat (size (∅ : gmap string string))) with 0.
       assert (go_range (∅ : gmap string string) = []) as ->
         by (apply nil_length_inv; by rewrite go_range_length).
       change (zlen (List.filter (accepts e m _) [])) with 0.
       destruct (answered n); [destruct (bs !! n)|]; by rewrite !Z.add_0_r. }
  destruct (decide (n = me)) as [->|Hne].
  - rewrite deliver_to_lookup, me_here by done. simpl.
    rewrite sendToClients_deliver by (by eapply brokers_ok). simpl.
    assert (handled me = true) as Hh by (unfold handled; by rewrite bool_decide_eq_true_2).
    assert (deliveries me = 1%nat) as Hd by (unfold deliveries; by rewrite Hh, decide_True).
    pose proof (deliver_to_insert L me b HL me_here) as Hins. rewrite Hd in Hins. simpl in Hins.
    rewrite <-Ht, Hins. unfold attempts, successes, answered.
    rewrite Hh, bool_decide_eq_true_2, me_here, Hd by done. simpl. by rewrite !wrapS_add2.
  - destruct (RMap_Get n (peers b)) as [p|] eqn:Hp; simpl.
    + destruct (peer_send_deliver p n L cids Hne HL Hp Ht) as (r & -> & Hr). simpl. by rewrite Hr.
    + assert (handled n = false) as Hh by (unfold handled; by rewrite bool_decide_eq_false_2, Hp).
      rewrite <-deliver_to_skip by (by left). unfold attempts, successes, answered. rewrite Hh.
      simpl. by rewrite !Z.add_0_r.
Qed.

Definition sum_over (f : Z → Z) (l : list (Z * @KeyMap string)) : Z :=
  foldr (λ x n, f x.1 + n) 0 l.

Lemma send_nodes_deliver l : ∀ t s L, NoDup l.*1 → (∀ n, n ∈ l.*1 → n ∉ L) →
  (∀ x, x ∈ l → rm tbl !! x.1 = Some x.2) →
  ∃ L', fold_left (send_node me b ctx link m key) l (Some (i32 t, i32 s, deliver_to L)) =
    Some (i32 (t + sum_over attempts l), i32 (s + sum_over successes l), deliver_to L') ∧
    ∀ n, n ∈ L' ↔ n ∈ L ∨ n ∈ l.*1.
Proof using me_here brokers_ok message_ok.
  induction l as [|[n km] l IH]; intros t s L Hnd HL Hl; cbn [fold_left].
  - exists L. unfold sum_over. simpl. rewrite !Z.add_0_r. set_solver.
  - apply NoDup_cons in Hnd as [Hni Hnd]. cbn [fmap list_fmap] in *.
    rewrite send_node_deliver by (first [apply HL; set_solver | apply (Hl (n, km)); set_solver]).
    destruct (IH (t + attempts n) (s + successes n) (n :: L)) as (L' & -> & HL').
    + done.
    + intros k Hk. apply not_elem_of_cons. split; [by intros ->|]. apply HL. set_solver.
    + intros x Hx. apply Hl. set_solver.
    + exists L'. unfold sum_over. simpl. rewrite !Z.add_assoc. split; [done|]. set_solver.
Qed.

(** The whole [Range]. *)
Lemma send_all_deliver :
  fold_left (send_node me b ctx link m key) (go_range (rm tbl)) (Some (0, 0, bs)) =
    Some (i32 (sum_over attempts (go_range (rm tbl))), i32 (sum_over successes (go_range (rm tbl))),
          map_imap (λ n bn, Some (deliver_times e m (deliveries n) (targets n) bn)) bs).
Proof using me_here brokers_ok message_ok.
  assert (deliver_to [] = bs) as E0.
  { apply map_eq. intros n. apply deliver_to_lookup, not_elem_of_nil. }
  rewrite <-E0 at 1. change (Some (0, 0, deliver_to [])) with (Some (i32 0, i32 0, deliver_to [])).
  destruct (send_nodes_deliver (go_range (rm tbl)) 0 0 []) as (L & -> & HL).
  - apply NoDup_go_range.
  - intros n _. apply not_elem_of_nil.
  - intros [n km] Hx. by apply elem_of_go_range in Hx.
  - do 2 f_equal. apply map_eq. intros n. unfold deliver_to. rewrite !map_lookup_imap.
    destruct (bs !! n) as [bn|]; simpl; [|done]. f_equal.
    destruct (decide (n ∈ L)) as [Hn|Hn].
    + by rewrite bool_decide_eq_true_2.
    + rewrite bool_decide_eq_false_2 by done. simpl.
      assert (targets n = ∅) as ->; [|by rewrite deliver_times_empty].
      unfold targets, t_fields. destruct (rm tbl !! n) as [km|] eqn:E; [|done].
      exfalso. apply Hn, HL. right. apply list_elem_of_fmap. exists (n, km).
      split; [done|]. by apply elem_of_go_range.
Qed.
End routing.

(** ** Kicking *)
Section kick.
Context `{!GoRange uint8, !GoRange string, !GoRange Z}.

(** The connection a broker has registered for a client id on a network. *)
Definition registered (b : broker) (net cid : string) : option nat :=
  '(_, w) ← server_of b net; GetConn cid w.

(** [b'] is [b] without the registrations of [targets]. *)
Definition kicked (targets : gmap string string) (b b' : broker) : Prop :=
  broker_inv b' ∧ reg b' = reg b ∧ peers b' = peers b ∧
  ∀ net cid, registered b' net cid =
    if decide (targets !! cid = Some net) then None else registered b net cid.

(** Kicking a client deletes its registration and no other. *)
Lemma KickConn_spec cid w k w' : server_inv w → KickConn cid w = Some (k, w') →
  server_inv w' ∧ rm (conns w') = delete cid (rm (conns w)).
Proof.
  intros Hw. unfold KickConn, RMap_Get. destruct (rm (conns w) !! cid) as [i|] eqn:Ei.
  2: { intros [= <- <-]. by rewrite delete_id. }
  destruct (CloseCode CloseKickedOut i w) as [w1|] eqn:E; [|done]. simpl. intros [= _ <-].
  split; [by eapply server_inv_CloseCode|]. destruct Hw as [_ Hr].
  destruct (Hr _ _ Ei) as (c & id & Hc & Hid & Ecid & Hcl).
  revert E. unfold CloseCode. destruct (on_conn _ _ w) as [[r w2]|] eqn:E; [|done]. simpl.
  intros [= <-]. apply on_conn_heap in E as (c0 & c' & E0 & Ep & ->).
  apply pushPacket_keeps in Ep as (Eid & Ecl & _). rewrite E0 in Hc. injection Hc as ->.
  rewrite (conn_Close_open i c' id); [|by apply lookup_insert_eq|congruence|congruence].
  simpl. by rewrite rm_Delete, Ecid.
Qed.

Lemma server_of_put b net l w w' net' : server_of b net = Some (l, w) →
  server_of (put_server net l w' b) net' =
    if decide (net' = net) then Some (with_srv w' l, w') else server_of b net'.
Proof.
  intros Hs. apply server_of_Some in Hs as (Hl & Hst & Hw). unfold server_of, put_server. simpl.
  destruct (decide (net' = net)) as [->|Hne].
  - rewrite lookup_insert_eq. simpl. unfold ISStarted. simpl. by rewrite Hst.
  - by rewrite lookup_insert_ne.
Qed.

Lemma broker_inv_server b net l w : broker_inv b → server_of b net = Some (l, w) → server_inv w.
Proof.
  intros Hb Hs. apply server_of_Some in Hs as (Hl & _ & Hw). specialize (Hb _ _ Hl).
  simpl in Hb. by rewrite Hw in Hb.
Qed.

Lemma broker_inv_put b net l w : broker_inv b → server_inv w → broker_inv (put_server net l w b).
Proof. intros Hb Hw. unfold broker_inv, put_server. simpl. by apply map_Forall_insert_2. Qed.

Lemma kicked_refl b : broker_inv b → kicked ∅ b b.
Proof.
  intros Hb. split_and!; [done..|]. intros net cid. by rewrite decide_False by (by rewrite lookup_empty).
Qed.

Lemma kick_one_spec P b0 b b' cid net : kicked P b0 b → P !! cid = None →
  kick_one (Some b) (cid, net) = Some b' → kicked (<[cid := net]> P) b0 b'.
Proof.
  intros (Hb & Hreg & Hpeers & Hk) HP. unfold kick_one. cbn [mbind option_bind fst snd].
  assert (∀ net' c, registered b' net' c =
      (if decide (c = cid ∧ net' = net) then None else registered b net' c) →
    registered b' net' c = if decide (<[cid := net]> P !! c = Some net') then None
                           else registered b0 net' c) as Hstep.
  { intros net' c ->. rewrite Hk. destruct (decide (c = cid)) as [->|Hc].
    - rewrite lookup_insert_eq, HP. destruct (decide (net' = net)) as [->|Hn].
      + by rewrite !decide_True.
      + rewrite !decide_False; naive_solver.
    - rewrite lookup_insert_ne by done. rewrite (decide_False (P := c = cid ∧ _)) by naive_solver.
      done. }
  destruct (server_of b net) as [[l w]|] eqn:Hs.
  - destruct (KickConn cid w) as [[k w']|] eqn:E; [|done]. simpl. intros [= <-].
    pose proof (broker_inv_server _ _ _ _ Hb Hs) as Hw.
    destruct (KickConn_spec _ _ _ _ Hw E) as [Hw' Hd].
    split_and!; [by apply broker_inv_put|done|done|]. intros net' c. apply Hstep.
    unfold registered. rewrite (server_of_put b net l w) by done.
    destruct (decide (net' = net)) as [->|Hn]; [|by rewrite decide_False by naive_solver].
    rewrite Hs. simpl. unfold GetConn, RMap_Get. rewrite Hd.
    destruct (decide (c = cid)) as [->|Hc].
    + by rewrite lookup_delete_eq, decide_True.
    + by rewrite lookup_delete_ne, decide_False by naive_solver.
  - intros [= <-]. split_and!; [done..|]. intros net' c. apply Hstep.
    destruct (decide (c = cid ∧ net' = net)) as [[-> ->]|]; [|done].
    unfold registered. by rewrite Hs.
Qed.

Lemma kick_fold l : ∀ P b0 b b', kicked P b0 b → NoDup l.*1 → (∀ cid, cid ∈ l.*1 → P !! cid = None) →
  fold_left kick_one l (Some b) = Some b' → kicked (list_to_map l ∪ P) b0 b'.
Proof.
  induction l as [|[cid net] l IH]; intros P b0 b b' Hk Hnd HP; cbn [fold_left].
  - intros [= <-]. change (list_to_map []) with (∅ : gmap string string).
    by rewrite (left_id_L ∅ (∪)).
  - apply NoDup_cons in Hnd as [Hni Hnd]. cbn [fmap list_fmap fst] in *.
    destruct (kick_one (Some b) (cid, net)) as [b1|] eqn:E.
    + apply (kick_one_spec P b0) in E; [|done|apply HP; set_solver]. intros Hf.
      apply (IH _ _ _ _ E) in Hf; [|done|].
      * change (list_to_map ((cid, net) :: l)) with
          (<[cid := net]> (list_to_map l) : gmap string string).
        rewrite <-insert_union_l, insert_union_r; [done|]. by apply not_elem_of_list_to_map_1.
      * intros c Hc. rewrite lookup_insert_ne; [apply HP; set_solver|]. by intros ->.
    + intros Hf. exfalso. revert Hf. clear. induction l; [done|]. simpl. done.
Qed.

Lemma kickConn_spec targets b b' : broker_inv b → kickConn targets b = Some b' →
  kicked targets b b'.
Proof.
  intros Hb Hk. unfold kickConn in Hk.
  apply (kick_fold _ ∅ b) in Hk; [|by apply kicked_refl|apply NoDup_go_range|intros; apply lookup_empty].
  by rewrite list_to_map_go_range, (right_id_L ∅ (∪)) in Hk.
Qed.
End kick.

(** ** Kicking over the cluster

    One step kicks [ts n] at the node [n] when its call is handled. *)
Section kick_nodes.
Context `{!GoRange uint8, !GoRange string, !GoRange Z}.
Context (me : Z) (b : broker) (link : Z → rpc) (bs : brokers) (ts : Z → gmap string string).

Definition kicked_at (L : list Z) (bs' : brokers) : Prop :=
  ∀ n, match bs !! n, bs' !! n with
       | Some bn, Some bn' =>
           if decide (n ∈ L ∧ handled me b link bs n = true) then kicked (ts n) bn bn' else bn' = bn
       | None, None => True
       | _, _ => False
       end.

Lemma kicked_at_fresh L bs' n : kicked_at L bs' → n ∉ L → bs' !! n = bs !! n.
Proof.
  intros Hk Hn. specialize (Hk n). destruct (bs !! n), (bs' !! n); try done.
  rewrite decide_False in Hk by naive_solver. by subst.
Qed.

Lemma kicked_at_skip L bs' n : kicked_at L bs' → n ∉ L →
  handled me b link bs n = false ∨ (ts n = ∅ ∧ map_Forall (λ _ bn, broker_inv bn) bs) →
  kicked_at (n :: L) bs'.
Proof.
  intros Hk HL Hn k. pose proof (kicked_at_fresh _ _ _ Hk HL) as Hf. specialize (Hk k).
  destruct (bs !! k) as [bk|] eqn:Ek, (bs' !! k) as [bk'|] eqn:Ek'; try done.
  destruct (decide (k = n)) as [->|Hkn].
  - assert (bk' = bk) as -> by congruence. destruct Hn as [Hn|[Ht Hb]].
    + rewrite decide_False; [done|]. rewrite Hn. naive_solver.
    + rewrite Ht. destruct (decide (n ∈ n :: L ∧ _)); [|done]. apply kicked_refl. by eapply Hb.
  - destruct (decide (k ∈ L ∧ handled me b link bs k = true)).
    + rewrite decide_True; [done|]. set_solver.
    + rewrite decide_False; [done|]. set_solver.
Qed.

Lemma kicked_at_put L bs' n bn bn' : kicked_at L bs' → bs !! n = Some bn →
  handled me b link bs n = true → kicked (ts n) bn bn' → kicked_at (n :: L) (<[n := bn']> bs').
Proof.
  intros Hk Hb Hh Hbn k. specialize (Hk k). destruct (decide (k = n)) as [->|Hkn].
  - rewrite lookup_insert_eq, Hb. rewrite decide_True by set_solver. done.
  - rewrite lookup_insert_ne by done. destruct (bs !! k), (bs' !! k); try done.
    destruct (decide (k ∈ L ∧ handled me b link bs k = true)).
    + rewrite decide_True; [done|]. set_solver.
    + rewrite decide_False; [done|]. set_solver.
Qed.

Hypothesis brokers_ok : map_Forall (λ _ bn, broker_inv bn) bs.

(** Kicking again changes nothing more. *)
Lemma kicked_again t b1 b2 b3 : kicked t b1 b2 → kicked t b2 b3 → kicked t b1 b3.
Proof using Type.
  clear. intros (_ & R1 & P1 & K1) (I2 & R2 & P2 & K2). split_and!; [done|congruence..|].
  intros net cid. rewrite K2, K1. by case_decide.
Qed.

Lemma attempts_kick r n t bs1 bn a bs2 : bs1 !! n = Some bn → broker_inv bn →
  attempts_of r n (peer_KickConn t) bs1 = Some (a, bs2) →
  (∃ x, r = Unsent x) ∧ bs2 = bs1 ∨ ∃ bn', kicked t bn bn' ∧ bs2 = <[n := bn']> bs1.
Proof using Type.
  clear. revert bs1 bn. induction r as [|x|x|r IH]; intros bs1 bn Hn Hb; simpl; rewrite ?Hn; unfold peer_KickConn.
  2: { intros [= _ <-]. eauto. }
  all: destruct (kickConn t bn) as [bn'|] eqn:E; [|done]; simpl; pose proof (kickConn_spec _ _ _ Hb E) as Hk.
  1, 2: intros [= _ <-]; eauto.
  intros Hr. apply (IH (<[n := bn']> bs1) bn') in Hr; [|apply lookup_insert_eq|by destruct Hk].
  right. destruct Hr as [[_ ->]|(bn2 & Hk2 & ->)]; [by exists bn'|].
  exists bn2. split; [by eapply kicked_again|]. apply insert_insert_eq.
Qed.

(** A call of [kickConn] on a peer. *)
Lemma peer_kick_spec L bs1 bs2 n p r : kicked_at L bs1 → n ∉ L → n ≠ me →
  RMap_Get n (peers b) = Some p → peer_kickConn link (ts n) p n bs1 = Some (r, bs2) →
  kicked_at (n :: L) bs2.
Proof using brokers_ok.
  intros Hk HL Hne Hp. unfold peer_kickConn, peer_call.
  assert (handled me b link bs n = match link n with Unsent _ => false
            | _ => p_ready p && bool_decide (is_Some (bs !! n)) end) as Hh.
  { unfold handled. rewrite bool_decide_eq_false_2, Hp by done. by destruct (link n). }
  destruct (p_ready p) eqn:Er.
  2: { intros [= <- <-]. apply kicked_at_skip; [done..|]. left. rewrite Hh. by destruct (link n). }
  unfold call. pose proof (kicked_at_fresh _ _ _ Hk HL) as Hf.
  destruct (bs !! n) as [bn|] eqn:Hb.
  2: { rewrite bool_decide_eq_false_2 in Hh by (intros [? ?]; done). intros E.
       assert (bs2 = bs1) as -> by (destruct (link n); simpl in E; rewrite ?Hf in E; by injection E as _ <-).
       apply kicked_at_skip; [done..|]. left. rewrite Hh. by destruct (link n). }
  rewrite bool_decide_eq_true_2 in Hh by done. pose proof (brokers_ok _ _ Hb) as Hbn. intros E.
  destruct (attempts_kick _ _ _ _ _ _ _ Hf Hbn E) as [[[x El] ->]|(bn' & Hkn & ->)].
  - apply kicked_at_skip; [done..|]. left. by rewrite Hh, El.
  - destruct (handled me b link bs n) eqn:Ehn; [by eapply kicked_at_put|].
    destruct (link n); try done. simpl in E. injection E as _ E. rewrite <-E. by apply kicked_at_skip; auto.
Qed.

(** A loop whose body kicks at the nodes it visits. *)
Lemma kick_loop (body : option brokers → Z * @KeyMap string → option brokers) l :
  (∀ x, body None x = None) →
  (∀ L bs1 bs2 x, x ∈ l → kicked_at L bs1 → x.1 ∉ L → body (Some bs1) x = Some bs2 →
     kicked_at (x.1 :: L) bs2) →
  NoDup l.*1 → ∀ bs', fold_left body l (Some bs) = Some bs' →
  ∃ L, kicked_at L bs' ∧ ∀ n, n ∈ L ↔ n ∈ l.*1.
Proof using Type.
  clear brokers_ok. intros Hnone Hbody.
  assert (∀ l', l' ⊆ l → NoDup l'.*1 → ∀ L bs1 bs', kicked_at L bs1 → (∀ n, n ∈ l'.*1 → n ∉ L) →
    fold_left body l' (Some bs1) = Some bs' →
    ∃ L', kicked_at L' bs' ∧ ∀ n, n ∈ L' ↔ n ∈ L ∨ n ∈ l'.*1) as Hgen.
  { induction l' as [|x l' IH]; intros Hsub Hnd L bs1 bs' Hk HL; cbn [fold_left].
    - intros [= <-]. exists L. set_solver.
    - apply NoDup_cons in Hnd as [Hni Hnd]. cbn [fmap list_fmap] in *.
      destruct (body (Some bs1) x) as [bs2|] eqn:E.
      + intros Hf. destruct (IH ltac:(set_solver) Hnd (x.1 :: L) bs2 bs') as (L' & ? & ?).
        * apply (Hbody L bs1); [set_solver|done|apply HL; set_solver|done].
        * intros n Hn. apply not_elem_of_cons. split; [by intros ->|]. apply HL. set_solver.
        * done.
        * exists L'. split; [done|]. set_solver.
      + intros Hf. exfalso. revert Hf. clear -Hnone. induction l' as [|y l' IH]; [done|].
        simpl. by rewrite Hnone. }
  intros Hnd bs' Hf. destruct (Hgen l ltac:(set_solver) Hnd [] bs bs') as (L & Hk & HL).
  - intros n. destruct (bs !! n); [|done]. rewrite decide_False; [done|]. set_solver.
  - set_solver.
  - done.
  - exists L. split; [done|]. set_solver.
Qed.
End kick_nodes.

(** ** Online checks *)
Section online.
Context `{!GoRange string}.
Context (me : Z) (b : broker) (link : Z → rpc) (bs : brokers) (uid : string).

(** Some client among [cids] is connected at the broker. *)
Lemma isActive_iff (cids : gmap string string) bn : isActive cids bn = true ↔
  ∃ cid net l w, cids !! cid = Some net ∧ server_of bn net = Some (l, w) ∧ IsActive cid w = true.
Proof.
  unfold isActive. rewrite existsb_exists. split.
  - intros ([cid net] & Hin & Ha). apply list_elem_of_In, elem_of_go_range in Hin.
    destruct (server_of bn net) as [[l w]|] eqn:Hs; [|done]. by exists cid, net, l, w.
  - intros (cid & net & l & w & Hg & Hs & Ha). exists (cid, net). split.
    + by apply list_elem_of_In, elem_of_go_range.
    + by rewrite Hs.
Qed.

Lemma isActive_empty bn : isActive ∅ bn = false.
Proof.
  apply not_true_is_false. rewrite isActive_iff. intros (cid & net & l & w & Hg & _).
  by rewrite lookup_empty in Hg.
Qed.

(** Asking changes nothing, however often it is done. *)
Lemma attempts_online r n cids bs1 bn : bs1 !! n = Some bn →
  ∃ a, attempts_of r n (peer_IsOnline cids) bs1 = Some (a, bs1) ∧
    if replied r then a = Ok (isActive cids bn) else ∃ x, a = Err x.
Proof using Type.
  clear. intros Hn. induction r as [|x|x|r (a & E & Ha)]; simpl; rewrite ?Hn; simpl; rewrite ?insert_id by done; eauto.
Qed.

(** One node of the loop. *)
Lemma online_node_iff n km : bs !! me = Some b →
  online_node me b link uid bs (n, km) = true ↔ ∃ bn, bs !! n = Some bn ∧
    answered me b link bs n = true ∧ isActive (default ∅ (clients_of uid km)) bn = true.
Proof.
  intros Hme. unfold online_node, answered, handled. cbn [fst snd].
  destruct (clients_of uid km) as [cids|]; cbn [default from_option].
  2: { split; [done|]. intros (bn & _ & _ & Ha). by rewrite isActive_empty in Ha. }
  destruct (decide (n = me)) as [->|Hne].
  - rewrite Hme, bool_decide_eq_true_2 by done. split; [by exists b|]. by intros (bn & [= <-] & _ & ?).
  - rewrite bool_decide_eq_false_2 by done.
    destruct (RMap_Get n (peers b)) as [p|]; [|split; [done|by intros (? & _ & ? & _)]].
    unfold peer_isOnline, peer_call, call. destruct (p_ready p).
    2: { split; [done|]. intros (bn & _ & Ha & _). by destruct (link n). }
    destruct (bs !! n) as [bn|] eqn:Hb.
    2: { split; [|by intros (? & ? & _)]. by destruct (link n); simpl; rewrite ?Hb. }
    destruct (attempts_online (link n) n cids bs bn Hb) as (a & -> & Ha). simpl.
    destruct (link n) as [|x|x|r]; simpl in *; [..|destruct (replied r)];
      first [rewrite Ha; split; [intros Ho; exists bn; by destruct (isActive cids bn)|by intros (bn' & [= <-] & _ & ->)]
            |destruct Ha as [x' ->]; split; [done|by intros (? & _ & ? & _)]].
Qed.
End online.

(** ** Properties of the broker *)

(** C4 (delivery): sending to a user (or a channel) under a context that ends always returns.
    Every broker the call reaches - this one, and each peer that is known, ready and whose call
    is handled - hands the message to exactly the connections registered there for the user's
    client ids on the network the registry names, and changes nothing else: once at this broker, and
    at a peer as often as the peer handles the call, which is once unless gRPC sends it again.  The
    counters are the numbers of targets and of accepted messages at the brokers that answered,
    as 32-bit integers.  A failing peer does not stop the others.  Only an empty id is an
    error. *)
Theorem messages_delivered `{!GoRange uint8, !GoRange string, !GoRange Z}
    (e : error) (m : Message) (me : Z) (b : broker) (link : Z → rpc) (bs : brokers) (key : string) :
  bs !! me = Some b → map_Forall (λ _ bn, broker_inv bn) bs →
  enc_wf m → zlen (enc_of m) < 2 ^ 63 →
  let result tbl :=
    (i32 (sum_over (attempts me b link tbl key bs) (go_range (rm tbl))),
     i32 (sum_over (successes e m me b link tbl key bs) (go_range (rm tbl)))) in
  let after tbl :=
    map_imap (λ n bn, Some (deliver_times e m (deliveries me b link bs n) (t_fields tbl n key) bn)) bs in
  SendToUser me (Some e) link key m bs =
    (if decide (key = "") then Some (Err (EXerr InvalidUserID), bs)
     else Some (Ok (result (userClients (reg b))), after (userClients (reg b)))) ∧
  SendToChannel me (Some e) link key m bs =
    (if decide (key = "") then Some (Err (EXerr InvalidChannel), bs)
     else Some (Ok (result (channelClients (reg b))), after (channelClients (reg b)))).
Proof.
  intros Hme Hbs Hm Hl result after. unfold SendToUser, SendToChannel. rewrite Hme. simpl.
  split; (destruct (decide (key = "")); [done|]); by rewrite send_all_deliver.
Qed.

(** Two brokers: alice's phone is on broker 1 over tcp, her pad on broker 2 over ws. *)
Definition listener_with (net : string) (logins : list Connect) : listener :=
  mkListener 80 net true true (Some (world_after echo_handlers (SAccept <$> logins))).

Definition alice_registry : registry :=
  @apply_events range_forward range_forward
    (EvOp <$> [OpOpened (mkUserOpened "alice" "phone" "tcp" 1 {["news" := ""]});
               OpOpened (mkUserOpened "alice" "pad" "ws" 2 ∅);
               OpOpened (mkUserOpened "bob" "desk" "tcp" 1 ∅)]) empty_registry.

Definition peers_of (n : Z) : RMap Z peerClient :=
  snd (RMap_Set n (mkPeer "10.0.0.1:4567" true) RMap_empty).

Definition broker_one : broker :=
  mkBroker 1 alice_registry
    {["tcp" := listener_with "tcp" [login_of "alice" "phone"; login_of "bob" "desk"]]} (peers_of 2).

Definition broker_two : broker :=
  mkBroker 2 alice_registry
    {["ws" := listener_with "ws" [login_of "alice" "pad"]; "udp" := NewListener "udp" 81 false]}
    (peers_of 1).

Definition two_brokers : brokers := {[ 1 := broker_one; 2 := broker_two ]}.

Lemma two_brokers_1 : two_brokers !! 1 = Some broker_one.
Proof. apply lookup_insert_eq. Qed.

Lemma two_brokers_2 : two_brokers !! 2 = Some broker_two.
Proof. unfold two_brokers. rewrite lookup_insert_ne by done. apply lookup_singleton_eq. Qed.

Lemma world_after_inv logins : server_inv (world_after echo_handlers (SAccept <$> logins)).
Proof.
  unfold world_after. destruct (server_run _ _ _ _) as [w|] eqn:E; simpl; [|apply server_inv_empty].
  by eapply server_inv_run; [apply server_inv_empty|].
Qed.

Lemma two_brokers_inv : map_Forall (λ _ bn, broker_inv bn) two_brokers.
Proof.
  unfold two_brokers. apply map_Forall_insert_2; [|apply map_Forall_singleton];
    unfold broker_inv, broker_one, broker_two; cbn [listeners].
  - apply map_Forall_singleton. exact (world_after_inv [login_of "alice" "phone"; login_of "bob" "desk"]).
  - apply map_Forall_insert_2; [|by apply map_Forall_singleton].
    exact (world_after_inv [login_of "alice" "pad"]).
Qed.

Definition hello : Message := NewMessage [x68; x69].

Definition queued (bs : brokers) (n : Z) (net cid : string) : nat :=
  match bs !! n ≫= λ b, '(_, w) ← server_of b net; i ← GetConn cid w; heap w !! i with
  | Some c => length (tasks (c_queue c))
  | None => O
  end.

Definition after_hello : option (outcome error (Z * Z) * brokers) :=
  @SendToUser range_forward range_forward range_forward 1 (Some EDeadline) (λ _, Delivered)
    "alice" hello two_brokers.

Lemma messages_delivered_witness :
  @enc_wf Message _ (@Message_laws range_forward) hello ∧
  option_map fst after_hello = Some (Ok (2, 2)) ∧
  match after_hello with
  | Some (_, bs) => queued bs 1 "tcp" "phone" = 1%nat ∧ queued bs 2 "ws" "pad" = 1%nat ∧
                    queued bs 1 "tcp" "desk" = 0%nat
  | None => False
  end.
Proof.
  split; [vm_decide|]. split.
  - unfold after_hello.
    rewrite (proj1 (@messages_delivered range_forward range_forward range_forward EDeadline hello 1
      broker_one (λ _, Delivered) two_brokers "alice" two_brokers_1 two_brokers_inv
      ltac:(vm_decide) ltac:(vm_compute; reflexivity))).
    rewrite decide_False by done. vm_compute. reflexivity.
  - vm_compute. done.
Defined.

(** A user is reported online exactly when some broker that answers - this
    one, or a known, ready and reachable peer - has an open connection registered under one of
    the user's client ids on the network the registry names. *)
Theorem online_iff_connected `{!GoRange uint8, !GoRange string, !GoRange Z}
    (me : Z) (b : broker) (link : Z → rpc) (bs : brokers) (uid : string) :
  bs !! me = Some b →
  IsOnline me link uid bs = Some true ↔
    ∃ n bn cid net l w, bs !! n = Some bn ∧ answered me b link bs n = true ∧
      t_get (userClients (reg b)) n uid cid = Some net ∧
      server_of bn net = Some (l, w) ∧ IsActive cid w = true.
Proof.
  intros Hme. unfold IsOnline. rewrite Hme. cbn [mbind option_bind].
  set (users := userClients (reg b)).
  assert (∀ n km cid, rm users !! n = Some km →
    default ∅ (clients_of uid km) !! cid = t_get users n uid cid) as Hcids.
  { intros n km cid Hkm. rewrite <-(targets_at users uid n km Hkm). apply t_fields_get. }
  split.
  - intros [= E]. apply existsb_exists in E as ([n km] & Hin & Ho).
    apply list_elem_of_In, elem_of_go_range in Hin.
    apply online_node_iff in Ho as (bn & Hbn & Ha & Hi); [|done].
    apply isActive_iff in Hi as (cid & net & l & w & Hg & Hs & Hi).
    rewrite (Hcids n) in Hg by done. exists n, bn, cid, net, l, w. done.
  - intros (n & bn & cid & net & l & w & Hbn & Ha & Hg & Hs & Hi). f_equal. apply existsb_exists.
    assert (is_Some (rm users !! n)) as [km Hkm].
    { unfold t_get in Hg. destruct (rm users !! n); [by eexists|done]. }
    exists (n, km). split; [by apply list_elem_of_In, elem_of_go_range|].
    apply online_node_iff; [done|]. exists bn. split_and!; [done..|]. apply isActive_iff.
    exists cid, net, l, w. by rewrite (Hcids n) by done.
Qed.

Lemma online_iff_connected_witness :
  two_brokers !! 1 = Some broker_one ∧
  @IsOnline range_forward range_forward 1 (λ _, Delivered) "alice" two_brokers = Some true.
Proof.
  split; [exact two_brokers_1|].
  apply (@online_iff_connected range_forward range_forward range_forward 1 broker_one);
    [exact two_brokers_1|].
  exists 2, broker_two, "pad", "ws".
  destruct (server_of broker_two "ws") as [[l w]|] eqn:Hs; [|by vm_compute in Hs].
  exists l, w. split_and!; [exact two_brokers_2|vm_compute; reflexivity|vm_compute; reflexivity|done|].
  assert (option_map (λ x, IsActive "pad" x.2) (server_of broker_two "ws") = Some true) as E
    by (vm_compute; reflexivity).
  rewrite Hs in E. cbn [option_map] in E. by apply (inj Some) in E.
Defined.

(** If [KickUser] returns, then at this broker and at every peer that
    handled the call, the user's clients are no longer registered on the networks the registry
    names, no other registration was touched, and the other brokers are as before. *)
Theorem kicked_user_offline `{!GoRange uint8, !GoRange string, !GoRange Z}
    (me : Z) (b : broker) (link : Z → rpc) (bs bs' : brokers) (uid : string) :
  bs !! me = Some b → map_Forall (λ _ bn, broker_inv bn) bs →
  KickUser me link uid bs = Some bs' →
  ∀ n bn, bs !! n = Some bn → ∃ bn', bs' !! n = Some bn' ∧
    if handled me b link bs n
    then ∀ net cid, registered bn' net cid =
           if decide (t_get (userClients (reg b)) n uid cid = Some net) then None
           else registered bn net cid
    else bn' = bn.
Proof.
  intros Hme Hbs. unfold KickUser. rewrite Hme. cbn [mbind option_bind]. intros Hk n bn Hbn.
  pose (ts := λ k, t_fields (userClients (reg b)) k uid).
  apply (kick_loop me b link bs ts) in Hk as (L & HL & Hin); [|done| |apply NoDup_go_range].
  - specialize (HL n). rewrite Hbn in HL. destruct (bs' !! n) as [bn'|]; [|done].
    exists bn'. split; [done|].
    destruct (decide (n ∈ L ∧ handled me b link bs n = true)) as [[_ Hh]|Hno].
    + rewrite Hh. destruct HL as (_ & _ & _ & Hr). intros net cid. rewrite Hr. unfold ts.
      by rewrite t_fields_get.
    + subst bn'. destruct (handled me b link bs n) eqn:Hh; [|done]. intros net cid.
      rewrite decide_False; [done|]. unfold t_get. intros Hg. apply Hno. split; [|done].
      apply Hin, list_elem_of_fmap.
      destruct (rm (userClients (reg b)) !! n) as [km|] eqn:Hkm; [|done].
      exists (n, km). split; [done|]. by apply elem_of_go_range.
  - intros L bs1 bs2 [k km] Hin HL Hk1. apply elem_of_go_range in Hin. cbn [fst snd] in *.
    unfold kick_node. cbn [mbind option_bind fst snd].
    pose proof (targets_at (userClients (reg b)) uid k km Hin) as Ht. fold (ts k) in Ht.
    change (targets (userClients (reg b)) uid k) with (ts k) in Ht.
    destruct (clients_of uid km) as [cids|]; cbn [default from_option id] in Ht.
    2: { intros [= <-]. apply kicked_at_skip; auto. }
    destruct (decide (k = me)) as [->|Hne].
    + rewrite (kicked_at_fresh _ _ _ _ _ _ _ _ HL Hk1), Hme. simpl.
      destruct (kickConn cids b) as [b'|] eqn:E; [|done]. simpl. intros [= <-].
      eapply kicked_at_put; [done..| |].
      * unfold handled. by rewrite bool_decide_eq_true_2.
      * rewrite Ht. apply kickConn_spec; [by eapply Hbs|done].
    + destruct (RMap_Get k (peers b)) as [p|] eqn:Hp.
      * destruct (peer_kickConn link cids p k bs1) as [[r bs3]|] eqn:E; [|done]. simpl.
        intros [= <-]. rewrite <-Ht in E. by eapply peer_kick_spec.
      * intros [= <-]. apply kicked_at_skip; [done..|]. left. unfold handled.
        by rewrite bool_decide_eq_false_2, Hp.
Qed.

Definition after_kick : option brokers :=
  @KickUser range_forward range_forward range_forward 1 (λ _, Delivered) "alice" two_brokers.

Lemma kicked_user_offline_witness :
  two_brokers !! 1 = Some broker_one ∧
  match after_kick with
  | Some bs => ∃ b2, bs !! 2 = Some b2 ∧ registered b2 "ws" "pad" = None
  | None => False
  end.
Proof.
  split; [exact two_brokers_1|].
  destruct after_kick as [bs|] eqn:E; [|by vm_compute in E].
  destruct (@kicked_user_offline range_forward range_forward range_forward 1 broker_one
    (λ _, Delivered) two_brokers bs "alice" two_brokers_1 two_brokers_inv E 2 broker_two
    two_brokers_2) as (b2 & Hb2 & Hk).
  exists b2. split; [done|].
  assert (handled 1 broker_one (λ _, Delivered) two_brokers 2 = true) as Hh
    by (vm_compute; reflexivity).
  rewrite Hh in Hk. rewrite (Hk "ws" "pad"). rewrite decide_True; [done|]. vm_compute. reflexivity.
Defined.

(** When an accepted client logs in over the network [net], each reachable
    other broker where the registry has the client id is asked to kick it from the listener of
    [net] - the network of the new connection.  So the old connection loses its registration
    exactly if it used the same network; one over another network stays registered.  The
    proposal to raft carries the user, the client, the network, this node and the channels. *)
Theorem login_kicks_same_network `{!GoRange uint8, !GoRange string, !GoRange Z}
    (me : Z) (b : broker) (link : Z → rpc) (bs bs' : brokers) (user_connect : Connect → uint8)
    (user_channels : string → gmap string string * option error)
    (submit : opdata → outcome error bytes) (p : Connect) (id : Identity) (net : string)
    (r : outcome error (uint8 * option bytes)) :
  bs !! me = Some b → map_Forall (λ _ bn, broker_inv bn) bs →
  connect_Identity p = Some id → user_connect p = ConnectAccepted →
  onUserConnect me link user_connect user_channels submit p net bs = Some (r, bs') →
  r = match submit (OpOpened (mkUserOpened (UserID id) (ClientID id) net me
                      (fst (user_channels (UserID id))))) with
      | Ok data => Ok (ConnectAccepted, Some data)
      | Err _ => Ok (ConnectAuthfail, None)
      | Panic w => Panic w
      end ∧
  ∀ n bn, bs !! n = Some bn → ∃ bn', bs' !! n = Some bn' ∧
    ∀ old_net cid, registered bn' old_net cid =
      if decide (n ≠ me ∧ handled me b link bs n = true ∧ cid = ClientID id ∧ old_net = net ∧
                 is_Some (t_get (userClients (reg b)) n (UserID id) (ClientID id)))
      then None else registered bn old_net cid.
Proof.
  intros Hme Hbs Hid Hacc. unfold onUserConnect. rewrite Hacc, decide_False, Hid, Hme by auto.
  cbn [mbind option_bind]. destruct (fold_left _ _ _) as [bs1|] eqn:Hk; [|done]. cbn [mbind option_bind].
  destruct (user_channels (UserID id)) as [chs err] eqn:Ech. cbn [fst]. intros Hr.
  assert (bs' = bs1) as -> by (destruct (submit _); by injection Hr).
  split; [destruct (submit _); injection Hr; congruence|]. clear Hr.
  pose (ts := λ k : Z, if decide (k ≠ me ∧ is_Some (t_get (userClients (reg b)) k (UserID id) (ClientID id)))
                       then {[ClientID id := net]} else (∅ : gmap string string)).
  apply (kick_loop me b link bs ts) in Hk as (L & HL & Hin); [|done| |apply NoDup_go_range].
  - intros n bn Hbn. specialize (HL n). rewrite Hbn in HL. destruct (bs1 !! n) as [bn'|]; [|done].
    exists bn'. split; [done|]. intros old_net cid.
    destruct (decide (n ∈ L ∧ handled me b link bs n = true)) as [[_ Hh]|Hno].
    + destruct HL as (_ & _ & _ & ->). unfold ts.
      destruct (decide (n ≠ me ∧ is_Some _)) as [[Hn Hg]|Hg].
      * rewrite lookup_singleton. destruct (decide (ClientID id = cid)) as [<-|Hc].
        -- destruct (decide (net = old_net)) as [<-|Ho]; [by rewrite !decide_True|].
           rewrite !decide_False; naive_solver.
        -- rewrite !decide_False; naive_solver.
      * rewrite lookup_empty, !decide_False; naive_solver.
    + subst bn'. rewrite decide_False; [done|]. intros (_ & Hh & _ & _ & Hg). apply Hno.
      split; [|done]. apply Hin, list_elem_of_fmap. unfold t_get in Hg.
      destruct (rm (userClients (reg b)) !! n) as [km|] eqn:Hkm; [|by destruct Hg].
      exists (n, km). split; [done|]. by apply elem_of_go_range.
  - intros L bs2 bs3 [k km] Hkm HL Hk1. apply elem_of_go_range in Hkm. cbn [fst snd] in *.
    unfold kick_old. cbn [mbind option_bind fst snd].
    assert (t_get (userClients (reg b)) k (UserID id) (ClientID id) =
            GetKey (UserID id) (ClientID id) km) as Hg by (by apply t_get_at).
    destruct (decide (k = me)) as [->|Hne].
    { intros [= <-]. apply kicked_at_skip; [done..|]. right. split; [|done]. unfold ts.
      by rewrite decide_False by naive_solver. }
    destruct (GetKey (UserID id) (ClientID id) km) as [old|].
    2: { intros [= <-]. apply kicked_at_skip; [done..|]. right. split; [|done]. unfold ts.
         rewrite decide_False; [done|]. rewrite Hg. by intros [_ [? ?]]. }
    assert (ts k = {[ClientID id := net]}) as Hts.
    { unfold ts. rewrite decide_True; [done|]. rewrite Hg. by eauto. }
    destruct (RMap_Get k (peers b)) as [pc|] eqn:Hp.
    + destruct (peer_kickConn link {[ClientID id := net]} pc k bs2) as [[r' bs4]|] eqn:E; [|done].
      simpl. intros [= <-]. rewrite <-Hts in E. by eapply peer_kick_spec.
    + intros [= <-]. apply kicked_at_skip; [done..|]. left. unfold handled.
      by rewrite bool_decide_eq_false_2, Hp.
Qed.

(** Alice's pad, on broker 2 over ws, logs in on broker 1 over tcp. *)
Definition after_login : option (outcome error (uint8 * option bytes) * brokers) :=
  @onUserConnect range_forward range_forward range_forward 1 (λ _, Delivered)
    (λ _, ConnectAccepted) (λ _, (∅, None)) (λ _, Ok []) (login_of "alice" "pad") "tcp" two_brokers.

Lemma login_kicks_same_network_witness :
  match after_login with
  | Some (r, bs) => ∃ b2, bs !! 2 = Some b2 ∧ registered b2 "ws" "pad" = Some 0%nat
  | None => False
  end.
Proof.
  destruct after_login as [[r bs]|] eqn:E; [|by vm_compute in E].
  destruct (@login_kicks_same_network range_forward range_forward range_forward 1 broker_one
    (λ _, Delivered) two_brokers bs (λ _, ConnectAccepted) (λ _, (∅, None)) (λ _, Ok [])
    (login_of "alice" "pad") (mkIdentity "alice" "pad" "") "tcp" r
    two_brokers_1 two_brokers_inv eq_refl eq_refl E) as (_ & Hk).
  destruct (Hk 2 broker_two two_brokers_2) as (b2 & Hb2 & Hr). exists b2. split; [done|].
  rewrite (Hr "ws" "pad"). rewrite decide_False; [vm_compute; reflexivity|].
  by intros (_ & _ & _ & ? & _).
Defined.

(** Expelling everybody panics when some listener was never started. *)
Theorem expel_unstarted `{!GoRange uint8, !GoRange string} (b : broker) net l :
  listeners b = {[net := l]} → srv l = None →
  broker_ExpelAllConns b = Some (Panic NilDereference).
Proof.
  intros Hl Hs. unfold broker_ExpelAllConns. rewrite Hl.
  assert (go_range ({[net := l]} : gmap string listener) = [(net, l)]) as ->.
  { apply Permutation_singleton_r. rewrite go_range_perm. by rewrite map_to_list_singleton. }
  simpl. unfold Listener_ExpelAllConns. by rewrite Hs.
Qed.
