(* ===== verification/Raft.v ===== *)
(** * The consensus group of a broker (src/cluster: cluster.go, cluster_raft.go, peer_client.go)

    The raft library, its storage and gRPC are third-party code: the calls made to the library are
    recorded in order, the results it returns are parameters; the discovery is an interface
    ([DiscoveryApi]).  What is modelled is
    what the cluster does around them: joining and leaving nodes, starting raft, applying
    committed entries, soft states and snapshots, compacting the log. *)
From S2P Require Import Prelude Errors Coder Packet Safe RaftOps Registry Snapshot Server Broker.

(** What the cluster uses of [discovery.Discovery] when it stops: an error or a panic.  Both
    implementations close a channel, so that a second call panics ([Multicast], [Lease]). *)
Class DiscoveryApi (D : Type) := { disc_Shutdown : D → (option error * D) + go_panic }.

Class DiscoveryLaws (D : Type) `{!DiscoveryApi D} :=
  shutdown_once : ∀ d err d', disc_Shutdown d = inl (err, d') → ∃ w, disc_Shutdown d' = inr w.

(** The calls of the raft library. *)
Inductive raft_call :=
| StartNode (ids : list Z)
| Propose (data : bytes)
| ProposeAddNode (nodeID ccID : Z)
| ProposeRemoveNode (nodeID ccID : Z)
| CreateSnapshot (index : Z)
| Compact (index : Z)
| ReportUnreachable (id : Z)
| ReportSnapshot (id : Z) (finished : bool)
| StopNode.

(** A committed entry; [EConf None] is a configuration change that cannot be unmarshalled. *)
Inductive conf_type := ConfAddNode | ConfRemoveNode | ConfOther.
Record conf_change := mkConf { cc_type : conf_type; cc_node : Z }.
Inductive entry_data := ENormal (data : bytes) | EConf (cc : option conf_change) | EOtherType.
Record entry := mkEntry { e_index : Z; e_data : entry_data }.

Definition ErrCompacted : error := EOther "requested index is unavailable due to compaction".

Section cluster.
Context {CS : Type}.   (* raftpb.ConfState *)

Record cluster := mkCluster {
  node : broker;                    (* the local broker, with the peers *)
  raft : bool;                      (* c.raft is not nil *)
  size : Z;
  ready : bool;
  leader : Z;
  confState : option CS;
  appliedIndex : Z;
  snapshotIndex : Z;
  confChangeCount : Z;
  readyCalls : nat;                 (* calls of broker.onClusterReady *)
  raft_log : list raft_call
}.

(** [newCluster]. *)
Definition newCluster (b : broker) (clusterSize : Z) : cluster :=
  mkCluster b false clusterSize false 0 None 0 0 0 0 [].

Definition with_node (b : broker) (c : cluster) : cluster :=
  mkCluster b (raft c) (size c) (ready c) (leader c) (confState c) (appliedIndex c)
    (snapshotIndex c) (confChangeCount c) (readyCalls c) (raft_log c).
Definition with_size (s : Z) (c : cluster) : cluster :=
  mkCluster (node c) (raft c) s (ready c) (leader c) (confState c) (appliedIndex c)
    (snapshotIndex c) (confChangeCount c) (readyCalls c) (raft_log c).
Definition with_leader (l : Z) (r : bool) (c : cluster) : cluster :=
  mkCluster (node c) (raft c) (size c) r l (confState c) (appliedIndex c)
    (snapshotIndex c) (confChangeCount c) (readyCalls c) (raft_log c).
Definition with_conf (cs : option CS) (c : cluster) : cluster :=
  mkCluster (node c) (raft c) (size c) (ready c) (leader c) cs (appliedIndex c)
    (snapshotIndex c) (confChangeCount c) (readyCalls c) (raft_log c).
Definition with_indices (a s : Z) (c : cluster) : cluster :=
  mkCluster (node c) (raft c) (size c) (ready c) (leader c) (confState c) a s
    (confChangeCount c) (readyCalls c) (raft_log c).
Definition with_call (x : raft_call) (c : cluster) : cluster :=
  mkCluster (node c) (raft c) (size c) (ready c) (leader c) (confState c) (appliedIndex c)
    (snapshotIndex c) (confChangeCount c) (readyCalls c) (raft_log c ++ [x]).
Definition with_started (x : list Z) (c : cluster) : cluster :=
  mkCluster (node c) true (size c) (ready c) (leader c) (confState c) (appliedIndex c)
    (snapshotIndex c) (confChangeCount c) (readyCalls c) (raft_log c ++ [StartNode x]).
Definition with_count (n : Z) (c : cluster) : cluster :=
  mkCluster (node c) (raft c) (size c) (ready c) (leader c) (confState c) (appliedIndex c)
    (snapshotIndex c) n (readyCalls c) (raft_log c).

Definition cl_peers (c : cluster) : RMap Z peerClient := peers (node c).
Definition self (c : cluster) : Z := nodeId (node c).

Definition GetPeer (id : Z) (c : cluster) : option peerClient := RMap_Get id (cl_peers c).
Definition IsLeader (c : cluster) : bool := leader c =? self c.
Definition Leader (c : cluster) : Z := leader c.
Definition cluster_IsReady (c : cluster) : bool := ready c.
Definition Size (c : cluster) : Z := size c.
Definition IsIDRemoved (id : Z) (c : cluster) : bool := bool_decide (GetPeer id c = None).

Definition cluster_Submit `{!GoRange string} (op : opdata) (c : cluster)
  : outcome error unit * cluster :=
  match fst (SubmitOperation (raft c) 0 [] op) with
  | Ok data => (Ok tt, with_call (Propose data) c)
  | Err e => (Err e, c)
  | Panic w => (Panic w, c)
  end.

(** ** Membership *)

(** [peerClient.connect], given whether [grpc.NewClient] succeeds for an address; a failed one
    is retried by a timer. *)
Definition peer_connect (dial : string → bool) (p : peerClient) : peerClient :=
  if p_ready p then p else mkPeer (p_addr p) (dial (p_addr p)).

Definition newPeerClient (addr : string) : peerClient := mkPeer addr false.

Definition peer_Close (p : peerClient) : peerClient := mkPeer (p_addr p) false.

Definition updateAddr (dial : string → bool) (addr : string) (p : peerClient) : peerClient :=
  if decide (p_addr p = addr) then p else peer_connect dial (mkPeer addr false).

(** [addNode] and [removeNode]; [reply] is what [ProposeConfChange] returns. *)
Definition addNode (reply : option error) (id : Z) (c : cluster) : outcome error unit * cluster :=
  if negb (raft c) then (Err (EXerr RaftNodeNotReady), c)
  else
    let c := with_count (u64 (confChangeCount c + 1)) c in
    (match reply with None => Ok tt | Some e => Err e end,
     with_call (ProposeAddNode id (confChangeCount c)) c).

Definition removeNode (reply : option error) (id : Z) (c : cluster) : outcome error unit * cluster :=
  if negb (raft c) then (Err (EXerr RaftNodeNotReady), c)
  else
    let c := with_count (u64 (confChangeCount c + 1)) c in
    (match reply with None => Ok tt | Some e => Err e end,
     with_call (ProposeRemoveNode id (confChangeCount c)) c).

Definition put_peer (id : Z) (p : peerClient) (c : cluster) : cluster :=
  with_node (with_peers (snd (RMap_Set id p (cl_peers c))) (node c)) c.

Definition AddBroker (dial : string → bool) (reply : option error) (id : Z) (addr : string)
    (c : cluster) : outcome error unit * cluster :=
  if id =? self c then (Ok tt, c)
  else match GetPeer id c with
       | Some p => (Ok tt, put_peer id (updateAddr dial addr p) c)
       | None =>
           let c := put_peer id (peer_connect dial (newPeerClient addr)) c in
           if RMap_Len (cl_peers c) =? i32 (size c - 1) then (Ok tt, c)
           else if negb (IsLeader c) then (Ok tt, c)
           else addNode reply id c
       end.

Definition KickBroker (reply : option error) (id : Z) (c : cluster)
  : outcome error unit * cluster :=
  let c := if id =? self c then with_leader (leader c) false c else c in
  removeNode reply id c.

(** [startRaft]: [make([]raft.Peer, c.size)] has [c.size] zero peers before the others. *)
Definition startRaft `{!GoRange Z} (c : cluster) : outcome error cluster :=
  if raft c then Ok c
  else if size c <? 0 then Panic MakeSlice
  else match replicate (Z.to_nat (size c)) 0 with
       | [] => Panic IndexRange
       | _ :: zeros => Ok (with_started (self c :: zeros ++ (go_range (rm (cl_peers c))).*1) c)
       end.

Definition OnNodeJoin `{!GoRange Z} (dial : string → bool) (reply : option error) (id : Z)
    (addr : string) (c : cluster) : outcome error cluster :=
  let '(_, c) := AddBroker dial reply id addr c in
  if RMap_Len (cl_peers c) =? i32 (size c - 1) then startRaft c else Ok c.

Definition OnNodeLeave (reply : option error) (id : Z) (c : cluster) : cluster :=
  snd (KickBroker reply id c).

(** [Stop]; an error of the discovery is logged.  The channel [stoped] was closed by an earlier call
    that stopped raft. *)
Definition cluster_Stop {D} `{!DiscoveryApi D} (d : D) (c : cluster) : outcome error (D * cluster) :=
  let c := with_leader (leader c) false c in
  match disc_Shutdown d with
  | inr w => Panic w
  | inl (_, d) =>
      if raft c then
        let stopped := existsb (λ x, match x with StopNode => true | _ => false end) (raft_log c) in
        let c := with_call StopNode c in
        if stopped then Panic ClosedChannel else Ok (d, c)
      else Ok (d, c)
  end.

(** ** Applying what raft delivers *)

(** [applySoftState]: a leader of 0 is [raft.None]. *)
Definition applySoftState (lead : Z) (c : cluster) : cluster :=
  if lead =? 0 then c
  else
    let c := if negb (leader c =? lead) then with_leader lead (ready c) c else c in
    if negb (ready c)
    then mkCluster (onClusterReady (node c)) (raft c) (size c) true (leader c) (confState c)
           (appliedIndex c) (snapshotIndex c) (confChangeCount c) (S (readyCalls c)) (raft_log c)
    else c.

Section apply.
Context `{!GoRange uint8, !GoRange string, !GoRange Z}.
Context (apply_conf : conf_change → option CS → CS).   (* raft.Node.ApplyConfChange *)

(** [applyRemoveNode]: the size is computed before the peer is deleted. *)
Definition applyRemoveNode (id : Z) (c : cluster) : option (outcome error cluster) :=
  let c := with_size (i32 (RMap_Len (cl_peers c) + 1)) c in
  let c := with_node (with_reg (removeNode_tables id (reg (node c))) (node c)) c in
  let c := with_node (with_peers (snd (RMap_Delete id (cl_peers c))) (node c)) c in
  if self c =? id then
    let c := with_leader 0 false c in
    r ← broker_ExpelAllConns (node c);
    Some (obind r (λ b, Ok (with_node b c)))
  else Some (Ok c).

(** One entry; [false] when a configuration change cannot be unmarshalled, which ends the
    loop. *)
Definition apply_entry (x : entry) (c : cluster) : option (outcome error (bool * cluster)) :=
  match e_data x with
  | ENormal [] => Some (Ok (true, c))
  | ENormal data =>
      match applyRaftOp data (reg (node c)) with
      | Ok r => Some (Ok (true, with_node (with_reg r (node c)) c))
      | Err _ => Some (Ok (true, c))
      | Panic w => Some (Panic w)
      end
  | EConf None => Some (Ok (false, c))
  | EConf (Some cc) =>
      let c := with_conf (Some (apply_conf cc (confState c))) c in
      match cc_type cc with
      | ConfAddNode => Some (Ok (true, with_size (i32 (RMap_Len (cl_peers c) + 1)) c))
      | ConfRemoveNode => r ← applyRemoveNode (cc_node cc) c; Some (c <~ r; Ok (true, c))
      | ConfOther => Some (Ok (true, c))
      end
  | EOtherType => Some (Ok (true, c))
  end.

Fixpoint apply_loop (es : list entry) (c : cluster) : option (outcome error (bool * cluster)) :=
  match es with
  | [] => Some (Ok (true, c))
  | x :: es =>
      r ← apply_entry x c;
      match r with
      | Ok (true, c) => apply_loop es c
      | r => Some r
      end
  end.

Definition applyEntries (es : list entry) (c : cluster) : option (outcome error cluster) :=
  r ← apply_loop es c;
  Some (match r with
        | Ok (true, c) =>
            match last es with
            | Some y => Ok (with_indices (e_index y) (snapshotIndex c) c)
            | None => Panic IndexRange
            end
        | Ok (false, c) => Ok c
        | Err e => Err e
        | Panic w => Panic w
        end).

(** [applySnapshot]; [snap] is the JSON value the data is the text of, or the error of its parsing. *)
Definition applySnapshot (index : Z) (snap : outcome error snapshot_json) (cs : CS) (c : cluster)
  : outcome error cluster :=
  if index <=? appliedIndex c then Panic (Explicit "snapshot index should > appliedIndex")
  else match snap with
       | Ok s =>
           let c := with_node (with_reg (recoverFromSnapshot (snapshot_Unmarshal s)) (node c)) c in
           Ok (with_indices index index (with_conf (Some cs) c))
       | Err e => Panic (Explicit "json")
       | Panic w => Panic w
       end.

(** [attemptSnapshot]; [create] and [compact] are the answers of the storage. *)
Definition attemptSnapshot (create compact : Z → option error) (c : cluster)
  : outcome error cluster :=
  if u64 (appliedIndex c - snapshotIndex c) <=? 1024 then Ok c
  else
    let c := with_call (CreateSnapshot (appliedIndex c)) c in
    match create (appliedIndex c) with
    | Some _ => Panic (Explicit "CreateSnapshot")
    | None =>
        let c := with_indices (appliedIndex c) (appliedIndex c) c in
        let compactIndex := if 1024 <? appliedIndex c then u64 (appliedIndex c - 1024) else 1 in
        let c := with_call (Compact compactIndex) c in
        match compact compactIndex with
        | None => Ok c
        | Some e => if decide (e = ErrCompacted) then Ok c else Panic (Explicit "Compact")
        end
    end.

(** A message to a peer: whether it is a snapshot, and whether sending it succeeds. *)
Record message := mkMsg { m_to : Z; m_snap : bool; m_sent : bool }.

Definition send_message (m : message) (c : cluster) : outcome error cluster :=
  match GetPeer (m_to m) c with
  | None => Ok c
  | Some _ =>
      if m_snap m && bool_decide (confState c = None) then Panic NilDereference
      else if m_sent m then
        Ok (if m_snap m then with_call (ReportSnapshot (m_to m) true) c else c)
      else
        let c := with_call (ReportUnreachable (m_to m)) c in
        Ok (if m_snap m then with_call (ReportSnapshot (m_to m) false) c else c)
  end.

Definition sendRaftMessags (ms : list message) (c : cluster) : outcome error cluster :=
  fold_left (λ r m, c <~ r; send_message m c) ms (Ok c).

(** ** One iteration of [raftLoop] on a [Ready] *)
Record Ready := mkReady {
  rd_snapshot : option (Z * outcome error snapshot_json * CS);
  rd_committed : list entry;
  rd_soft : option Z;
  rd_messages : list message
}.

Definition lift_opt {A} (m : outcome error A) : option (outcome error A) := Some m.

Definition handle_ready (create compact : Z → option error) (rd : Ready) (c : cluster)
  : option (outcome error cluster) :=
  r ← match rd_snapshot rd with
      | Some (index, snap, cs) => lift_opt (applySnapshot index snap cs c)
      | None => lift_opt (Ok c)
      end;
  match r with
  | Ok c =>
      r ← (if bool_decide (rd_committed rd = []) then lift_opt (Ok c)
           else applyEntries (rd_committed rd) c);
      Some (c <~ r;
        let c := match rd_soft rd with Some lead => applySoftState lead c | None => c end in
        c <~ sendRaftMessags (rd_messages rd) c;
        attemptSnapshot create compact c)
  | r => Some r
  end.
End apply.
End cluster.
Arguments cluster CS : clear implicits.
Arguments Ready CS : clear implicits.

(** ** Lemmas *)
Section lemmas.
Context {CS : Type}.
Context `{!GoRange uint8, !GoRange string, !GoRange Z}.
Context (apply_conf : conf_change → option CS → CS).

(** The fields the raft indices and calls consist of. *)
Definition progress (c : cluster CS) : Z * Z * list raft_call :=
  (appliedIndex c, snapshotIndex c, raft_log c).

Lemma applySoftState_progress lead c : progress (applySoftState lead c) = progress c.
Proof.
  unfold applySoftState. destruct (lead =? 0); [done|].
  by destruct (negb (leader c =? lead)); destruct (negb _).
Qed.

Lemma applyRemoveNode_progress id c c' : applyRemoveNode id c = Some (Ok c') →
  progress c' = progress c.
Proof.
  unfold applyRemoveNode. destruct (_ =? id); [|by intros [= <-]].
  destruct (broker_ExpelAllConns _) as [[b| |]|]; simpl; [|done..]. by intros [= <-].
Qed.

Lemma apply_entry_progress x c go c' : apply_entry apply_conf x c = Some (Ok (go, c')) →
  progress c' = progress c.
Proof.
  unfold apply_entry. destruct (e_data x) as [[|d data]|[cc|]|].
  - by intros [= <- <-].
  - destruct (applyRaftOp _ _); [| |done]; by intros [= <- <-].
  - destruct (cc_type cc); [by intros [= <- <-]| |by intros [= <- <-]].
    destruct (applyRemoveNode _ _) as [[c1| |]|] eqn:E; simpl; [|done..].
    apply applyRemoveNode_progress in E. by intros [= <- <-].
  - by intros [= <- <-].
  - by intros [= <- <-].
Qed.

Lemma apply_loop_progress es : ∀ c go c', apply_loop apply_conf es c = Some (Ok (go, c')) →
  progress c' = progress c.
Proof.
  induction es as [|x es IH]; intros c go c'; cbn [apply_loop]; [by intros [= <- <-]|].
  destruct (apply_entry _ x c) as [[[[] c1]| |]|] eqn:E; simpl; try done.
  - intros Hl. apply IH in Hl. rewrite Hl. by eapply apply_entry_progress.
  - intros [= <- <-]. by eapply apply_entry_progress.
Qed.

(** Entries arrive in order, after what was applied. *)
Fixpoint ordered_after (i : Z) (es : list entry) : Prop :=
  match es with [] => True | x :: es => i < e_index x < 2 ^ 64 ∧ ordered_after (e_index x) es end.

Lemma ordered_last es : ∀ i x, ordered_after i es → last es = Some x → i < e_index x < 2 ^ 64.
Proof.
  induction es as [|y es IH]; intros i x Ho Hl; [done|]. destruct Ho as [Hy Ho].
  destruct es as [|z es]; [injection Hl as <-; done|].
  specialize (IH _ _ Ho Hl). lia.
Qed.

Lemma applyEntries_progress es c c' : applyEntries apply_conf es c = Some (Ok c') →
  ordered_after (appliedIndex c) es → 0 <= snapshotIndex c <= appliedIndex c →
  appliedIndex c < 2 ^ 64 →
  appliedIndex c <= appliedIndex c' < 2 ^ 64 ∧ snapshotIndex c' = snapshotIndex c ∧
  raft_log c' = raft_log c.
Proof.
  intros E Ho Hs Ha. revert E. unfold applyEntries.
  destruct (apply_loop _ es c) as [[[[] c1]| |]|] eqn:E; simpl; try done.
  - apply apply_loop_progress in E. injection E as E1 E2 E3.
    destruct (last es) as [x|] eqn:El; [|done]. intros [= <-]. simpl.
    pose proof (ordered_last _ _ _ Ho El). split_and!; [lia|lia|done|done].
  - apply apply_loop_progress in E. injection E as E1 E2 E3. intros [= <-].
    rewrite E1. split_and!; [lia|lia|done|done].
Qed.

(** Reports about messages do not matter here. *)
Definition is_report (x : raft_call) : bool :=
  match x with ReportUnreachable _ | ReportSnapshot _ _ => true | _ => false end.

Lemma send_message_progress m (c c' : cluster CS) : send_message m c = Ok c' →
  appliedIndex c' = appliedIndex c ∧ snapshotIndex c' = snapshotIndex c ∧
  ∃ ext, raft_log c' = raft_log c ++ ext ∧ Forall is_report ext.
Proof.
  unfold send_message. destruct (GetPeer _ _); [|intros [= <-]; split_and!; [done..|]].
  2: { exists []. by rewrite app_nil_r. }
  destruct (m_snap m && _); [done|]. destruct (m_sent m), (m_snap m); intros [= <-];
    (split_and!; [done..|]); simpl.
  - exists [ReportSnapshot (m_to m) true]. split; [done|]. by repeat constructor.
  - exists []. by rewrite app_nil_r.
  - exists [ReportUnreachable (m_to m); ReportSnapshot (m_to m) false].
    split; [by rewrite <-app_assoc|]. by repeat constructor.
  - exists [ReportUnreachable (m_to m)]. split; [done|]. by repeat constructor.
Qed.

Lemma sendRaftMessags_progress ms : ∀ c c' : cluster CS, sendRaftMessags ms c = Ok c' →
  appliedIndex c' = appliedIndex c ∧ snapshotIndex c' = snapshotIndex c ∧
  ∃ ext, raft_log c' = raft_log c ++ ext ∧ Forall is_report ext.
Proof.
  induction ms as [|m ms IH] using rev_ind; intros c c'.
  - intros [= <-]. split_and!; [done..|]. exists []. by rewrite app_nil_r.
  - unfold sendRaftMessags. rewrite fold_left_app. simpl.
    destruct (fold_left _ ms (Ok c)) as [c1| |] eqn:E; simpl; [|done..]. intros Hm.
    apply IH in E as (Ea & Es & ext & Er & Hx).
    apply send_message_progress in Hm as (Ea' & Es' & ext' & Er' & Hx').
    split_and!; [congruence..|]. exists (ext ++ ext').
    rewrite Er', Er, app_assoc. split; [done|]. by apply Forall_app.
Qed.
End lemmas.

(** ** Properties of the consensus group *)

(** What the raft library promises of a [Ready]: a snapshot is newer than what was applied, and
    the committed entries follow what was applied, in order. *)
Definition ready_ok {CS} (rd : Ready CS) (c : cluster CS) : Prop :=
  match rd_snapshot rd with
  | Some (index, _, _) => appliedIndex c < index < 2 ^ 64 ∧ ordered_after index (rd_committed rd)
  | None => ordered_after (appliedIndex c) (rd_committed rd)
  end.

(** What a call of the storage may ask for when [applied] entries were applied: a snapshot of
    exactly that state, and a compaction that keeps the last 1024 entries. *)
Definition call_ok (applied : Z) (x : raft_call) : Prop :=
  match x with
  | CreateSnapshot i => i = applied
  | Compact i => 1 <= i ∧ i = applied - 1024
  | x => is_report x
  end.

(** C11 (snapshots and compaction): an iteration of the raft loop that does not panic never
    moves the applied index back, leaves the last snapshot at most 1024 entries behind it and
    never ahead of it, without underflow of the 64-bit indices, and asks the storage only for a
    snapshot of what was applied and for a compaction that keeps the last 1024 entries. *)
Theorem snapshot_window {CS} `{!GoRange uint8, !GoRange string, !GoRange Z}
    (apply_conf : conf_change → option CS → CS) (create compact : Z → option error)
    (rd : Ready CS) (c c' : cluster CS) :
  0 <= snapshotIndex c <= appliedIndex c → appliedIndex c < 2 ^ 64 → ready_ok rd c →
  handle_ready apply_conf create compact rd c = Some (Ok c') →
  0 <= snapshotIndex c' <= appliedIndex c' ∧ appliedIndex c' - snapshotIndex c' <= 1024 ∧
  appliedIndex c <= appliedIndex c' < 2 ^ 64 ∧
  ∃ calls, raft_log c' = raft_log c ++ calls ∧ Forall (call_ok (appliedIndex c')) calls.
Proof.
  intros Hs Ha Hok. unfold handle_ready.
  set (r1 := match rd_snapshot rd with Some _ => _ | None => _ end).
  assert (∀ c1, r1 = Some (Ok c1) → 0 <= snapshotIndex c1 <= appliedIndex c1 ∧
    appliedIndex c <= appliedIndex c1 < 2 ^ 64 ∧ raft_log c1 = raft_log c ∧
    ordered_after (appliedIndex c1) (rd_committed rd)) as H1.
  { intros c1. unfold r1, ready_ok, lift_opt in *. destruct (rd_snapshot rd) as [[[index snap] cs]|].
    - unfold applySnapshot. destruct (Z.leb_spec index (appliedIndex c)); [done|].
      destruct snap; [|done..]. intros [= <-]. simpl. split_and!; try lia; try done. apply Hok.
    - intros [= <-]. split_and!; try lia; done. }
  destruct r1 as [[c1| |]|]; cbn [mbind option_bind]; try done.
  destruct (H1 c1 eq_refl) as (Hs1 & Ha1 & Hlog1 & Ho1). clear H1 Hok.
  set (r2 := if bool_decide _ then _ else _).
  assert (∀ c2, r2 = Some (Ok c2) → snapshotIndex c2 = snapshotIndex c1 ∧
    appliedIndex c1 <= appliedIndex c2 < 2 ^ 64 ∧ raft_log c2 = raft_log c1) as H2.
  { intros c2. unfold r2, lift_opt. destruct (bool_decide _).
    - intros [= <-]. split_and!; try lia; done.
    - intros E. apply applyEntries_progress in E as (? & ? & ?); [|done|lia|lia]. done. }
  destruct r2 as [[c2| |]|]; cbn [mbind option_bind obind]; try done.
  destruct (H2 c2 eq_refl) as (Hs2 & Ha2 & Hlog2). clear H2.
  set (c3 := match rd_soft rd with Some lead => applySoftState lead c2 | None => c2 end).
  assert (progress c3 = progress c2) as E3.
  { unfold c3. destruct (rd_soft rd); [apply applySoftState_progress|done]. }
  injection E3 as Ea3 Es3 El3.
  destruct (sendRaftMessags (rd_messages rd) c3) as [c4| |] eqn:E4; cbn [obind]; try done.
  apply sendRaftMessags_progress in E4 as (Ea4 & Es4 & ext & El4 & Hext). rewrite El3, Hlog2, Hlog1 in El4.
  assert (∀ a, Forall (call_ok a) ext) as Hext'.
  { intros a. eapply Forall_impl; [done|]. by intros []. }
  unfold attemptSnapshot. rewrite wrapU_id by (unfold inU; lia).
  destruct (Z.leb_spec (appliedIndex c4 - snapshotIndex c4) 1024) as [Hle|Hgt].
  { intros [= <-]. split_and!; try lia. by exists ext. }
  destruct (create _); [done|]. cbn [appliedIndex with_indices with_call].
  destruct (Z.ltb_spec 1024 (appliedIndex c4)); [|lia]. rewrite wrapU_id by (unfold inU; lia).
  assert (∀ x, Some (Ok (with_call (Compact (appliedIndex c4 - 1024))
      (with_indices (appliedIndex c4) (appliedIndex c4)
         (with_call (CreateSnapshot (appliedIndex c4)) c4)))) = Some (@Ok error _ x) →
    0 <= snapshotIndex x <= appliedIndex x ∧ appliedIndex x - snapshotIndex x <= 1024 ∧
    appliedIndex c <= appliedIndex x < 2 ^ 64 ∧
    ∃ calls, raft_log x = raft_log c ++ calls ∧ Forall (call_ok (appliedIndex x)) calls) as Hx.
  { intros x [= <-]. simpl. split_and!; try lia.
    exists (ext ++ [CreateSnapshot (appliedIndex c4); Compact (appliedIndex c4 - 1024)]).
    rewrite El4, <-!app_assoc. split; [done|]. apply Forall_app. split; [done|].
    repeat constructor; simpl; lia. }
  destruct (compact _) as [e|]; [destruct (decide (e = ErrCompacted)); [|done]|]; apply Hx.
Qed.

(** A broker alone, with nothing registered. *)
Definition lone_broker (n : Z) : broker := mkBroker n empty_registry ∅ RMap_empty.

Definition late_ready : Ready unit := mkReady None [mkEntry 1500 (ENormal [])] (Some 1) [].

Lemma snapshot_window_witness :
  0 <= 0 <= 0 ∧
  ∃ c', @handle_ready unit range_forward range_forward range_forward (λ _ _, tt)
          (λ _, None) (λ _, None) late_ready (newCluster (lone_broker 1) 3) = Some (Ok c') ∧
    snapshotIndex c' <= appliedIndex c' ∧ raft_log c' = [CreateSnapshot 1500; Compact 476].
Proof.
  split; [lia|]. eexists. split; [vm_compute; reflexivity|]. split; [|reflexivity].
  apply (@snapshot_window unit range_forward range_forward range_forward (λ _ _, tt)
    (λ _, None) (λ _, None) late_ready (newCluster (lone_broker 1) 3)).
  - simpl. lia.
  - simpl. lia.
  - unfold ready_ok. simpl. split; [lia|done].
  - vm_compute. reflexivity.
Defined.

(** For any sequence of soft states, the leader is the last one that
    was not 0; the cluster is ready once some leader is known, stays so, and the listeners are
    started at the first such moment only. *)
Theorem ready_once {CS} (leads : list Z) (c : cluster CS) :
  let c' := fold_left (λ c l, applySoftState l c) leads c in
  let known := List.filter (λ l, negb (l =? 0)) leads in
  leader c' = List.last known (leader c) ∧
  ready c' = ready c || negb (bool_decide (known = [])) ∧
  readyCalls c' = (readyCalls c + if negb (ready c) && negb (bool_decide (known = [])) then 1 else 0)%nat ∧
  node c' = (if negb (ready c) && negb (bool_decide (known = [])) then onClusterReady (node c)
             else node c).
Proof.
  cbv zeta. revert c. induction leads as [|l leads IH]; intros c; cbn [fold_left List.filter].
  { rewrite bool_decide_eq_true_2, andb_false_r, orb_false_r by done. split_and!; simpl; done || lia. }
  assert (∀ d l0, List.last (l :: l0) d = List.last l0 l) as Hlast.
  { intros d l0. revert l. induction l0 as [|y l0 IHl]; intros l; [done|].
    change (List.last (y :: l0) d = List.last (y :: l0) l). clear. revert y.
    induction l0 as [|z l0 IHl]; intros y; [done|].
    change (List.last (z :: l0) d = List.last (z :: l0) l). apply IHl. }
  destruct (IH (applySoftState l c)) as (-> & -> & -> & ->). clear IH. unfold applySoftState.
  destruct (Z.eqb_spec l 0) as [->|Hl]; cbn [negb]; [done|].
  rewrite (bool_decide_eq_false_2 (l :: _ = [])) by done. rewrite Hlast.
  assert (leader (if negb (leader c =? l) then with_leader l (ready c) c else c) = l ∧
    ready (if negb (leader c =? l) then with_leader l (ready c) c else c) = ready c ∧
    readyCalls (if negb (leader c =? l) then with_leader l (ready c) c else c) = readyCalls c ∧
    node (if negb (leader c =? l) then with_leader l (ready c) c else c) = node c) as (E1 & E2 & E3 & E4).
  { destruct (Z.eqb_spec (leader c) l); simpl; done. }
  rewrite E2. destruct (ready c) eqn:Er; cbn [negb].
  - rewrite E1, E2, E3, E4. cbn [orb andb negb]. split_and!; simpl; done || lia.
  - cbn [leader ready readyCalls node]. rewrite E1, E3, E4. cbn [orb andb negb].
    split_and!; simpl; done || lia.
Qed.

(** Applying the removal of a known peer other than this node drops all
    that was registered at it, nothing else, and forgets the peer; but [size] is the number of
    peers before the removal plus one, that is one more than the brokers that are left, whereas
    adding a node sets it to the number of brokers. *)
Theorem removed_node_counted {CS} `{!GoRange uint8, !GoRange string, !GoRange Z}
    (apply_conf : conf_change → option CS → CS) (i id : Z) (c : cluster CS) (p : peerClient) :
  RMap_wf (cl_peers c) → Z.of_nat (base.size (rm (cl_peers c))) < 2 ^ 31 - 1 →
  GetPeer id c = Some p → id ≠ self c →
  let left c' := Z.of_nat (base.size (rm (cl_peers c'))) + 1 in
  (∃ c', apply_entry apply_conf (mkEntry i (EConf (Some (mkConf ConfAddNode id)))) c =
           Some (Ok (true, c')) ∧ size c' = left c') ∧
  (∃ c', apply_entry apply_conf (mkEntry i (EConf (Some (mkConf ConfRemoveNode id)))) c =
           Some (Ok (true, c')) ∧ size c' = left c' + 1 ∧
     GetPeer id c' = None ∧ (∀ k, k ≠ id → GetPeer k c' = GetPeer k c) ∧
     ∀ n k f, t_get (userClients (reg (node c'))) n k f =
       if decide (n = id) then None else t_get (userClients (reg (node c))) n k f).
Proof.
  intros Hw Hsmall Hp Hid left.
  assert (i32 (RMap_Len (cl_peers c) + 1) = Z.of_nat (base.size (rm (cl_peers c))) + 1) as Hsize.
  { unfold RMap_Len. rewrite Hw, wrapS_add_idemp by lia. apply wrapS_id; unfold inS; lia. }
  split.
  - eexists. split; [reflexivity|]. exact Hsize.
  - unfold apply_entry. simpl. unfold applyRemoveNode.
    assert ((self (with_node (with_peers (snd (RMap_Delete id (cl_peers c))) (node c)) c) =? id) = false)
      as Hself by (apply Z.eqb_neq; done).
    unfold self, cl_peers in *. simpl in *. rewrite Hself. simpl.
    eexists. split; [reflexivity|]. simpl.
    unfold GetPeer, left, RMap_Get, cl_peers in *. simpl. rewrite rm_Delete.
    split_and!.
    + rewrite Hsize. rewrite map_size_delete, Hp. simpl.
      assert (base.size (rm (peers (node c))) ≠ O) by (intros E; apply map_size_empty_inv in E; by rewrite E in Hp).
      lia.
    + apply lookup_delete_eq.
    + intros k Hk. by rewrite lookup_delete_ne.
    + intros n k f. apply t_get_Delete.
Qed.

Definition three_nodes : cluster unit :=
  newCluster (mkBroker 1 empty_registry ∅
    (snd (RMap_Set 3 (mkPeer "c:4567" true) (snd (RMap_Set 2 (mkPeer "b:4567" true) RMap_empty))))) 3.

Lemma removed_node_counted_witness :
  GetPeer 2 three_nodes = Some (mkPeer "b:4567" true) ∧
  match @apply_entry unit range_forward range_forward range_forward (λ _ _, tt)
          (mkEntry 7 (EConf (Some (mkConf ConfRemoveNode 2)))) three_nodes with
  | Some (Ok (_, c')) => size c' = 3 ∧ base.size (rm (cl_peers c')) = 1%nat
  | _ => False
  end.
Proof.
  split; [vm_compute; reflexivity|].
  destruct (@removed_node_counted unit range_forward range_forward range_forward (λ _ _, tt) 7 2
    three_nodes (mkPeer "b:4567" true)) as (_ & c' & E & Hsize & _).
  - vm_compute. reflexivity.
  - vm_compute. reflexivity.
  - vm_compute. reflexivity.
  - vm_compute. discriminate.
  - rewrite E. assert (base.size (rm (cl_peers c')) = 1%nat) as E1.
    { assert (option_map (λ r, match r with Ok (_, x) => base.size (rm (cl_peers x)) | _ => O end)
        (@apply_entry unit range_forward range_forward range_forward (λ _ _, tt)
          (mkEntry 7 (EConf (Some (mkConf ConfRemoveNode 2)))) three_nodes) = Some 1%nat) as E2
        by (vm_compute; reflexivity).
      rewrite E in E2. by injection E2. }
    split; [|exact E1]. rewrite Hsize, E1. reflexivity.
Defined.

(** ** Bootstrap *)
Section bootstrap.
Context {CS : Type} `{!GoRange Z}.
Context (dial : string → bool) (reply : option error).

(** Nodes are discovered one after the other. *)
Definition joins (l : list (Z * string)) (r : outcome error (cluster CS)) : outcome error (cluster CS) :=
  fold_left (λ r x, obind r (OnNodeJoin dial reply x.1 x.2)) l r.

(** The state after the nodes [l] joined a fresh cluster of [s]. *)
Definition joined (me s : Z) (l : list Z) (c : cluster CS) : Prop :=
  self c = me ∧ size c = s ∧ leader c = 0 ∧ RMap_wf (cl_peers c) ∧
  dom (rm (cl_peers c)) = list_to_set l ∧
  raft c = bool_decide (s - 1 <= zlen l) ∧
  if decide (s - 1 <= zlen l)
  then ∃ others, others ≡ₚ take (Z.to_nat (s - 1)) l ∧
    raft_log c = [StartNode (me :: replicate (Z.to_nat (s - 1)) 0 ++ others)]
  else raft_log c = [].

Lemma dom_size_list (m : gmap Z peerClient) (l : list Z) : NoDup l → dom m = list_to_set l →
  base.size m = length l.
Proof. intros Hl Hd. by rewrite <-size_dom, Hd, size_list_to_set. Qed.

Lemma joined_step me s l id addr c : 2 <= s < 2 ^ 31 → me ≠ 0 → id ≠ me → NoDup (l ++ [id]) →
  zlen (l ++ [id]) < 2 ^ 31 → joined me s l c →
  ∃ c', OnNodeJoin dial reply id addr c = Ok c' ∧ joined me s (l ++ [id]) c'.
Proof.
  intros Hs Hme Hid Hnd Hlen (Hself & Hsize & Hlead & Hwf & Hdom & Hraft & Hlog).
  apply NoDup_app in Hnd as Hnd'. destruct Hnd' as (Hndl & Hfresh & _).
  assert (rm (cl_peers c) !! id = None) as Hnone.
  { apply not_elem_of_dom. rewrite Hdom. set_solver. }
  set (c1 := put_peer id (peer_connect dial (newPeerClient addr)) c).
  assert (RMap_wf (cl_peers c1)) as Hwf1 by by apply RMap_wf_Set.
  assert (dom (rm (cl_peers c1)) = list_to_set (l ++ [id])) as Hdom1.
  { unfold c1, put_peer, cl_peers. simpl. unfold cl_peers in Hdom. rewrite rm_Set, dom_insert_L, Hdom.
    rewrite list_to_set_app_L. set_solver. }
  assert (RMap_Len (cl_peers c1) = zlen (l ++ [id])) as Hlen1.
  { unfold RMap_Len. rewrite Hwf1, (dom_size_list _ _ Hnd Hdom1).
    apply wrapS_id; unfold inS, zlen in *; lia. }
  assert (size c1 = s ∧ leader c1 = 0 ∧ self c1 = me ∧ raft c1 = raft c ∧ raft_log c1 = raft_log c)
    as (Es & El & Eme & Er & Elog) by done.
  unfold OnNodeJoin, AddBroker.
  rewrite (proj2 (Z.eqb_neq id (self c))) by congruence.
  change (GetPeer id c) with (rm (cl_peers c) !! id). rewrite Hnone. fold c1.
  rewrite Hlen1, Es. rewrite (wrapS_id 32 (s - 1)) by (unfold inS; lia).
  assert (IsLeader c1 = false) as -> by (unfold IsLeader; rewrite El, Eme; apply Z.eqb_neq; done).
  rewrite zlen_app in *. change (zlen [id]) with 1 in *. cbn [negb].
  assert ((if zlen l + 1 =? s - 1 then (@Ok error _ tt, c1) else (Ok tt, c1)) = (Ok tt, c1)) as ->
    by by destruct (_ =? _).
  rewrite Hlen1, Es, (wrapS_id 32 (s - 1)) by (unfold inS; lia).
  destruct (Z.eqb_spec (zlen l + 1) (s - 1)) as [Heq|Hneq].
  - rewrite decide_False in Hlog by lia. rewrite bool_decide_eq_false_2 in Hraft by lia.
    unfold startRaft. rewrite Er, Hraft, Es. destruct (Z.ltb_spec s 0); [lia|].
    replace (Z.to_nat s) with (S (Z.to_nat (s - 1))) by lia. cbn [replicate].
    eexists. split; [done|]. split_and!; try done.
    + rewrite bool_decide_eq_true_2; [done|]. rewrite zlen_app. change (zlen [id]) with 1. lia.
    + rewrite decide_True by (rewrite zlen_app; change (zlen [id]) with 1; lia).
      exists (go_range (rm (cl_peers c1))).*1. split.
      * rewrite take_ge by (rewrite length_app; unfold zlen in Heq; simpl; lia).
        apply NoDup_Permutation; [apply NoDup_go_range|done|]. intros k.
        transitivity (k ∈ dom (rm (cl_peers c1))); [|rewrite Hdom1; set_solver].
        rewrite elem_of_dom, list_elem_of_fmap. split.
        -- intros ([k' v] & -> & Hin). apply elem_of_go_range in Hin. by eexists.
        -- intros [v Hv]. exists (k, v). split; [done|]. by apply elem_of_go_range.
      * unfold with_started. cbn [raft_log]. rewrite Elog, Hlog, Eme. done.
  - eexists. split; [done|]. split_and!; try done.
    + rewrite Er, Hraft. apply bool_decide_ext. rewrite zlen_app. change (zlen [id]) with 1. lia.
    + rewrite zlen_app. change (zlen [id]) with 1. rewrite Elog.
      destruct (decide (s - 1 <= zlen l)).
      * rewrite decide_True by lia. destruct Hlog as (others & Hp & ->). exists others.
        split; [|done]. rewrite take_app_le; [done|]. unfold zlen in *. lia.
      * by rewrite decide_False by lia.
Qed.

(** A node that is known already, or this one: nothing starts a second time. *)
Lemma joined_again me s l id addr c : 2 <= s < 2 ^ 31 → id = me ∨ id ∈ l → NoDup l → zlen l < 2 ^ 31 →
  joined me s l c → ∃ c', OnNodeJoin dial reply id addr c = Ok c' ∧ joined me s l c'.
Proof.
  intros Hs Hid Hnd Hlen Hj. unfold OnNodeJoin.
  assert (∃ c1, AddBroker dial reply id addr c = (Ok tt, c1) ∧ joined me s l c1) as (c1 & -> & Hj1).
  { destruct Hj as (Hself & Hsize & Hlead & Hwf & Hdom & Hraft & Hlog). unfold AddBroker.
    destruct (Z.eqb_spec id (self c)) as [|Hne]; [by exists c|].
    destruct Hid as [->|Hin]; [congruence|].
    assert (id ∈ dom (rm (cl_peers c))) as [p Hp]%elem_of_dom by (rewrite Hdom; set_solver).
    change (GetPeer id c) with (rm (cl_peers c) !! id). rewrite Hp. eexists. split; [done|].
    split_and!; try done; [by apply RMap_wf_Set|]. change (dom (rm (snd (RMap_Set id (updateAddr dial addr p) (cl_peers c)))) = list_to_set l).
    rewrite rm_Set, dom_insert_L, Hdom. set_solver. }
  pose proof Hj1 as (Hself & Hsize & Hlead & Hwf & Hdom & Hraft & Hlog).
  assert (RMap_Len (cl_peers c1) = zlen l) as ->.
  { unfold RMap_Len. rewrite Hwf, (dom_size_list _ _ Hnd Hdom). apply wrapS_id; unfold inS, zlen in *; lia. }
  rewrite Hsize, (wrapS_id 32 (s - 1)) by (unfold inS; lia).
  destruct (Z.eqb_spec (zlen l) (s - 1)) as [Heq|]; [|by exists c1].
  unfold startRaft. rewrite Hraft, bool_decide_eq_true_2 by lia. by exists c1.
Qed.

(** The other nodes among [ids], in the order in which they were first heard of. *)
Definition heard (me : Z) (ids : list Z) : list Z :=
  fold_left (λ l id, if decide (id = me ∨ id ∈ l) then l else l ++ [id]) ids [].

Lemma heard_snoc me ids id : heard me (ids ++ [id]) =
  if decide (id = me ∨ id ∈ heard me ids) then heard me ids else heard me ids ++ [id].
Proof. unfold heard at 1. by rewrite fold_left_app. Qed.

Lemma heard_spec me ids : NoDup (heard me ids) ∧ ∀ id, id ∈ heard me ids ↔ id ∈ ids ∧ id ≠ me.
Proof.
  induction ids as [|id ids [IHn IH]] using rev_ind; [split; [constructor|set_solver]|].
  rewrite heard_snoc. case_decide as Hd; [set_solver|]. split; [|set_solver].
  apply NoDup_app. split_and!; [done|set_solver|apply NoDup_singleton].
Qed.

Lemma zlen_heard me ids : zlen (heard me ids) = Z.of_nat (base.size (list_to_set ids ∖ {[me]} : gset Z)).
Proof.
  destruct (heard_spec me ids) as [Hn Hin]. unfold zlen. f_equal. rewrite <-(size_list_to_set (C:=gset Z) _ Hn).
  f_equal. apply set_eq. intros id. rewrite elem_of_list_to_set, Hin, elem_of_difference, elem_of_list_to_set.
  set_solver.
Qed.

Lemma zlen_heard_snoc me ids id : zlen (heard me ids) <= zlen (heard me (ids ++ [id])).
Proof. rewrite heard_snoc. case_decide; [lia|]. rewrite zlen_app. unfold zlen. simpl. lia. Qed.

Lemma joins_joined me s l : 2 <= s < 2 ^ 31 → me ≠ 0 → zlen (heard me l.*1) < 2 ^ 31 →
  ∀ b, nodeId b = me → peers b = RMap_empty →
  ∃ c', joins l (Ok (newCluster b s)) = Ok c' ∧ joined me s (heard me l.*1) c'.
Proof.
  intros Hs Hme Hl b Hb Hp. induction l as [|[id addr] l IH] using rev_ind.
  - eexists. split; [done|]. split_and!; try done.
    + unfold cl_peers. simpl. by rewrite Hp.
    + unfold cl_peers. simpl. rewrite Hp. simpl. by rewrite dom_empty_L.
    + change (heard me _) with (@nil Z). change (zlen (@nil Z)) with 0. rewrite bool_decide_eq_false_2; [done|]. lia.
    + change (heard me _) with (@nil Z). change (zlen (@nil Z)) with 0. rewrite decide_False; [done|]. lia.
  - rewrite fmap_app in *. cbn [fmap list_fmap fst] in *. pose proof (zlen_heard_snoc me l.*1 id).
    destruct IH as (c & E & Hj); [lia|]. destruct (heard_spec me l.*1) as [Hn Hin].
    destruct (heard_spec me (l.*1 ++ [id])) as [Hn1 _]. unfold joins in *.
    rewrite fold_left_app, E. cbn [fold_left obind fst snd]. rewrite heard_snoc in *. case_decide as Hd.
    + by apply (joined_again me s).
    + apply (joined_step me s); try done. intros ->. by apply Hd; left.
Qed.
End bootstrap.

(** When nodes join a fresh cluster of [s] brokers one after the other, some of them again and this one
    among them, raft is started exactly once, at the moment all [s - 1] peers are known, and no
    membership change is proposed; but besides this node and those peers it is started with
    [s - 1] peers whose id is 0. *)
Theorem bootstrap_peers {CS} `{!GoRange Z} (dial : string → bool) (reply : option error)
    (b : broker) (s : Z) (l : list (Z * string)) :
  let others := heard (nodeId b) l.*1 in
  2 <= s < 2 ^ 31 → nodeId b ≠ 0 → zlen others < 2 ^ 31 → peers b = RMap_empty →
  ∃ c' : cluster CS, joins dial reply l (Ok (newCluster b s)) = Ok c' ∧
    dom (rm (cl_peers c')) = list_to_set others ∧
    raft c' = bool_decide (s - 1 <= zlen others) ∧
    if decide (s - 1 <= zlen others)
    then ∃ peers, peers ≡ₚ take (Z.to_nat (s - 1)) others ∧
      raft_log c' = [StartNode (nodeId b :: replicate (Z.to_nat (s - 1)) 0 ++ peers)]
    else raft_log c' = [].
Proof.
  intros others Hs Hme Hl Hp.
  destruct (joins_joined (CS := CS) dial reply (nodeId b) s l Hs Hme Hl b eq_refl Hp)
    as (c' & E & _ & _ & _ & _ & Hdom & Hraft & Hlog). by exists c'.
Qed.

Lemma bootstrap_peers_witness :
  2 <= 3 < 2 ^ 31 ∧
  ∃ c' : cluster unit, @joins unit range_forward (λ _, true) None [(2, "b:4567"); (1, "a:4567"); (3, "c:4567"); (2, "b:4567")]
      (Ok (newCluster (lone_broker 1) 3)) = Ok c' ∧ raft c' = true.
Proof.
  split; [lia|].
  destruct (@bootstrap_peers unit range_forward (λ _, true) None (lone_broker 1) 3
    [(2, "b:4567"); (1, "a:4567"); (3, "c:4567"); (2, "b:4567")]) as (c' & E & _ & Hr & _).
  - lia.
  - done.
  - vm_compute. reflexivity.
  - done.
  - exists c'. split; [exact E|]. rewrite Hr. reflexivity.
Defined.
