(* ===== verification/Peers.v ===== *)
(** * The peers of a broker (src/cluster/peer_client.go, peer_server.go, cluster.go)

    [Raft] knows a peer by its address and whether it is ready.  Here a peer is the object that the
    code allocates: its connection, its stub, the timers that call [connect] again and the gRPC
    channels it opens.  [c.peers] holds references, so that an object outlives its removal.  Each
    call runs to its end: [connect] holds the object's mutex, the handlers of the discovery and the
    raft loop are not interleaved with each other.

    [grpc.NewClient] makes no connection: whether it fails is a property of the address alone.

    The theorems: the objects refine the peers of [Raft]; a ready peer has an open channel to its
    address; the channels of removed peers are never closed.  The second part is the transport of
    raft messages between two brokers. *)
From S2P Require Import Prelude Errors Coder Packet Safe RaftOps Registry Snapshot Server Broker Raft.

(** A gRPC channel. *)
Record channel := mkChannel { ch_target : string; ch_open : bool }.

(** [peerClient]; channels and objects are numbered in the order they are made. *)
Record pclient := mkPC {
  pc_addr : string;
  pc_conn : option nat;
  pc_rpc : option nat;
  pc_ready : bool
}.

Record peer_network := mkNetwork {
  objs : list pclient;
  chans : list channel;
  retries : list nat;           (* the objects whose timer is set *)
  members : gmap Z nat          (* c.peers *)
}.

Definition no_peers : peer_network := mkNetwork [] [] [] ∅.

Definition put_obj (o : nat) (p : pclient) (n : peer_network) : peer_network :=
  mkNetwork (<[o := p]> (objs n)) (chans n) (retries n) (members n).
Definition with_chans (l : list channel) (n : peer_network) : peer_network :=
  mkNetwork (objs n) l (retries n) (members n).
Definition with_retries (l : list nat) (n : peer_network) : peer_network :=
  mkNetwork (objs n) (chans n) l (members n).
Definition with_members (m : gmap Z nat) (n : peer_network) : peer_network :=
  mkNetwork (objs n) (chans n) (retries n) m.

(** [grpc.ClientConn.Close]. *)
Definition chan_close (i : nat) (l : list channel) : list channel :=
  match l !! i with Some c => <[i := mkChannel (ch_target c) false]> l | None => l end.

Definition close_conn (conn : option nat) (n : peer_network) : peer_network :=
  match conn with Some i => with_chans (chan_close i (chans n)) n | None => n end.

Section peers.
Context (valid : string → bool).   (* grpc.NewClient accepts the address *)

(** [reconnnect], [false] for an error. *)
Definition peer_reconnnect (o : nat) (p : pclient) (n : peer_network) : bool * peer_network :=
  if valid (pc_addr p) then
    let n := close_conn (pc_conn p) n in
    let i := length (chans n) in
    (true, put_obj o (mkPC (pc_addr p) (Some i) (Some i) (pc_ready p))
             (with_chans (chans n ++ [mkChannel (pc_addr p) true]) n))
  else (false, n).

Definition set_ready (o : nat) (r : bool) (n : peer_network) : peer_network :=
  match objs n !! o with
  | Some p => put_obj o (mkPC (pc_addr p) (pc_conn p) (pc_rpc p) r) n
  | None => n
  end.

Definition pc_connect (o : nat) (n : peer_network) : peer_network :=
  match objs n !! o with
  | Some p =>
      if pc_ready p then n
      else match peer_reconnnect o p n with
           | (true, n) => set_ready o true n
           | (false, n) => with_retries (o :: retries n) n
           end
  | None => n
  end.

(** [Close]; no code calls it. *)
Definition pc_Close (o : nat) (n : peer_network) : peer_network :=
  match objs n !! o with
  | Some p =>
      if pc_ready p then
        put_obj o (mkPC (pc_addr p) None (pc_rpc p) false) (close_conn (pc_conn p) n)
      else n
  | None => n
  end.

Definition pc_updateAddr (o : nat) (addr : string) (n : peer_network) : peer_network :=
  match objs n !! o with
  | Some p =>
      if decide (pc_addr p = addr) then n
      else pc_connect o (put_obj o (mkPC addr (pc_conn p) (pc_rpc p) false) n)
  | None => n
  end.

(** The peer that [AddBroker] adds or updates; [me] is [broker.nodeId]. *)
Definition join (me id : Z) (addr : string) (n : peer_network) : peer_network :=
  if id =? me then n
  else match members n !! id with
       | Some o => pc_updateAddr o addr n
       | None =>
           let o := length (objs n) in
           pc_connect o (mkNetwork (objs n ++ [mkPC addr None None false]) (chans n) (retries n)
                           (<[id := o]> (members n)))
       end.

(** [c.peers.Delete] of [applyRemoveNode]. *)
Definition leave (id : Z) (n : peer_network) : peer_network := with_members (delete id (members n)) n.

(** A timer of [connect] runs. *)
Definition retry (k : nat) (n : peer_network) : peer_network :=
  match retries n !! k with
  | Some o => pc_connect o (with_retries (delete k (retries n)) n)
  | None => n
  end.

Variant net_event := NJoin (id : Z) (addr : string) | NLeave (id : Z) | NRetry (k : nat).

Definition net_step (me : Z) (e : net_event) (n : peer_network) : peer_network :=
  match e with
  | NJoin id addr => join me id addr n
  | NLeave id => leave id n
  | NRetry k => retry k n
  end.

Definition net_run (me : Z) (es : list net_event) (n : peer_network) : peer_network :=
  fold_left (λ n e, net_step me e n) es n.

(** The peers as [Raft] has them. *)
Definition view (p : pclient) : peerClient := mkPeer (pc_addr p) (pc_ready p).
Definition peers_view (n : peer_network) : gmap Z peerClient :=
  omap (λ o, view <$> objs n !! o) (members n).

Definition open_channels (n : peer_network) : nat :=
  length (filter (λ c, ch_open c = true) (chans n)).
(** The objects that have a connection. *)
Definition connected_objs (n : peer_network) : nat :=
  length (filter (λ p, is_Some (pc_conn p)) (objs n)).

(** ** The invariant *)
Record net_ok (n : peer_network) : Prop := {
  nk_members : ∀ id o, members n !! id = Some o → is_Some (objs n !! o);
  nk_inj : ∀ i j o, members n !! i = Some o → members n !! j = Some o → i = j;
  nk_retries : ∀ o, o ∈ retries n → is_Some (objs n !! o);
  nk_conn : ∀ o p i, objs n !! o = Some p → pc_conn p = Some i →
    ∃ c, chans n !! i = Some c ∧ ch_open c = true ∧
      (pc_ready p = true → ch_target c = pc_addr p);
  nk_ready : ∀ o p, objs n !! o = Some p →
    pc_rpc p = pc_conn p ∧ (pc_ready p = true → is_Some (pc_conn p));
  nk_sep : ∀ o o' p p' i, objs n !! o = Some p → objs n !! o' = Some p' →
    pc_conn p = Some i → pc_conn p' = Some i → o = o';
  nk_count : open_channels n = connected_objs n
}.

Lemma filter_insert_length {A} (P : A → Prop) `{∀ x, Decision (P x)} (l : list A) i x y :
  l !! i = Some x →
  (length (filter P (<[i:=y]> l)) + (if decide (P x) then 1 else 0) =
   length (filter P l) + (if decide (P y) then 1 else 0))%nat.
Proof.
  revert i. induction l as [|z l IH]; intros [|i]; simpl; try done.
  - intros [= ->]. rewrite !filter_cons. repeat destruct (decide _); simpl; lia.
  - intros Hi. specialize (IH i Hi). rewrite !filter_cons. destruct (decide (P z)); simpl; lia.
Qed.

Lemma filter_app_length {A} (P : A → Prop) `{∀ x, Decision (P x)} (l : list A) x :
  length (filter P (l ++ [x])) = (length (filter P l) + (if decide (P x) then 1 else 0))%nat.
Proof. rewrite filter_app, length_app, filter_cons. by destruct (decide _). Qed.

Lemma net_ok_no_peers : net_ok no_peers.
Proof.
  split; simpl; try done.
  all: intros; match goal with H : _ |- _ => by rewrite ?lookup_empty, ?elem_of_nil in H end.
Qed.

(** The object after [connect]. *)
Lemma connect_obj o p n : objs n !! o = Some p → pc_ready p = false →
  (valid (pc_addr p) = false ∧ pc_connect o n = with_retries (o :: retries n) n) ∨
  (valid (pc_addr p) = true ∧
   let m := close_conn (pc_conn p) n in
   let i := length (chans n) in
   pc_connect o n = mkNetwork (<[o := mkPC (pc_addr p) (Some i) (Some i) true]> (objs n))
     (chans m ++ [mkChannel (pc_addr p) true]) (retries n) (members n)).
Proof.
  intros E Hp. unfold pc_connect, peer_reconnnect. rewrite E, Hp.
  destruct (valid (pc_addr p)) eqn:Ev; [right|by left]. split; [done|]. simpl.
  assert (length (chans (close_conn (pc_conn p) n)) = length (chans n)) as Hl.
  { unfold close_conn, chan_close. destruct (pc_conn p); [|done].
    simpl. destruct (chans n !! _); [apply length_insert|done]. }
  unfold set_ready. simpl. rewrite Hl.
  assert (objs (close_conn (pc_conn p) n) = objs n) as Ho by by destruct (pc_conn p).
  rewrite Ho, list_lookup_insert_eq by by eapply lookup_lt_Some.
  unfold put_obj, with_chans. simpl. rewrite list_insert_insert_eq.
  by destruct (pc_conn p).
Qed.

Lemma connect_ready o p n : objs n !! o = Some p → pc_ready p = true → pc_connect o n = n.
Proof. intros E Hp. unfold pc_connect. by rewrite E, Hp. Qed.

(** [connect] touches one object only. *)
Lemma connect_frame o o' n : o ≠ o' → objs (pc_connect o n) !! o' = objs n !! o'.
Proof.
  intros Ho. destruct (objs n !! o) as [p|] eqn:E; [|unfold pc_connect; by rewrite E].
  destruct (pc_ready p) eqn:Hp; [by erewrite connect_ready|].
  destruct (connect_obj o p n E Hp) as [[_ ->]|[_ ->]]; [done|]. simpl. by rewrite list_lookup_insert_ne.
Qed.

Lemma connect_members o n : members (pc_connect o n) = members n.
Proof.
  destruct (objs n !! o) as [p|] eqn:E; [|unfold pc_connect; by rewrite E].
  destruct (pc_ready p) eqn:Hp; [by erewrite connect_ready|].
  by destruct (connect_obj o p n E Hp) as [[_ ->]|[_ ->]].
Qed.

(** The channels after the connection of an object is closed. *)
Lemma close_lookup conn n i c : chans (close_conn conn n) !! i = Some c →
  ∃ c', chans n !! i = Some c' ∧ ch_target c = ch_target c' ∧
    (conn = Some i → ch_open c = false) ∧ (conn ≠ Some i → c = c').
Proof.
  unfold close_conn, chan_close. destruct conn as [j|]; simpl; [|naive_solver].
  destruct (chans n !! j) as [cj|] eqn:E; [|intros Hc; exists c; naive_solver].
  destruct (decide (i = j)) as [->|Hij].
  - rewrite list_lookup_insert_eq by by eapply lookup_lt_Some. intros [= <-]. naive_solver.
  - rewrite list_lookup_insert_ne by done. naive_solver.
Qed.

Lemma close_count conn n :
  (∀ i, conn = Some i → ∃ c, chans n !! i = Some c ∧ ch_open c = true) →
  (open_channels (close_conn conn n) + (if decide (is_Some conn) then 1 else 0) = open_channels n)%nat.
Proof.
  intros H. unfold close_conn, open_channels, chan_close. destruct conn as [i|]; simpl.
  - destruct (H i) as (c & Hc & Ho); [done|].
    rewrite Hc.
    pose proof (filter_insert_length (λ c, ch_open c = true) (chans n) i c
      (mkChannel (ch_target c) false) Hc) as E.
    repeat destruct (decide _); simpl in *; try done; lia.
  - lia.
Qed.

Lemma insert_lookup_cases {A} (l : list A) o x o' y : <[o := x]> l !! o' = Some y →
  (o' = o ∧ y = x) ∨ (o' ≠ o ∧ l !! o' = Some y).
Proof. intros [(-> & <- & _)|[Hne H]]%list_lookup_insert_Some; [by left|right; auto]. Qed.

(** A write to one object that keeps its connection and does not make it ready. *)
Lemma put_ok o p q n : net_ok n → objs n !! o = Some p → pc_conn q = pc_conn p →
  pc_rpc q = pc_rpc p → pc_ready q = false → net_ok (put_obj o q n).
Proof.
  intros [Hm Hi Hr Hc Hs Hsep Hcnt] E Hq Hrpc Hf.
  assert (∀ o', is_Some (objs n !! o') → is_Some (<[o := q]> (objs n) !! o')) as Hdom.
  { intros o'. rewrite !lookup_lt_is_Some. by rewrite length_insert. }
  assert (∀ o' p', <[o := q]> (objs n) !! o' = Some p' →
    ∃ p0, objs n !! o' = Some p0 ∧ pc_conn p' = pc_conn p0 ∧ pc_rpc p' = pc_rpc p0 ∧
    (pc_ready p' = true → p' = p0)) as Hold.
  { intros o' p' [[-> ->]|[_ Hl]]%insert_lookup_cases; [exists p|exists p']; naive_solver congruence. }
  split; simpl; try done.
  - intros id o' ?. by eapply Hdom, Hm.
  - intros o' ?. by apply Hdom, Hr.
  - intros o' p' i (p0 & Hl & -> & _ & Hp)%Hold Hi'. destruct (Hc _ _ _ Hl Hi') as (c & ? & ? & ?).
    exists c. split_and!; [done..|]. intros Hr'. pose proof (Hp Hr') as ->. auto.
  - intros o' p' (p0 & Hl & Ec & Er & Hp)%Hold. rewrite Ec, Er.
    split; [by eapply Hs|]. intros Hr'. pose proof (Hp Hr') as ->. by eapply Hs.
  - intros o1 o2 p1 p2 i (q1 & H1 & -> & _)%Hold (q2 & H2 & -> & _)%Hold. by apply Hsep.
  - unfold open_channels, connected_objs in *. simpl. rewrite Hcnt.
    pose proof (filter_insert_length (λ p, is_Some (pc_conn p)) (objs n) o p q E) as Hf'.
    cbn beta in Hf'. rewrite Hq in Hf'. repeat destruct (decide _); try done; lia.
Qed.

Lemma connect_ok o n : net_ok n → net_ok (pc_connect o n).
Proof.
  intros Hn. destruct (objs n !! o) as [p|] eqn:E; [|unfold pc_connect; by rewrite E].
  destruct (pc_ready p) eqn:Hp; [by erewrite connect_ready|].
  destruct (connect_obj o p n E Hp) as [[_ ->]|[_ ->]].
  - destruct Hn; split; simpl; try done. intros o' [->|]%elem_of_cons; eauto.
  - destruct Hn as [Hm Hi Hr Hc Hs Hsep Hcnt]. set (m := close_conn (pc_conn p) n).
    assert (length (chans m) = length (chans n)) as Hlen.
    { unfold m, close_conn, chan_close. destruct (pc_conn p); [|done].
      simpl. destruct (chans n !! _); [apply length_insert|done]. }
    set (q := mkPC (pc_addr p) _ _ true).
    assert (∀ o', is_Some (objs n !! o') → is_Some (<[o := q]> (objs n) !! o')) as Hdom.
    { intros o'. rewrite !lookup_lt_is_Some. by rewrite length_insert. }
    assert (∀ o' p' i, o' ≠ o → objs n !! o' = Some p' → pc_conn p' = Some i →
      (i < length (chans n))%nat ∧ pc_conn p ≠ Some i) as Hother.
    { intros o' p' i Hne Hl Hi'. destruct (Hc _ _ _ Hl Hi') as (c & Hci & _).
      split; [by eapply lookup_lt_Some|]. intros Hpi. by destruct Hne, (Hsep o' o p' p i). }
    split; simpl; try done.
    + intros id o' ?. by eapply Hdom, Hm.
    + intros o' ?. by apply Hdom, Hr.
    + intros o' p' i [[-> ->]|[Hne Hl]]%insert_lookup_cases Hi'.
      * simpl in Hi'. injection Hi' as <-. eexists. by rewrite <-Hlen, list_lookup_middle.
      * destruct (Hother _ _ _ Hne Hl Hi') as [Hlt Hpi]. destruct (Hc _ _ _ Hl Hi') as (c & Hci & Ho).
        exists c. split; [|done]. rewrite lookup_app_l by (by rewrite Hlen).
        destruct (chans m !! i) as [c1|] eqn:E1.
        -- destruct (close_lookup _ _ _ _ E1) as (c2 & Hc2 & _ & _ & Heq). rewrite (Heq Hpi). congruence.
        -- apply lookup_ge_None in E1. lia.
    + intros o' p' [[-> ->]|[Hne Hl]]%insert_lookup_cases; [by split|by eapply Hs].
    + intros o1 o2 p1 p2 i [[-> ->]|[Hne1 H1]]%insert_lookup_cases
        [[-> ->]|[Hne2 H2]]%insert_lookup_cases Hi1 Hi2; [done| | |by eapply Hsep].
      * simpl in Hi1. injection Hi1 as <-. destruct (Hother _ _ _ Hne2 H2 Hi2). lia.
      * simpl in Hi2. injection Hi2 as <-. destruct (Hother _ _ _ Hne1 H1 Hi1). lia.
    + unfold open_channels, connected_objs in *. simpl.
      rewrite filter_app_length. simpl.
      pose proof (filter_insert_length (λ p, is_Some (pc_conn p)) (objs n) o p q E) as Hf.
      cbn beta in Hf.
      destruct (decide (is_Some (pc_conn q))) as [_|[]]; [|by eexists].
      assert (∀ i, pc_conn p = Some i → ∃ c, chans n !! i = Some c ∧ ch_open c = true) as Hopen.
      { intros i Hpi. destruct (Hc _ _ _ E Hpi) as (c & ? & ? & _). eauto. }
      pose proof (close_count _ _ Hopen) as Hcl. fold m in Hcl. unfold open_channels in Hcl.
      destruct (decide (true = true)); [|done]. lia.
Qed.

(** After each call an object that is not ready has an address that is refused. *)
Definition refused (n : peer_network) : Prop :=
  ∀ o p, objs n !! o = Some p → pc_ready p = false → valid (pc_addr p) = false.

Definition refused_but (o : nat) (n : peer_network) : Prop :=
  ∀ o' p, o' ≠ o → objs n !! o' = Some p → pc_ready p = false → valid (pc_addr p) = false.

Lemma connect_refused o n : refused_but o n → refused (pc_connect o n).
Proof.
  intros H o' p'. destruct (decide (o' = o)) as [->|Hne].
  - destruct (objs n !! o) as [p|] eqn:E; [|unfold pc_connect; rewrite E; congruence].
    destruct (pc_ready p) eqn:Hp; [erewrite connect_ready by done; congruence|].
    destruct (connect_obj o p n E Hp) as [[? ->]|[_ ->]]; simpl.
    + rewrite E. by intros [= <-].
    + rewrite list_lookup_insert_eq by by eapply lookup_lt_Some. by intros [= <-].
  - rewrite connect_frame by done. by apply H.
Qed.

(** What [connect] makes of its object. *)
Lemma connect_view o p n : objs n !! o = Some p →
  view <$> objs (pc_connect o n) !! o = Some (peer_connect valid (view p)).
Proof.
  intros E. unfold peer_connect, view at 2. simpl. destruct (pc_ready p) eqn:Hp.
  - erewrite connect_ready by done. by rewrite E.
  - destruct (connect_obj o p n E Hp) as [[Hv ->]|[Hv ->]]; simpl; rewrite Hv.
    + rewrite E. simpl. unfold view. by rewrite Hp.
    + by rewrite list_lookup_insert_eq by by eapply lookup_lt_Some.
Qed.

Lemma fresh_ok id addr n : net_ok n → members n !! id = None →
  net_ok (mkNetwork (objs n ++ [mkPC addr None None false]) (chans n) (retries n)
            (<[id := length (objs n)]> (members n))).
Proof.
  intros [Hm Hi Hr Hc Hs Hsep Hcnt] Hid.
  assert (∀ o, is_Some (objs n !! o) → is_Some ((objs n ++ [mkPC addr None None false]) !! o)) as Hdom.
  { intros o. rewrite !lookup_lt_is_Some, length_app. lia. }
  assert (∀ o p, (objs n ++ [mkPC addr None None false]) !! o = Some p →
    objs n !! o = Some p ∨ p = mkPC addr None None false) as Hold.
  { intros o p [?|[_ [_ <-]%list_lookup_singleton_Some]]%lookup_app_Some; [by left|by right]. }
  assert (∀ i o, members n !! i = Some o → o ≠ length (objs n)) as Hlt.
  { intros i o Hio ->. apply Hm in Hio. apply lookup_lt_is_Some in Hio. lia. }
  split; simpl.
  - intros i o [[<- <-]|[_ Hio]]%lookup_insert_Some; [|by eapply Hdom, Hm].
    rewrite list_lookup_middle; eauto.
  - intros i j o. rewrite !lookup_insert_Some. naive_solver.
  - intros o Ho. by apply Hdom, Hr.
  - intros o p i [Hl| ->]%Hold; [by eapply Hc|done].
  - intros o p [Hl| ->]%Hold; [by eapply Hs|done].
  - intros o1 o2 p1 p2 i [H1| ->]%Hold [H2| ->]%Hold; intros; [by eapply Hsep|done..].
  - unfold open_channels, connected_objs in *. simpl.
    rewrite (filter_app_length (λ p, is_Some (pc_conn p))). cbn beta.
    destruct (decide _) as [[? Hnone]|_]; [simpl in Hnone; congruence|]. lia.
Qed.

Lemma connect_fresh_refused addr n m r : refused n →
  refused_but (length (objs n)) (mkNetwork (objs n ++ [mkPC addr None None false]) (chans n) r m).
Proof.
  intros H o p Hne Hl. simpl in Hl. apply lookup_app_Some in Hl as [Hl|[Hge Hl]]; [by eapply H|].
  apply list_lookup_singleton_Some in Hl as [? _]. lia.
Qed.

Lemma step_ok me e n : net_ok n ∧ refused n → net_ok (net_step me e n) ∧ refused (net_step me e n).
Proof.
  intros [Hn Hrf]. destruct e as [id addr|id|k]; simpl.
  - unfold join. destruct (id =? me); [done|]. destruct (members n !! id) as [o|] eqn:Em.
    + unfold pc_updateAddr. destruct (objs n !! o) as [p|] eqn:E; [|done].
      destruct (decide _); [done|]. split.
      * apply connect_ok. by eapply put_ok.
      * apply connect_refused. intros o' p' Hne. simpl. rewrite list_lookup_insert_ne by done. apply Hrf.
    + split; [by apply connect_ok, fresh_ok|by apply connect_refused, connect_fresh_refused].
  - split; [|done]. destruct Hn as [Hm Hi ? ? ? ? ?]. split; simpl; try done.
    + intros i o [_ ?]%lookup_delete_Some. by eapply Hm.
    + intros i j o [_ ?]%lookup_delete_Some [_ ?]%lookup_delete_Some. by eapply Hi.
  - unfold retry. destruct (retries n !! k) as [o|] eqn:Ek; [|done]. split.
    + apply connect_ok. destruct Hn as [? ? Hr ? ? ? ?]. split; simpl; try done.
      intros o' Ho. apply Hr. by eapply list_elem_of_delete_inv.
    + apply connect_refused. intros o' p' _. apply Hrf.
Qed.

Lemma run_ok me es n : net_ok n ∧ refused n → net_ok (net_run me es n) ∧ refused (net_run me es n).
Proof. revert n. induction es as [|e es IH]; intros n Hn; [done|]. by apply IH, step_ok. Qed.

Lemma reached_ok me es : net_ok (net_run me es no_peers) ∧ refused (net_run me es no_peers).
Proof. apply run_ok. split; [apply net_ok_no_peers|by intros o p]. Qed.

(** ** The peers of [Raft] *)
Lemma peers_view_lookup id n o p : members n !! id = Some o → objs n !! o = Some p →
  peers_view n !! id = Some (view p).
Proof. intros Hm Ho. unfold peers_view. rewrite lookup_omap, Hm. simpl. by rewrite Ho. Qed.

(** The view after one member's object is replaced. *)
Lemma peers_view_update n n' id o q : net_ok n' → members n' = <[id := o]> (members n) →
  (∀ o', o' ≠ o → view <$> objs n' !! o' = view <$> objs n !! o') →
  view <$> objs n' !! o = Some q → peers_view n' = <[id := q]> (peers_view n).
Proof.
  intros Hn Hm Hf Hq. apply map_eq. intros j. unfold peers_view. rewrite lookup_omap, Hm.
  destruct (decide (j = id)) as [->|Hj].
  - rewrite !lookup_insert_eq. simpl. by rewrite Hq.
  - rewrite !lookup_insert_ne, lookup_omap by done. destruct (members n !! j) as [o'|] eqn:Ej; [|done].
    simpl. apply Hf. intros ->. apply Hj, (nk_inj _ Hn _ _ o); rewrite Hm.
    + by rewrite lookup_insert_ne.
    + by rewrite lookup_insert_eq.
Qed.

Lemma join_view me id addr n : net_ok n → refused n →
  peers_view (join me id addr n) =
    (if id =? me then peers_view n
     else <[id := match peers_view n !! id with
                  | Some p => updateAddr valid addr p
                  | None => peer_connect valid (newPeerClient addr)
                  end]> (peers_view n)).
Proof.
  intros Hn Hrf. pose proof (step_ok me (NJoin id addr) n (conj Hn Hrf)) as [Hn' _]. simpl in Hn'.
  revert Hn'. unfold join. destruct (id =? me); [done|].
  destruct (members n !! id) as [o|] eqn:Em.
  - destruct (nk_members _ Hn _ _ Em) as [p Ep]. erewrite peers_view_lookup by done.
    unfold pc_updateAddr, updateAddr. rewrite Ep. change (p_addr (view p)) with (pc_addr p).
    destruct (decide (pc_addr p = addr)).
    + intros _. symmetry. apply insert_id. by eapply peers_view_lookup.
    + set (n1 := put_obj o _ n). intros Hn'. apply (peers_view_update _ _ _ o); [done| | |].
      * rewrite connect_members. simpl. by rewrite insert_id.
      * intros o' Ho. rewrite connect_frame by done. simpl. by rewrite list_lookup_insert_ne.
      * rewrite (connect_view _ (mkPC addr (pc_conn p) (pc_rpc p) false)); [done|].
        simpl. apply list_lookup_insert_eq. by eapply lookup_lt_Some.
  - unfold peers_view at 2. rewrite lookup_omap, Em. simpl.
    set (n1 := mkNetwork _ _ _ _). intros Hn'. apply (peers_view_update _ _ _ (length (objs n))); [done| | |].
    + by rewrite connect_members.
    + intros o' Ho. rewrite connect_frame by done. simpl.
      destruct (decide (o' < length (objs n))%nat) as [Hlt|Hge]; [by rewrite lookup_app_l|].
      rewrite !lookup_ge_None_2; rewrite ?length_app; simpl; try done; lia.
    + rewrite (connect_view _ (mkPC addr None None false)); [done|].
      simpl. by apply list_lookup_middle.
Qed.

Lemma leave_view id n : peers_view (leave id n) = delete id (peers_view n).
Proof.
  apply map_eq. intros j. unfold peers_view. rewrite lookup_omap. simpl.
  destruct (decide (j = id)) as [->|].
  - by rewrite !lookup_delete_eq.
  - by rewrite !lookup_delete_ne, lookup_omap.
Qed.

(** The timer of a peer whose address was refused is set again, and nothing else is done. *)
Lemma retry_same k n : refused n → 
  objs (retry k n) = objs n ∧ chans (retry k n) = chans n ∧ members (retry k n) = members n.
Proof.
  intros Hrf. unfold retry. destruct (retries n !! k) as [o|]; [|done].
  set (m := with_retries _ n). destruct (objs m !! o) as [p|] eqn:E; [|unfold pc_connect; by rewrite E].
  destruct (pc_ready p) eqn:Hp; [by erewrite connect_ready|].
  destruct (connect_obj o p m E Hp) as [[_ ->]|[Hv _]]; [done|].
  pose proof (Hrf o p E Hp). congruence.
Qed.

Lemma retry_view k n : refused n → peers_view (retry k n) = peers_view n.
Proof. intros Hrf. destruct (retry_same k n Hrf) as (Ho & _ & Hm). unfold peers_view. by rewrite Ho, Hm. Qed.

Lemma cl_peers_put {CS} id p (c : cluster CS) : rm (cl_peers (put_peer id p c)) = <[id := p]> (rm (cl_peers c)).
Proof. unfold put_peer, cl_peers. simpl. apply rm_Set. Qed.

Lemma cl_peers_addNode {CS} reply id (c : cluster CS) : cl_peers (snd (addNode reply id c)) = cl_peers c.
Proof. unfold addNode. by destruct (raft c). Qed.

(** [AddBroker] on the peers of [Raft]. *)
Lemma AddBroker_peers {CS} reply id addr (c : cluster CS) :
  rm (cl_peers (snd (AddBroker valid reply id addr c))) =
    (if id =? self c then rm (cl_peers c)
     else <[id := match rm (cl_peers c) !! id with
                  | Some p => updateAddr valid addr p
                  | None => peer_connect valid (newPeerClient addr)
                  end]> (rm (cl_peers c))).
Proof.
  unfold AddBroker. destruct (id =? self c); [done|].
  change (GetPeer id c) with (rm (cl_peers c) !! id).
  destruct (rm (cl_peers c) !! id) as [p|]; [apply cl_peers_put|].
  set (c1 := put_peer _ _ c).
  assert (rm (cl_peers c1) = <[id := peer_connect valid (newPeerClient addr)]> (rm (cl_peers c))) as <-
    by apply cl_peers_put.
  destruct (_ =? _); [done|]. destruct (negb (IsLeader c1)); [done|]. by rewrite cl_peers_addNode.
Qed.

(** The removal of a node on the peers of [Raft]. *)
Lemma Expel_peers `{!GoRange uint8, !GoRange string, !GoRange Z} b b' :
  broker_ExpelAllConns b = Some (Ok b') → peers b' = peers b.
Proof.
  intros H. unfold broker_ExpelAllConns in H.
  set (R := λ a a' : outcome error broker, ∀ b', a' = Ok b' → ∃ b, a = Ok b ∧ peers b' = peers b).
  assert (PreOrder R) as HR.
  { split; [intros a b1 ->; by exists b1|]. intros a1 a2 a3 H1 H2 b3 H3.
    destruct (H2 b3 H3) as (b2 & H4 & ->). destruct (H1 b2 H4) as (b1 & ? & ->). eauto. }
  eapply (fold_rel R (λ a, a)) in H; [|done|].
  - destruct (H b' eq_refl) as (b1 & [= <-] & ?). done.
  - intros a x a'. simpl. destruct a as [b0| |]; simpl; [|by intros [= <-]..].
    destruct (Listener_ExpelAllConns x.2) as [[l| |]|]; simpl; intros [= <-] ? [= <-]; eauto.
Qed.

Lemma applyRemoveNode_peers {CS} `{!GoRange uint8, !GoRange string, !GoRange Z} id (c c' : cluster CS) :
  applyRemoveNode id c = Some (Ok c') → rm (cl_peers c') = delete id (rm (cl_peers c)).
Proof.
  unfold applyRemoveNode. set (c1 := with_node (with_peers _ _) _).
  assert (rm (cl_peers c1) = delete id (rm (cl_peers c))) as <- by apply rm_Delete.
  destruct (self c1 =? id); [|by intros [= <-]]. simpl.
  destruct (broker_ExpelAllConns _) as [[b| |]|] eqn:E; simpl; [|done..].
  intros [= <-]. unfold cl_peers at 1. simpl. f_equal. by eapply (Expel_peers (node c1)).
Qed.

(** C12 (refinement): the peer objects implement the peers that [Raft] has.  After any sequence of
    joins, removals and timers, adding a broker and applying the removal of one act on the objects
    as on the peers of [Raft]; a ready peer has one open channel, to its current address, which is
    also the one its stub uses; a peer that is not ready has an address that gRPC refuses, and the
    timer that tries again changes neither an object nor a channel. *)
Theorem peers_refine {CS} `{!GoRange uint8, !GoRange string, !GoRange Z} (es : list net_event)
    (c : cluster CS) :
  let n := net_run (self c) es no_peers in
  rm (cl_peers c) = peers_view n →
  (∀ reply id addr,
     rm (cl_peers (snd (AddBroker valid reply id addr c))) =
     peers_view (net_step (self c) (NJoin id addr) n)) ∧
  (∀ id c', applyRemoveNode id c = Some (Ok c') →
     rm (cl_peers c') = peers_view (net_step (self c) (NLeave id) n)) ∧
  (∀ k, let n' := net_step (self c) (NRetry k) n in
     objs n' = objs n ∧ chans n' = chans n ∧ members n' = members n) ∧
  (∀ id p, rm (cl_peers c) !! id = Some p →
     if p_ready p then
       ∃ o i, members n !! id = Some o ∧
         objs n !! o = Some (mkPC (p_addr p) (Some i) (Some i) true) ∧
         chans n !! i = Some (mkChannel (p_addr p) true)
     else valid (p_addr p) = false).
Proof.
  intros n Hc. destruct (reached_ok (self c) es) as [Hn Hrf]. fold n in Hn, Hrf. split_and!.
  - intros reply id addr. simpl. by rewrite AddBroker_peers, join_view, Hc.
  - intros id c' H. apply applyRemoveNode_peers in H. simpl. by rewrite H, leave_view, Hc.
  - intros k. by apply retry_same.
  - intros id p. rewrite Hc. unfold peers_view. rewrite lookup_omap.
    destruct (members n !! id) as [o|] eqn:Em; [|done]. simpl.
    destruct (objs n !! o) as [q|] eqn:Eo; [|done]. simpl. intros [= <-]. unfold view. simpl.
    destruct (pc_ready q) eqn:Er; [|by eapply Hrf].
    destruct (nk_ready _ Hn _ _ Eo) as [Hr [i Hi]]; [done|].
    destruct (nk_conn _ Hn _ _ _ Eo Hi) as ([t op] & Hch & Hop & Ht). simpl in *.
    exists o, i. split; [done|]. split; [|by rewrite Hch, Hop, Ht].
    rewrite Eo. destruct q; simpl in *. by subst.
Qed.

(** ** Peers that were removed *)

(** An object that no member refers to and that is ready stays as it is. *)
Lemma connect_keep o o' p n : objs n !! o = Some p → pc_ready p = true →
  objs (pc_connect o' n) !! o = Some p.
Proof.
  intros E Hp. destruct (decide (o' = o)) as [->|]; [by erewrite connect_ready|by rewrite connect_frame].
Qed.

Definition orphan (o : nat) (p : pclient) (n : peer_network) : Prop :=
  objs n !! o = Some p ∧ pc_ready p = true ∧ ∀ id, members n !! id ≠ Some o.

Lemma step_orphan me e o p n : orphan o p n → orphan o p (net_step me e n).
Proof.
  intros (E & Hp & Hm). destruct e as [id addr|id|k]; simpl.
  - unfold join. destruct (id =? me); [done|]. destruct (members n !! id) as [o'|] eqn:Em.
    + unfold pc_updateAddr. destruct (objs n !! o') as [q|] eqn:Eq; [|done].
      destruct (decide _); [done|]. assert (o' ≠ o) by congruence.
      split; [|split; [done|by rewrite connect_members]].
      apply connect_keep; [|done]. simpl. by rewrite list_lookup_insert_ne.
    + split; [|split; [done|]].
      * apply connect_keep; [|done]. simpl. by apply lookup_app_l_Some.
      * intros j. rewrite connect_members. simpl. intros [[_ Hl]|[_ ?]]%lookup_insert_Some; [|by eapply Hm].
        apply lookup_lt_Some in E. lia.
  - split_and!; [done..|]. intros j. simpl. intros [_ ?]%lookup_delete_Some. by eapply Hm.
  - unfold retry. destruct (retries n !! k) as [o'|]; [|done].
    split; [by apply connect_keep|]. split; [done|by rewrite connect_members].
Qed.

Lemma run_orphan me es o p n : orphan o p n → orphan o p (net_run me es n).
Proof. revert n. induction es as [|e es IH]; intros n Hn; [done|]. by apply IH, step_orphan. Qed.

(** A node that joins for the first time opens a channel. *)
Lemma join_opens me id addr n : id ≠ me → valid addr = true → members n !! id = None →
  open_channels (join me id addr n) = S (open_channels n).
Proof.
  intros Hid Hv Hm. unfold join. rewrite (proj2 (Z.eqb_neq id me) Hid), Hm.
  set (m := mkNetwork _ _ _ _). assert (objs m !! length (objs n) = Some (mkPC addr None None false)) as E
    by by apply list_lookup_middle.
  destruct (connect_obj _ _ m E eq_refl) as [[Hv' _]|[_ ->]]; simpl in *; [congruence|].
  unfold open_channels. simpl.
  rewrite (filter_app_length (λ c, ch_open c = true)). cbn beta.
  destruct (decide _) as [_|Hno]; [lia|done].
Qed.

Fixpoint rejoins (k : nat) (id : Z) (addr : string) : list net_event :=
  match k with O => [] | S k => NLeave id :: NJoin id addr :: rejoins k id addr end.

Lemma rejoins_open me k id addr n : id ≠ me → valid addr = true →
  open_channels (net_run me (rejoins k id addr) n) = (open_channels n + k)%nat.
Proof.
  intros Hid Hv. revert n. induction k as [|k IH]; intros n; [simpl; lia|].
  change (net_run me (rejoins (S k) id addr) n) with
    (net_run me (rejoins k id addr) (join me id addr (leave id n))).
  rewrite IH, join_opens; [change (open_channels (leave id n)) with (open_channels n); lia|done..|].
  apply lookup_delete_eq.
Qed.

(** C35 (safety): the channel of a removed peer is never closed.  When a ready peer is removed, its
    channel stays open whatever joins, leaves and timers follow, although no member of the map has
    it as its connection or stub; and every time a node leaves and joins again one more channel is
    open. *)
Theorem removed_peer_leaks (me : Z) (es es' : list net_event) (id : Z) (o : nat) (p : pclient) :
  let n := net_run me es no_peers in
  members n !! id = Some o → objs n !! o = Some p → pc_ready p = true →
  (let n' := net_run me es' (leave id n) in
   ∃ i, pc_conn p = Some i ∧ chans n' !! i = Some (mkChannel (pc_addr p) true) ∧
     ∀ id' o' q, members n' !! id' = Some o' → objs n' !! o' = Some q →
       pc_conn q ≠ Some i ∧ pc_rpc q ≠ Some i) ∧
  (∀ k addr, id ≠ me → valid addr = true →
     open_channels (net_run me (rejoins k id addr) n) = (open_channels n + k)%nat).
Proof.
  intros n Hm Ho Hp. split; [|intros; by apply rejoins_open].
  pose proof (reached_ok me es) as Hn. fold n in Hn.
  assert (orphan o p (leave id n)) as Horph.
  { split_and!; [done..|]. intros j. simpl. intros [Hj Hjo]%lookup_delete_Some.
    by apply Hj, (nk_inj n (proj1 Hn) _ _ o). }
  intros n'. destruct (run_orphan me es' o p _ Horph) as (E & _ & Hno). fold n' in E, Hno.
  destruct (run_ok me es' _ (step_ok me (NLeave id) n Hn)) as [Hn' _].
  change (net_step me (NLeave id) n) with (leave id n) in Hn'. fold n' in Hn'.
  destruct (nk_ready _ Hn' _ _ E) as [_ [i Hi]]; [done|].
  destruct (nk_conn _ Hn' _ _ _ E Hi) as ([t op] & Hch & Hop & Ht). simpl in *.
  exists i. split; [done|]. split; [by rewrite Hch, Hop, Ht|].
  intros id' o' q Hid' Hq. destruct (nk_ready _ Hn' _ _ Hq) as [-> _].
  assert (pc_conn q ≠ Some i); [|done]. intros Hqi.
  assert (o = o') as -> by by eapply (nk_sep _ Hn'). by eapply Hno.
Qed.

End peers.

(** ** The calls that [Broker] takes for those of [SendToUser] *)
Section send.
Context `{!GoRange uint8, !GoRange string, !GoRange Z}.

Definition peer_SendToChannel (ctx : option error) (data : bytes) (targets : gmap string string)
    (b : broker) : option (outcome error (Z * Z) * broker) :=
  match coder_Unmarshal data with
  | Ok msg => '(t, s, b) ← sendToClients ctx msg targets b; Some (Ok (t, s), b)
  | Err _ => Some (Err (EXerr InvalidPeerMessage), b)
  | Panic w => Some (Panic w, b)
  end.

Definition peer_sendToChannel (ctx : option error) (link : Z → rpc) (m : Message)
    (cids : gmap string string) (p : peerClient) (id : Z) (bs : brokers)
  : option (outcome error (Z * Z) * brokers) :=
  if p_ready p then
    match fst (coder_Marshal 0 [] m) with
    | Ok data => call link id (peer_SendToChannel ctx data cids) bs
    | Err e => Some (Err e, bs)
    | Panic w => Some (Panic w, bs)
    end
  else Some (Err (EXerr PeerNotReady), bs).

(** Sending to the clients of a channel on a peer is what [send_node] does for those of a user. *)
Lemma sendToChannel_is_send : peer_sendToChannel = peer_send.
Proof. reflexivity. Qed.
End send.

(** ** Messages of raft *)
Section raft_messages.
Context {CS M : Type}.                                 (* raftpb.ConfState, raftpb.Message *)
Context (msg_Marshal : M → outcome error bytes) (msg_Unmarshal : bytes → outcome error M).
Context (raft_Step : M → option error).                (* raft.Node.Step of the receiving node *)

(** [Process], with the messages raft is given. *)
Definition Process (m : M) (c : cluster CS) : outcome error unit * list M :=
  if raft c then (match raft_Step m with None => Ok tt | Some e => Err e end, [m])
  else (Err (EXerr RaftNodeNotReady), []).

Definition peer_SendRaftMessage (data : bytes) (c : cluster CS) : outcome error unit * list M :=
  match msg_Unmarshal data with
  | Ok m => Process m c
  | Err e => (Err e, [])
  | Panic w => (Panic w, [])
  end.

Fixpoint raft_attempts (link : rpc) (target : option (cluster CS)) (data : bytes) : outcome error unit * list M :=
  match link, target with
  | Unsent e, _ => (Err e, [])
  | _, None => (Err ErrUnavailable, [])
  | Delivered, Some c => peer_SendRaftMessage data c
  | NoReply e, Some c => (Err e, snd (peer_SendRaftMessage data c))
  | Retried link, Some c =>
      let given := snd (peer_SendRaftMessage data c) in
      let '(r, more) := raft_attempts link target data in (r, given ++ more)
  end.

(** [peerClient.sendRaftMessage]; [target] is the cluster object of the peer's broker. *)
Definition sendRaftMessage (link : rpc) (p : peerClient) (target : option (cluster CS)) (m : M)
  : outcome error unit * list M :=
  if p_ready p then
    match msg_Marshal m with
    | Ok data => raft_attempts link target data
    | Err e => (Err e, [])
    | Panic w => (Panic w, [])
    end
  else (Err (EXerr PeerNotReady), []).

Record outgoing := mkOut { og_to : Z; og_snap : bool; og_msg : M; og_link : rpc }.

Definition is_sent (r : outcome error unit) : bool := match r with Ok _ => true | _ => false end.

(** A message of [sendRaftMessags] between real clusters: what [send_message] is told about it,
    and what the raft of the peer is given. *)
Definition transmit (clusters : gmap Z (cluster CS)) (c : cluster CS) (x : outgoing) : message * list M :=
  match GetPeer (og_to x) c with
  | Some p =>
      let '(r, given) := sendRaftMessage (og_link x) p (clusters !! og_to x) (og_msg x) in
      (mkMsg (og_to x) (og_snap x) (is_sent r), given)
  | None => (mkMsg (og_to x) (og_snap x) false, [])
  end.

(** The reports that raft is due for a message. *)
Definition due_reports (m : message) (c : cluster CS) : list raft_call :=
  if decide (GetPeer (m_to m) c = None) then []
  else if m_sent m then (if m_snap m then [ReportSnapshot (m_to m) true] else [])
  else ReportUnreachable (m_to m) :: (if m_snap m then [ReportSnapshot (m_to m) false] else []).

Lemma send_message_reports m (c : cluster CS) : m_snap m = false ∨ confState c ≠ None →
  ∃ c', send_message m c = Ok c' ∧ raft_log c' = raft_log c ++ due_reports m c ∧
    node c' = node c ∧ confState c' = confState c.
Proof.
  intros H. unfold send_message, due_reports.
  destruct (GetPeer (m_to m) c) as [p|]; [|eexists; simpl; by rewrite app_nil_r].
  assert (m_snap m && bool_decide (confState c = None) = false) as ->.
  { destruct H as [->|H]; [done|]. rewrite bool_decide_false by done. apply andb_false_r. }
  destruct (decide _); [done|]. destruct (m_sent m), (m_snap m); eexists; simpl.
  all: split; [reflexivity|]; simpl; by rewrite <-?app_assoc, ?app_nil_r.
Qed.

(** Reports of all messages of one [Ready]. *)
Lemma sendRaftMessags_reports ms (c : cluster CS) :
  Forall (λ m, m_snap m = false ∨ confState c ≠ None) ms →
  ∃ c', sendRaftMessags ms c = Ok c' ∧ node c' = node c ∧
    raft_log c' = raft_log c ++ (ms ≫= λ m, due_reports m c).
Proof.
  unfold sendRaftMessags. revert c. induction ms as [|m ms IH]; intros c Hms; simpl.
  - exists c. by rewrite app_nil_r.
  - apply Forall_cons in Hms as [Hm Hms].
    destruct (send_message_reports m c Hm) as (c1 & -> & Hl & Hn & Hcs).
    destruct (IH c1) as (c2 & E & Hn2 & Hl2); [by rewrite Hcs|].
    exists c2. split; [exact E|]. split; [congruence|]. rewrite Hl2, Hl, <-app_assoc. do 2 f_equal.
    apply list_bind_ext; [|done]. intros x. unfold due_reports, GetPeer, cl_peers. by rewrite Hn.
Qed.

Hypothesis marshalled : ∀ m data, msg_Marshal m = Ok data → msg_Unmarshal data = Ok m.

Lemma raft_attempts_spec l target m data : msg_Unmarshal data = Ok m →
  let '(r, given) := raft_attempts l target data in
  (is_sent r = true → given = replicate (handlings l) m ∧ raft_Step m = None ∧ replied l = true ∧
     ∃ t, target = Some t ∧ raft t = true) ∧
  (is_sent r = false → replied l = true → given = [] ∨ is_Some (raft_Step m)) ∧ Forall (eq m) given.
Proof using Type.
  intros Eu. destruct target as [t|]; [|destruct l; simpl; naive_solver].
  destruct (raft t) eqn:Er.
  - assert (peer_SendRaftMessage data t = (match raft_Step m with None => Ok tt | Some e => Err e end, [m])) as E
      by (unfold peer_SendRaftMessage, Process; by rewrite Eu, Er).
    enough (let '(r, given) := raft_attempts l (Some t) data in
      (is_sent r = true → given = replicate (handlings l) m ∧ raft_Step m = None ∧ replied l = true) ∧
      (is_sent r = false → replied l = true → is_Some (raft_Step m)) ∧ Forall (eq m) given) as H.
    { destruct (raft_attempts l (Some t) data). naive_solver. }
    induction l as [|e|e|l IH]; simpl; rewrite ?E; simpl; [destruct (raft_Step m); naive_solver|naive_solver..|].
    destruct (raft_attempts l (Some t) data) as [r given]. destruct IH as (H1 & H2 & H3).
    split_and!; [|done|by constructor]. intros Hs. by destruct (H1 Hs) as (-> & ? & ?).
  - assert (peer_SendRaftMessage data t = (Err (EXerr RaftNodeNotReady), [])) as E
      by (unfold peer_SendRaftMessage, Process; by rewrite Eu, Er).
    assert (∃ e, raft_attempts l (Some t) data = (Err e, [])) as [e ->]; [|simpl; naive_solver].
    induction l as [|e|e|l (e & IH)]; simpl; rewrite ?E, ?IH; simpl; by eexists.
Qed.

(** What a report says about the message: if none, the peer's raft accepted this very message; a
    report of an answered call says that raft was not given it or refused it. *)
Lemma transmit_spec clusters c x : let '(m, given) := transmit clusters c x in
  (m_sent m = true → given = replicate (handlings (og_link x)) (og_msg x) ∧ raft_Step (og_msg x) = None ∧
     replied (og_link x) = true ∧ ∃ t, clusters !! og_to x = Some t ∧ raft t = true) ∧
  (m_sent m = false → replied (og_link x) = true → given = [] ∨ is_Some (raft_Step (og_msg x))) ∧
  Forall (eq (og_msg x)) given.
Proof using marshalled.
  unfold transmit. destruct (GetPeer (og_to x) c) as [p|]; [|simpl; naive_solver].
  unfold sendRaftMessage. destruct (p_ready p); [|simpl; naive_solver].
  destruct (msg_Marshal (og_msg x)) as [data| |] eqn:Ed; [|simpl; naive_solver..].
  pose proof (raft_attempts_spec (og_link x) (clusters !! og_to x) _ data (marshalled _ _ Ed)) as H.
  by destruct (raft_attempts _ _ data).
Qed.

(** One [sendRaftMessags] between brokers.  It does not fail, and raft is told of
    each message in turn: nothing about a peer it does not know, that the peer is unreachable when
    the call failed, the end of a snapshot either way.  When no failure is reported for a known
    peer, that peer's raft was started, was given exactly this message, once for each time the call was handled,
    and accepted it; when one is reported although the call was answered, it was not given the message or
    refused it. *)
Theorem raft_messages_reported (clusters : gmap Z (cluster CS)) (c : cluster CS) (xs : list outgoing) :
  Forall (λ x, og_snap x = false ∨ confState c ≠ None) xs →
  (∃ c', sendRaftMessags (map (λ x, (transmit clusters c x).1) xs) c = Ok c' ∧ node c' = node c ∧
     raft_log c' = raft_log c ++ (xs ≫= λ x, due_reports (transmit clusters c x).1 c)) ∧
  (∀ x, x ∈ xs → GetPeer (og_to x) c ≠ None →
     let given := (transmit clusters c x).2 in
     let unreachable := ReportUnreachable (og_to x) ∈ due_reports (transmit clusters c x).1 c in
     (¬ unreachable → given = replicate (handlings (og_link x)) (og_msg x) ∧ raft_Step (og_msg x) = None ∧
        ∃ t, clusters !! og_to x = Some t ∧ raft t = true) ∧
     (unreachable → replied (og_link x) = true → given = [] ∨ is_Some (raft_Step (og_msg x)))).
Proof using marshalled.
  intros Hxs. split.
  - destruct (sendRaftMessags_reports (map (λ x, (transmit clusters c x).1) xs) c) as (c' & -> & Hn & Hl).
    + apply Forall_map. eapply Forall_impl; [exact Hxs|]. intros x Hx. simpl.
      assert (m_snap (transmit clusters c x).1 = og_snap x) as ->; [|done].
      unfold transmit. destruct (GetPeer _ _); [|done]. by destruct (sendRaftMessage _ _ _ _).
    + exists c'. split_and!; [done..|]. rewrite Hl. f_equal. clear. induction xs as [|x xs IH]; [done|].
      simpl. by f_equal.
  - intros x _ Hp. pose proof (transmit_spec clusters c x) as H.
    assert (m_to (transmit clusters c x).1 = og_to x) as Hto.
    { unfold transmit. destruct (GetPeer _ _); [|done]. by destruct (sendRaftMessage _ _ _ _). }
    destruct (transmit clusters c x) as [m given]. simpl in *. unfold due_reports. rewrite Hto.
    destruct (decide _); [done|]. destruct H as (H1 & H2 & _).
    destruct (m_sent m) eqn:Em.
    + split; [naive_solver|]. destruct (m_snap m); intros Hin; exfalso; revert Hin;
        rewrite ?list_elem_of_singleton, ?elem_of_nil; done.
    + split; [|by intros _; apply H2]. intros Hno. destruct Hno. by apply list_elem_of_here.
Qed.
End raft_messages.

(** *** A removed node: 2 joins, its address moves to one that is refused and back, it leaves *)
Definition any_but_bad (addr : string) : bool := negb (bool_decide (addr = "bad")).

Definition peers_run : list net_event :=
  [NJoin 2 "b:4567"; NJoin 3 "c:4567"; NJoin 2 "bad"; NRetry 0; NJoin 2 "b:4568"; NRetry 0].

Definition peers_cluster : cluster unit :=
  snd (AddBroker any_but_bad None 2 "b:4568"
        (snd (AddBroker any_but_bad None 3 "c:4567" (newCluster (lone_broker 1) 3)))).

Lemma peers_refine_witness :
  rm (cl_peers peers_cluster) = peers_view (net_run any_but_bad 1 peers_run no_peers) ∧
  ∃ o i, members (net_run any_but_bad 1 peers_run no_peers) !! 2 = Some o ∧
    objs (net_run any_but_bad 1 peers_run no_peers) !! o = Some (mkPC "b:4568" (Some i) (Some i) true) ∧
    chans (net_run any_but_bad 1 peers_run no_peers) !! i = Some (mkChannel "b:4568" true).
Proof.
  assert (rm (cl_peers peers_cluster) = peers_view (net_run any_but_bad 1 peers_run no_peers)) as E
    by (vm_compute; reflexivity).
  split; [exact E|].
  destruct (@peers_refine any_but_bad unit range_forward range_forward range_forward peers_run
    peers_cluster E) as (_ & _ & _ & H).
  exact (H 2 (mkPeer "b:4568" true) ltac:(vm_compute; reflexivity)).
Defined.

Lemma removed_peer_leaks_witness :
  let n := net_run any_but_bad 1 peers_run no_peers in
  open_channels n = 2%nat ∧ open_channels (net_run any_but_bad 1 (rejoins 3 2 "b:4568") n) = 5%nat ∧
  chans (net_run any_but_bad 1 [NJoin 2 "b:4568"] (leave 2 n)) !! 2%nat = Some (mkChannel "b:4568" true).
Proof.
  intros n.
  destruct (removed_peer_leaks any_but_bad 1 peers_run [NJoin 2 "b:4568"] 2 0
    (mkPC "b:4568" (Some 2%nat) (Some 2%nat) true)) as [H1 H2]; [vm_compute; reflexivity..|].
  split; [vm_compute; reflexivity|]. split.
  - unfold n. rewrite (H2 3%nat "b:4568"); [vm_compute; reflexivity|lia|vm_compute; reflexivity].
  - destruct H1 as (i & [= <-] & H & _). exact H.
Defined.

(** *** Messages to a broker that has started raft, to one that has not, and to a removed one *)
Definition started (id : Z) : cluster unit := with_started [] (newCluster (lone_broker id) 3).

Definition three_messages : list (@outgoing bytes) :=
  [mkOut 2 false [x01] Delivered; mkOut 3 false [x02] Delivered; mkOut 4 false [x03] Delivered].

Lemma raft_messages_reported_witness :
  let clusters := <[2 := started 2]> (<[3 := newCluster (lone_broker 3) 3]> ∅) in
  (∃ c', sendRaftMessags (map (λ x, (transmit Ok Ok (λ _, None) clusters peers_cluster x).1)
           three_messages) peers_cluster = Ok c' ∧ raft_log c' = [ReportUnreachable 3]) ∧
  (transmit Ok Ok (λ _, None) clusters peers_cluster (mkOut 2 false [x01] Delivered)).2 = [[x01]].
Proof.
  intros clusters.
  destruct (@raft_messages_reported unit bytes Ok Ok (λ _, None)
    ltac:(by intros m data [= <-]) clusters peers_cluster three_messages) as [H1 H2].
  { repeat constructor; by left. }
  split.
  - destruct H1 as (c' & E & _ & Hl). exists c'. split; [exact E|]. rewrite Hl. vm_compute. reflexivity.
  - apply (H2 (mkOut 2 false [x01] Delivered)); [by left|vm_compute; done|].
    change (GetPeer _ _) with (Some (mkPeer "b:4568" true)).
    vm_compute. intros H. by apply elem_of_nil in H.
Defined.
