(* ===== verification/Inspect.v ===== *)
(** * The status of the brokers (src/cluster: broker.go, cluster.go, peer_client.go, peer_server.go)

    [inspect] describes one broker, [Inspects] all of them: it asks every peer in a goroutine of
    its own, and the goroutines append to one slice without synchronisation, which is modelled as
    a transition system.  The status of the raft library and its storage are parameters. *)
From S2P Require Import Prelude Errors Coder Packet Safe Registry Server Broker Raft.
Local Open Scope Z_scope.

(** What [raft.Node.Status] reports, and the zero value of that struct. *)
Record raft_status := mkRaftStatus {
  RaftState : string; Term : Z; Applied : Z; Progress : option (gmap Z (Z * Z * string)) }.

Definition zero_status : raft_status := mkRaftStatus "StateFollower" 0 0 None.

(** [pb.Status]. *)
Record nodeStatus := mkStatus {
  st_Id : Z;
  UserCount : gmap Z Z;
  ClientCount : gmap string Z;
  ChannelCount : gmap Z Z;
  st_RaftState : string;
  RaftTerm : Z;
  st_RaftLogSize : Z;
  RaftApplied : Z;
  RaftProgress : gmap Z (Z * Z * string);
  RaftNodeCount : Z
}.

(** The log storage of the raft library, also called on a nil pointer. *)
Class RaftStorage (St : Type) := {
  FirstIndex : option St → outcome error Z;
  LastIndex : option St → outcome error Z
}.

Section inspect.
Context {CS St : Type} {HS : RaftStorage St}.

(** The raft node and the storage exist once [startRaft] has run. *)
Record raft_node := mkRaftNode { rn_status : raft_status; rn_storage : St }.

Definition storage (n : raft_node) (c : cluster CS) : option St :=
  if raft c then Some (rn_storage n) else None.

(** [Status]. *)
Definition cluster_Status (n : raft_node) (c : cluster CS) : raft_status * option error :=
  if raft c then (rn_status n, None) else (zero_status, Some (EXerr RaftNodeNotReady)).

(** The errors of the storage are ignored, a result is then 0. *)
Definition ignore_err (r : outcome error Z) : outcome error Z :=
  match r with Err _ => Ok 0 | r => r end.

Definition RaftLogSize (n : raft_node) (c : cluster CS) : outcome error Z :=
  firstIndex <~ ignore_err (FirstIndex (storage n c));
  lastIndex <~ ignore_err (LastIndex (storage n c));
  Ok (u64 (lastIndex - firstIndex + 1)).

Definition inspect (n : raft_node) (c : cluster CS) : outcome error nodeStatus :=
  let '(userCount, clientCount, channelCount) := inspect_counts (node c) in
  let '(status, _) := cluster_Status n c in
  let progress := default ∅ (Progress status) in
  logSize <~ RaftLogSize n c;
  Ok (mkStatus (nodeId (node c)) userCount clientCount channelCount (RaftState status)
        (Term status) logSize (Applied status) progress (size c)).

(** [peerClient.inspect] of the peer [id], whose broker runs [peerServer.Inspect].  A panic there
    is not recovered: it ends the peer's process, and the caller gets an error. *)
Record peer_answer := mkAnswer { a_status : option nodeStatus; a_crash : bool }.

Fixpoint inspect_attempts (link : rpc) (peer : option (raft_node * cluster CS)) : peer_answer :=
  match link, peer with
  | Unsent _, _ | _, None => mkAnswer None false
  | Delivered, Some (n, c) =>
      match inspect n c with
      | Ok s => mkAnswer (Some s) false
      | Err _ => mkAnswer None false
      | Panic _ => mkAnswer None true
      end
  | NoReply _, Some (n, c) => mkAnswer None (is_panic (inspect n c))
  | Retried link, Some (n, c) =>
      if is_panic (inspect n c) then mkAnswer None true else inspect_attempts link peer
  end.

Definition peer_inspect (link : rpc) (p : peerClient) (peer : option (raft_node * cluster CS))
  : peer_answer :=
  if p_ready p then inspect_attempts link peer else mkAnswer None false.
End inspect.

(** ** The goroutines of [Inspects]

    A goroutine with an answer reads the slice, appends to it and stores the result; one with an
    error only logs it. *)
Inductive worker :=
| Asking (answer : option nodeStatus)
| Appending (ss : list nodeStatus) (s : nodeStatus)
| Done (answer : option nodeStatus).

Record inspects := mkInspects { ss : list nodeStatus; workers : list worker }.

(** [Inspects] begins with the broker's own status. *)
Definition inspects_start (own : nodeStatus) (answers : list (option nodeStatus)) : inspects :=
  mkInspects [own] (Asking <$> answers).

Definition ask_step (i : nat) (x : inspects) : option inspects :=
  match workers x !! i with
  | Some (Asking (Some s)) => Some (mkInspects (ss x) (<[i := Appending (ss x) s]> (workers x)))
  | Some (Asking None) => Some (mkInspects (ss x) (<[i := Done None]> (workers x)))
  | _ => None
  end.

Definition append_step (i : nat) (x : inspects) : option inspects :=
  match workers x !! i with
  | Some (Appending l s) => Some (mkInspects (l ++ [s]) (<[i := Done (Some s)]> (workers x)))
  | _ => None
  end.

Inductive istep : inspects → inspects → Prop :=
| istep_ask i x x' : ask_step i x = Some x' → istep x x'
| istep_append i x x' : append_step i x = Some x' → istep x x'.

(** [wg.Wait]. *)
Definition all_done (x : inspects) : Prop := Forall (λ w, ∃ a, w = Done a) (workers x).

(** ** Facts *)

Definition answer_of (w : worker) : option nodeStatus :=
  match w with Asking a => a | Appending _ s => Some s | Done a => a end.

(** The statuses of the goroutines that are done. *)
Definition finished (ws : list worker) : list nodeStatus :=
  omap (λ w, match w with Done a => a | _ => None end) ws.

Definition holds (ws : list worker) (own : nodeStatus) (l : list nodeStatus) : Prop :=
  ∃ k, l = own :: k ∧ k ⊆+ finished ws ∧ (finished ws ≠ [] → k ≠ []).

Definition inspects_inv (own : nodeStatus) (answers : list (option nodeStatus)) (x : inspects) : Prop :=
  answer_of <$> workers x = answers ∧
  holds (workers x) own (ss x) ∧
  ∀ i l s, workers x !! i = Some (Appending l s) →
    ∃ k, l = own :: k ∧ k ⊆+ finished (workers x).

Lemma finished_insert (ws : list worker) (i : nat) w w' : ws !! i = Some w → (∀ a, w ≠ Done a) →
  finished (<[i := w']> ws) ≡ₚ
    match w' with Done (Some s) => s :: finished ws | _ => finished ws end.
Proof.
  intros Hi Hw. rewrite insert_take_drop by (by eapply lookup_lt_Some).
  assert (finished ws = finished (take i ws) ++ finished (drop (S i) ws)) as E.
  { rewrite <-(take_drop_middle ws i w Hi) at 1. unfold finished. rewrite omap_app. simpl.
    destruct w; [done..|]. by destruct (Hw answer). }
  rewrite E. unfold finished at 1. rewrite omap_app. simpl.
  destruct w' as [?|? ?|[s|]]; try done. by rewrite Permutation_middle.
Qed.

Lemma answer_of_insert (ws : list worker) (i : nat) w w' : ws !! i = Some w → answer_of w' = answer_of w →
  answer_of <$> <[i := w']> ws = answer_of <$> ws.
Proof.
  intros Hi E. rewrite list_fmap_insert, E. apply list_insert_id. by rewrite list_lookup_fmap, Hi.
Qed.

(** The slices held by the goroutines, after the one at [i] became [w'] and none was lost. *)
Lemma holders_insert own (ws : list worker) (i : nat) w w' :
  ws !! i = Some w → finished ws ⊆+ finished (<[i := w']> ws) →
  (∀ l s, w' = Appending l s → ∃ k, l = own :: k ∧ k ⊆+ finished ws) →
  (∀ j l s, ws !! j = Some (Appending l s) → ∃ k, l = own :: k ∧ k ⊆+ finished ws) →
  ∀ j l s, <[i := w']> ws !! j = Some (Appending l s) →
    ∃ k, l = own :: k ∧ k ⊆+ finished (<[i := w']> ws).
Proof.
  intros Hi Hf Hw' Hw j l s Hj.
  assert (∃ k, l = own :: k ∧ k ⊆+ finished ws) as (k & El & Hk).
  { destruct (decide (i = j)) as [<-|Hne].
    - rewrite list_lookup_insert_eq in Hj by (by eapply lookup_lt_Some). by eapply Hw', (inj Some).
    - rewrite list_lookup_insert_ne in Hj by done. by eapply Hw. }
  exists k. split; [done|]. by trans (finished ws).
Qed.

Lemma holds_perm ws ws' own l : finished ws' ≡ₚ finished ws → holds ws own l → holds ws' own l.
Proof.
  intros Hf (k & -> & Hk & Hn). exists k. split_and!; [done|by rewrite Hf|]. intros Hne. apply Hn.
  intros E. apply Hne. rewrite E in Hf. by apply Permutation_nil_r in Hf.
Qed.

Lemma inspects_step own answers x x' : inspects_inv own answers x → istep x x' →
  inspects_inv own answers x'.
Proof.
  intros (Ha & Hh & Hw) Hstep.
  assert (∀ i w w', workers x !! i = Some w → answer_of w' = answer_of w →
    answer_of <$> <[i := w']> (workers x) = answers) as Ha'.
  { intros i w w' Hi E. by erewrite answer_of_insert. }
  destruct Hstep as [i x x' E|i x x' E].
  - unfold ask_step in E. destruct (workers x !! i) as [[[s|]| |]|] eqn:Hi; simplify_eq.
    + pose proof (finished_insert _ i _ (Appending (ss x) s) Hi ltac:(done)) as Hf. simpl in Hf.
      split_and!; [by eapply Ha'|by eapply holds_perm|]. eapply holders_insert; [done| | |done].
      * by rewrite Hf.
      * intros l s' [= <- <-]. destruct Hh as (k & Hk & Hks & _). by exists k.
    + pose proof (finished_insert _ i _ (Done None) Hi ltac:(done)) as Hf. simpl in Hf.
      split_and!; [by eapply Ha'|by eapply holds_perm|].
      eapply holders_insert; [done|by rewrite Hf|done|done].
  - unfold append_step in E. destruct (workers x !! i) as [[|l s|]|] eqn:Hi; simplify_eq.
    pose proof (finished_insert _ i _ (Done (Some s)) Hi ltac:(done)) as Hf. simpl in Hf.
    destruct (Hw _ _ _ Hi) as (k' & -> & Hk').
    split_and!; [by eapply Ha'| |].
    + exists (k' ++ [s]). simpl. split_and!; [done| |by destruct k'].
      rewrite Hf, (Permutation_app_comm k'). by apply submseteq_skip.
    + eapply holders_insert; [done| |done|done]. rewrite Hf. by apply submseteq_cons.
Qed.

Lemma finished_all x answers : all_done x → answer_of <$> workers x = answers →
  finished (workers x) = omap id answers.
Proof.
  intros Hd <-. unfold all_done in Hd. induction Hd as [|w ws [[s|] ->] _ IH]; [done| |exact IH].
  change (finished (Done (Some s) :: ws)) with (s :: finished ws). by rewrite IH.
Qed.

(** ** Properties of the status *)

(** Whatever the interleaving, when all goroutines are done the
    result is the broker's own status followed by statuses of peers that answered, none twice,
    and by at least one if any answered.  But with two answers a run can lose one of them. *)
Theorem inspects_collect own answers x :
  steps istep (inspects_start own answers) x → all_done x →
  (∃ k, ss x = own :: k ∧ k ⊆+ omap id answers ∧ (omap id answers ≠ [] → k ≠ [])) ∧
  (∀ s1 s2, ∃ x', steps istep (inspects_start own [Some s1; Some s2]) x' ∧ all_done x' ∧
     ss x' = [own; s2]).
Proof.
  intros Hx Hd. split.
  - assert (inspects_inv own answers x) as (Ha & Hh & _).
    { apply (steps_invariant istep (inspects_inv own answers) (inspects_step own answers)
        (inspects_start own answers)); [|done]. split_and!.
      - simpl. rewrite <-list_fmap_compose. apply list_fmap_id.
      - exists []. split_and!; [done|apply submseteq_nil_l|]. simpl. intros Hne. destruct Hne.
        clear. induction answers as [|a l IH]; [done|exact IH].
      - intros i l s Hi. simpl in Hi. apply list_lookup_fmap_Some in Hi as (? & ? & ?). done. }
    destruct Hh as (k & Hk & Hks & Hkn). exists k. by rewrite <-(finished_all x answers Hd Ha).
  - intros s1 s2. eexists. split.
    + eapply steps_step; [by apply (istep_ask 0)|]. eapply steps_step; [by apply (istep_ask 1)|].
      eapply steps_step; [by apply (istep_append 0)|]. by apply steps_one, (istep_append 1).
    + split; [|done]. repeat constructor; by eexists.
Qed.

(** Before raft is started, inspecting a broker panics, as the storage
    is nil, and a peer that asks kills the process; afterwards it returns the broker's id, the
    numbers of users and channels per node, of connections per running listener, and the status
    of raft. *)
Theorem inspect_spec {CS St} `{!RaftStorage St} (n : raft_node) (c : cluster CS) first last :
  FirstIndex (None : option St) = Panic NilDereference →
  FirstIndex (Some (rn_storage n)) = Ok first → LastIndex (Some (rn_storage n)) = Ok last →
  if raft c then
    ∃ s, inspect n c = Ok s ∧ st_Id s = nodeId (node c) ∧
      (∀ id km, rm (userClients (reg (node c))) !! id = Some km → KeyMap_wf km →
         UserCount s !! id = Some (i32 (Z.of_nat (base.size (rm km))))) ∧
      (∀ id km, rm (channelClients (reg (node c))) !! id = Some km → KeyMap_wf km →
         ChannelCount s !! id = Some (i32 (Z.of_nat (base.size (rm km))))) ∧
      ClientCount s = broker_ConnCount (node c) ∧ RaftTerm s = Term (rn_status n) ∧
      st_RaftLogSize s = u64 (last - first + 1) ∧ RaftNodeCount s = Raft.size c
  else
    inspect n c = Panic NilDereference ∧
    ∀ p, p_ready p = true → peer_inspect Delivered p (Some (n, c)) = mkAnswer None true.
Proof.
  intros Hnil Hf Hl. destruct (raft c) eqn:Er.
  - eexists. split.
    { unfold inspect, RaftLogSize, storage, cluster_Status. rewrite Er, Hf, Hl. done. }
    cbn [st_Id UserCount ChannelCount ClientCount RaftTerm st_RaftLogSize RaftNodeCount].
    split_and!; try done; intros id km Hk Hwf; rewrite lookup_fmap, Hk; simpl; f_equal; apply Hwf.
  - assert (inspect n c = Panic NilDereference) as E.
    { unfold inspect, RaftLogSize, storage, cluster_Status. rewrite Er, Hnil. done. }
    split; [done|]. intros p Hp. unfold peer_inspect. rewrite Hp. simpl. by rewrite E.
Qed.

(** ** Witnesses *)

(** A storage that knows its two indices. *)
#[export] Instance pair_storage : RaftStorage (Z * Z) := {|
  FirstIndex := λ s, match s with Some (f, _) => Ok f | None => Panic NilDereference end;
  LastIndex := λ s, match s with Some (_, l) => Ok l | None => Panic NilDereference end
|}.

Definition sample_node : raft_node := mkRaftNode (mkRaftStatus "StateLeader" 3 9 None) (2, 9).

Definition sample_status (id : Z) : nodeStatus := mkStatus id ∅ ∅ ∅ "StateFollower" 1 0 0 ∅ 3.

Lemma inspects_collect_witness :
  ∃ x, steps istep (inspects_start (sample_status 1) [None; Some (sample_status 2)]) x ∧
    ∃ k, ss x = sample_status 1 :: k ∧ k ≠ [].
Proof.
  exists (mkInspects [sample_status 1; sample_status 2] [Done None; Done (Some (sample_status 2))]).
  assert (steps istep (inspects_start (sample_status 1) [None; Some (sample_status 2)])
    (mkInspects [sample_status 1; sample_status 2] [Done None; Done (Some (sample_status 2))])) as Hx.
  { eapply steps_step; [by apply (istep_ask 0)|]. eapply steps_step; [by apply (istep_ask 1)|].
    by apply steps_one, (istep_append 1). }
  split; [exact Hx|].
  destruct (inspects_collect (sample_status 1) [None; Some (sample_status 2)] _ Hx) as [H _].
  - repeat constructor; by eexists.
  - destruct H as (k & Hk & _ & Hn). exists k. split; [exact Hk|]. by apply Hn.
Defined.

Lemma inspect_spec_witness :
  @inspect unit (Z * Z) pair_storage sample_node (newCluster (lone_broker 1) 3) =
    Panic NilDereference ∧
  ∃ s, @inspect unit (Z * Z) pair_storage sample_node (with_started [1; 2] (newCluster (lone_broker 1) 3)) =
    Ok s ∧ st_RaftLogSize s = 8.
Proof.
  split.
  - destruct (@inspect_spec unit (Z * Z) pair_storage sample_node (newCluster (lone_broker 1) 3) 2 9)
      as [E _]; [done..|exact E].
  - destruct (@inspect_spec unit (Z * Z) pair_storage sample_node
      (with_started [1; 2] (newCluster (lone_broker 1) 3)) 2 9)
      as (s & E & _ & _ & _ & _ & _ & El & _); [done..|].
    exists s. split; [exact E|]. rewrite El. vm_compute. reflexivity.
Defined.
