(* ===== verification/Config.v ===== *)
(** * The configuration of the cable service (src/cmd/cable/config.go)

    The records of the YAML file, its validation, and the parts of the service it selects.
    Reading and parsing the file, the exporters of logs and the discoveries themselves are
    parameters; a nil map or pointer is [None]. *)
From S2P Require Import Prelude Errors Coder Packet.
From stdpp Require Import pretty.
Local Open Scope Z_scope.

Record tlsConfig := mkTls { CertFile : string; KeyFile : string }.

Record listenerConfig := mkListenerConfig {
  lis_Port : Z; lis_Network : string; QueueSize : Z; AutoStart : bool; TLS : option tlsConfig }.

Record kafkaConfig := mkKafka { kafka_Enabled : bool; Brokers : list string }.

Record redisConfig := mkRedis {
  DB : Z; redis_Enabled : bool; redis_Password : string; Addresses : list string;
  AuthPrefix : string; JoinPrefix : string }.

(** [resendType] is a string type: a file can hold any string. *)
Definition resendNone : string := "none".
Definition resendToAll : string := "all".
Definition resendToUser : string := "user".
Definition resendToChannel : string := "channel".

Record route := mkRoute { route_Enabled : bool; ResendType : string; KafkaTopic : string }.

Record loggerConfig := mkLogger {
  Level : string; Format : string; log_OTLPEndpoint : string }.

Record traceConfig := mkTrace { trace_Enabled : bool; trace_OTLPEndpoint : string }.

Record metricsConfig := mkMetrics {
  metrics_Enabled : bool; TenantID : string; Interval : Z; metrics_OTLPEndpoint : string }.

Record authConfig := mkAuth { auth_Method : string; Secret : string; AuthURL : string }.

Record discoveryConfig := mkDiscovery { discovery_Type : string; Endpoints : list string }.

Record config := mkConfig {
  Auth : authConfig;
  Pprof : bool;
  NodeId : Z;
  GrpcPort : Z;
  HTTPPort : Z;
  PeerPort : Z;
  ClusterSize : Z;
  Trace : traceConfig;
  Logger : loggerConfig;
  Metrics : metricsConfig;
  Kafka : kafkaConfig;
  Redis : redisConfig;
  Discovery : discoveryConfig;
  MessageRoute : option (gmap uint8 route);
  Listeners : list listenerConfig
}.

Definition with_NodeId (id : Z) (c : config) : config :=
  mkConfig (Auth c) (Pprof c) id (GrpcPort c) (HTTPPort c) (PeerPort c) (ClusterSize c) (Trace c)
    (Logger c) (Metrics c) (Kafka c) (Redis c) (Discovery c) (MessageRoute c) (Listeners c).

(** The field has none of the values. *)
Definition none_of (s : string) (l : list string) : bool := forallb (λ x, negb (s =? x)%string) l.

Definition levels : list string := ["info"; "debug"; "warn"; "error"; "fatal"].
Definition formats : list string := ["json"; "console"].
Definition discoveries : list string := ["multicast"; "etcd"].
Definition auth_methods : list string := ["pass"; "jwt"; "static"; "redis"; "remote"].
Definition resend_types : list string := [resendNone; resendToAll; resendToUser; resendToChannel].
Definition networks : list string := ["tcp"; "tls"; "ws"; "wss"; "udp"; "quic"].

Abbreviation fmt := (λ s, EOther s%string).

Definition validate_metrics (m : metricsConfig) : outcome error unit :=
  if metrics_Enabled m then
    fail_if (Interval m <? 1) (fmt "metrics interval is less than 1") $
    fail_if (metrics_OTLPEndpoint m =? "")%string (fmt "metrics enabled but OTLP endpoint is empty") $
    fail_if (TenantID m =? "")%string (fmt "metrics enabled but tenant ID is empty") $
    Ok tt
  else Ok tt.

Definition validate_kafka (k : kafkaConfig) : outcome error unit :=
  if kafka_Enabled k then
    fail_if (zlen (Brokers k) =? 0) (fmt "kafka enabled but brokers are empty") $
    match Brokers k with
    | [] => Panic IndexRange
    | b :: _ => fail_if (b =? "")%string (fmt "kafka enabled but first broker is empty") $ Ok tt
    end
  else Ok tt.

Definition validate_redis (r : redisConfig) : outcome error unit :=
  if redis_Enabled r then
    fail_if (zlen (Addresses r) =? 0) (fmt "redis enabled but address is empty") $
    fail_if (JoinPrefix r =? "")%string (fmt "redis enabled but user prefix is empty") $
    Ok tt
  else Ok tt.

Definition validate_route (x : uint8 * route) : outcome error unit :=
  fail_if (63 <? Z_of_byte x.1) (fmt ("invalid message kind: " +:+ pretty (Z_of_byte x.1))) $
  fail_if (none_of (ResendType x.2) resend_types) (fmt ("invalid resend type: " +:+ ResendType x.2)) $
  Ok tt.

Definition validate_tls (t : option tlsConfig) : outcome error unit :=
  match t with
  | None => Ok tt
  | Some t =>
      fail_if (CertFile t =? "")%string (fmt "listener tls cert file is empty") $
      fail_if (KeyFile t =? "")%string (fmt "listener tls key file is empty") $
      Ok tt
  end.

Definition validate_listener (l : listenerConfig) : outcome error unit :=
  fail_if (lis_Port l =? 0) (fmt "listener port is 0") $
  fail_if (none_of (lis_Network l) networks) (fmt ("invalid listener network: " +:+ lis_Network l)) $
  fail_if (QueueSize l <? 0) (fmt ("invalid listener queue size: " +:+ pretty (QueueSize l))) $
  validate_tls (TLS l).

Definition validate `{!GoRange uint8} (c : config) : outcome error unit :=
  fail_if (GrpcPort c =? 0) (fmt "grpc port is 0") $
  fail_if (HTTPPort c =? 0) (fmt "http port is 0") $
  fail_if (PeerPort c =? 0) (fmt "peer port is 0") $
  fail_if (ClusterSize c <? 0) (fmt ("invalid cluster size: " +:+ pretty (ClusterSize c))) $
  fail_if (trace_Enabled (Trace c) && (trace_OTLPEndpoint (Trace c) =? "")%string)
    (fmt "trace enabled but service name is empty") $
  fail_if (none_of (Level (Logger c)) levels) (fmt "logger enabled but level is invalid") $
  fail_if (none_of (Format (Logger c)) formats) (fmt "logger enabled but format is invalid") $
  (_ <~ validate_metrics (Metrics c);
  _ <~ validate_kafka (Kafka c);
  _ <~ validate_redis (Redis c);
  (fail_if (none_of (discovery_Type (Discovery c)) discoveries)
    (fmt ("invalid discovery type: " +:+ discovery_Type (Discovery c))) $
  fail_if (none_of (auth_Method (Auth c)) auth_methods)
    (fmt ("invalid auth method: " +:+ auth_Method (Auth c))) $
  fail_if ((auth_Method (Auth c) =? "remote")%string && (AuthURL (Auth c) =? "")%string)
    (fmt "auth method is remote but auth URL is empty") $
  match MessageRoute c with
  | None => Err (fmt "message route is nil")
  | Some routes =>
      _ <~ for_err validate_route (go_range routes);
      (fail_if (zlen (Listeners c) =? 0) (fmt "no listeners defined") $
       for_err validate_listener (Listeners c))
  end)).

(** [readConfig]: [file] is the parsed file or the error of reading or parsing it, [node] what
    [cluster.GetNodeId] returns. *)
Definition readConfig `{!GoRange uint8} (file : outcome error config) (node : Z)
  : outcome error config :=
  cfg <~ file;
  _ <~ validate cfg;
  Ok (if NodeId cfg =? 0 then with_NodeId node cfg else cfg).

(** [GetDiscovery]: nil for any other type. *)
Inductive discovery_choice :=
| DMulticast (id port : Z)
| DEtcd (id port : Z) (endpoints : list string).

Definition GetDiscovery (c : config) : option discovery_choice :=
  if (discovery_Type (Discovery c) =? "multicast")%string then
    Some (DMulticast (NodeId c) (PeerPort c))
  else if (discovery_Type (Discovery c) =? "etcd")%string then
    Some (DEtcd (NodeId c) (PeerPort c) (Endpoints (Discovery c)))
  else None.

(** *** Loggers

    A logger of xlog wraps a zap logger, which may be nil. *)
Inductive xlogger := LConsole (json : bool) (level : string) | LZap (z : option Z).

Definition consoleLogger (c : config) : xlogger :=
  LConsole (Format (Logger c) =? "json")%string (Level (Logger c)).

(** [GetLogger] with the field [_logger]; [otlp] is the outcome of [otlpLogger]. *)
Definition GetLogger (otlp : Z + error) (c : config) (cached : option xlogger)
  : xlogger * option xlogger :=
  match cached with
  | Some l => (l, cached)
  | None =>
      if (log_OTLPEndpoint (Logger c) =? "")%string then
        let l := consoleLogger c in (l, Some l)
      else
        let '(l, err) := match otlp with
                         | inl z => (Some z, None)
                         | inr e => (None, Some e)
                         end in
        let cached := match err with Some _ => Some (consoleLogger c) | None => cached end in
        let cached := Some (LZap l) in
        (LZap l, cached)
  end.

(** ** Well-formed configurations *)

Record listener_wf (l : listenerConfig) : Prop := {
  lwf_port : lis_Port l ≠ 0;
  lwf_network : lis_Network l ∈ networks;
  lwf_queue : 0 <= QueueSize l;
  lwf_tls : ∀ t, TLS l = Some t → CertFile t ≠ "" ∧ KeyFile t ≠ ""
}.

Record config_wf (c : config) : Prop := {
  wf_ports : GrpcPort c ≠ 0 ∧ HTTPPort c ≠ 0 ∧ PeerPort c ≠ 0;
  wf_size : 0 <= ClusterSize c;
  wf_trace : trace_Enabled (Trace c) = true → trace_OTLPEndpoint (Trace c) ≠ "";
  wf_logger : Level (Logger c) ∈ levels ∧ Format (Logger c) ∈ formats;
  wf_metrics : metrics_Enabled (Metrics c) = true →
    1 <= Interval (Metrics c) ∧ metrics_OTLPEndpoint (Metrics c) ≠ "" ∧ TenantID (Metrics c) ≠ "";
  wf_kafka : kafka_Enabled (Kafka c) = true →
    ∃ b bs, Brokers (Kafka c) = b :: bs ∧ b ≠ "";
  wf_redis : redis_Enabled (Redis c) = true → Addresses (Redis c) ≠ [] ∧ JoinPrefix (Redis c) ≠ "";
  wf_discovery : discovery_Type (Discovery c) ∈ discoveries;
  wf_auth : auth_Method (Auth c) ∈ auth_methods ∧
    (auth_Method (Auth c) = "remote" → AuthURL (Auth c) ≠ "");
  wf_routes : ∃ routes, MessageRoute c = Some routes ∧
    map_Forall (λ k r, Z_of_byte k <= 63 ∧ ResendType r ∈ resend_types) routes;
  wf_listeners : Listeners c ≠ [] ∧ Forall listener_wf (Listeners c)
}.

Lemma none_of_false s l : none_of s l = false ↔ s ∈ l.
Proof.
  unfold none_of. induction l as [|x l IH]; simpl.
  - split; [done|]. by intros ?%elem_of_nil.
  - rewrite andb_false_iff, negb_false_iff, String.eqb_eq, IH, elem_of_cons. done.
Qed.

Lemma zlen_zero {A} (l : list A) : (zlen l =? 0) = false ↔ l ≠ [].
Proof. unfold zlen. rewrite Z.eqb_neq. destruct l; simpl; split; intros; [lia|done|done|lia]. Qed.

(** Reading a chain of early returns backwards. *)
Ltac read_checks :=
  repeat first [rewrite fail_if_Ok | rewrite none_of_false | rewrite zlen_zero
    | rewrite Z.eqb_neq | rewrite Z.ltb_ge | rewrite String.eqb_neq | rewrite andb_false_iff].

(** A check made only when a part is enabled. *)
Ltac enabled_check b :=
  destruct b; [read_checks; split; intros Hc; [intros _ | specialize (Hc eq_refl)]; naive_solver
              | by split].

Lemma validate_metrics_Ok m : validate_metrics m = Ok tt ↔ (metrics_Enabled m = true →
  1 <= Interval m ∧ metrics_OTLPEndpoint m ≠ "" ∧ TenantID m ≠ "").
Proof.
  unfold validate_metrics. enabled_check (metrics_Enabled m).
Qed.

Lemma validate_kafka_Ok k : validate_kafka k = Ok tt ↔ (kafka_Enabled k = true →
  ∃ b bs, Brokers k = b :: bs ∧ b ≠ "").
Proof.
  unfold validate_kafka. destruct (Brokers k) as [|b bs]; enabled_check (kafka_Enabled k).
Qed.

Lemma validate_redis_Ok r : validate_redis r = Ok tt ↔ (redis_Enabled r = true →
  Addresses r ≠ [] ∧ JoinPrefix r ≠ "").
Proof.
  unfold validate_redis. enabled_check (redis_Enabled r).
Qed.

Lemma validate_listener_Ok l : validate_listener l = Ok tt ↔ listener_wf l.
Proof.
  unfold validate_listener. read_checks. unfold validate_tls. split.
  - intros (? & ? & ? & Ht). split; [done..|]. intros t Et. rewrite Et in Ht.
    revert Ht. read_checks. naive_solver.
  - intros []. split_and!; [done..|]. destruct (TLS l) as [t|]; [|done]. read_checks. naive_solver.
Qed.

Lemma validate_route_Ok x : validate_route x = Ok tt ↔
  Z_of_byte x.1 <= 63 ∧ ResendType x.2 ∈ resend_types.
Proof. unfold validate_route. read_checks. naive_solver. Qed.

Lemma validate_routes_Ok `{!GoRange uint8} routes :
  for_err validate_route (go_range routes) = Ok tt ↔
  map_Forall (λ k r, Z_of_byte k <= 63 ∧ ResendType r ∈ resend_types) routes.
Proof.
  rewrite for_err_Ok, Forall_forall. split.
  - intros H k r E. apply (validate_route_Ok (k, r)), H. by apply elem_of_go_range.
  - intros H [k r] E. apply validate_route_Ok. apply H. by apply elem_of_go_range.
Qed.

Lemma obind_unit_Ok {E A} (m : outcome E unit) (k : outcome E A) a :
  (_ <~ m; k) = Ok a ↔ m = Ok tt ∧ k = Ok a.
Proof. destruct m as [[]| |]; simpl; naive_solver. Qed.

Lemma validate_route_total x : is_panic (validate_route x) = false.
Proof. unfold validate_route. auto with total. Qed.

Lemma validate_listener_total l : is_panic (validate_listener l) = false.
Proof. unfold validate_listener, validate_tls. destruct (TLS l); auto 10 with total. Qed.

Lemma obind_total {E A} (m : outcome E unit) (k : outcome E A) :
  is_panic m = false → is_panic k = false → is_panic (_ <~ m; k) = false.
Proof. by destruct m. Qed.

Lemma validate_parts_total c : is_panic (validate_metrics (Metrics c)) = false ∧
  is_panic (validate_kafka (Kafka c)) = false ∧ is_panic (validate_redis (Redis c)) = false.
Proof.
  unfold validate_metrics, validate_kafka, validate_redis.
  split_and!; [destruct (metrics_Enabled _)|destruct (kafka_Enabled _)|destruct (redis_Enabled _)];
    auto with total.
  destruct (Brokers (Kafka c)); [done|]. auto with total.
Qed.

Lemma validate_iff `{!GoRange uint8} c : validate c = Ok tt ↔ config_wf c.
Proof.
  unfold validate. repeat first [progress read_checks | rewrite obind_unit_Ok].
  rewrite validate_metrics_Ok, validate_kafka_Ok, validate_redis_Ok.
  destruct (MessageRoute c) as [routes|] eqn:Er.
  - rewrite obind_unit_Ok, validate_routes_Ok. read_checks. rewrite for_err_Ok.
    setoid_rewrite validate_listener_Ok. split.
    + intros (? & ? & ? & ? & Ht & ? & ? & ? & ? & ? & ? & ? & Ha & ? & ? & ?).
      split; eauto.
      { intros E. destruct Ht; congruence. }
      split; [done|]. intros E. by destruct Ha.
    + intros [(? & ? & ?) ? Ht [? ?] ? ? ? ? [? Ha] (x & Ex & ?) [? ?]].
      rewrite Er in Ex. injection Ex as ->.
      split_and!; try done.
      { destruct (trace_Enabled (Trace c)); auto. }
      destruct (String.eqb_spec (auth_Method (Auth c)) "remote"); auto.
  - split; [by intros (? & ? & ? & ? & ? & ? & ? & ? & ? & ? & ? & ? & ? & ?)|].
    intros [? ? ? ? ? ? ? ? ? (? & ? & _) ?]. congruence.
Qed.

Lemma validate_total `{!GoRange uint8} c : is_panic (validate c) = false.
Proof.
  destruct (validate_parts_total c) as (? & ? & ?). unfold validate.
  repeat (apply fail_if_total || (apply obind_total; [done|])).
  destruct (MessageRoute c); [|done].
  apply obind_total; auto using validate_route_total, validate_listener_total with total.
Qed.

Lemma GetDiscovery_wf c : config_wf c → ∃ d, GetDiscovery c = Some d ∧
  (match d with DMulticast id p | DEtcd id p _ => (id, p) end) = (NodeId c, PeerPort c).
Proof.
  intros Hc. pose proof (wf_discovery _ Hc) as Hd. unfold discoveries in Hd.
  unfold GetDiscovery. apply elem_of_cons in Hd as [->|Hd]; [by eexists|].
  apply list_elem_of_singleton in Hd as ->. by eexists.
Qed.

(** ** Properties of the configuration *)

(** C33 (validation): [validate] accepts exactly the well-formed configurations, whatever the
    order of the range over the message routes; otherwise it returns an error and never panics.
    An accepted configuration selects a discovery, which will announce its node id and peer
    port. *)
Theorem validate_spec `{!GoRange uint8} c :
  (validate c = Ok tt ↔ config_wf c) ∧ is_panic (validate c) = false ∧
  (config_wf c → ∃ d, GetDiscovery c = Some d ∧
     (match d with DMulticast id p | DEtcd id p _ => (id, p) end) = (NodeId c, PeerPort c)).
Proof. split_and!; [apply validate_iff|apply validate_total|apply GetDiscovery_wf]. Qed.

(** When the OTLP exporter cannot be made, [GetLogger] falls back to the console logger and at
    once overwrites it with a logger around a nil zap logger, which is also cached. *)
Theorem GetLogger_falls_back c e : log_OTLPEndpoint (Logger c) ≠ "" →
  GetLogger (inr e) c None = (LZap None, Some (LZap None)).
Proof. intros He. unfold GetLogger. by apply String.eqb_neq in He as ->. Qed.

(** ** A configuration

    The one shipped with the service, with a second listener for TCP. *)
Definition shipped (tls_starts : bool) : config :=
  let files := Some (mkTls "cert.pem" "key.pem") in
  mkConfig (mkAuth "pass" "" "") false 7 1887 1888 4600 1 (mkTrace false "")
    (mkLogger "info" "console" "") (mkMetrics false "" 0 "") (mkKafka false [])
    (mkRedis 0 false "" [] "" "") (mkDiscovery "etcd" ["localhost:2379"])
    (Some {[x00 := mkRoute true "user" "cable-user-messages"]})
    [mkListenerConfig 1881 "ws" 1024 true None; mkListenerConfig 1883 "tcp" 1024 true None;
     mkListenerConfig 1884 "tls" 1024 tls_starts files; mkListenerConfig 1893 "tcp" 64 true None].

Lemma shipped_wf t : config_wf (shipped t).
Proof. apply (@validate_iff range_forward). by destruct t; vm_compute. Qed.

Lemma validate_spec_witness : @validate range_backward (shipped true) = Ok tt ∧
  ∃ d, GetDiscovery (shipped true) = Some d ∧
    (match d with DMulticast id p | DEtcd id p _ => (id, p) end) = (7, 4600).
Proof.
  destruct (@validate_spec range_backward (shipped true)) as (H1 & _ & H2).
  split; [apply H1, shipped_wf|apply H2, shipped_wf].
Defined.
