(* ===== verification/Logging.v ===== *)
(** * Loggers (src/xlog/zap.go, the cores of src/cmd/cable/config.go)

    zap is third-party code: its cores are a parameter, with the interface [zapcore.Core] and the
    documented meaning of a level.  The code wraps them in cores of its own: [ctxCore] replaces a
    context by the ids of its span, [lvlCore] filters by level.  A zap logger asks its core which
    cores take an entry ([Check]) and has each of them write it with the fields of the call. *)
From S2P Require Import Prelude Errors Config.

(** ** Levels *)
Variant log_level := LevelDebug | LevelInfo | LevelWarn | LevelError | LevelFatal.

Definition ParseLevel (level : string) : log_level :=
  if (level =? "debug")%string then LevelDebug
  else if (level =? "info")%string then LevelInfo
  else if (level =? "warn")%string then LevelWarn
  else if (level =? "error")%string then LevelError
  else if (level =? "fatal")%string then LevelFatal
  else LevelInfo.

(** [Level.Level]: zap's levels, from -1 for debug to 5 for fatal. *)
Definition zapLevel (l : log_level) : Z :=
  match l with
  | LevelDebug => -1 | LevelInfo => 0 | LevelWarn => 1 | LevelError => 2 | LevelFatal => 5
  end.

(** ** Fields: a context is seen through its recording span, trace id and span id *)
Inductive field_value :=
| VInt (z : Z) | VUint (z : Z) | VStr (s : string) | VErr (e : error)
| VCtx (span : option (string * string)).

Record Attr := mkAttr { at_key : string; at_value : field_value }.

Definition Str (key value : string) : Attr := mkAttr key (VStr value).
Definition I16 (key : string) (i : Z) : Attr := mkAttr key (VInt i).
Definition U16 (key : string) (i : Z) : Attr := mkAttr key (VUint i).
Definition I32 (key : string) (i : Z) : Attr := mkAttr key (VInt i).
Definition U32 (key : string) (i : Z) : Attr := mkAttr key (VUint i).
Definition Uid (id : string) : Attr := Str "userId" id.
Definition Cid (id : string) : Attr := Str "clientId" id.
Definition Ctx (span : option (string * string)) : Attr := mkAttr "context" (VCtx span).
Definition Msg (msg : string) : Attr := Str "message" msg.
Definition Peer (id : Z) : Attr := mkAttr "peerId" (VUint id).
Definition Channel (ch : string) : Attr := Str "channelId" ch.

Record log_entry := mkEntry { en_level : Z; en_message : string }.

(** ** Cores *)

(** zap's own cores; [z_Check] may leave an entry out, as the sampling core does. *)
Class ZapCore (B : Type) := {
  z_Enabled : Z → B → bool;
  z_With : list Attr → B → B;
  z_Check : log_entry → B → list B;
  z_build : string → Z → B;             (* Config.Build with this encoding and level *)
  z_otel : B                            (* otelzap.NewCore *)
}.

Class ZapLaws (B : Type) `{!ZapCore B} := {
  z_build_Enabled : ∀ encoding level l, z_Enabled l (z_build encoding level) = (level <=? l)
}.

Inductive core (B : Type) :=
| Base (b : B)
| ctxCore (c : core B)
| lvlCore (c : core B) (level : Z).
Arguments Base {B} b.
Arguments ctxCore {B} c.
Arguments lvlCore {B} c level.

Section cores.
Context {B : Type} `{!ZapCore B}.

Fixpoint Enabled (level : Z) (c : core B) : bool :=
  match c with
  | Base b => z_Enabled level b
  | ctxCore c => Enabled level c
  | lvlCore _ l => l <=? level
  end.

Definition Check (e : log_entry) (c : core B) : list (core B) :=
  match c with
  | Base b => Base <$> z_Check e b
  | ctxCore _ => if Enabled (en_level e) c then [c] else []
  | lvlCore _ l => if l <=? en_level e then [c] else []
  end.

(** [lvlCore] has the [With] of the core it embeds. *)
Fixpoint With (fields : list Attr) (c : core B) : core B :=
  match c with
  | Base b => Base (z_With fields b)
  | ctxCore c => With fields c
  | lvlCore c _ => With fields c
  end.

(** The fields that [ctxCore.Write] passes on. *)
Definition resolve (fields : list Attr) : list Attr :=
  match fields with
  | mkAttr _ (VCtx span) :: fields =>
      match span with
      | Some (trace, id) => fields ++ [Str "trace_id" trace; Str "span_id" id]
      | None => fields
      end
  | _ => fields
  end.

(** [Write]: the zap core that writes, and what it is given. *)
Fixpoint Write (e : log_entry) (fields : list Attr) (c : core B) : B * log_entry * list Attr :=
  match c with
  | Base b => (b, e, fields)
  | ctxCore c => Write e (resolve fields) c
  | lvlCore c _ => Write e fields c
  end.

(** ** [Logger]; without its zap logger every call panics *)
Definition zlogger : Type := option (core B).

Definition log_with (fields : list Attr) (l : zlogger) : outcome error zlogger :=
  match fields, l with
  | [], _ => Ok l
  | _, Some c => Ok (Some (With fields c))
  | _, None => Panic NilDereference
  end.

(** [Debug], [Info], [Warn], [Error]. *)
Definition log_at (level : log_level) (msg : string) (fields : list Attr) (l : zlogger)
  : outcome error (list (B * log_entry * list Attr)) :=
  match l with
  | Some c => let e := mkEntry (zapLevel level) msg in Ok (Write e fields <$> Check e c)
  | None => Panic NilDereference
  end.

Definition NewText (level : log_level) (wrap : core B → core B) : zlogger :=
  Some (wrap (Base (z_build "console" (zapLevel level)))).
Definition NewJSON (level : log_level) (wrap : core B → core B) : zlogger :=
  Some (wrap (Base (z_build "json" (zapLevel level)))).

(** The loggers that [Config.GetLogger] names: [z] of an [LZap (Some z)] is the level of the
    logger of [otlpLogger]. *)
Definition otlpLogger (level : string) : zlogger :=
  Some (lvlCore (Base z_otel) (zapLevel (ParseLevel level))).

Definition logger_of (c : config) (l : xlogger) : zlogger :=
  match l with
  | LConsole true level => NewJSON (ParseLevel level) ctxCore
  | LConsole false level => NewText (ParseLevel level) ctxCore
  | LZap (Some _) => otlpLogger (Level (Logger c))
  | LZap None => None
  end.

(** The ids of a recording span. *)
Definition span_ids (span : option (string * string)) : list Attr :=
  match span with Some (trace, id) => [Str "trace_id" trace; Str "span_id" id] | None => [] end.

Lemma resolve_Ctx span fields : resolve (Ctx span :: fields) = fields ++ span_ids span.
Proof. destruct span as [[trace id]|]; simpl; [done|by rewrite app_nil_r]. Qed.

Lemma log_at_Base level msg fields b :
  log_at level msg fields (Some (Base b)) =
    Ok ((λ b, (b, mkEntry (zapLevel level) msg, fields)) <$> z_Check (mkEntry (zapLevel level) msg) b).
Proof. simpl. by rewrite <-list_fmap_compose. Qed.

(** The loggers that the brokers, servers and listeners derive write through zap's core alone. *)
Lemma log_with_Base wrapped extra b : extra ≠ [] → With extra wrapped = Base b →
  log_with extra (Some wrapped) = Ok (Some (Base b)).
Proof. intros He Hw. unfold log_with. rewrite Hw. by destruct extra. Qed.

Lemma ParseLevel_levels level : level ∈ levels →
  (level, zapLevel (ParseLevel level)) ∈
    [("debug", -1); ("info", 0); ("warn", 1); ("error", 2); ("fatal", 5)].
Proof. unfold levels. rewrite !elem_of_cons, elem_of_nil. intros H. destruct_or?; subst; vm_decide. Qed.

(** C38 (functional): the loggers of the service.  The console logger writes an entry exactly when
    its level reaches the configured one, whatever zap's sampling says, with the context replaced
    by the ids of its span.  A logger derived from it with [With], as brokers, servers and listeners
    make theirs, writes the context itself and leaves levels and sampling to zap; one derived from the
    logger for OTLP has lost the filter by level.  The logger that [GetLogger] returns when the
    exporter cannot be made panics at the first use. *)
Theorem derived_loggers `{!ZapLaws B} (c : config) (n : Z) (level : log_level) (msg : string)
    (span : option (string * string)) (fields extra : list Attr) :
  config_wf c → extra ≠ [] →
  let z := zapLevel (ParseLevel (Level (Logger c))) in
  let e := mkEntry (zapLevel level) msg in
  let fs := Ctx span :: fields in
  let derived b := Ok ((λ b, (b, e, fs)) <$> z_Check e (z_With extra b)) in
  (Level (Logger c), z) ∈ [("debug", -1); ("info", 0); ("warn", 1); ("error", 2); ("fatal", 5)] ∧
  (∃ b, log_at level msg fs (logger_of c (consoleLogger c)) =
       Ok (if z <=? zapLevel level then [(b, e, fields ++ span_ids span)] else []) ∧
     (l <~ log_with extra (logger_of c (consoleLogger c)); log_at level msg fs l) = derived b) ∧
  log_at level msg fs (logger_of c (LZap (Some n))) =
    Ok (if z <=? zapLevel level then [(z_otel, e, fs)] else []) ∧
  (l <~ log_with extra (logger_of c (LZap (Some n))); log_at level msg fs l) = derived z_otel ∧
  log_at level msg fs (logger_of c (LZap None)) = Panic NilDereference ∧
  log_with extra (logger_of c (LZap None)) = Panic NilDereference.
Proof.
  intros Hc He z e fs derived. split; [apply ParseLevel_levels, Hc|]. split; [|split; [|split; [|split]]].
  - assert (∀ enc : string, let b := z_build enc z in
      log_at level msg fs (Some (ctxCore (Base b))) =
        Ok (if z <=? zapLevel level then [(b, e, fields ++ span_ids span)] else []) ∧
      (l <~ log_with extra (Some (ctxCore (Base b))); log_at level msg fs l) = derived b) as Hb.
    { intros enc b. split.
      - unfold log_at, Check. simpl Enabled. unfold b at 1. rewrite z_build_Enabled.
        destruct (z <=? _); [|done]. cbn [Write fmap list_fmap]. unfold fs. by rewrite resolve_Ctx.
      - rewrite (log_with_Base _ _ (z_With extra b)) by done. cbn [obind]. apply log_at_Base. }
    unfold consoleLogger. destruct (_ =? _)%string; [exists (z_build "json" z)|exists (z_build "console" z)];
      apply Hb.
  - unfold log_at, logger_of, otlpLogger, Check. fold z. by destruct (z <=? _).
  - unfold logger_of, otlpLogger. rewrite (log_with_Base _ _ (z_With extra z_otel)) by done.
    cbn [obind]. apply log_at_Base.
  - done.
  - by destruct extra.
Qed.
End cores.

(** A core that keeps its fields, and drops every entry while sampling. *)
#[local] Instance toy_zap : ZapCore (Z * list Attr) := {|
  z_Enabled := λ l b, b.1 <=? l;
  z_With := λ fs b, (b.1, b.2 ++ fs);
  z_Check := λ e b, [];
  z_build := λ _ l, (l, []);
  z_otel := (-1, [])
|}.

#[local] Instance toy_zap_laws : ZapLaws (Z * list Attr).
Proof. by constructor. Qed.

Lemma derived_loggers_witness :
  log_at LevelError "failed" (Ctx (Some ("t", "s")) :: [Uid "alice"])
    (logger_of (shipped true) (consoleLogger (shipped true))) =
    Ok [((0, []), mkEntry 2 "failed", [Uid "alice"; Str "trace_id" "t"; Str "span_id" "s"])] ∧
  ∃ b : Z * list Attr,
  log_at LevelError "failed" (Ctx (Some ("t", "s")) :: [Uid "alice"])
    (logger_of (shipped true) (consoleLogger (shipped true))) =
    Ok [(b, mkEntry 2 "failed", [Uid "alice"; Str "trace_id" "t"; Str "span_id" "s"])].
Proof.
  split; [reflexivity|].
  destruct (derived_loggers (shipped true) 0 LevelError "failed" (Some ("t", "s")) [Uid "alice"]
    [mkAttr "BROKER" (VUint 7)] (shipped_wf true) ltac:(done)) as (_ & (b & H & _) & _).
  exists b. exact H.
Defined.
