(* ===== verification/Telemetry.v ===== *)
(** * The service's statistics handler (src/cmd/cable/cable_stats.go)

    OpenTelemetry is third-party code: the spans a tracer records and the calls made to the
    instruments are kept as they come.  An instrument that was never made is an embedded nil
    interface, and calling it panics; one whose construction failed is a no-op.  [statistics] is
    an instance of the interface [StatsHandler] of [Stats]. *)
From S2P Require Import Prelude Errors Coder Packet Queue Safe Server Sessions Float Stats Config.
From Stdlib Require Import Floats.SpecFloat.

(** ** Time

    A [time.Time] is its nanoseconds since the zero time; [Sub] saturates. *)
Definition time_Sub (t u : Z) : Z := Z.max (- 2 ^ 63) (Z.min (2 ^ 63 - 1) (t - u)).

(** [float64(end.Sub(begin)) / float64(time.Millisecond)]. *)
Definition elapsedTime (begin_ end_ : Z) : float64 := f64_div (f64_of (time_Sub end_ begin_)) (f64_of Millisecond).

(** ** Spans and instruments *)
Inductive attr := AInt (z : Z) | ABool (b : bool) | AString (s : string).
Definition attrs : Type := list (string * attr).

Inductive span_kind := SpanKindServer | SpanKindClient.
Inductive span_status := StatusUnset | StatusSuccess | StatusFailure (err : error).

Record span := mkSpan {
  sp_name : string; sp_kind : span_kind; sp_attrs : attrs;
  sp_status : span_status; sp_errors : list error; sp_ended : bool }.

(** The span of a context: none, one that is not sampled, or the n-th of the tracer. *)
Inductive span_ctx := NoSpan | Unsampled | InSpan (n : nat).

Inductive instrument := INil | INoop | ILive.

Record statistics := mkStatistics {
  tracer : bool;                      (* s.tracer is not nil *)
  spans : list span;
  queueLength : instrument;
  onlineUsers : instrument;
  redisDuration : instrument;
  kafkaDuration : instrument;
  connectDuration : instrument;
  messageDuration : instrument;
  requestDuration : instrument;
  queue_sizes : list Z;               (* the values recorded by queueLength *)
  online_adds : list Z;               (* the values added to onlineUsers *)
  durations : list (string * float64 * attrs)
}.

Definition with_spans (l : list span) (s : statistics) : statistics :=
  mkStatistics (tracer s) l (queueLength s) (onlineUsers s) (redisDuration s) (kafkaDuration s)
    (connectDuration s) (messageDuration s) (requestDuration s) (queue_sizes s) (online_adds s) (durations s).

Definition with_records (q o : list Z) (d : list (string * float64 * attrs)) (s : statistics) : statistics :=
  mkStatistics (tracer s) (spans s) (queueLength s) (onlineUsers s) (redisDuration s) (kafkaDuration s)
    (connectDuration s) (messageDuration s) (requestDuration s) q o d.

(** [newDuration], [newCounter], [newGauge]: [err] is the answer of the meter. *)
Definition new_instrument (err : option error) : instrument :=
  match err with Some _ => INoop | None => ILive end.

(** [newStats].  [trace_err] and [meter_err] are the results of [initTrace] and [initMeter]; after
    an error the method of a nil provider is called all the same, with the result
    [nil_provider] (it is the library's).  [made] is the meter's answer for each instrument. *)
Definition newStats (cfg : config) (trace_err meter_err : option error)
    (nil_provider : outcome error unit) (made : string → option error) : outcome error statistics :=
  tr <~ (if trace_Enabled (Trace cfg) then
           match trace_err with None => Ok true | Some _ => _ <~ nil_provider; Ok true end
         else Ok false);
  ms <~ (if metrics_Enabled (Metrics cfg) then
           match meter_err with None => Ok true | Some _ => _ <~ nil_provider; Ok true end
         else Ok false);
  let make name := if ms : bool then new_instrument (made name) else INil in
  Ok (mkStatistics tr [] (make "cable.queue.length") (make "cable.online.users")
    (make "cable.redis.duration") (make "cable.kafka.duration") (make "cable.connect.duration")
    (make "cable.message.duration") (make "cable.request.duration") [] [] []).

(** Using an instrument: [f] is what a live one does. *)
Definition use (i : instrument) (f : statistics → statistics) (s : statistics) : outcome error statistics :=
  match i with
  | INil => Panic NilDereference
  | INoop => Ok s
  | ILive => Ok (f s)
  end.

(** [onlineCounter.Add], [queueGauge.Record], [milliDuration.Record]. *)
Definition counter_Add (value : Z) (s : statistics) : outcome error statistics :=
  use (onlineUsers s) (λ s, with_records (queue_sizes s) (online_adds s ++ [value]) (durations s) s) s.

Definition gauge_Record (value : Z) (s : statistics) : outcome error statistics :=
  use (queueLength s) (λ s, with_records (queue_sizes s ++ [value]) (online_adds s) (durations s) s) s.

Definition duration_Record (i : statistics → instrument) (name : string) (value : float64) (labels : attrs)
    (s : statistics) : outcome error statistics :=
  use (i s) (λ s, with_records (queue_sizes s) (online_adds s) (durations s ++ [(name, value, labels)]) s) s.

(** [s.tracer.Start]: the sampler follows the parent, a root is sampled. *)
Definition start_span (ctx : span_ctx) (name : string) (kind : span_kind) (l : attrs) (s : statistics)
  : span_ctx * statistics :=
  match ctx with
  | Unsampled => (Unsampled, s)
  | _ => (InSpan (length (spans s)), with_spans (spans s ++ [mkSpan name kind l StatusUnset [] false]) s)
  end.

(** The first part of every Begin. *)
Definition trace_begin (ctx : span_ctx) (name : string) (kind : span_kind) (l : attrs) (s : statistics)
  : span_ctx * statistics :=
  if tracer s then start_span ctx name kind l s else (ctx, s).

Definition finish_span (err : option error) (sp : span) : span :=
  match err with
  | Some e => mkSpan (sp_name sp) (sp_kind sp) (sp_attrs sp) (StatusFailure e) (sp_errors sp ++ [e]) true
  | None => mkSpan (sp_name sp) (sp_kind sp) (sp_attrs sp) StatusSuccess (sp_errors sp) true
  end.

(** The first part of every End; an ended span does not record. *)
Definition trace_end (ctx : span_ctx) (err : option error) (s : statistics) : statistics :=
  if tracer s then
    match ctx with
    | InSpan n =>
        match spans s !! n with
        | Some sp => if sp_ended sp then s else with_spans (<[n := finish_span err sp]> (spans s)) s
        | None => s
        end
    | _ => s
    end
  else s.

Definition isok (err : option error) : attr := ABool (bool_decide (err = None)).

(** ** The handler *)
Definition stat_ConnectBegin (ctx : span_ctx) (info : ConnBegin) (s : statistics) : span_ctx * statistics :=
  trace_begin ctx "cable.connect.in" SpanKindServer [] s.

Definition stat_ConnectEnd (ctx : span_ctx) (info : ConnEnd) (s : statistics) : outcome error statistics :=
  let s := trace_end ctx (ce_Error info) s in
  s <~ match ce_Error info with None => counter_Add 1 s | Some _ => Ok s end;
  duration_Record connectDuration "cable.connect.duration"
    (elapsedTime (ce_BeginTime info) (ce_EndTime info)) [] s.

Definition stat_Disconnect (s : statistics) : outcome error statistics := counter_Add (-1) s.

Definition kind_of (inout : string) : span_kind :=
  if (inout =? "in")%string then SpanKindServer else SpanKindClient.

Definition stat_MessageBegin (ctx : span_ctx) (info : MessageBegin) (s : statistics) : span_ctx * statistics :=
  trace_begin ctx ("cable.message." +:+ mb_Inout info) (kind_of (mb_Inout info))
    [("cable.message.kind", AInt (Z_of_byte (mb_Kind info))); ("cable.message.network", AString (mb_Network info))] s.

Definition stat_MessageEnd (ctx : span_ctx) (info : MessageEnd) (s : statistics) : outcome error statistics :=
  let s := trace_end ctx (me_Error info) s in
  duration_Record messageDuration "cable.message.duration"
    (elapsedTime (me_BeginTime info) (me_EndTime info))
    [("kind", AInt (Z_of_byte (me_Kind info))); ("isok", isok (me_Error info));
     ("inout", AString (me_Inout info)); ("network", AString (me_Network info))] s.

Definition stat_RequestBegin (ctx : span_ctx) (info : RequestBegin) (s : statistics) : span_ctx * statistics :=
  trace_begin ctx ("cable.request." +:+ rb_Inout info) (kind_of (rb_Inout info))
    [("cable.request.method", AString (rb_Method info)); ("cable.request.network", AString (rb_Network info))] s.

Definition stat_RequestEnd (ctx : span_ctx) (info : RequestEnd) (s : statistics) : outcome error statistics :=
  let s := trace_end ctx (re_Error info) s in
  duration_Record requestDuration "cable.request.duration"
    (elapsedTime (re_BeginTime info) (re_EndTime info))
    [("isok", isok (re_Error info)); ("method", AString (re_Method info));
     ("network", AString (re_Network info)); ("inout", AString (re_Inout info))] s.

Definition stat_UpdateQueue (qsize : Z) (s : statistics) : outcome error statistics := gauge_Record qsize s.

#[export] Instance statistics_Handler : StatsHandler span_ctx statistics := {|
  h_background := NoSpan;
  h_Err _ e := e;
  h_ConnectBegin ctx i s := Ok (stat_ConnectBegin ctx i s);
  h_ConnectEnd := stat_ConnectEnd;
  h_Disconnect _ := stat_Disconnect;
  h_MessageBegin ctx i s := Ok (stat_MessageBegin ctx i s);
  h_MessageEnd := stat_MessageEnd;
  h_RequestBegin ctx i s := Ok (stat_RequestBegin ctx i s);
  h_RequestEnd := stat_RequestEnd;
  h_UpdateQueue _ := stat_UpdateQueue
|}.

(** ** Redis and Kafka (cable_redis.go, booter.go) *)
Definition RedisBegin (ctx : span_ctx) (cmd : string) (s : statistics) : span_ctx * statistics :=
  trace_begin ctx ("cable.redis." +:+ cmd) SpanKindClient [] s.

Definition RedisEnd (ctx : span_ctx) (cmd : string) (err : option error) (t0 t1 : Z) (s : statistics)
  : outcome error statistics :=
  duration_Record redisDuration "cable.redis.duration" (elapsedTime t0 t1)
    [("isok", isok err); ("cmd", AString cmd)] (trace_end ctx err s).

Definition KafkaBegin (ctx : span_ctx) (op topic : string) (s : statistics) : span_ctx * statistics :=
  trace_begin ctx ("cable.kafka." +:+ op) SpanKindClient [("cable.kafka.topic", AString topic)] s.

Definition KafkaEnd (ctx : span_ctx) (op topic : string) (err : option error) (t0 t1 : Z) (s : statistics)
  : outcome error statistics :=
  duration_Record kafkaDuration "cable.kafka.duration" (elapsedTime t0 t1)
    [("op", AString op); ("topic", AString topic); ("isok", isok err)] (trace_end ctx err s).

(** A call of a [redisClient] method: the command reported at the begin, the one at the end, the
    error of the call. *)
Definition redis_call (began ended : string) (err : option error) (t0 t1 : Z) (ctx : span_ctx) (s : statistics)
  : outcome error statistics :=
  let '(ctx, s) := RedisBegin ctx began s in RedisEnd ctx ended err t0 t1 s.

Definition stats_redis_Get : option error → Z → Z → span_ctx → statistics → outcome error statistics :=
  redis_call "Get" "HDel".
Definition stats_redis_Set : option error → Z → Z → span_ctx → statistics → outcome error statistics :=
  redis_call "Set" "Set".

Definition stats_redis_HDel : option error → Z → Z → span_ctx → statistics → outcome error statistics :=
  redis_call "HDel" "HDel".
Definition stats_redis_HSet : option error → Z → Z → span_ctx → statistics → outcome error statistics :=
  redis_call "HSet" "HSet".
Definition stats_redis_HGetAll : option error → Z → Z → span_ctx → statistics → outcome error statistics :=
  redis_call "HGetAll" "HGetAll".

(** The statistics of [SendToKafka]: no begin time is given to [KafkaEnd], so it is the zero time. *)
Definition kafka_call (topic : string) (err : option error) (t1 : Z) (ctx : span_ctx) (s : statistics)
  : outcome error statistics :=
  let '(ctx, s) := KafkaBegin ctx "produce" topic s in KafkaEnd ctx "produce" topic err 0 t1 s.

(** [statistics.Shutdown]: the results of the two providers, if they were made. *)
Definition stats_Shutdown (trace meter : option (option error)) : option error :=
  match meter with
  | Some err => err
  | None => default None trace
  end.

(** ** Lemmas on the calls *)
Definition same_instruments (s s' : statistics) : Prop :=
  tracer s' = tracer s ∧ queueLength s' = queueLength s ∧ onlineUsers s' = onlineUsers s ∧
  connectDuration s' = connectDuration s ∧ messageDuration s' = messageDuration s ∧
  requestDuration s' = requestDuration s.

#[export] Instance same_instruments_preorder : PreOrder same_instruments.
Proof.
  split; [by intros s|]. intros s1 s2 s3 (?&?&?&?&?&?) (?&?&?&?&?&?). split_and!; congruence.
Qed.

(** What [trace_begin] and [trace_end] leave alone. *)
Definition only_spans (s s' : statistics) : Prop :=
  same_instruments s s' ∧ queue_sizes s' = queue_sizes s ∧ online_adds s' = online_adds s ∧
  durations s' = durations s.

Lemma trace_begin_only ctx name kind l s : only_spans s (trace_begin ctx name kind l s).2.
Proof. unfold trace_begin, start_span. destruct (tracer s); [|done]. by destruct ctx. Qed.

Lemma trace_end_only ctx err s : only_spans s (trace_end ctx err s).
Proof.
  unfold trace_end. destruct (tracer s); [|done]. destruct ctx as [| |n]; [done..|].
  destruct (spans s !! n) as [sp|]; [|done]. by destruct (sp_ended sp).
Qed.

(** A Begin and its End add one span, ended, when the tracer is there and samples. *)
Definition traced (ctx : span_ctx) (name : string) (kind : span_kind) (l : attrs) (err : option error)
    (s : statistics) : list span :=
  if tracer s then
    match ctx with
    | Unsampled => []
    | _ => [finish_span err (mkSpan name kind l StatusUnset [] false)]
    end
  else [].

Lemma trace_begin_end ctx name kind l s err s2 :
  spans s2 = spans (trace_begin ctx name kind l s).2 → tracer s2 = tracer s →
  spans (trace_end (trace_begin ctx name kind l s).1 err s2) = spans s ++ traced ctx name kind l err s.
Proof.
  unfold trace_begin, trace_end, traced, start_span. intros Hs Ht. rewrite Ht.
  destruct (tracer s); [|by rewrite app_nil_r, Hs].
  assert (∀ sp, spans s2 = spans s ++ [sp] → sp_ended sp = false →
    spans (match spans s2 !! length (spans s) with
           | Some sp => if sp_ended sp then s2 else with_spans (<[length (spans s) := finish_span err sp]> (spans s2)) s2
           | None => s2
           end) = spans s ++ [finish_span err sp]) as Hsp.
  { intros sp E Ee. rewrite E, list_lookup_middle by done. rewrite Ee. cbn [spans with_spans].
    by rewrite insert_app_r_alt, Nat.sub_diag by lia. }
  destruct ctx as [| |n]; [by apply Hsp|by rewrite app_nil_r|by apply Hsp].
Qed.

Lemma use_cases i f s s' : use i f s = Ok s' → s' = s ∨ i = ILive ∧ s' = f s.
Proof. destruct i; simpl; intros [= <-]; auto. Qed.

(** The total of the online users. *)
Definition online (s : statistics) : Z := foldr Z.add 0 (online_adds s).

Lemma foldr_add_app l1 l2 : foldr Z.add 0 (l1 ++ l2) = foldr Z.add 0 l1 + foldr Z.add 0 l2.
Proof. induction l1 as [|x l1 IH]; simpl; [done|]. rewrite IH. lia. Qed.

Lemma counter_Add_spec v s s' : counter_Add v s = Ok s' →
  same_instruments s s' ∧ spans s' = spans s ∧ durations s' = durations s ∧
  online s' = online s + (match onlineUsers s with ILive => v | _ => 0 end).
Proof.
  unfold counter_Add, online. destruct (onlineUsers s); simpl; intros [= <-]; (split; [done|]); simpl.
  - split_and!; [done|done|lia].
  - split_and!; [done|done|]. rewrite foldr_add_app. simpl. lia.
Qed.

Lemma duration_Record_spec i name v l s s' : duration_Record i name v l s = Ok s' →
  same_instruments s s' ∧ spans s' = spans s ∧ online s' = online s ∧
  durations s' = durations s ++ (match i s with ILive => [(name, v, l)] | _ => [] end).
Proof.
  unfold duration_Record. destruct (i s); simpl; intros [= <-]; (split; [done|]); simpl;
    split_and!; [done|done| |done..]; by rewrite app_nil_r.
Qed.

Lemma disconnects_spec n s s' : disconnects n (Some s) = Ok s' →
  ∃ st, s' = Some st ∧ same_instruments s st ∧ spans st = spans s ∧ durations st = durations s ∧
    (onlineUsers s = ILive → online st = online s - Z.of_nat n).
Proof.
  revert s'. induction n as [|n IH]; intros s'.
  { intros [= <-]. exists s. split_and!; [done..|]. lia. }
  change (disconnects (S n) (Some s)) with
    (s0 <~ disconnects n (Some s); end_call (h_Disconnect h_background) s0).
  destruct (disconnects n (Some s)) as [s1| |]; [|done..].
  destruct (IH s1 eq_refl) as (st & -> & Hi & Hs & Hd & Ho). simpl. unfold stat_Disconnect.
  destruct (counter_Add (-1) st) as [st'| |] eqn:E; [|done..]. simpl. intros [= <-].
  apply counter_Add_spec in E as (Hi' & Hs' & Hd' & Ho'). exists st'. split; [done|].
  split; [by etrans|]. split_and!; [congruence..|]. intros Hl. rewrite Ho', Ho by done.
  destruct Hi as (_ & _ & -> & _). rewrite Hl. lia.
Qed.

(** The effect of one instrumented call: a span, a duration and a change of the online users. *)
Definition logs (s st : statistics) (sps : list span) (ds : list (string * float64 * attrs)) (n : Z) : Prop :=
  same_instruments s st ∧ spans st = spans s ++ sps ∧ durations st = durations s ++ ds ∧
  (onlineUsers s = ILive → online st = online s + n).

Definition live (i : instrument) (d : string * float64 * attrs) : list (string * float64 * attrs) :=
  match i with ILive => [d] | _ => [] end.

(** Begin, something that only counts, End. *)
Lemma timed_call ctx name kind l err (i : statistics → instrument) dname v labels s s1 st n :
  (∀ a b, same_instruments a b → i b = i a) →
  logs (trace_begin ctx name kind l s).2 s1 [] [] n →
  duration_Record i dname v labels (trace_end (trace_begin ctx name kind l s).1 err s1) = Ok st →
  logs s st (traced ctx name kind l err s) (live (i s) (dname, v, labels)) n.
Proof.
  intros Hi (Hm1 & Hs1 & Hd1 & Ho1) E. rewrite app_nil_r in Hs1, Hd1.
  pose proof (trace_begin_only ctx name kind l s) as (Hm0 & Hq0 & Ha0 & Hd0).
  pose proof (trace_end_only (trace_begin ctx name kind l s).1 err s1) as (Hm2 & Hq2 & Ha2 & Hd2).
  apply duration_Record_spec in E as (Hm3 & Hs3 & Ho3 & Hd3).
  assert (same_instruments s s1) as Hm by (by etrans). split; [|split; [|split]].
  - etrans; [exact Hm|]. by etrans.
  - rewrite Hs3. apply trace_begin_end; [done|apply Hm].
  - rewrite Hd3, Hd2, Hd1, Hd0. f_equal. unfold live. by rewrite (Hi s) by (by etrans).
  - intros Hl. rewrite Ho3. unfold online. rewrite Ha2. rewrite <-Ha0. apply Ho1.
    destruct Hm0 as (_ & _ & -> & _). done.
Qed.

Lemma disconnects_logs n s s' : disconnects n (Some s) = Ok s' →
  ∃ st, s' = Some st ∧ logs s st [] [] (- Z.of_nat n).
Proof.
  intros (st & -> & Hi & Hs & Hd & Ho)%disconnects_spec. exists st. split; [done|].
  split; [done|]. rewrite !app_nil_r. split_and!; [done..|]. intros Hl. rewrite Ho by done. lia.
Qed.

Lemma logs_refl s : logs s s [] [] 0.
Proof. split; [done|]. rewrite !app_nil_r. split_and!; [done..|]. lia. Qed.

Section server.
Context `{!GoRange uint8, !GoRange string} (h : span_ctx → handlers) (capacity : Z) (network : string).

Lemma ConnectEnd_logs ctx t0 t1 s s1 st n :
  logs (stat_ConnectBegin ctx (mkConnBegin t0) s).2 s1 [] [] n →
  stat_ConnectEnd (stat_ConnectBegin ctx (mkConnBegin t0) s).1 (mkConnEnd t0 t1 None) s1 = Ok st →
  logs s st (traced ctx "cable.connect.in" SpanKindServer [] None s)
    (live (connectDuration s) ("cable.connect.duration", elapsedTime t0 t1, [])) (n + 1).
Proof.
  unfold stat_ConnectBegin, stat_ConnectEnd. cbn [ce_Error ce_BeginTime ce_EndTime]. intros (Hm1 & Hs1 & Hd1 & Ho1) E.
  rewrite app_nil_r in Hs1, Hd1.
  pose proof (trace_begin_only ctx "cable.connect.in" SpanKindServer [] s) as (Hm0 & Hq0 & Ha0 & Hd0).
  set (b := trace_begin ctx "cable.connect.in" SpanKindServer [] s) in *.
  pose proof (trace_end_only b.1 None s1) as (Hm2 & Hq2 & Ha2 & Hd2).
  destruct (counter_Add 1 _) as [s2| |] eqn:Ec; [|done..]. simpl in E.
  apply counter_Add_spec in Ec as (Hm3 & Hs3 & Hd3 & Ho3).
  apply duration_Record_spec in E as (Hm4 & Hs4 & Ho4 & Hd4).
  assert (same_instruments s s1) as Hm by (by etrans).
  assert (same_instruments s s2) as Hm' by (etrans; [exact Hm|]; by etrans).
  split; [|split; [|split]].
  - by etrans.
  - rewrite Hs4, Hs3. apply trace_begin_end; [done|apply Hm].
  - rewrite Hd4, Hd3, Hd2, Hd1, Hd0. f_equal. unfold live. by destruct Hm' as (_ & _ & _ & -> & _).
  - intros Hl. rewrite Ho4, Ho3. unfold online at 1. rewrite Ha2. change (foldr Z.add 0 (online_adds s1)) with (online s1).
    rewrite Ho1 by (destruct Hm0 as (_ & _ & -> & _); done).
    assert (onlineUsers (trace_end b.1 None s1) = ILive) as ->.
    { destruct Hm2 as (_ & _ & -> & _). by destruct Hm as (_ & _ & -> & _). }
    unfold online. rewrite Ha0. lia.
Qed.

(** A login: what is reported does not depend on its outcome. *)
Lemma doConnecton_logs t0 t1 pkt w s r w' s' :
  doConnecton h capacity t0 t1 pkt w (Some s) = Some (Ok (r, w', s')) →
  ∃ st, s' = Some st ∧
    logs s st (traced NoSpan "cable.connect.in" SpanKindServer [] None s)
      (live (connectDuration s) ("cable.connect.duration", elapsedTime t0 t1, []))
      (1 - Z.of_nat (newly_closed w w')).
Proof.
  unfold doConnecton. cbn [begin_call h_ConnectBegin h_background statistics_Handler obind].
  destruct pkt as [p|e|x]; [|intros [= H]|done].
  - destruct (accept _ capacity p w) as [[[code w1]|]| |]; [|done..]. intros [= H].
    destruct (disconnects _ _) as [s2| |] eqn:Ed; [|done..].
    apply disconnects_logs in Ed as (st2 & -> & Hl). simpl in H.
    destruct (stat_ConnectEnd _ _ st2) as [st| |] eqn:Ee; [|done..]. injection H as <- <- <-.
    exists st. split; [done|]. replace (1 - _) with (- Z.of_nat (newly_closed w w1) + 1) by lia.
    by eapply ConnectEnd_logs.
  - simpl in H. destruct (stat_ConnectEnd _ _ _) as [st| |] eqn:Ee; [|done..]. injection H as <- <- <-.
    exists st. split; [done|]. unfold newly_closed. rewrite Nat.sub_diag.
    eapply (ConnectEnd_logs NoSpan t0 t1 s _ st 0); [apply logs_refl|exact Ee].
Qed.

(** A message sent: its kind is reported as 0 and it is always reported as sent. *)
Lemma SendMessage_logs t0 t1 hctx ctx cid p w s r w' s' :
  stats_SendMessage network t0 t1 hctx ctx cid p w (Some s) = Some (Ok (r, w', s')) →
  ∃ st, s' = Some st ∧
    logs s st (traced hctx "cable.message.out" SpanKindClient
                 [("cable.message.kind", AInt (Z_of_byte (Kind p))); ("cable.message.network", AString network)] None s)
      (live (messageDuration s) ("cable.message.duration", elapsedTime t0 t1,
         [("kind", AInt 0); ("isok", ABool true); ("inout", AString "out"); ("network", AString network)])) 0.
Proof.
  unfold stats_SendMessage. cbn [begin_call h_MessageBegin statistics_Handler obind].
  destruct (SendMessage _ cid p w) as [[r1 w1]|]; [|done]. cbn [mbind option_bind]. intros [= H].
  cbn [end_call h_MessageEnd statistics_Handler] in H.
  destruct (stat_MessageEnd _ _ _) as [st| |] eqn:E; [|done..]. injection H as <- <- <-.
  exists st. split; [done|]. eapply timed_call; [by intros a b (?&?&?&?&?&?)|apply logs_refl|exact E].
Qed.

(** A message received: it is always reported as handled. *)
Lemma OnMessage_logs t0 t1 p c s x :
  stats_OnMessage h network t0 t1 p c (Some s) = Ok x →
  (∃ ctx, x.1 = OnMessage (h ctx) p c) ∧ ∃ st, x.2 = Some st ∧
    logs s st (traced NoSpan "cable.message.in" SpanKindServer
                 [("cable.message.kind", AInt (Z_of_byte (Kind p))); ("cable.message.network", AString network)] None s)
      (live (messageDuration s) ("cable.message.duration", elapsedTime t0 t1,
         [("kind", AInt (Z_of_byte (Kind p))); ("isok", ABool true); ("inout", AString "in"); ("network", AString network)])) 0.
Proof.
  unfold stats_OnMessage. cbn [begin_call h_MessageBegin h_background statistics_Handler obind].
  cbn [end_call h_MessageEnd statistics_Handler fst snd].
  destruct (stat_MessageEnd _ _ _) as [st| |] eqn:E; [|done..]. intros [= <-]. split; [by eexists|].
  exists st. split; [done|]. eapply timed_call; [by intros a b (?&?&?&?&?&?)|apply logs_refl|exact E].
Qed.

(** A request received: reported as failed only when its response was not queued, whatever the
    handler answered. *)
Lemma OnRequest_logs t0 t1 p c s r c' s' :
  stats_OnRequest h network t0 t1 p c (Some s) = Some (Ok (r, c', s')) →
  is_panic r = false ∧ ∃ st, s' = Some st ∧ let err := match r with Err e => Some e | _ => None end in
    logs s st (traced NoSpan "cable.request.in" SpanKindServer
                 [("cable.request.method", AString (Method p)); ("cable.request.network", AString network)] err s)
      (live (requestDuration s) ("cable.request.duration", elapsedTime t0 t1,
         [("isok", isok err); ("method", AString (Method p)); ("network", AString network); ("inout", AString "in")])) 0.
Proof.
  unfold stats_OnRequest. cbn [begin_call h_RequestBegin h_background statistics_Handler obind].
  destruct (response_of _ p (conn_ID c)) as [res|e|] eqn:Er; [| |done].
  - destruct (SendPacket _ (PResponse res) c) as [[r1 c1]|]; [|done]. cbn [mbind option_bind].
    destruct r1 as [u|e|]; [..|done]; intros [= H]; cbn [end_call h_RequestEnd statistics_Handler] in H;
      (destruct (stat_RequestEnd _ _ _) as [st| |] eqn:E; [|done..]); injection H as <- <- <-;
      (split; [done|]; exists st; split; [done|]; eapply timed_call; [by intros a b (?&?&?&?&?&?)|apply logs_refl|exact E]).
  - unfold response_of in Er. by destruct (requestHandler _ p (conn_ID c)).
Qed.

(** ** The steps of the server *)

(** Ended spans and durations; only a request can be reported as failed. *)
Definition sound_span (sp : span) : Prop :=
  sp_ended sp = true ∧ (sp_status sp = StatusSuccess ∨ sp_name sp = "cable.request.in").

Definition sound_duration (d : string * float64 * attrs) : Prop :=
  ("isok", ABool false) ∈ d.2 → d.1.1 = "cable.request.duration".

(** A connection whose CONNECT was read, and one whose CONNECT never came. *)
Definition is_login (a : stats_action) : Z := match a with AServer (SAccept _) => 1 | _ => 0 end.
Definition is_silent (a : stats_action) : Z := match a with ANoConnect _ => 1 | _ => 0 end.

Lemma traced_sound ctx name kind l err s :
  err = None ∨ name = "cable.request.in" → Forall sound_span (traced ctx name kind l err s).
Proof.
  unfold traced. destruct (tracer s); [|by constructor].
  destruct ctx; try constructor; try constructor; destruct err; simpl; naive_solver.
Qed.

Lemma live_sound i d : sound_duration d → Forall sound_duration (live i d).
Proof. destruct i; simpl; auto. Qed.

Lemma SendMessage_closed ctx cid p w r w' : SendMessage ctx cid p w = Some (r, w') → closed_ids w' = closed_ids w.
Proof.
  unfold SendMessage. destruct (s_closed w); [by intros [= _ <-]|].
  destruct (RMap_Get cid (conns w)) as [i|]; [|by intros [= _ <-]].
  intros (c & c' & _ & _ & ->)%on_conn_heap. done.
Qed.

Lemma stats_step_logs t0 t1 a w s w' s' :
  stats_step h capacity network t0 t1 a w (Some s) = Some (Ok (w', s')) →
  ∃ st sps ds, s' = Some st ∧ Forall sound_span sps ∧ Forall sound_duration ds ∧
    logs s st sps ds (is_login a + is_silent a - Z.of_nat (newly_closed w w')).
Proof.
  assert (∀ w0 s0, newly_closed w w0 = 0%nat → (∃ sps ds, Forall sound_span sps ∧ Forall sound_duration ds ∧
    logs s s0 sps ds 0) → ∃ st sps ds, Some s0 = Some st ∧ Forall sound_span sps ∧ Forall sound_duration ds ∧
    logs s st sps ds (0 - Z.of_nat (newly_closed w w0))) as Hquiet.
  { intros w0 s0 -> (sps & ds & ? & ? & ?). by exists s0, sps, ds. }
  assert (∀ b, plain_step h capacity b w (Some s) = Some (Ok (w', s')) → is_login a + is_silent a = 0 →
    ∃ st sps ds, s' = Some st ∧ Forall sound_span sps ∧ Forall sound_duration ds ∧
    logs s st sps ds (is_login a + is_silent a - Z.of_nat (newly_closed w w'))) as Hplain.
  { intros b. unfold plain_step. destruct (server_step _ capacity b w) as [w1|]; [|done]. simpl. intros [= H] ->.
    destruct (disconnects _ _) as [s1| |] eqn:Ed; [|done..]. injection H as <- <-.
    apply disconnects_logs in Ed as (st & -> & Hl). by exists st, [], []. }
  assert (∀ pkt, (r ← doConnecton h capacity t0 t1 pkt w (Some s);
                  Some (x <~ r; Ok (x.1.2, x.2))) = Some (Ok (w', s')) →
    ∃ st sps ds, s' = Some st ∧ Forall sound_span sps ∧ Forall sound_duration ds ∧
    logs s st sps ds (1 - Z.of_nat (newly_closed w w'))) as Hlogin.
  { intros pkt. destruct (doConnecton h capacity t0 t1 pkt w (Some s)) as [[[[r w1] s1]| |]|] eqn:E; [|done..].
    intros [= <- <-]. apply doConnecton_logs in E as (st & -> & Hl). eexists st, _, _.
    split; [done|]. split; [|split; [|exact Hl]]; [by apply traced_sound; left|].
    apply live_sound. intros Hin. by apply elem_of_nil in Hin. }
  destruct a as [a|e]; [|apply Hlogin].
  destruct a as [p|i p|cid|ctx cid p|ctx p|code i| |i a]; cbn [stats_step]; try (intros H; by eapply Hplain).
  - apply Hlogin.
  - destruct p as [p|p|p|p|p|p|p|p]; try (intros H; by eapply Hplain);
      (destruct (heap w !! i) as [c|] eqn:Ei; [|done]); cbn [mbind option_bind]; destruct (c_closed c);
      try (intros [= <- <-]; apply Hquiet; [by unfold newly_closed; rewrite Nat.sub_diag|];
           by exists [], []; split_and!; [..|apply logs_refl]).
    + intros [= H]. destruct (stats_OnMessage _ _ _ _ _ _ _) as [x| |] eqn:E; [|done..].
      injection H as <- <-. apply OnMessage_logs in E as (_ & st & -> & Hl).
      apply Hquiet; [by unfold newly_closed; rewrite Nat.sub_diag|]. eexists _, _.
      split; [|split; [|exact Hl]]; [by apply traced_sound; left|]. apply live_sound. intros Hin. set_solver.
    + destruct (stats_OnRequest _ _ _ _ _ _ _) as [[[[r c1] s1]| |]|] eqn:E; [|done..]. intros [= <- <-].
      apply OnRequest_logs in E as (_ & st & -> & Hl).
      apply Hquiet; [by unfold newly_closed; rewrite Nat.sub_diag|]. eexists _, _.
      split; [|split; [|exact Hl]]; [by apply traced_sound; right|]. by apply live_sound.
  - destruct (stats_SendMessage _ _ _ _ _ _ _ _ _) as [[[[r w1] s1]| |]|] eqn:E; [|done..].
    intros [= <- <-]. pose proof (SendMessage_step _ _ _ _ _ _ _ _ _ _ _ _ E) as (hctx & s2 & _ & Ew).
    apply SendMessage_logs in E as (st & -> & Hl). apply Hquiet.
    + unfold newly_closed. by rewrite (SendMessage_closed _ _ _ _ _ _ Ew), Nat.sub_diag.
    + eexists _, _. split; [|split; [|exact Hl]]; [by apply traced_sound; left|].
      apply live_sound. intros Hin. set_solver.
Qed.

Definition logins (acts : list stats_action) : Z := foldr Z.add 0 (is_login <$> acts).
Definition silents (acts : list stats_action) : Z := foldr Z.add 0 (is_silent <$> acts).

Lemma logins_cons a acts : logins (a :: acts) = is_login a + logins acts.
Proof. done. Qed.

Lemma silents_cons a acts : silents (a :: acts) = is_silent a + silents acts.
Proof. done. Qed.

Lemma is_login_nonneg a : 0 <= is_login a.
Proof. destruct a as [[]|]; simpl; lia. Qed.

Lemma registrations_logins acts w s : 0 <= logins acts.*2 ∧
  stats_registrations h capacity network acts w s <= logins acts.*2.
Proof.
  revert w s. induction acts as [|[[t0 t1] a] acts IH]; intros w s; [done|].
  rewrite fmap_cons, logins_cons. cbn [stats_registrations snd].
  pose proof (is_login_nonneg a). pose proof (IH w s) as [Hp _].
  destruct (stats_step _ _ _ _ _ a w s) as [[[w1 s1]| |]|]; [|lia..]. pose proof (IH w1 s1) as [_ Hr].
  assert (Z.b2z (stats_registers h t0 a w s) <= is_login a); [|lia].
  destruct a as [[]|]; simpl; try lia. by destruct (_ && _).
Qed.

(** What a run logs. *)
Lemma stats_run_logs acts w s w' s' : server_inv w → onlineUsers s = ILive →
  stats_run h capacity network acts w (Some s) = Some (Ok (w', s')) →
  ∃ st sps ds, s' = Some st ∧ same_instruments s st ∧ spans st = spans s ++ sps ∧
    durations st = durations s ++ ds ∧ Forall sound_span sps ∧ Forall sound_duration ds ∧
    online st = online s + logins acts.*2 + silents acts.*2 - (zlen (closed_ids w') - zlen (closed_ids w)).
Proof.
  revert w s. induction acts as [|[[t0 t1] a] acts IH]; intros w s Hw Hl.
  { intros [= <- <-]. exists s, [], []. rewrite !app_nil_r. split_and!; [done..|]. unfold logins, silents. simpl. lia. }
  cbn [stats_run]. destruct (stats_step _ _ _ _ _ a w (Some s)) as [[[w1 s1]| |]|] eqn:E; [|done..].
  cbn [mbind option_bind]. intros Hr. pose proof (stats_step_keeps _ _ _ _ _ _ _ _ _ _ Hw E) as (Hw1 & _ & l & Hpre).
  apply stats_step_logs in E as (st1 & sps1 & ds1 & -> & Hsp1 & Hd1 & Hi1 & Es1 & Ed1 & Eo1).
  destruct (IH w1 st1) as (st & sps & ds & -> & Hi & Es & Ed & Hsp & Hd & Eo); [done|by destruct Hi1 as (_ & _ & -> & _)|done|].
  exists st, (sps1 ++ sps), (ds1 ++ ds). split; [done|]. split; [by etrans|].
  rewrite Es, Es1, Ed, Ed1, <-!app_assoc. split_and!; [done|done|by apply Forall_app|by apply Forall_app|].
  rewrite Eo, Eo1 by done. rewrite fmap_cons, logins_cons, silents_cons. cbn [snd].
  unfold newly_closed, zlen. rewrite Hpre, length_app. lia.
Qed.
End server.

(** ** Properties *)

(** C37 (online users): on a server whose counter works, after any run of logins, packets, kicks,
    closings and connections that never send a CONNECT, the total reported as online is the number
    of registered clients, plus the logins that registered nobody new, plus the connections whose
    CONNECT never came: a rejected login, a second login of a client and a silent connection are
    each counted as a user that never leaves. *)
Theorem online_users_drift `{!GoRange uint8, !GoRange string} h capacity network acts s w st :
  onlineUsers s = ILive → online_adds s = [] →
  stats_run h capacity network acts empty_world (Some s) = Some (Ok (w, Some st)) →
  let registered := stats_registrations h capacity network acts empty_world (Some s) in
  online st = Z.of_nat (size (rm (conns w))) + (logins acts.*2 - registered) + silents acts.*2 ∧
  registered <= logins acts.*2.
Proof.
  intros Hl Hn Hr. destruct (stats_run_keeps h capacity network acts empty_world _ w _ server_inv_empty Hr) as (_ & Hu & _).
  destruct (stats_run_logs h capacity network acts empty_world s w (Some st) server_inv_empty Hl Hr)
    as (st' & sps & ds & [= <-] & _ & _ & _ & _ & _ & Eo).
  split.
  - unfold users in Hu. change (closed_ids empty_world) with (@nil Identity) in Eo, Hu.
    change (size (rm (conns empty_world))) with 0%nat in Hu. unfold online at 2 in Eo. rewrite Hn in Eo. simpl in Eo, Hu. lia.
  - by apply registrations_logins.
Qed.

(** Whatever a server does, all its spans are ended, and the only
    calls that can be reported as failed are received requests: logins that are rejected or never send
    a CONNECT, messages that cannot be sent and messages the handler fails on are all reported as
    successful.  A request is reported as failed exactly when its response could not be queued, whatever the handler answered. *)
Theorem failures_reported `{!GoRange uint8, !GoRange string} h capacity network :
  (∀ acts s w st, onlineUsers s = ILive → Forall sound_span (spans s) → Forall sound_duration (durations s) →
     stats_run h capacity network acts empty_world (Some s) = Some (Ok (w, Some st)) →
     Forall sound_span (spans st) ∧ Forall sound_duration (durations st)) ∧
  (∀ t0 t1 p c s r c' st, requestDuration s = ILive →
     stats_OnRequest h network t0 t1 p c (Some s) = Some (Ok (r, c', Some st)) →
     durations st = durations s ++ [("cable.request.duration", elapsedTime t0 t1,
       [("isok", ABool (match r with Ok _ => true | _ => false end)); ("method", AString (Method p));
        ("network", AString network); ("inout", AString "in")])]).
Proof.
  split.
  - intros acts s w st Hl Hs Hd Hr.
    destruct (stats_run_logs h capacity network acts empty_world s w (Some st) server_inv_empty Hl Hr)
      as (st' & sps & ds & [= <-] & _ & Es & Ed & Hsp & Hds & _).
    rewrite Es, Ed. split; by apply Forall_app.
  - intros t0 t1 p c s r c' st Hl E.
    apply OnRequest_logs in E as (Hp & st' & [= <-] & _ & _ & -> & _). rewrite Hl. by destruct r.
Qed.

Lemma disconnects_nil n s s' : onlineUsers s = INil → disconnects n (Some s) = Ok s' → s' = Some s.
Proof.
  intros Hl. revert s'. induction n as [|n IH]; intros s'; [by intros [= <-]|].
  change (disconnects (S n) (Some s)) with
    (s0 <~ disconnects n (Some s); end_call (h_Disconnect h_background) s0).
  destruct (disconnects n (Some s)) as [s1| |]; [|done..]. rewrite (IH s1 eq_refl). simpl.
  unfold stat_Disconnect, counter_Add. by rewrite Hl.
Qed.

Lemma disconnects_not_Err n (s : statistics) e : disconnects n (Some s) ≠ Err e.
Proof.
  induction n as [|n IH]; [done|].
  change (disconnects (S n) (Some s)) with
    (s0 <~ disconnects n (Some s); end_call (h_Disconnect h_background) s0).
  destruct (disconnects n (Some s)) as [[s1|]|e1|]; simpl; [|done|congruence|done].
  unfold stat_Disconnect, counter_Add, use. by destruct (onlineUsers s1).
Qed.

(** The service always installs its statistics.  When metrics are
    disabled, which [validate] accepts, the instruments are nil: every login attempt panics before its
    transport goes on, whether it is accepted, rejected or not even a CONNECT, and so does every
    packet that is queued. *)
Theorem metrics_required `{!GoRange uint8, !GoRange string} cfg trace_err meter_err nil_provider made s :
  metrics_Enabled (Metrics cfg) = false → newStats cfg trace_err meter_err nil_provider made = Ok s →
  ∀ h capacity t0 t1 w,
  (∀ e, doConnecton h capacity t0 t1 (Err e) w (Some s) = Some (Panic NilDereference)) ∧
  (∀ p r, doConnecton h capacity t0 t1 (Ok p) w (Some s) = Some r → is_panic r = true) ∧
  (∀ jump ctx hctx p c r c' s', stats_pushPacket jump ctx hctx p c (Some s) = Some (Ok (r, c', s')) →
     ∀ u, r ≠ Ok u).
Proof.
  intros Hm Hnew.
  assert (onlineUsers s = INil ∧ queueLength s = INil) as [Ho Hq].
  { unfold newStats in Hnew. rewrite Hm in Hnew. simpl in Hnew.
    destruct (if trace_Enabled _ then _ else _); [|done..]. simpl in Hnew. by injection Hnew as <-. }
  intros h capacity t0 t1 w.
  assert (∀ ctx s1, onlineUsers s1 = INil → stat_ConnectEnd ctx (mkConnEnd t0 t1 None) s1 = Panic NilDereference) as Hend.
  { intros ctx s1 H1. unfold stat_ConnectEnd, counter_Add. cbn [ce_Error].
    pose proof (trace_end_only ctx None s1) as ((_ & _ & E & _) & _). by rewrite E, H1. }
  pose proof (trace_begin_only NoSpan "cable.connect.in" SpanKindServer [] s) as ((_ & _ & E & _) & _).
  rewrite Ho in E. split_and!.
  - intros e. unfold doConnecton. cbn [begin_call h_ConnectBegin h_background statistics_Handler obind].
    unfold stat_ConnectBegin. cbn [end_call h_ConnectEnd statistics_Handler]. by rewrite Hend.
  - intros p r. unfold doConnecton. cbn [begin_call h_ConnectBegin h_background statistics_Handler obind].
    unfold stat_ConnectBegin. destruct (accept _ capacity p w) as [[[code w1]|]|e|] eqn:Ea; [|done| |by intros [= <-]].
    + intros [= <-]. destruct (disconnects _ _) as [s1|e|] eqn:Ed; [| |done].
      * rewrite (disconnects_nil _ _ _ E Ed). simpl. by rewrite Hend.
      * by apply disconnects_not_Err in Ed.
    + exfalso. unfold accept, newConn, New in Ea. by destruct (_ <? _).
  - intros jump ctx hctx p c r c' s'. unfold stats_pushPacket.
    destruct (pushPacket jump ctx p c) as [[r1 c1]|]; [|done]. cbn [mbind option_bind].
    destruct r1; [|by intros [= <- _ _]..]. simpl. unfold stat_UpdateQueue, gauge_Record. by rewrite Hq.
Qed.

(** The statistics of the shipped configuration, which has neither traces nor metrics. *)
Definition no_metrics : statistics :=
  mkStatistics false [] INil INil INil INil INil INil INil [] [] [].

Lemma metrics_required_witness :
  @validate range_backward (shipped true) = Ok tt ∧
  newStats (shipped true) None None (Ok tt) (λ _, None) = Ok no_metrics ∧
  @doConnecton span_ctx statistics _ range_forward (λ _, echo_handlers) 8 1 2 (Err EEOF) empty_world
    (Some no_metrics) = Some (Panic NilDereference).
Proof.
  split; [by vm_compute|]. split; [done|].
  by apply (@metrics_required range_forward range_forward (shipped true) None None (Ok tt) (λ _, None) no_metrics).
Defined.

(** Working instruments, a connection that says nothing, and three logins: one rejected, one accepted,
    and the same again. *)
Definition all_live : statistics :=
  mkStatistics true [] ILive ILive ILive ILive ILive ILive ILive [] [] [].

Definition three_attempts : list (Z * Z * stats_action) :=
  let alice := AServer (SAccept (NewConnect (Some (mkIdentity "alice" "phone" "secret")))) in
  [(1, 2, AServer (SAccept (login_of "mallory" "pad"))); (2, 3, ANoConnect EEOF); (3, 4, alice); (5, 6, alice);
   (7, 8, AServer (SSend None "pad" (mkMessage ∅ x01 [x68; x69])))].

Definition after_attempts : option (outcome error (world * option statistics)) :=
  @stats_run span_ctx statistics _ range_forward range_forward (λ _, strict_handlers) 8 "tcp" three_attempts empty_world
    (Some all_live).

Lemma online_users_drift_witness : ∃ w st, after_attempts = Some (Ok (w, Some st)) ∧
  online st = Z.of_nat (size (rm (conns w))) +
    (logins three_attempts.*2 - @stats_registrations span_ctx statistics _ range_forward range_forward
       (λ _, strict_handlers) 8 "tcp" three_attempts empty_world (Some all_live)) + silents three_attempts.*2 ∧
  online st = 3 ∧ size (rm (conns w)) = 0%nat.
Proof.
  destruct after_attempts as [[[w [st|]]| |]|] eqn:E; [|by vm_compute in E..].
  exists w, st. split; [done|].
  split; [by apply (@online_users_drift range_forward range_forward (λ _, strict_handlers) 8 "tcp" three_attempts all_live w st)|].
  vm_compute in E. by injection E as <- <-.
Defined.

Lemma failures_reported_witness : ∃ w st, after_attempts = Some (Ok (w, Some st)) ∧
  length (spans st) = 5%nat ∧ Forall sound_span (spans st) ∧ Forall sound_duration (durations st).
Proof.
  destruct after_attempts as [[[w [st|]]| |]|] eqn:E; [|by vm_compute in E..].
  exists w, st. split; [done|]. split; [vm_compute in E; by injection E as <- <-|].
  by apply (proj1 (@failures_reported range_forward range_forward (λ _, strict_handlers) 8 "tcp") three_attempts all_live w st).
Defined.

(** ** Redis and Kafka *)

(** No begin time is passed on for a message to Kafka: at any date after the year 292 the duration
    reported is the greatest one, some 9.2 million million milliseconds. *)
Lemma kafka_duration topic err t1 ctx s s' : 2 ^ 63 <= t1 → kafkaDuration s = ILive →
  kafka_call topic err t1 ctx s = Ok s' →
  durations s' = durations s ++ [("cable.kafka.duration", f64_div (f64_of (2 ^ 63 - 1)) (f64_of Millisecond),
    [("op", AString "produce"); ("topic", AString topic); ("isok", isok err)])].
Proof.
  unfold kafka_call, KafkaBegin, KafkaEnd. intros Ht Hl.
  pose proof (trace_begin_only ctx ("cable.kafka." +:+ "produce") SpanKindClient [("cable.kafka.topic", AString topic)] s)
    as (_ & _ & _ & Hd).
  destruct (trace_begin _ _ _ _ s) as [ctx' s1] eqn:E1. simpl in Hd.
  intros E. assert (kafkaDuration (trace_end ctx' err s1) = ILive) as Hk.
  { unfold trace_begin, start_span in E1. unfold trace_end.
    assert (kafkaDuration s1 = ILive) as H1 by (destruct (tracer s); destruct ctx; by injection E1 as _ <-).
    destruct (tracer s1); [|done]. destruct ctx' as [| |n]; [done..|].
    destruct (spans s1 !! n) as [sp|]; [|done]. by destruct (sp_ended sp). }
  unfold duration_Record in E. rewrite Hk in E. simpl in E. injection E as <-. cbn [durations with_records].
  pose proof (trace_end_only ctx' err s1) as (_ & _ & _ & ->). rewrite Hd.
  unfold elapsedTime, time_Sub. by rewrite Z.sub_0_r, Z.min_l, Z.max_r by lia.
Qed.
