(* ===== verification/System.v ===== *)
(** * The system: servers, brokers and the replicated registry together

    The brokers of a cluster with the log they share.  A step is one atomic action of a server
    ([server_step]), a login with the broker's callback ([Broker.onUserConnect]), the start or
    stop of a listener, a channel operation, the commitment of a proposed entry or its
    application at one node.  Every client a step closes is proposed to the log, as
    [onUserClosed] does.

    Raft is the order of the entries.  [SubmitOperation] drops the error of [Propose]: a proposal may be
    lost, or overtaken by a later one.  A login may come under a client id that a listener of the broker
    has already, with all that [Server] says of a second connection.  A run is orderly when none of
    that happens; then the log knows who is connected, and otherwise it may not.  In every run a
    login with its kicks and its proposal is one step, and no node is removed. *)
From S2P Require Import Prelude Errors Coder Packet Queue Safe RaftOps Registry Server Sessions Stats Broker.
Local Open Scope Z_scope.

(** ** One server: who is connected *)

(** The user of the connection registered under a client id. *)
Definition conn_user (w : world) (cid : string) : option string :=
  i ← rm (conns w) !! cid; c ← heap w !! i; id ← c_id c; Some (UserID id).

(** The clients reported closed since [w]. *)
Definition newly (w w' : world) : list Identity := drop (length (closed_ids w)) (closed_ids w').

(** Open connections are the registered ones. *)
Definition world_ok (w : world) : Prop :=
  server_inv w ∧
  ∀ i c, heap w !! i = Some c → c_closed c = false →
    ∃ id, c_id c = Some id ∧ rm (conns w) !! ClientID id = Some i.

Section worlds.
Context `{!GoRange uint8, !GoRange string}.

(** [w'] lost exactly the clients it reported, under the users they had. *)
Definition loses (w w' : world) (ids : list Identity) : Prop :=
  closed_ids w' = closed_ids w ++ ids ∧
  (∀ cid, conn_user w' cid = if decide (cid ∈ ClientID <$> ids) then None else conn_user w cid) ∧
  Forall (λ id, conn_user w (ClientID id) = Some (UserID id)) ids.

Definition closes (w w' : world) : Prop :=
  world_ok w → world_ok w' ∧ s_closed w' = s_closed w ∧ ∃ ids, loses w w' ids.

Lemma loses_nil w w' : closed_ids w' = closed_ids w → (∀ cid, conn_user w' cid = conn_user w cid) →
  loses w w' [].
Proof.
  intros Ec Eu. split_and!; [by rewrite app_nil_r| |done]. intros cid.
  by rewrite decide_False by apply not_elem_of_nil.
Qed.

Lemma loses_newly w w' ids : loses w w' ids → ids = newly w w'.
Proof. intros (E & _). unfold newly. by rewrite E, drop_app_length. Qed.

Lemma loses_app w1 w2 w3 ids ids' : loses w1 w2 ids → loses w2 w3 ids' → loses w1 w3 (ids ++ ids').
Proof.
  intros (E1 & U1 & F1) (E2 & U2 & F2). split_and!.
  - by rewrite E2, E1, app_assoc.
  - intros cid. rewrite U2, U1, fmap_app. repeat case_decide; set_solver.
  - apply Forall_app. split; [done|]. eapply Forall_impl; [exact F2|]. intros id. simpl. rewrite U1.
    by case_decide.
Qed.

Lemma closes_newly w w' : closes w w' → world_ok w →
  world_ok w' ∧ s_closed w' = s_closed w ∧ loses w w' (newly w w').
Proof.
  intros Hc Hw. destruct (Hc Hw) as (? & ? & ids & Hl). by rewrite (loses_newly _ _ _ Hl) in Hl.
Qed.

#[export] Instance closes_preorder : PreOrder closes.
Proof.
  split.
  - intros w Hw. split_and!; [done..|]. exists []. by apply loses_nil.
  - intros w1 w2 w3 H12 H23 H1. destruct (H12 H1) as (H2 & E2 & ids & L2).
    destruct (H23 H2) as (H3 & E3 & ids' & L3). split_and!; [done|congruence|].
    exists (ids ++ ids'). by eapply loses_app.
Qed.

Lemma closes_change i c c' w : heap w !! i = Some c → c_id c' = c_id c → c_closed c' = c_closed c →
  closes w (put_conn i c' w).
Proof.
  intros Ei Eid Ec [Hs Ho]. split_and!; [split|done|].
  - by eapply server_inv_put.
  - intros j cj. simpl. destruct (decide (j = i)) as [->|Hne].
    + rewrite lookup_insert_eq. intros [= <-]. rewrite Eid, Ec. by apply Ho.
    + rewrite lookup_insert_ne by done. apply Ho.
  - exists []. apply loses_nil; [done|]. intros cid. unfold conn_user. simpl.
    destruct (rm (conns w) !! cid) as [j|]; simpl; [|done].
    destruct (decide (j = i)) as [->|Hne].
    + rewrite lookup_insert_eq, Ei. simpl. by rewrite Eid.
    + by rewrite lookup_insert_ne.
Qed.

Lemma closes_Close i w : closes w (conn_Close i w).
Proof.
  intros [Hs Ho]. destruct (heap w !! i) as [c|] eqn:Ei; [|by unfold conn_Close; rewrite Ei; apply closes_preorder].
  destruct (c_closed c) eqn:Ec; [by unfold conn_Close; rewrite Ei, Ec; apply closes_preorder|].
  destruct (Ho i c Ei Ec) as (id & Eid & Er).
  pose proof (server_inv_Close i w Hs) as Hs'.
  rewrite (conn_Close_open i c id w) in * by done. rewrite decide_True in * by (by rewrite Er).
  set (w' := mkWorld _ _ _ _) in *.
  assert (∀ cid, rm (conns w') !! cid = delete (ClientID id) (rm (conns w)) !! cid) as Hr
    by (intros cid; simpl; by rewrite rm_Delete).
  split_and!; [split; [done|]|done|exists [id]; split_and!; [done| |]].
  - intros j cj. simpl. rewrite rm_Delete. destruct (decide (j = i)) as [->|Hne].
    + rewrite lookup_insert_eq. by intros [= <-].
    + rewrite lookup_insert_ne by done. intros Ej Hj. destruct (Ho j cj Ej Hj) as (id' & ? & Er').
      exists id'. split; [done|]. rewrite lookup_delete_ne; [done|]. intros E. rewrite E in Er. congruence.
  - intros cid. unfold conn_user. rewrite Hr. simpl. destruct (decide (cid = ClientID id)) as [->|Hne].
    + rewrite lookup_delete_eq, decide_True by set_solver. done.
    + rewrite lookup_delete_ne, decide_False by set_solver.
      destruct (rm (conns w) !! cid) as [j|] eqn:Ej; simpl; [|done].
      rewrite lookup_insert_ne; [done|]. intros ->. by apply Hne, (registered_inj cid (ClientID id) j w).
  - apply Forall_singleton. unfold conn_user. rewrite Er. simpl. rewrite Ei. simpl. by rewrite Eid.
Qed.

Lemma closes_Expel w w' : ExpelAllConns w = Some w' → closes w w'.
Proof.
  intros E Hw. destruct (ExpelAllConns_fold w w' (proj1 Hw) E) as (_ & w1 & E1 & He & ->).
  apply (rel_expel_fold closes closes_change closes_Close) in E1.
  destruct (E1 Hw) as ([H1 O1] & Es & ids & L). split_and!; [split|done|exists ids].
  - split; [done|]. by intros cid i.
  - intros i c Ei Ec. destruct (O1 i c Ei Ec) as (id & _ & Er). by rewrite He, lookup_empty in Er.
  - destruct L as (Ec & Eu & Hf). split_and!; [done| |done]. intros cid. rewrite <-Eu.
    unfold conn_user. simpl. by rewrite He, lookup_empty.
Qed.

Lemma closes_step h capacity a w w' : (∀ p, a ≠ SAccept p) →
  server_step h capacity a w = Some w' → closes w w'.
Proof.
  intros Ha. apply (rel_step closes closes_change closes_Close); [done|apply closes_Expel].
Qed.

Lemma world_ok_empty : world_ok empty_world.
Proof. split; [apply server_inv_empty|]. by intros i c. Qed.

(** *** A login under a free client id *)
Lemma accept_connects h capacity p id w w' : 1 <= capacity → world_ok w →
  connect_Identity p = Some id → rm (conns w) !! ClientID id = None →
  server_step h capacity (SAccept p) w = Some w' →
  world_ok w' ∧ s_closed w' = s_closed w ∧ closed_ids w' = closed_ids w ∧
  ∀ cid, conn_user w' cid =
    if decide (connectHandler h p = ConnectAccepted ∧ cid = ClientID id) then Some (UserID id)
    else conn_user w cid.
Proof.
  intros Hcap Hw Hid Hfree Hstep. pose proof (server_inv_step _ _ _ _ _ (proj1 Hw) Hstep) as Hs'.
  cbn [server_step] in Hstep. set (i := fresh (dom (heap w))).
  assert (heap w !! i = None) as Hi by apply not_elem_of_dom, is_fresh.
  assert (∀ c cid, conn_user (put_conn i c w) cid = conn_user w cid) as Hold.
  { intros c cid. unfold conn_user. simpl. destruct (rm (conns w) !! cid) as [j|] eqn:Ej; simpl; [|done].
    rewrite lookup_insert_ne; [done|]. intros <-. destruct (proj2 (proj1 Hw) _ _ Ej) as (? & ? & ? & _).
    congruence. }
  destruct (decide (connectHandler h p = ConnectAccepted)) as [Hacc|Hrej].
  - destruct (accept_free h capacity p id w Hcap Hacc Hid Hfree)
      as (w1 & c & E & Eh & Em & Ec & Eid & _ & _ & Ecl & Es).
    rewrite E in Hstep. simpl in Hstep. injection Hstep as <-. fold i in Eh, Em.
    split_and!; [split; [done|]|done|done|].
    + intros j cj. rewrite Eh, Em. destruct (decide (j = i)) as [->|Hne].
      * rewrite lookup_insert_eq. intros [= <-] _. exists id. by rewrite lookup_insert_eq.
      * rewrite lookup_insert_ne by done. intros Ej Hj. destruct (proj2 Hw j cj Ej Hj) as (id' & ? & Er).
        exists id'. split; [done|]. rewrite lookup_insert_ne; [done|]. intros E'. congruence.
    + intros cid. unfold conn_user. rewrite Em, Eh. destruct (decide (cid = ClientID id)) as [->|Hne].
      * rewrite lookup_insert_eq, decide_True by done. simpl. rewrite lookup_insert_eq. simpl. by rewrite Eid.
      * rewrite lookup_insert_ne, decide_False by naive_solver. exact (Hold c cid).
  - unfold accept in Hstep. rewrite Hid in Hstep. destruct (newConn_Ok (Some id) capacity Hcap) as [c Hc].
    rewrite Hc in Hstep. cbn [obind] in Hstep. fold i in Hstep. unfold OnConnect in Hstep.
    rewrite decide_False in Hstep by done.
    set (c1 := mkConn (Some id) false
                 (send true (frame (PConnack (NewConnack (connectHandler h p)))) (c_queue c)) (c_raw_closed c)) in *.
    assert (on_conn i (ConnackCode (connectHandler h p)) (put_conn i c w) = Some (Ok tt, put_conn i c1 w)) as E.
    { unfold on_conn. rewrite lookup_put. cbn [mbind option_bind].
      rewrite (ConnackCode_new _ _ _ _ Hc). cbn [mbind option_bind]. unfold put_conn. simpl.
      by rewrite insert_insert_eq. }
    rewrite E in Hstep. cbn [mbind option_bind] in Hstep. injection Hstep as <-.
    rewrite (conn_Close_open i c1 id) in * by (done || apply lookup_insert_eq). unfold put_conn in *.
    cbn [heap conns closed_ids s_closed] in *. clearbody c1.
    rewrite decide_False in * by (rewrite Hfree; by intros [? ?]). rewrite insert_insert_eq in *.
    split_and!; [split; [done|]|done|done|].
    + intros j cj. simpl. rewrite rm_Delete, delete_id by done. destruct (decide (j = i)) as [->|Hne].
      * rewrite lookup_insert_eq. by intros [= <-].
      * rewrite lookup_insert_ne by done. apply (proj2 Hw).
    + intros cid. rewrite decide_False by naive_solver. unfold conn_user. simpl.
      rewrite rm_Delete, delete_id by done. apply (Hold (mkConn (Some id) true _ true) cid).
Qed.
End worlds.

(** ** The log: who is connected where *)

(** The network under which an operation of the log leaves each client of the node [n]. *)
Definition row_step (n : Z) (r : string → string → option string) (op : opdata)
  : string → string → option string :=
  match op with
  | OpOpened op => λ u c,
      if decide (opened_nodeID op = n ∧ u = opened_uid op ∧ c = opened_cid op) then Some (opened_net op)
      else r u c
  | OpClosed op => λ u c,
      if decide (closed_nodeID op = n ∧ u = closed_uid op ∧ c = closed_cid op) then None else r u c
  | OpJoin _ | OpLeave _ => r
  end.

Definition row (n : Z) (ops : list opdata) : string → string → option string :=
  fold_left (row_step n) ops (λ _ _, None).

(** Only the node itself proposes its logins and closings. *)
Definition owned (n : Z) (op : opdata) : Prop :=
  match op with
  | OpOpened op => opened_nodeID op = n
  | OpClosed op => closed_nodeID op = n
  | OpJoin _ | OpLeave _ => True
  end.

Lemma fold_row_ext n ops r r' : (∀ u c, r u c = r' u c) →
  ∀ u c, fold_left (row_step n) ops r u c = fold_left (row_step n) ops r' u c.
Proof.
  revert r r'. induction ops as [|op ops IH]; intros r r' H; [done|]. cbn [fold_left].
  apply IH. intros u c. destruct op; simpl; rewrite ?H; done.
Qed.

Lemma row_view n ops v u c :
  v_users (view_events (EvOp <$> ops) v) n u c = fold_left (row_step n) ops (v_users v n) u c.
Proof.
  revert v. induction ops as [|op ops IH]; intros v; [done|]. rewrite fmap_cons. cbn [fold_left].
  unfold view_events in *. cbn [fold_left view_event]. rewrite IH. apply fold_row_ext. clear.
  intros u c. destruct op as [[]|[]|[]|[]]; simpl; [| |done|done]; repeat case_decide; naive_solver.
Qed.

Lemma row_other n m l1 op l2 u c : owned m op → m ≠ n → row n (l1 ++ op :: l2) u c = row n (l1 ++ l2) u c.
Proof.
  intros Ho Hne. unfold row. rewrite !fold_left_app. cbn [fold_left]. apply fold_row_ext.
  clear u c. intros u c. destruct op; simpl in *; [| |done|done]; rewrite decide_False; naive_solver.
Qed.

Lemma row_app n l1 l2 u c : row n (l1 ++ l2) u c = fold_left (row_step n) l2 (row n l1) u c.
Proof. unfold row. by rewrite fold_left_app. Qed.

Definition closed_op (n : Z) (id : Identity) : opdata := OpClosed (mkUserClosed (UserID id) (ClientID id) n).

Lemma row_closed n ids r u c : fold_left (row_step n) (closed_op n <$> ids) r u c =
  if decide ((u, c) ∈ (λ id, (UserID id, ClientID id)) <$> ids) then None else r u c.
Proof.
  revert r. induction ids as [|id ids IH]; intros r; [by rewrite decide_False by apply not_elem_of_nil|].
  rewrite !fmap_cons. cbn [fold_left]. rewrite IH. simpl. repeat case_decide; set_solver.
Qed.

(** ** The state of the cluster *)

(** A broker, the entries it proposed that are not committed, and how many it applied. *)
Record member := mkMember { m_broker : broker; m_pending : list bytes; m_applied : nat }.

Record system := mkSystem { members : gmap Z member; committed : list bytes }.

Definition brokers_of (s : system) : brokers := m_broker <$> members s.

Definition put_member (n : Z) (x : member) (s : system) : system :=
  mkSystem (<[n := x]> (members s)) (committed s).

Section system.
Context `{!GoRange uint8, !GoRange string, !GoRange Z}.

(** The clients that were reported closed between [b] and [b'], listener by listener. *)
Definition closings (b b' : broker) : list Identity :=
  go_range (listeners b) ≫= λ x,
    match server_of b x.1, listeners b' !! x.1 ≫= srv with
    | Some (_, w), Some w' => newly w w'
    | _, _ => []
    end.

(** [SubmitOperation] of a started node; [RaftOps] shows that the pool is irrelevant. *)
Definition submit (op : opdata) : outcome error bytes := fst (SubmitOperation true 0 [] op).

Definition entries (rs : list (outcome error bytes)) : list bytes :=
  omap (λ r, match r with Ok data => Some data | _ => None end) rs.

(** The broker becomes [b']: [onUserClosed] is called for every client that was closed. *)
Definition move (n : Z) (b' : broker) (x : member) : member :=
  mkMember b' (m_pending x ++ entries (onUserClosed n submit <$> closings (m_broker x) b')) (m_applied x).

Definition move_all (bs' : brokers) (s : system) : system :=
  mkSystem (map_imap (λ n x, Some (match bs' !! n with Some b' => move n b' x | None => x end)) (members s))
    (committed s).

Definition propose (data : list bytes) (x : member) : member :=
  mkMember (m_broker x) (m_pending x ++ data) (m_applied x).

(** An operation and its entry fit the encoding. *)
Definition op_ok (op : opdata) : Prop := op_wf op ∧ zlen (op_body op) < 2 ^ 63.

Context (h : handlers) (capacity : Z) (user_connect : Connect → uint8)
  (user_channels : string → gmap string string * option error).

(** The connect handler of the listener's server answers what [onUserConnect] returned. *)
Definition login_handlers (code : uint8) : handlers :=
  mkHandlers (λ _, code) (messageHandler h) (requestHandler h).

(** [orderly]: no login under a client id that is registered at a started listener of the broker, no
    proposal lost or overtaken. *)
Inductive system_step (orderly : bool) : system → system → Prop :=
| y_server n x net l w a w' s : members s !! n = Some x → (∀ p, a ≠ SAccept p) →
    server_of (m_broker x) net = Some (l, w) → server_step h capacity a w = Some w' →
    system_step orderly s (put_member n (move n (put_server net l w' (m_broker x)) x) s)
| y_login n x link p id net code proposal bs' l w w' s :
    connect_Identity p = Some id →
    op_ok (OpOpened (mkUserOpened (UserID id) (ClientID id) net n (fst (user_channels (UserID id))))) →
    onUserConnect n link user_connect user_channels submit p net (brokers_of s) =
      Some (Ok (code, proposal), bs') →
    members (move_all bs' s) !! n = Some x →
    (orderly = true →
       map_Forall (λ net' _, registered (m_broker x) net' (ClientID id) = None) (listeners (m_broker x))) →
    server_of (m_broker x) net = Some (l, w) →
    server_step (login_handlers code) capacity (SAccept p) w = Some w' →
    system_step orderly s (put_member n (move n (put_server net l w' (m_broker x)) (propose (option_list proposal) x))
                     (move_all bs' s))
| y_start n x net b' s : members s !! n = Some x → startListener net (m_broker x) = Ok b' →
    system_step orderly s (put_member n (move n b' x) s)
| y_stop n x net b' s : members s !! n = Some x → stopListener net (m_broker x) = Some (Ok b') →
    system_step orderly s (put_member n (move n b' x) s)
| y_join n x uid channels data s : members s !! n = Some x → op_ok (OpJoin (mkJoin uid channels)) →
    user_JoinChannel submit uid channels = Ok data → system_step orderly s (put_member n (propose [data] x) s)
| y_leave n x uid channels data s : members s !! n = Some x → op_ok (OpLeave (mkLeave uid channels)) →
    user_LeaveChannel submit uid channels = Ok data → system_step orderly s (put_member n (propose [data] x) s)
| y_commit n x k data s : members s !! n = Some x → m_pending x !! k = Some data →
    (orderly = true → k = 0%nat) →
    system_step orderly s (mkSystem (<[n := mkMember (m_broker x) (delete k (m_pending x)) (m_applied x)]> (members s))
                             (committed s ++ [data]))
| y_lose n x k s : orderly = false → members s !! n = Some x →
    system_step orderly s (put_member n (mkMember (m_broker x) (delete k (m_pending x)) (m_applied x)) s)
| y_apply n x data r s : members s !! n = Some x → committed s !! m_applied x = Some data →
    registry_small (reg (m_broker x)) → applyRaftOp data (reg (m_broker x)) = Ok r →
    system_step orderly s (put_member n (mkMember (with_reg r (m_broker x)) (m_pending x) (S (m_applied x))) s).

(** Some of the steps as a function. *)
Inductive system_action :=
| DStart (n : Z) (net : string)
| DLogin (n : Z) (p : Connect) (net : string)
| DCommit (n : Z) (k : nat)
| DLose (n : Z) (k : nat)
| DApply (n : Z).

Definition login_next (orderly : bool) (n : Z) (link : Z → rpc) (p : Connect) (net : string) (s : system)
  : option system :=
  id ← connect_Identity p;
  '(r, bs') ← onUserConnect n link user_connect user_channels submit p net (brokers_of s);
  match r with
  | Ok (code, proposal) =>
      x ← members (move_all bs' s) !! n;
      '(l, w) ← server_of (m_broker x) net;
      w' ← server_step (login_handlers code) capacity (SAccept p) w;
      if decide (op_ok (OpOpened (mkUserOpened (UserID id) (ClientID id) net n (fst (user_channels (UserID id))))) ∧
                 (orderly = true → map_Forall (λ net' _, registered (m_broker x) net' (ClientID id) = None)
                                     (listeners (m_broker x))))
      then Some (put_member n (move n (put_server net l w' (m_broker x)) (propose (option_list proposal) x))
                  (move_all bs' s))
      else None
  | _ => None
  end.

Definition system_next (orderly : bool) (link : Z → rpc) (a : system_action) (s : system) : option system :=
  match a with
  | DStart n net =>
      x ← members s !! n;
      match startListener net (m_broker x) with Ok b' => Some (put_member n (move n b' x) s) | _ => None end
  | DLogin n p net => login_next orderly n link p net s
  | DCommit n k =>
      x ← members s !! n; data ← m_pending x !! k;
      if decide (orderly = true → k = 0%nat)
      then Some (mkSystem (<[n := mkMember (m_broker x) (delete k (m_pending x)) (m_applied x)]> (members s))
                  (committed s ++ [data]))
      else None
  | DLose n k =>
      x ← members s !! n;
      if orderly then None
      else Some (put_member n (mkMember (m_broker x) (delete k (m_pending x)) (m_applied x)) s)
  | DApply n =>
      x ← members s !! n; data ← committed s !! m_applied x;
      match applyRaftOp data (reg (m_broker x)) with
      | Ok r =>
          if decide (registry_small (reg (m_broker x)))
          then Some (put_member n (mkMember (with_reg r (m_broker x)) (m_pending x) (S (m_applied x))) s)
          else None
      | _ => None
      end
  end.

Lemma login_next_step orderly n link p net s s' : login_next orderly n link p net s = Some s' →
  system_step orderly s s'.
Proof.
  unfold login_next. destruct (connect_Identity p) as [id|] eqn:Hid; [|done]. cbn [mbind option_bind].
  destruct (onUserConnect _ _ _ _ _ _ _ _) as [[r bs']|] eqn:Hcon; [|done]. cbn [mbind option_bind].
  destruct r as [[code proposal]|e|x]; [|done..].
  destruct (members (move_all bs' s) !! n) as [x|] eqn:Hn; [|done]. cbn [mbind option_bind].
  destruct (server_of (m_broker x) net) as [[l w]|] eqn:Hl; [|done]. cbn [mbind option_bind].
  destruct (server_step _ _ _ w) as [w'|] eqn:Hw; [|done]. cbn [mbind option_bind].
  case_decide as Hd; [|done]. destruct Hd as [Hop Hfree]. intros [= <-]. by eapply y_login.
Qed.

Lemma system_next_step orderly link a s s' : system_next orderly link a s = Some s' → system_step orderly s s'.
Proof.
  destruct a as [n net|n p net|n k|n k|n]; cbn [system_next]; [|apply login_next_step|..];
    (destruct (members s !! n) as [x|] eqn:Hn; [|done]); cbn [mbind option_bind].
  - destruct (startListener net _) as [b'| |] eqn:Hb; [|done..]. intros [= <-]. by eapply y_start.
  - destruct (m_pending x !! k) as [data|] eqn:Hk; [|done]. cbn [mbind option_bind]. case_decide; [|done].
    intros [= <-]. by apply y_commit.
  - destruct orderly; [done|]. intros [= <-]. by apply y_lose.
  - destruct (committed s !! m_applied x) as [data|] eqn:Hd; [|done]. cbn [mbind option_bind].
    destruct (applyRaftOp _ _) as [r| |] eqn:Hr; [|done..]. case_decide; [|done]. intros [= <-]. by eapply y_apply.
Qed.

Definition system_run (orderly : bool) (link : Z → rpc) (acts : list system_action) (s : system) : option system :=
  fold_left (λ m a, m ≫= system_next orderly link a) acts (Some s).

Lemma system_run_steps orderly link acts s s' : system_run orderly link acts s = Some s' →
  steps (system_step orderly) s s'.
Proof.
  unfold system_run. revert s. induction acts as [|a acts IH]; intros s; cbn [fold_left]; [intros [= <-]; apply steps_refl|].
  change (Some s ≫= system_next orderly link a) with (system_next orderly link a s).
  destruct (system_next orderly link a s) as [s1|] eqn:E.
  - intros Hr. eapply steps_step; [by eapply system_next_step|by apply IH].
  - intros Hr. exfalso. revert Hr. clear. induction acts; [done|]. by simpl.
Qed.

(** A cluster that was just started: no server has seen a connection, the log is empty. *)
Definition fresh_system (s : system) : Prop :=
  committed s = [] ∧ map_Forall (λ _ x, m_pending x = [] ∧ m_applied x = 0%nat ∧
    reg (m_broker x) = empty_registry ∧
    map_Forall (λ _ l, srv l = None ∨ srv l = Some empty_world) (listeners (m_broker x))) (members s).

(** Nothing is proposed but uncommitted, and the node has applied the whole log. *)
Definition settled (s : system) (me : Z) : Prop :=
  map_Forall (λ _ x, m_pending x = []) (members s) ∧
  ∀ x, members s !! me = Some x → m_applied x = length (committed s).

(** *** What the brokers keep *)

(** The user has an open connection under the client id over the network. *)
Definition connected (b : broker) (u c net : string) : Prop :=
  ∃ l w, server_of b net = Some (l, w) ∧ conn_user w c = Some u.

Definition broker_ok (n : Z) (b : broker) : Prop :=
  broker_inv b ∧
  (∀ net l w, server_of b net = Some (l, w) → world_ok w ∧ s_closed w = false) ∧
  (∀ c net net' u u', connected b u c net → connected b u' c net' → net = net') ∧
  (∀ u c net, connected b u c net → op_ok (OpClosed (mkUserClosed u c n))).

(** [b'] lost the clients in [closings b b'] and no other. *)
Definition b_loses (b b' : broker) : Prop :=
  (∀ u c net, connected b' u c net ↔ connected b u c net ∧ c ∉ ClientID <$> closings b b') ∧
  ∀ id, id ∈ closings b b' → ∃ net, connected b (UserID id) (ClientID id) net.

Lemma elem_of_closings id b b' : id ∈ closings b b' ↔
  ∃ net l w w', server_of b net = Some (l, w) ∧ listeners b' !! net ≫= srv = Some w' ∧ id ∈ newly w w'.
Proof.
  unfold closings. rewrite list_elem_of_bind. split.
  - intros ([net l0] & Hid & Hin). simpl in *. destruct (server_of b net) as [[l w]|] eqn:E; [|by apply elem_of_nil in Hid].
    destruct (listeners b' !! net ≫= srv) as [w'|] eqn:E'; [|by apply elem_of_nil in Hid].
    by exists net, l, w, w'.
  - intros (net & l & w & w' & E & E' & Hid). exists (net, l). simpl. rewrite E, E'. split; [done|].
    apply elem_of_go_range. by apply server_of_Some in E as (? & _).
Qed.

Lemma server_of_srv b net l w : server_of b net = Some (l, w) → listeners b !! net ≫= srv = Some w.
Proof. intros (El & _ & Ew)%server_of_Some. by rewrite El. Qed.

Lemma conn_user_empty c : conn_user empty_world c = None.
Proof. done. Qed.

(** Listener by listener: a started listener loses clients, or stops once it has none; one that
    starts has none. *)
Definition moves (b b' : broker) : Prop :=
  (∀ net l w, server_of b net = Some (l, w) → ∃ w', listeners b' !! net ≫= srv = Some w' ∧
     match server_of b' net with
     | Some _ => closes w w'
     | None => (world_ok w → loses w w' (newly w w')) ∧ ∀ c, conn_user w' c = None
     end) ∧
  (∀ net l w, server_of b' net = Some (l, w) → server_of b net = None → w = empty_world).

(** A started listener before and after. *)
Lemma moves_server n b b' net l w : broker_ok n b → moves b b' → server_of b net = Some (l, w) →
  ∃ w', listeners b' !! net ≫= srv = Some w' ∧ loses w w' (newly w w') ∧
    match server_of b' net with
    | Some _ => world_ok w' ∧ s_closed w' = false
    | None => ∀ c, conn_user w' c = None
    end.
Proof.
  intros (_ & Hok & _) [Hold _] E. destruct (Hold _ _ _ E) as (w' & E' & H). exists w'.
  destruct (Hok _ _ _ E) as [Hw Hs]. destruct (server_of b' net).
  - destruct (closes_newly _ _ H Hw) as (? & Es & ?). by rewrite Es.
  - destruct H as [Hl Hn]. split_and!; auto.
Qed.

Lemma closing_was n b b' id : broker_ok n b → moves b b' → id ∈ closings b b' →
  ∃ net l w w', server_of b net = Some (l, w) ∧ listeners b' !! net ≫= srv = Some w' ∧
    id ∈ newly w w' ∧ connected b (UserID id) (ClientID id) net.
Proof.
  intros Hb Hm (net & l & w & w' & E & E' & Hid)%elem_of_closings.
  destruct (moves_server n b b' net l w Hb Hm E) as (w1 & E1 & (_ & _ & Hf) & _).
  simplify_eq. exists net, l, w, w'. split_and!; [done..|]. exists l, w. split; [done|].
  rewrite Forall_forall in Hf. by apply Hf.
Qed.

Lemma moves_from n b b' u c net : broker_ok n b → moves b b' → connected b' u c net →
  connected b u c net ∧ c ∉ ClientID <$> closings b b'.
Proof.
  intros Hb Hm (l' & w' & E' & Hu). destruct (server_of b net) as [[l w]|] eqn:E.
  2: { by rewrite (proj2 Hm _ _ _ E' E) in Hu. }
  destruct (moves_server n b b' net l w Hb Hm E) as (w1 & E1 & (_ & Hcu & _) & _).
  rewrite (server_of_srv _ _ _ _ E') in E1. injection E1 as <-. rewrite Hcu in Hu. case_decide as Hin; [done|].
  assert (connected b u c net) as Hbc by (by exists l, w). split; [done|].
  intros (id & -> & Hid)%list_elem_of_fmap. apply Hin, list_elem_of_fmap. exists id. split; [done|].
  destruct (closing_was n b b' id Hb Hm Hid) as (net2 & l2 & w2 & w2' & E2 & E2' & Hid2 & H2).
  assert (net2 = net) as -> by (by eapply Hb). rewrite (server_of_srv _ _ _ _ E') in E2'. by simplify_eq.
Qed.

Lemma moves_to n b b' u c net : broker_ok n b → moves b b' → connected b u c net →
  c ∉ ClientID <$> closings b b' → connected b' u c net.
Proof.
  intros Hb Hm (l & w & E & Hu) Hc.
  destruct (moves_server n b b' net l w Hb Hm E) as (w' & E' & (_ & Hcu & _) & Hstop).
  assert (conn_user w' c = Some u) as Hu'.
  { rewrite Hcu, decide_False; [done|]. intros (id & -> & Hid)%list_elem_of_fmap. apply Hc, list_elem_of_fmap.
    exists id. split; [done|]. apply elem_of_closings. by exists net, l, w, w'. }
  destruct (server_of b' net) as [[l' w2]|] eqn:E2; [|by rewrite Hstop in Hu'].
  rewrite (server_of_srv _ _ _ _ E2) in E'. injection E' as ->. by exists l', w'.
Qed.

Lemma moves_ok n b b' : broker_ok n b → broker_inv b' → moves b b' → broker_ok n b' ∧ b_loses b b'.
Proof.
  intros Hb Hinv' Hm. pose proof (λ u c net, moves_from n b b' u c net Hb Hm) as Hfrom.
  split; [split_and!; [done| | |]|split].
  - intros net l w E. destruct (server_of b net) as [[l0 w0]|] eqn:E0.
    + destruct (moves_server n b b' net l0 w0 Hb Hm E0) as (w' & E1 & _ & Hw'). rewrite E in Hw'.
      rewrite (server_of_srv _ _ _ _ E) in E1. by injection E1 as ->.
    + rewrite (proj2 Hm _ _ _ E E0). split; [apply world_ok_empty|done].
  - intros c net net' u u' [H1 _]%Hfrom [H2 _]%Hfrom. by eapply Hb.
  - intros u c net [H1 _]%Hfrom. by eapply Hb.
  - intros u c net. split; [apply Hfrom|]. intros [? ?]. by eapply moves_to.
  - intros id (net & ? & ? & ? & _ & _ & _ & ?)%(closing_was n b b'); [|done..]. by exists net.
Qed.

(** *** How brokers move *)

(** The same listeners are started, their servers lose clients. *)
Definition steady (b b' : broker) : Prop :=
  reg b' = reg b ∧ (broker_inv b → broker_inv b') ∧
  ∀ net, match server_of b net, server_of b' net with
         | Some (_, w), Some (_, w') => closes w w'
         | None, None => True
         | _, _ => False
         end.

#[export] Instance steady_preorder : PreOrder steady.
Proof.
  split.
  - intros b. split_and!; [done..|]. intros net. by destruct (server_of b net) as [[]|].
  - intros b1 b2 b3 (E1 & I1 & H1) (E2 & I2 & H2). split_and!; [congruence|auto|]. intros net.
    specialize (H1 net). specialize (H2 net). destruct (server_of b1 net) as [[? w1]|], (server_of b2 net) as [[? w2]|],
      (server_of b3 net) as [[? w3]|]; try done. by trans w2.
Qed.

Lemma steady_moves b b' : steady b b' → moves b b'.
Proof.
  intros (_ & _ & H). split.
  - intros net l w E. specialize (H net). rewrite E in H. destruct (server_of b' net) as [[l' w']|] eqn:E'; [|done].
    exists w'. split; [by eapply server_of_srv|done].
  - intros net l w E E0. specialize (H net). by rewrite E, E0 in H.
Qed.

Lemma steady_put b net l w w' : server_of b net = Some (l, w) → closes w w' →
  (server_inv w → server_inv w') → steady b (put_server net l w' b).
Proof.
  intros E Hc Hi. split_and!; [done| |].
  - intros Hb. apply broker_inv_put; [done|]. apply Hi. by eapply broker_inv_server.
  - intros net'. rewrite (server_of_put b net l w) by done. destruct (decide (net' = net)) as [->|Hne].
    + by rewrite E.
    + by destruct (server_of b net') as [[]|].
Qed.

Lemma steady_step n b net l w a w' : (∀ p, a ≠ SAccept p) → server_of b net = Some (l, w) →
  server_step h n a w = Some w' → steady b (put_server net l w' b).
Proof.
  intros Ha E Hs. apply (steady_put b net l w); [done|by eapply closes_step|]. intros Hw.
  by eapply server_inv_step.
Qed.

Lemma steady_kick targets b b' : kickConn targets b = Some b' → steady b b'.
Proof.
  unfold kickConn. refine (fold_rel steady id kick_one _ b b' _ _); [done|]. intros b1 x b2.
  unfold kick_one. cbn [mbind option_bind id]. destruct (server_of b1 x.2) as [[l w]|] eqn:E; [|by intros [= <-]].
  destruct (KickConn x.1 w) as [[k w']|] eqn:Ek; [|done]. simpl. intros [= <-].
  assert (server_step h 1 (SKick x.1) w = Some w') as Hs by (cbn [server_step]; by rewrite Ek).
  by eapply (steady_step 1 b1 x.2 l w (SKick x.1)).
Qed.

(** All brokers at once. *)
Definition all_steady (bs bs' : brokers) : Prop :=
  ∀ n, match bs !! n, bs' !! n with
       | Some b, Some b' => steady b b'
       | None, None => True
       | _, _ => False
       end.

#[export] Instance all_steady_preorder : PreOrder all_steady.
Proof.
  split.
  - intros bs n. by destruct (bs !! n).
  - intros b1 b2 b3 H1 H2 n. specialize (H1 n). specialize (H2 n).
    destruct (b1 !! n), (b2 !! n), (b3 !! n); try done. by etrans.
Qed.

Lemma all_steady_insert bs n b b' : bs !! n = Some b → steady b b' → all_steady bs (<[n := b']> bs).
Proof.
  intros E H k. destruct (decide (k = n)) as [->|Hne].
  - by rewrite E, lookup_insert_eq.
  - rewrite lookup_insert_ne by done. by destruct (bs !! k).
Qed.

Lemma all_steady_attempts r targets n bs a bs' : attempts_of r n (peer_KickConn targets) bs = Some (a, bs') →
  all_steady bs bs'.
Proof.
  revert bs. induction r as [|e|e|r IH]; intros bs; simpl; [|by intros [= _ <-]|..];
    (destruct (bs !! n) as [b|] eqn:E; [|by intros [= _ <-]]);
    unfold peer_KickConn; (destruct (kickConn targets b) as [b'|] eqn:Ek; [|done]); simpl;
    (assert (all_steady bs (<[n := b']> bs)) as Hs by (eapply all_steady_insert; [exact E|by eapply steady_kick])).
  1, 2: by intros [= _ <-].
  intros Hr. etrans; [exact Hs|]. by apply IH.
Qed.

Lemma all_steady_kick link targets p n r bs bs' : peer_kickConn link targets p n bs = Some (r, bs') →
  all_steady bs bs'.
Proof.
  unfold peer_kickConn, peer_call, call. destruct (p_ready p); [|by intros [= _ <-]]. apply all_steady_attempts.
Qed.

(** The broker's part of a login: kicks at other brokers, and one entry if it is accepted. *)
Lemma onUserConnect_steady n link p id net code proposal bs bs' : connect_Identity p = Some id →
  onUserConnect n link user_connect user_channels submit p net bs = Some (Ok (code, proposal), bs') →
  all_steady bs bs' ∧
  ((code ≠ ConnectAccepted ∧ proposal = None) ∨
   (code = ConnectAccepted ∧ ∃ data, proposal = Some data ∧ submit (OpOpened
      (mkUserOpened (UserID id) (ClientID id) net n (fst (user_channels (UserID id))))) = Ok data)).
Proof.
  intros Hid. unfold onUserConnect. case_decide as Hcode.
  { intros [= <- <- <-]. split; [done|]. by left. }
  rewrite Hid. destruct (bs !! n) as [b|]; [|done]. cbn [mbind option_bind].
  destruct (fold_left _ _ _) as [bs1|] eqn:E; [|done]. cbn [mbind option_bind].
  assert (all_steady bs bs1) as Hs.
  { refine (fold_rel all_steady Datatypes.id (kick_old n b link id net) _ bs bs1 _ _ E); [done|]. intros b1 x b2.
    unfold kick_old. cbn [mbind option_bind Datatypes.id]. case_decide; [by intros [= <-]|].
    destruct (GetKey _ _ _); [|by intros [= <-]]. destruct (RMap_Get _ _) as [pc|]; [|by intros [= <-]].
    destruct (peer_kickConn _ _ _ _ _) as [[r b3]|] eqn:Ek; [|done]. simpl. intros [= <-].
    by eapply all_steady_kick. }
  destruct (user_channels (UserID id)) as [chs err]. cbn [fst].
  destruct (submit _) as [data|e|w] eqn:Es; [| |done]; intros [= <- <- <-].
  - split; [done|]. right. eauto.
  - split; [done|]. by left.
Qed.

(** Starting a listener: nobody is connected to it. *)
Lemma moves_start net b b' : startListener net b = Ok b' → moves b b' ∧ reg b' = reg b ∧ (broker_inv b → broker_inv b').
Proof.
  unfold startListener. destruct (listeners b !! net) as [l|] eqn:E; [|done]. intros [= <-].
  set (b1 := with_listeners _ b).
  assert (∀ net', server_of b1 net' = if decide (net' = net ∧ started l = false)
                                      then Some (Listener_Start l, empty_world) else server_of b net') as Hs.
  { intros net'. unfold server_of, b1, Listener_Start, ISStarted. simpl. destruct (decide (net' = net)) as [->|Hne].
    - rewrite lookup_insert_eq, E. simpl. destruct (started l) eqn:El; simpl.
      + rewrite El, decide_False by naive_solver. done.
      + by rewrite decide_True.
    - rewrite lookup_insert_ne, decide_False by naive_solver. done. }
  split_and!; [split|done|].
  - intros net' l' w E'. exists w. assert (server_of b1 net' = Some (l', w)) as E1.
    { rewrite Hs, decide_False; [done|]. intros [-> El]. unfold server_of, ISStarted in E'. rewrite E in E'.
      simpl in E'. by rewrite El in E'. }
    rewrite E1. split; [by eapply server_of_srv|done].
  - intros net' l' w. rewrite Hs. destruct (decide (net' = net ∧ started l = false)); congruence.
  - intros Hb. unfold broker_inv, b1. simpl. apply map_Forall_insert_2; [|done]. unfold Listener_Start.
    destruct (started l); simpl; [by apply (Hb net)|apply server_inv_empty].
Qed.

(** Stopping a listener: everybody is expelled first. *)
Lemma moves_stop n net b b' : broker_ok n b → stopListener net b = Some (Ok b') →
  moves b b' ∧ reg b' = reg b ∧ broker_inv b'.
Proof.
  intros (Hinv & Hok & _). unfold stopListener. destruct (listeners b !! net) as [l|] eqn:E; [|done].
  destruct (Listener_Shutdown l) as [r|] eqn:El; [|done]. cbn [mbind option_bind].
  destruct r as [l'|e|w]; [|done..]. cbn [obind]. intros [= <-]. revert El. unfold Listener_Shutdown.
  destruct (started l) eqn:Est; simpl.
  2: { intros [= <-]. assert (with_listeners (<[net := l]> (listeners b)) b = b) as ->; [|by split_and!; [apply steady_moves|..]].
       unfold with_listeners. rewrite insert_id by done. by destruct b. }
  unfold Listener_ExpelAllConns. simpl. destruct (srv l) as [w|] eqn:Ew; [|done].
  assert (server_of b net = Some (l, w)) as Es by (unfold server_of, ISStarted; rewrite E; simpl; by rewrite Est, Ew).
  destruct (Hok _ _ _ Es) as [Hw Hc]. destruct (ExpelAllConns w) as [w1|] eqn:Ee; [|done]. cbn [mbind option_bind obind srv with_srv].
  pose proof (closes_Expel w w1 Ee) as Hcl. destruct (ExpelAllConns_fold w w1 (proj1 Hw) Ee) as (He & _).
  destruct (Hcl Hw) as ([Hw1 _] & Es1 & ids & Hids). unfold Shutdown_begin. rewrite Es1, Hc. simpl.
  set (w2 := mkWorld (heap w1) (conns w1) true (closed_ids w1)).
  assert (Shutdown_pass w2 = (0, w2)) as -> by (unfold Shutdown_pass; simpl; rewrite He; simpl; by rewrite go_range_empty).
  cbn [snd]. intros [= <-]. set (b1 := with_listeners _ b).
  assert (∀ net', server_of b1 net' = if decide (net' = net) then None else server_of b net') as Hs.
  { intros net'. unfold server_of, b1. simpl. destruct (decide (net' = net)) as [->|Hne].
    - by rewrite lookup_insert_eq.
    - by rewrite lookup_insert_ne. }
  split_and!; [split|done|].
  - intros net' l' w' E'. rewrite Hs. case_decide as Hd.
    + subst net'. simplify_eq. exists w2. simpl. rewrite lookup_insert_eq. simpl. split_and!; [done| |].
      * intros _. assert (ids = newly w w2) as <- by (by apply (loses_newly w w1)). exact Hids.
      * intros c. unfold conn_user. simpl. by rewrite He, lookup_empty.
    + exists w'. rewrite E'. split; [|done]. simpl. rewrite lookup_insert_ne by done. by eapply server_of_srv.
  - intros net' l' w'. rewrite Hs. case_decide; [done|]. by intros ->.
  - unfold broker_inv, b1. simpl. apply map_Forall_insert_2; [done|done].
Qed.

(** *** Members: the log knows who is connected *)

(** The members of the cluster, when the log holds the entries of [ops]. *)
Definition member_ok (n : Z) (ops : list opdata) (x : member) : Prop :=
  broker_ok n (m_broker x) ∧
  (∃ pops, m_pending x = op_entry <$> pops ∧ Forall op_ok pops ∧ Forall (owned n) pops ∧
     ∀ u c net, row n (ops ++ pops) u c = Some net ↔ connected (m_broker x) u c net) ∧
  (m_applied x ≤ length ops)%nat ∧ registry_wf (reg (m_broker x)) ∧
  view_of (reg (m_broker x)) ≡ view_events (EvOp <$> take (m_applied x) ops) (view_of empty_registry).

Lemma submit_entry op : op_ok op → submit op = Ok (op_entry op).
Proof. intros [Hop _]. by apply SubmitOperation_entry; [constructor|]. Qed.

Lemma entries_closed n ids : Forall (λ id, op_ok (closed_op n id)) ids →
  entries (onUserClosed n submit <$> ids) = op_entry <$> (closed_op n <$> ids).
Proof.
  induction 1 as [|id ids Hid _ IH]; [done|]. rewrite !fmap_cons. unfold entries in *. cbn [omap list_omap].
  change (onUserClosed n submit id) with (submit (closed_op n id)). rewrite submit_entry by done. by f_equal.
Qed.

(** A member whose broker moves: the clients it lost are proposed as closed. *)
Lemma member_move n ops x b' : member_ok n ops x → moves (m_broker x) b' → reg b' = reg (m_broker x) →
  broker_inv b' → member_ok n ops (move n b' x).
Proof.
  intros (Hb & (pops & Ep & Hp & Ho & Hrow) & Ha & Hreg) Hm Er Hinv'.
  destruct (moves_ok n _ _ Hb Hinv' Hm) as [Hb' [Hconn Hwas]]. set (ids := closings (m_broker x) b') in *.
  assert (Forall (λ id, op_ok (closed_op n id)) ids) as Hok.
  { apply Forall_forall. intros id Hid. destruct (Hwas id Hid) as [net Hc]. by eapply Hb. }
  split_and!; [done| |done|simpl; rewrite Er; apply Hreg..].
  exists (pops ++ (closed_op n <$> ids)). split_and!.
  - unfold move. cbn [m_pending]. fold ids. by rewrite Ep, (entries_closed n ids Hok), fmap_app.
  - apply Forall_app. split; [done|]. by apply Forall_fmap.
  - apply Forall_app. split; [done|]. apply Forall_fmap, Forall_true. done.
  - intros u c net. simpl. rewrite Hconn, <-Hrow, app_assoc, row_app, row_closed. case_decide as Hin.
    + split; [done|]. intros [Hr Hc]. exfalso. apply Hc. apply list_elem_of_fmap in Hin as (id & [= -> ->] & Hid).
      apply list_elem_of_fmap. by exists id.
    + split; [|by intros [? _]]. intros Hr. split; [done|]. intros (id & -> & Hid)%list_elem_of_fmap.
      destruct (Hwas id Hid) as [net' Hc']. apply Hrow in Hr.
      assert (net' = net) as -> by (by eapply Hb).
      destruct Hc' as (l & w & E & Hu), Hr as (l2 & w2 & E2 & Hu2).
      assert (UserID id = u) as <- by congruence. apply Hin, list_elem_of_fmap. by exists id.
Qed.

Lemma member_steady n ops x b' : member_ok n ops x → steady (m_broker x) b' → member_ok n ops (move n b' x).
Proof.
  intros Hx Hs. pose proof Hx as ((Hi & _) & _). apply member_move; [done|by apply steady_moves|apply Hs|].
  by apply Hs.
Qed.

(** A member that proposes a channel operation. *)
Lemma member_propose n ops x op : member_ok n ops x → op_ok op →
  match op with OpJoin _ | OpLeave _ => True | _ => False end → member_ok n ops (propose [op_entry op] x).
Proof.
  intros (Hb & (pops & Ep & Hp & Ho & Hrow) & Ha & Hreg) Hop Hk. split_and!; [done| |done|apply Hreg..].
  exists (pops ++ [op]). split_and!.
  - simpl. by rewrite Ep, fmap_app.
  - apply Forall_app. by split; [|apply Forall_singleton].
  - apply Forall_app. split; [done|]. apply Forall_singleton. by destruct op.
  - intros u c net. simpl. rewrite <-Hrow, app_assoc, row_app. by destruct op.
Qed.

(** The entry of another member is committed. *)
Lemma member_commit_other n m ops x op : member_ok n ops x → owned m op → m ≠ n → member_ok n (ops ++ [op]) x.
Proof.
  intros (Hb & (pops & Ep & Hp & Ho & Hrow) & Ha & Hreg & Hv) Hop Hne. split_and!; [done| | |done|].
  - exists pops. split_and!; [done..|]. intros u c net. rewrite <-Hrow, <-app_assoc. simpl.
    by rewrite (row_other n m ops op pops).
  - rewrite length_app. lia.
  - by rewrite take_app_le by lia.
Qed.

(** Its own first entry is committed. *)
Lemma member_commit n ops x data rest : member_ok n ops x → m_pending x = data :: rest →
  ∃ op, data = op_entry op ∧ op_ok op ∧ owned n op ∧
    member_ok n (ops ++ [op]) (mkMember (m_broker x) rest (m_applied x)).
Proof.
  intros (Hb & (pops & Ep & Hp & Ho & Hrow) & Ha & Hreg & Hv) Epend. rewrite Ep in Epend.
  destruct pops as [|op pops]; [done|]. rewrite fmap_cons in Epend. injection Epend as <- <-.
  apply Forall_cons in Hp as [Hop Hp]. apply Forall_cons in Ho as [Hon Ho].
  exists op. split_and!; [done..|]. split_and!; [done| | |done|].
  - exists pops. split_and!; [done..|]. intros u c net. rewrite <-app_assoc. simpl. apply Hrow.
  - rewrite length_app. simpl. lia.
  - simpl. by rewrite take_app_le by lia.
Qed.

(** It applies an entry. *)
Lemma member_apply n ops x op r : member_ok n ops x → ops !! m_applied x = Some op → op_ok op →
  registry_small (reg (m_broker x)) → applyRaftOp (op_entry op) (reg (m_broker x)) = Ok r →
  member_ok n ops (mkMember (with_reg r (m_broker x)) (m_pending x) (S (m_applied x))).
Proof.
  intros (Hb & Hpend & Ha & Hreg & Hv) Eop [Hop Hlen] Hsmall. unfold applyRaftOp.
  rewrite decodeRaftOp_entry by done. intros [= <-].
  destruct (apply_op_refines op _ Hreg Hsmall) as [Hreg' Hv'].
  split_and!; [exact Hb|exact Hpend| |done|].
  - apply lookup_lt_Some in Eop. simpl. lia.
  - simpl. rewrite Hv', (take_S_r _ _ op), fmap_app by done. unfold view_events in *. rewrite fold_left_app. simpl.
    by apply view_apply_proper.
Qed.

(** *** Logins *)
Lemma registered_free b cid : map_Forall (λ net _, registered b net cid = None) (listeners b) →
  ∀ net, registered b net cid = None.
Proof.
  intros H net. destruct (listeners b !! net) as [l|] eqn:E; [by apply (H net l)|].
  unfold registered, server_of. by rewrite E.
Qed.

Lemma op_ok_closed u c net n chs : op_ok (OpOpened (mkUserOpened u c net n chs)) →
  op_ok (OpClosed (mkUserClosed u c n)).
Proof.
  intros [(Hu & Hc & _ & Hn & _) Hl]. split; [done|].
  revert Hl. cbn [op_body opened_uid opened_cid opened_net opened_nodeID opened_channels closed_uid closed_cid closed_nodeID].
  rewrite !zlen_app. pose proof (zlen_nonneg (enc_string net)). pose proof (zlen_nonneg (enc_strmap chs)). lia.
Qed.

Lemma connected_registered b u c net : connected b u c net → is_Some (registered b net c).
Proof.
  intros (l & w & E & Hu). unfold registered. rewrite E. simpl. unfold conn_user in Hu. unfold GetConn, RMap_Get.
  destruct (rm (conns w) !! c); [by eexists|done].
Qed.

Lemma connected_put b net l w w' u c net' : server_of b net = Some (l, w) →
  connected (put_server net l w' b) u c net' ↔
    if decide (net' = net) then conn_user w' c = Some u else connected b u c net'.
Proof.
  intros E. unfold connected. rewrite (server_of_put b net l w) by done. case_decide as Hn; [|done].
  split; [by intros (? & ? & [= <- <-] & ?)|]. intros Hu. by exists (with_srv w' l), w'.
Qed.

Section logged_in.
Context (n : Z) (id : Identity) (net : string) (b : broker) (l : listener) (w w' : world) (accepted : Prop)
  `{!Decision accepted}.
Hypothesis Hb : broker_ok n b.
Hypothesis Hop : op_ok (closed_op n id).
Hypothesis Hfree : ∀ net', registered b net' (ClientID id) = None.
Hypothesis Hl : server_of b net = Some (l, w).
Hypothesis Hw' : world_ok w'.
Hypothesis Hs : s_closed w' = s_closed w.
Hypothesis Hc : closed_ids w' = closed_ids w.
Hypothesis Hu : ∀ cid, conn_user w' cid =
  if decide (accepted ∧ cid = ClientID id) then Some (UserID id) else conn_user w cid.

Lemma login_connected u c net' : connected (put_server net l w' b) u c net' ↔
  if decide (accepted ∧ c = ClientID id) then u = UserID id ∧ net' = net else connected b u c net'.
Proof using Hfree Hl Hu.
  clear user_channels. rewrite (connected_put b net l w) by done.
  assert (∀ u net', ¬ connected b u (ClientID id) net') as Hno.
  { intros u0 net0 [i Hi]%connected_registered. by rewrite Hfree in Hi. }
  destruct (decide (net' = net)) as [->|Hne].
  - rewrite Hu. destruct (decide (accepted ∧ c = ClientID id)) as [[_ ->]|_]; [naive_solver|].
    split; [by exists l, w|]. intros (l0 & w0 & E & ?). by simplify_eq.
  - destruct (decide (accepted ∧ c = ClientID id)) as [[_ ->]|_]; [naive_solver|done].
Qed.

Lemma login_broker_ok : broker_ok n (put_server net l w' b).
Proof using All.
  pose proof Hb as (Hi & Hok & Huniq & Hwf). split_and!.
  - apply broker_inv_put; [done|]. apply Hw'.
  - intros net' l' w0. rewrite (server_of_put b net l w) by done. case_decide as Hn; [|apply Hok].
    intros [= <- <-]. split; [done|]. rewrite Hs. by eapply Hok.
  - intros c net1 net2 u1 u2. rewrite !login_connected. case_decide; [naive_solver|]. apply Huniq.
  - intros u c net1. rewrite login_connected. case_decide as Ha; [|apply Hwf]. destruct Ha as [_ ->].
    by intros [-> ->].
Qed.

Lemma login_closings : closings b (put_server net l w' b) = [].
Proof using Hl Hc.
  apply elem_of_nil_inv. intros x (net' & l' & w0 & w1 & E & E' & Hx)%elem_of_closings. revert E'. simpl.
  destruct (decide (net' = net)) as [->|Hne].
  - rewrite lookup_insert_eq. simpl. intros [= <-]. simplify_eq. unfold newly in Hx.
    rewrite Hc, drop_all in Hx. by apply elem_of_nil in Hx.
  - rewrite lookup_insert_ne, (server_of_srv _ _ _ _ E) by done. intros [= <-]. unfold newly in Hx.
    rewrite drop_all in Hx. by apply elem_of_nil in Hx.
Qed.
End logged_in.

Lemma member_login n ops x link p id net code proposal bs bs' l w w' : 1 <= capacity → member_ok n ops x →
  connect_Identity p = Some id →
  op_ok (OpOpened (mkUserOpened (UserID id) (ClientID id) net n (fst (user_channels (UserID id))))) →
  onUserConnect n link user_connect user_channels submit p net bs = Some (Ok (code, proposal), bs') →
  (∀ net', registered (m_broker x) net' (ClientID id) = None) → server_of (m_broker x) net = Some (l, w) →
  server_step (login_handlers code) capacity (SAccept p) w = Some w' →
  member_ok n ops (move n (put_server net l w' (m_broker x)) (propose (option_list proposal) x)).
Proof.
  intros Hcap (Hb & (pops & Ep & Hp & Ho & Hrow) & Ha & Hreg) Hid Hop Hcon Hfree Hl Hstep.
  pose proof (proj1 (proj1 (proj2 Hb) _ _ _ Hl)) as Hw.
  assert (rm (conns w) !! ClientID id = None) as Hf.
  { specialize (Hfree net). unfold registered in Hfree. by rewrite Hl in Hfree. }
  destruct (accept_connects (login_handlers code) capacity p id w w' Hcap Hw Hid Hf Hstep) as (Hw' & Hs & Hc & Hu).
  cbn [connectHandler login_handlers] in Hu.
  assert (op_ok (closed_op n id)) as Hcl by (by eapply op_ok_closed).
  split_and!; [by eapply login_broker_ok| |done|apply Hreg..].
  unfold move. cbn [m_pending m_broker propose]. rewrite (login_closings net (m_broker x) l w w' Hl Hc).
  cbn [fmap list_fmap entries omap list_omap]. rewrite app_nil_r.
  apply (onUserConnect_steady n link p id net code) in Hcon as [_ [[Hcode ->]|(Hcode & data & -> & Hsub)]]; [| |done].
  - exists pops. split_and!; [by rewrite Ep, app_nil_r|done..|]. intros u c net'.
    rewrite (login_connected id net (m_broker x) l w w' (code = ConnectAccepted) Hfree Hl Hu), decide_False by naive_solver.
    apply Hrow.
  - set (op := OpOpened _) in *. exists (pops ++ [op]). rewrite submit_entry in Hsub by done. injection Hsub as <-.
    split_and!; [by rewrite Ep, fmap_app|apply Forall_app; by split; [|apply Forall_singleton]..|].
    intros u c net'. rewrite (login_connected id net (m_broker x) l w w' (code = ConnectAccepted) Hfree Hl Hu), app_assoc, row_app.
    cbn [fold_left row_step op opened_nodeID opened_uid opened_cid opened_net].
    destruct (decide (code = ConnectAccepted ∧ c = ClientID id)) as [[_ ->]|Hno].
    + destruct (decide (u = UserID id)) as [->|Hne]; [rewrite decide_True by done; naive_solver|].
      rewrite decide_False by naive_solver. rewrite Hrow. split; [|naive_solver].
      intros [i Hi]%connected_registered. by rewrite Hfree in Hi.
    + rewrite decide_False by naive_solver. apply Hrow.
Qed.

(** *** The whole system *)
Definition system_ok (s : system) : Prop :=
  ∃ ops, committed s = op_entry <$> ops ∧ Forall op_ok ops ∧ map_Forall (λ n x, member_ok n ops x) (members s).

Lemma system_ok_put s n x x' : members s !! n = Some x → (∀ ops, committed s = op_entry <$> ops →
  Forall op_ok ops → member_ok n ops x → member_ok n ops x') → system_ok s → system_ok (put_member n x' s).
Proof.
  intros Hn Hx (ops & E & Hops & Hm). exists ops. split_and!; [done..|]. apply map_Forall_insert_2; [|done].
  apply Hx; [done..|]. by apply Hm.
Qed.

Lemma system_ok_move_all s bs' : system_ok s → all_steady (brokers_of s) bs' → system_ok (move_all bs' s).
Proof.
  intros (ops & E & Hops & Hm) Hs. exists ops. split_and!; [done..|]. intros n x. simpl. rewrite map_lookup_imap.
  destruct (members s !! n) as [x0|] eqn:E0; [|done]. simpl. intros [= <-]. specialize (Hs n).
  unfold brokers_of in Hs. rewrite lookup_fmap, E0 in Hs. simpl in Hs. destruct (bs' !! n) as [b'|]; [|done].
  apply member_steady; [by apply Hm|done].
Qed.

Lemma system_ok_step s s' : 1 <= capacity → system_ok s → system_step true s s' → system_ok s'.
Proof.
  intros Hcap Hs Hstep. destruct Hstep as [n x net l w a w' s Hn Ha Hl Hw|
    n x link p id net code proposal bs' l w w' s Hid Hop Hcon Hn Hfree Hl Hw|n x net b' s Hn Hst|n x net b' s Hn Hst|
    n x uid chs data s Hn Hop Hsub|n x uid chs data s Hn Hop Hsub|n x k data s Hn Hp Hk|n x k s Ho Hn|
    n x data r s Hn Hd Hsm Hr]; [..|done|].
  - eapply system_ok_put; [done| |done]. intros ops _ _ Hx. apply member_steady; [done|]. by eapply steady_step.
  - pose proof (onUserConnect_steady _ _ _ _ _ _ _ _ _ Hid Hcon) as [Hst _].
    eapply system_ok_put; [done| |by eapply system_ok_move_all]. intros ops _ _ Hx.
    eapply member_login; [done..|by apply registered_free, Hfree|done|done].
  - eapply system_ok_put; [done| |done]. intros ops _ _ Hx. destruct (moves_start _ _ _ Hst) as (Hm & Er & Hi).
    apply member_move; [done..|]. apply Hi, Hx.
  - eapply system_ok_put; [done| |done]. intros ops _ _ Hx.
    destruct (moves_stop n net _ _ (proj1 Hx) Hst) as (Hm & Er & Hi). by apply member_move.
  - eapply system_ok_put; [done| |done]. intros ops _ _ Hx. unfold user_JoinChannel in Hsub.
    rewrite submit_entry in Hsub by done. injection Hsub as <-. by apply member_propose.
  - eapply system_ok_put; [done| |done]. intros ops _ _ Hx. unfold user_LeaveChannel in Hsub.
    rewrite submit_entry in Hsub by done. injection Hsub as <-. by apply member_propose.
  - rewrite (Hk eq_refl) in Hp |- *. destruct (m_pending x) as [|d rest] eqn:Epe; [done|]. injection Hp as ->. simpl.
    destruct Hs as (ops & E & Hops & Hm). destruct (member_commit n ops x data rest (Hm n x Hn) Epe) as (op & -> & Hop & Hon & Hx).
    exists (ops ++ [op]). split_and!.
    + simpl. by rewrite E, fmap_app.
    + apply Forall_app. by split; [|apply Forall_singleton].
    + intros n' y. simpl. destruct (decide (n' = n)) as [->|Hne]; [rewrite lookup_insert_eq; by intros [= <-]|].
      rewrite lookup_insert_ne by done. intros Hy. apply (member_commit_other n' n); [by apply Hm|done..].
  - eapply system_ok_put; [done| |done]. intros ops E Hops Hx. rewrite E, list_lookup_fmap in Hd.
    destruct (ops !! m_applied x) as [op|] eqn:Eop; [|done]. injection Hd as <-.
    apply (member_apply n ops x op r); try done. by eapply Forall_lookup_1.
Qed.

Lemma system_ok_fresh s : fresh_system s → system_ok s.
Proof.
  intros [E Hf]. exists []. split_and!; [done..|]. intros n x Hn. destruct (Hf n x Hn) as (Ep & Ea & Er & Hl).
  assert (∀ net l w, server_of (m_broker x) net = Some (l, w) → w = empty_world) as Hempty.
  { intros net l w (El & _ & Ew)%server_of_Some. destruct (Hl net l El); congruence. }
  assert (∀ u c net, ¬ connected (m_broker x) u c net) as Hno.
  { intros u c net (l & w & Hs & Hu). by rewrite (Hempty _ _ _ Hs) in Hu. }
  split_and!; [split_and!| |by rewrite Ea|rewrite Er; apply registry_wf_empty|by rewrite Er, Ea].
  - intros net l El. destruct (Hl net l El) as [-> | ->]; [done|apply server_inv_empty].
  - intros net l w ->%Hempty. split; [apply world_ok_empty|done].
  - by intros c net net' u u' ?%Hno.
  - by intros u c net ?%Hno.
  - exists []. split_and!; [done..|]. intros u c net. split; [done|]. by intros ?%Hno.
Qed.

Lemma system_ok_reached s0 s : 1 <= capacity → fresh_system s0 → steps (system_step true) s0 s → system_ok s.
Proof.
  intros Hcap Hf. apply steps_invariant; [|by apply system_ok_fresh]. intros. by eapply system_ok_step.
Qed.

Lemma system_ok_broker s : system_ok s → ∀ n bn, brokers_of s !! n = Some bn → broker_ok n bn.
Proof.
  intros (ops & _ & _ & Hx) n bn. unfold brokers_of. rewrite lookup_fmap.
  destruct (members s !! n) as [x|] eqn:Ex; [|done]. intros [= <-]. apply (Hx n x Ex).
Qed.

(** *** What a settled node knows *)
Lemma settled_targets s me b n bn u c net : system_ok s → settled s me → brokers_of s !! me = Some b →
  brokers_of s !! n = Some bn →
  t_fields (userClients (reg b)) n u !! c = Some net ↔ connected bn u c net.
Proof.
  intros (ops & E & _ & Hm) [Hpend Hall]. unfold brokers_of. rewrite !lookup_fmap.
  destruct (members s !! me) as [x|] eqn:Ex; [|done]. destruct (members s !! n) as [y|] eqn:Ey; [|done].
  simpl. intros [= <-] [= <-]. destruct (Hm me x Ex) as (_ & _ & Ha & _ & (Hv & _)).
  destruct (Hm n y Ey) as (_ & (pops & Ep & _ & _ & Hrow) & _). rewrite <-Hrow, t_fields_get.
  change (t_get (userClients (reg (m_broker x))) n u c) with (v_users (view_of (reg (m_broker x))) n u c).
  rewrite Hv, row_view. rewrite (Hall x eq_refl), E, length_fmap, firstn_all.
  specialize (Hpend n y Ey). simpl in Hpend. rewrite Hpend in Ep. destruct pops; [|done]. rewrite app_nil_r.
  unfold row. rewrite (fold_row_ext n ops _ (λ _ _, None)); [done|]. done.
Qed.
End system.

(** ** Sending and asking in a settled cluster *)
Section settled_system.
Context `{!GoRange uint8, !GoRange string, !GoRange Z}.

(** An open connection of the user. *)
Definition open_for (uid : string) (c : conn) : bool :=
  negb (c_closed c) && bool_decide (UserID <$> c_id c = Some uid).

(** In an orderly server the connection registered under a client id is the open one. *)
Lemma open_for_conn_user w uid i c : world_ok w → heap w !! i = Some c →
  open_for uid c = true ↔
    ∃ id, c_id c = Some id ∧ rm (conns w) !! ClientID id = Some i ∧ conn_user w (ClientID id) = Some uid.
Proof.
  intros [[_ Hr] Ho] Ei. unfold open_for. rewrite andb_true_iff, bool_decide_eq_true. split.
  - intros [Hc Hu]. apply negb_true_iff in Hc. destruct (Ho i c Ei Hc) as (id & Eid & Er).
    exists id. split_and!; [done..|]. unfold conn_user. rewrite Er. simpl. rewrite Ei. simpl.
    by rewrite Eid in *.
  - intros (id & Eid & Er & Hu). destruct (Hr _ _ Er) as (c' & id' & Ei' & _ & _ & Hc). simplify_eq.
    rewrite Hc. split; [done|]. unfold conn_user in Hu. rewrite Er in Hu. simpl in Hu. rewrite Ei in Hu.
    simpl in Hu. by rewrite Eid in *.
Qed.

(** One server after any number of deliveries. *)
Lemma server_of_times e m k t b net l w : server_of b net = Some (l, w) → s_closed w = false →
  ∃ l' w', server_of (deliver_times e m k t b) net = Some (l', w') ∧ conns w' = conns w ∧ s_closed w' = false ∧
    ∀ i, heap w' !! i = (λ c, if hit net t w i c then Nat.iter k (sent e m) c else c) <$> heap w !! i.
Proof.
  intros E Hs. induction k as [|k (l1 & w1 & E1 & Ec & Hs1 & Hh)].
  - exists l, w. split_and!; [done..|]. intros i. destruct (heap w !! i) as [c|]; [|done]. simpl. by destruct (hit _ _ _ _ _).
  - change (deliver_times e m (S k) t b) with (deliver e m t (deliver_times e m k t b)).
    rewrite server_of_deliver, E1. simpl. eexists _, _. split; [done|].
    unfold deliver_world. rewrite Hs1. simpl. split_and!; [done..|]. intros i. rewrite map_lookup_imap, Hh.
    destruct (heap w !! i) as [c|]; [|done]. simpl. f_equal.
    assert (∀ c', c_id c' = c_id c → hit net t w1 i c' = hit net t w i c) as Hhit.
    { intros c' Ec'. unfold hit. by rewrite Ec', Ec. }
    assert (c_id (Nat.iter k (sent e m) c) = c_id c) as Hid.
    { clear. induction k as [|k IH]; [done|]. simpl. by rewrite (proj1 (sent_keeps e m _)). }
    destruct (hit net t w i c) eqn:Eh; by rewrite Hhit.
Qed.

(** The targets are the user's connections: the open ones get the message, the others do not. *)
Lemma deliver_settled e m k uid b t net l w : server_of b net = Some (l, w) → world_ok w → s_closed w = false →
  (∀ c, t !! c = Some net ↔ connected b uid c net) →
  ∃ l' w', server_of (deliver_times e m k t b) net = Some (l', w') ∧ conns w' = conns w ∧
    ∀ i c, heap w !! i = Some c → heap w' !! i = Some (if open_for uid c then Nat.iter k (sent e m) c else c).
Proof.
  intros E Hw Hs Ht. destruct (server_of_times e m k t b net l w E Hs) as (l' & w' & E' & Hc & _ & Hh).
  exists l', w'. split_and!; [done..|]. intros i c Ei. rewrite Hh, Ei. simpl.
  assert (hit net t w i c = open_for uid c) as ->; [|done]. apply eq_true_iff_eq.
  rewrite (open_for_conn_user w uid i c) by done. unfold hit. split.
  - destruct (c_id c) as [id|]; [|done]. rewrite bool_decide_eq_true. intros [Er Htc]. exists id.
    split_and!; [done..|]. apply Ht in Htc as (l0 & w0 & E0 & Hu). congruence.
  - intros (id & -> & Er & Hu). rewrite bool_decide_eq_true. split; [done|]. apply Ht. by exists l, w.
Qed.
End settled_system.

(** *** A cluster of two, where alice logs in at broker 1 *)
Definition start_broker (n other : Z) : broker :=
  mkBroker n empty_registry {["tcp" := NewListener "tcp" 1883 true]} (peers_of other).

Definition started_cluster : system :=
  mkSystem {[1 := mkMember (start_broker 1 2) [] 0; 2 := mkMember (start_broker 2 1) [] 0]} [].

Definition cluster_step (orderly : bool) : system → system → Prop :=
  @system_step range_forward range_forward range_forward echo_handlers 8 (λ _, ConnectAccepted)
    (λ _, ({["news" := ""]}, None)) orderly.

(** The connections of [uid] that are open at a broker, over tcp. *)
Definition open_at (s : system) (n : Z) (uid : string) : list nat :=
  match brokers_of s !! n ≫= λ b, server_of b "tcp" with
  | Some (_, w) => omap (λ i, c ← heap w !! i; if open_for uid c then Some i else None) (seq 0 (size (heap w)))
  | None => []
  end.

(** The messages waiting on them. *)
Definition waiting_at (bs : brokers) (n : Z) (i : nat) : option nat :=
  b ← bs !! n; '(_, w) ← server_of b "tcp"; c ← heap w !! i; Some (length (tasks (c_queue c))).

(** [SendToUser] at broker 2 when every call is answered, and [IsOnline]. *)
Definition send_from_2 (s : system) : option (outcome error (Z * Z) * brokers) :=
  @SendToUser range_forward range_forward range_forward 2 (Some EDeadline) (λ _, Delivered) "alice" hello (brokers_of s).

Definition online_from_2 (s : system) : option bool :=
  @IsOnline range_forward range_forward 2 (λ _, Delivered) "alice" (brokers_of s).

Definition run_cluster (orderly : bool) (acts : list system_action) : option system :=
  @system_run range_forward range_forward range_forward echo_handlers 8 (λ _, ConnectAccepted)
    (λ _, ({["news" := ""]}, None)) orderly (λ _, Delivered) acts started_cluster.

Lemma run_cluster_steps orderly acts s : run_cluster orderly acts = Some s →
  steps (cluster_step orderly) started_cluster s.
Proof. unfold run_cluster, cluster_step. generalize started_cluster. intros s0. apply system_run_steps. Qed.

Definition alice_logs_in : system_action := DLogin 1 (login_of "alice" "phone") "tcp".

(** Nothing is left to commit and broker 2 knows the log, alice has an open connection, yet broker 2 does
    not reach her. *)
Definition misses_alice (s : system) : Prop :=
  settled s 2 ∧ online_from_2 s = Some false ∧
  match open_at s 1 "alice", send_from_2 s with
  | [i], Some (Ok counts, bs') => counts = (0, 0) ∧ waiting_at bs' 1 i = Some 0%nat
  | _, _ => False
  end.

#[local] Instance settled_dec s me : Decision (settled s me).
Proof.
  refine (cast_if (decide (map_Forall (λ _ x, m_pending x = []) (members s) ∧
    (λ x, m_applied x) <$> members s !! me ∈ [None; Some (length (committed s))]))).
  - abstract (unfold settled; destruct_and!; split; [done|]; intros x Hx; rewrite Hx in *; set_solver).
  - abstract (unfold settled; intros [? H]; apply n; split; [done|];
      destruct (members s !! me) as [x|]; [rewrite <-(H x) by done|]; set_solver).
Defined.

#[local] Instance misses_alice_dec s : Decision (misses_alice s).
Proof. unfold misses_alice. repeat case_match; apply _. Defined.

Lemma missed_after acts : match run_cluster false acts with Some s => bool_decide (misses_alice s) | None => false end = true →
  ∃ s, steps (cluster_step false) started_cluster s ∧ misses_alice s.
Proof.
  destruct (run_cluster false acts) as [s|] eqn:E; [|done]. intros H%bool_decide_eq_true. exists s. split; [|exact H].
  by eapply run_cluster_steps.
Qed.

(** Alice logs in a second time; both logins and the closing of the first are committed and applied. *)
Lemma second_login_missed : ∃ s, steps (cluster_step false) started_cluster s ∧ misses_alice s.
Proof.
  apply (missed_after [DStart 1 "tcp"; alice_logs_in; alice_logs_in; DCommit 1 0; DCommit 1 0; DCommit 1 0;
    DApply 2; DApply 2; DApply 2]). by vm_compute.
Qed.

(** Her only login is not committed. *)
Lemma lost_login_missed : ∃ s, steps (cluster_step false) started_cluster s ∧ misses_alice s.
Proof. apply (missed_after [DStart 1 "tcp"; alice_logs_in; DLose 1 0]). by vm_compute. Qed.

(** C1 (end to end delivery): start a cluster with an empty log and let it run through any orderly
    sequence of steps: logins over any listener with the kicks they cause at other brokers, each under
    a client id that no started listener of its broker has at that time, packets, messages, broadcasts,
    kicks, read errors, closings, listeners started and stopped, channels joined and left, entries
    committed and applied in any interleaving, no proposal lost or overtaken.  Once no entry waits to be
    committed and the node [me] has applied the log, [SendToUser] at [me] hands the message to exactly
    the open connections of that user at every broker the call reaches, as often as it is handled there,
    over whichever listener and under whichever client id they came, and changes no other connection.
    Without order this is false: in a run where the user logs in a second time under the same client id,
    she ends with an open connection that a broker which knows everything does not reach. *)
Theorem user_reached `{!GoRange uint8, !GoRange string, !GoRange Z} h capacity user_connect user_channels
    s0 s me b link e m uid :
  (1 <= capacity → fresh_system s0 → steps (system_step h capacity user_connect user_channels true) s0 s →
   settled s me → brokers_of s !! me = Some b → uid ≠ "" → enc_wf m → zlen (enc_of m) < 2 ^ 63 →
   ∃ counts bs', SendToUser me (Some e) link uid m (brokers_of s) = Some (Ok counts, bs') ∧
     ∀ n bn net l w, brokers_of s !! n = Some bn → server_of bn net = Some (l, w) →
       ∃ bn' l' w', bs' !! n = Some bn' ∧ server_of bn' net = Some (l', w') ∧ conns w' = conns w ∧
         ∀ i c, heap w !! i = Some c →
           heap w' !! i = Some (if open_for uid c
                                then Nat.iter (deliveries me b link (brokers_of s) n) (sent e m) c else c)) ∧
  ∃ s, steps (cluster_step false) started_cluster s ∧ misses_alice s.
Proof.
  split; [|exact second_login_missed].
  intros Hcap Hf Hsteps Hset Hme Hu Hm Hl. pose proof (system_ok_reached _ _ _ _ _ _ Hcap Hf Hsteps) as Hok.
  pose proof (system_ok_broker s Hok) as Hbs.
  unfold SendToUser. rewrite decide_False, Hme by done. cbn [mbind option_bind].
  rewrite send_all_deliver by (done || by intros n bn Hn; apply (Hbs n bn Hn)). cbn [mbind option_bind].
  eexists _, _. split; [done|]. intros n bn net l w Hn E. rewrite map_lookup_imap, Hn. simpl.
  destruct (proj1 (proj2 (Hbs n bn Hn)) _ _ _ E) as [Hw Hs].
  destruct (deliver_settled e m (deliveries me b link (brokers_of s) n) uid bn (targets (userClients (reg b)) uid n)
    net l w E Hw Hs) as (l' & w' & H); [intros c; by apply (settled_targets s me b n bn)|].
  by eexists _, l', w'.
Qed.

(** C30 (online, end to end): in such a settled cluster, after an orderly run, a node reports a user
    online exactly when the user has an open connection at a broker that answers.  In a run where the
    proposal of a login is lost, as when [SubmitOperation] drops the error of [Propose], a user with an
    open connection is reported offline. *)
Theorem user_online `{!GoRange uint8, !GoRange string, !GoRange Z} h capacity user_connect user_channels
    s0 s me b link uid :
  (1 <= capacity → fresh_system s0 → steps (system_step h capacity user_connect user_channels true) s0 s →
   settled s me → brokers_of s !! me = Some b →
   IsOnline me link uid (brokers_of s) = Some true ↔
     ∃ n bn net l w i c, brokers_of s !! n = Some bn ∧ answered me b link (brokers_of s) n = true ∧
       server_of bn net = Some (l, w) ∧ heap w !! i = Some c ∧ open_for uid c = true) ∧
  ∃ s, steps (cluster_step false) started_cluster s ∧ misses_alice s.
Proof.
  split; [|exact lost_login_missed].
  intros Hcap Hf Hsteps Hset Hme. pose proof (system_ok_reached _ _ _ _ _ _ Hcap Hf Hsteps) as Hok.
  pose proof (system_ok_broker s Hok) as Hbs. rewrite (online_iff_connected me b) by done. split.
  - intros (n & bn & cid & net & l & w & Hn & Ha & Ht & E & _). rewrite <-t_fields_get in Ht.
    apply (settled_targets s me b n bn) in Ht as (l' & w' & E' & Hu); [|done..].
    assert ((l', w') = (l, w)) as [= -> ->] by congruence.
    destruct (proj1 (proj2 (Hbs n bn Hn)) _ _ _ E) as [Hw _]. pose proof Hu as Hu'. unfold conn_user in Hu'.
    destruct (rm (conns w) !! cid) as [i|] eqn:Er; [|done]. simpl in Hu'.
    destruct (proj2 (proj1 Hw) _ _ Er) as (c & id & Ei & Eid & <- & _).
    exists n, bn, net, l, w, i, c. split_and!; [done..|]. apply (open_for_conn_user w uid i); [done..|]. by exists id.
  - intros (n & bn & net & l & w & i & c & Hn & Ha & E & Ei & Ho).
    destruct (proj1 (proj2 (Hbs n bn Hn)) _ _ _ E) as [Hw _].
    apply (open_for_conn_user w uid i c) in Ho as (id & Eid & Er & Hu); [|done..].
    exists n, bn, (ClientID id), net, l, w. split_and!; [done..| |done|].
    + rewrite <-t_fields_get. apply (settled_targets s me b n bn); [done..|]. by exists l, w.
    + unfold IsActive, RMap_Get. rewrite Er. simpl. rewrite Ei. unfold conn_IsClosed.
      destruct (proj2 (proj1 Hw) _ _ Er) as (c' & ? & Ei' & _ & _ & Hc). simplify_eq. by rewrite Hc.
Qed.

(** *** A run: alice logs in at broker 1, broker 2 learns it from the log *)
Lemma started_cluster_fresh : fresh_system started_cluster.
Proof.
  split; [done|]. apply map_Forall_insert_2; [|apply map_Forall_singleton];
    (split_and!; [done..|apply map_Forall_singleton; by left]).
Qed.

(** Alice logs in and broker 2 learns it from the log. *)
Lemma cluster_run : ∃ s, steps (cluster_step true) started_cluster s ∧ settled s 2 ∧
  is_Some (brokers_of s !! 2) ∧ online_from_2 s = Some true ∧
  option_map (λ r, queued r.2 1 "tcp" "phone") (send_from_2 s) = Some 1%nat.
Proof.
  set (acts := [DStart 1 "tcp"; alice_logs_in; DCommit 1 0; DApply 2]).
  assert (match run_cluster true acts with
          | Some s => bool_decide (settled s 2 ∧ is_Some (brokers_of s !! 2) ∧ online_from_2 s = Some true ∧
              option_map (λ r, queued r.2 1 "tcp" "phone") (send_from_2 s) = Some 1%nat)
          | None => false
          end = true) as H by (by vm_compute).
  destruct (run_cluster true acts) as [s|] eqn:E; [|done]. exists s. split; [|by apply bool_decide_eq_true in H].
  by eapply run_cluster_steps.
Qed.

Lemma user_reached_witness : ∃ s counts bs', steps (cluster_step true) started_cluster s ∧ settled s 2 ∧
  send_from_2 s = Some (Ok counts, bs') ∧ queued bs' 1 "tcp" "phone" = 1%nat.
Proof.
  destruct cluster_run as (s & Hr & Hset & [b Hb] & _ & Hq).
  destruct (proj1 (@user_reached range_forward range_forward range_forward echo_handlers 8 (λ _, ConnectAccepted)
    (λ _, ({["news" := ""]}, None)) started_cluster s 2 b
    (λ _, Delivered) EDeadline hello "alice") ltac:(done) started_cluster_fresh Hr Hset Hb ltac:(done) ltac:(vm_decide)
    ltac:(vm_compute; reflexivity)) as (counts & bs' & E & _).
  exists s, counts, bs'. unfold send_from_2 in *. rewrite E in Hq |- *. injection Hq as Hq. done.
Defined.

Lemma user_online_witness : ∃ s b, steps (cluster_step true) started_cluster s ∧ settled s 2 ∧ brokers_of s !! 2 = Some b ∧
  ∃ n bn net l w i c, brokers_of s !! n = Some bn ∧ answered 2 b (λ _, Delivered) (brokers_of s) n = true ∧
    server_of bn net = Some (l, w) ∧ heap w !! i = Some c ∧ open_for "alice" c = true.
Proof.
  destruct cluster_run as (s & Hr & Hset & [b Hb] & Ho & _). exists s, b. split_and!; [done..|].
  apply (proj1 (@user_online range_forward range_forward range_forward echo_handlers 8 (λ _, ConnectAccepted)
    (λ _, ({["news" := ""]}, None)) started_cluster s 2 b
    (λ _, Delivered) "alice") ltac:(done) started_cluster_fresh Hr Hset Hb). exact Ho.
Defined.
