(* ===== verification/Options.v ===== *)
(** * Options and construction (src/server: options.go, server.go; src/cluster: options.go,
    listener.go, broker.go)

    How servers, listeners and brokers are put together from options.  An option is a function
    on the record of settings; the last one wins.  The broker's callbacks are parameters here,
    they are modelled in [Broker]; loggers and statistics handlers are left out. *)
From S2P Require Import Prelude Errors Coder Packet Queue Safe RaftOps Registry Server Broker.
From stdpp Require Import pretty.
Local Open Scope Z_scope.

(** ** Splitting and parsing names *)

(** [strings.Split] for a non-empty separator: [skip] characters of it are still to be passed. *)
Fixpoint split_at (sep : string) (skip : nat) (s : string) : list string :=
  match s with
  | EmptyString => [""]
  | String a s' =>
      match skip with
      | S n => split_at sep n s'
      | O => if String.prefix sep s then "" :: split_at sep (String.length sep - 1) s'
             else match split_at sep 0 s' with
                  | x :: l => String a x :: l
                  | [] => []
                  end
      end
  end%string.

Definition Split (s sep : string) : list string := split_at sep 0 s.

(** [strconv.ParseUint(s, 10, 64)]; the error is not looked at. *)
Definition ParseUint64 (s : string) : option Z :=
  match bytes_of_string s with
  | [] => None
  | ds => match parse_digits 0 ds with
          | Some n => if bool_decide (inU 64 n) then Some n else None
          | None => None
          end
  end.

(** [GetNodeId]; [hostname] is what [os.Hostname] returns, [random] what [rand.Uint64] does. *)
Definition GetNodeId (hostname : option string) (random : Z) : Z :=
  match hostname with
  | Some h =>
      let strs := Split h "-" in
      if bool_decide (1 < length strs)%nat then
        match ParseUint64 (List.last strs "") with
        | Some id => u64 (id + 10000)
        | None => random
        end
      else random
  | None => random
  end.

(** ** TLS and transports *)
Record tls := mkTLSConfig {
  Certificates : nat; GetCertificate : bool; GetConfigForClient : bool }.

Record quic := mkQUICConfig { TLSConfig : option tls }.

Definition assertTLS (config : option tls) : outcome error tls :=
  match config with
  | None => Panic (Explicit "tls config is nil")
  | Some c =>
      if (0 <? Z.of_nat (Certificates c)) || GetCertificate c || GetConfigForClient c then Ok c
      else Panic (Explicit "tls config has no certificate")
  end.

Inductive transport := TWS | TWSS (t : tls) | TTCP | TTLS (t : tls) | TUDP | TQUIC (q : quic).

Definition NewWSS (config : option tls) : outcome error transport :=
  t <~ assertTLS config; Ok (TWSS t).
Definition NewTLS (config : option tls) : outcome error transport :=
  t <~ assertTLS config; Ok (TTLS t).
Definition NewQUIC (config : option quic) : outcome error transport :=
  match config with
  | None => Panic (Explicit "quic config is nil")
  | Some q => _ <~ assertTLS (TLSConfig q); Ok (TQUIC q)
  end.

(** ** Servers and listeners *)
Module Srv.
Section options.
(** Close handlers are carried, never looked into; [noClose] is the default one. *)
Context {Cl : Type} (noClose : Cl).

Record options := mkOptions {
  network : string;
  tlsConfig : option tls;
  quicConfig : option quic;
  connTimeout : Z;
  queueCapacity : Z;
  closeHandler : Cl;
  callbacks : handlers
}.

Definition Option : Type := options → options.

Definition default_callbacks : handlers :=
  mkHandlers (λ _, ConnectAccepted) (λ _ _, Some (EOther "MessageHandler not implemented"))
    (λ _ _, Err (EStatus StatusNotFound)).

Definition defaults : options := mkOptions "tcp" None None 10 1024 noClose default_callbacks.

Definition newOptions (opts : list Option) : options := fold_left (λ o f, f o) opts defaults.

Definition WithNetwork (x : string) : Option := λ o,
  mkOptions x (tlsConfig o) (quicConfig o) (connTimeout o) (queueCapacity o) (closeHandler o)
    (callbacks o).
Definition WithTLSConfig (x : option tls) : Option := λ o,
  mkOptions (network o) x (quicConfig o) (connTimeout o) (queueCapacity o) (closeHandler o)
    (callbacks o).
Definition WithQUICConfig (x : option quic) : Option := λ o,
  mkOptions (network o) (tlsConfig o) x (connTimeout o) (queueCapacity o) (closeHandler o)
    (callbacks o).
Definition WithConnTimeout (x : Z) : Option := λ o,
  mkOptions (network o) (tlsConfig o) (quicConfig o) x (queueCapacity o) (closeHandler o)
    (callbacks o).
Definition WithSendQueue (x : Z) : Option := λ o,
  mkOptions (network o) (tlsConfig o) (quicConfig o) (connTimeout o) x (closeHandler o)
    (callbacks o).
Definition WithClose (x : Cl) : Option := λ o,
  mkOptions (network o) (tlsConfig o) (quicConfig o) (connTimeout o) (queueCapacity o) x
    (callbacks o).
Definition with_callbacks (x : handlers) : Option := λ o,
  mkOptions (network o) (tlsConfig o) (quicConfig o) (connTimeout o) (queueCapacity o)
    (closeHandler o) x.
Definition WithConnect (x : Connect → uint8) : Option := λ o,
  with_callbacks (mkHandlers x (messageHandler (callbacks o)) (requestHandler (callbacks o))) o.
Definition WithMessage (x : Message → option Identity → option error) : Option := λ o,
  with_callbacks (mkHandlers (connectHandler (callbacks o)) x (requestHandler (callbacks o))) o.
Definition WithRequest (x : Request → option Identity → outcome error bytes) : Option := λ o,
  with_callbacks (mkHandlers (connectHandler (callbacks o)) (messageHandler (callbacks o)) x) o.

(** [server.New]. *)
Record server := mkServer { address : string; settings : options; wire : transport }.

Definition new_transport (o : options) : outcome error transport :=
  if decide (network o = "ws") then Ok TWS
  else if decide (network o = "wss") then NewWSS (tlsConfig o)
  else if decide (network o = "tcp") then Ok TTCP
  else if decide (network o = "tls") then NewTLS (tlsConfig o)
  else if decide (network o = "udp") then Ok TUDP
  else if decide (network o = "quic") then NewQUIC (quicConfig o)
  else Panic (Explicit (xerr_string NetworkNotSupported)).

Definition New (address : string) (opts : list Option) : outcome error server :=
  let o := newOptions opts in
  t <~ new_transport o; Ok (mkServer address o t).

(** A listener: the part [Broker] models, its options and the settings of its server. *)
Record Listener := mkListener {
  core : listener; options_of : list Option; server_of : option server }.

Definition NewListener (net : string) (port : Z) (autoStart : bool) (opts : list Option) : Listener :=
  mkListener (NewListener net port autoStart) (opts ++ [WithNetwork net]) None.

Definition AddOptions (opts : list Option) (l : Listener) : Listener :=
  mkListener (core l) (options_of l ++ opts) (server_of l).

Definition Start (l : Listener) : outcome error Listener :=
  if started (core l) then Ok l
  else
    s <~ New (":" +:+ pretty (l_port (core l))) (options_of l);
    Ok (mkListener (Listener_Start (core l)) (options_of l) (Some s)).
End options.
End Srv.

Arguments Srv.options Cl : clear implicits.
Arguments Srv.Option Cl : clear implicits.
Arguments Srv.Listener Cl : clear implicits.
Arguments Srv.server Cl : clear implicits.

(** ** Brokers *)
Module Clu.
Section options.
Context {Cl H D : Type}.

Record options := mkOptions {
  nodeId : Z;
  handler : H;
  peerPort : Z;
  discovery : option D;
  listeners : list (Srv.Listener Cl);
  clusterSize : Z
}.

Definition Option : Type := options → options.

Definition defaults (emptyHandler : H) : options := mkOptions 0 emptyHandler 4567 None [] 3.

Definition newOptions (emptyHandler : H) (opts : list Option) : options :=
  fold_left (λ o f, f o) opts (defaults emptyHandler).

Definition WithNodeId (x : Z) : Option := λ o,
  mkOptions x (handler o) (peerPort o) (discovery o) (listeners o) (clusterSize o).
Definition WithHandler (x : H) : Option := λ o,
  mkOptions (nodeId o) x (peerPort o) (discovery o) (listeners o) (clusterSize o).
Definition WithPeerPort (x : Z) : Option := λ o,
  mkOptions (nodeId o) (handler o) x (discovery o) (listeners o) (clusterSize o).
Definition WithDiscovery (x : option D) : Option := λ o,
  mkOptions (nodeId o) (handler o) (peerPort o) x (listeners o) (clusterSize o).
Definition WithListeners (x : list (Srv.Listener Cl)) : Option := λ o,
  mkOptions (nodeId o) (handler o) (peerPort o) (discovery o) x (clusterSize o).
Definition WithClusterSize (x : Z) : Option := λ o,
  mkOptions (nodeId o) (handler o) (peerPort o) (discovery o) (listeners o) x.

(** The callbacks of the broker that [NewBroker] installs: [onUserClosed], [onUserMessage],
    [onUserRequest] and [onUserConnect], which is given the listener's network. *)
Record broker_methods := mkMethods {
  on_closed : Cl;
  on_message : Message → option Identity → option error;
  on_request : Request → option Identity → outcome error bytes;
  on_connect : string → Connect → uint8
}.

(** What [NewBroker] makes: the broker (see [Broker]; its listeners with their options apart),
    the size of its cluster, the address of its peer server. *)
Record node := mkNode {
  n_broker : broker;
  n_handler : H;
  n_listeners : gmap string (Srv.Listener Cl);
  n_size : Z;
  n_discovery : D;
  n_address : string
}.

Definition broker_options (m : broker_methods) (l : Srv.Listener Cl) : list (Srv.Option Cl) :=
  [Srv.WithClose (on_closed m); Srv.WithMessage (on_message m); Srv.WithRequest (on_request m);
   Srv.WithConnect (on_connect m (l_network (Srv.core l)))].

Definition add_listener (m : broker_methods) (acc : gmap string (Srv.Listener Cl))
    (l : Srv.Listener Cl) : gmap string (Srv.Listener Cl) :=
  <[l_network (Srv.core l) := Srv.AddOptions (broker_options m l) l]> acc.

(** [NewBroker]; [newCluster] calls a method of the discovery. *)
Definition NewBroker (emptyHandler : H) (m : broker_methods) (generated : Z) (opts : list Option)
  : outcome error node :=
  let o := newOptions emptyHandler opts in
  let id := if 0 <? nodeId o then nodeId o else generated in
  let ls := fold_left (add_listener m) (listeners o) ∅ in
  match discovery o with
  | None => Panic NilDereference
  | Some d =>
      Ok (mkNode (mkBroker id empty_registry (Srv.core <$> ls) RMap_empty) (handler o) ls
            (clusterSize o) d (":" +:+ pretty (peerPort o)))
  end.

(** [onClusterReady]: the listeners that start by themselves, with the panics of [server.New]. *)
Definition start_listener (noClose : Cl) (acc : outcome error (gmap string (Srv.Listener Cl)))
    (x : string * Srv.Listener Cl) : outcome error (gmap string (Srv.Listener Cl)) :=
  ls <~ acc;
  if autoStart (Srv.core x.2) then l <~ Srv.Start noClose x.2; Ok (<[x.1 := l]> ls) else Ok ls.

Definition onClusterReady `{!GoRange string} (noClose : Cl) (n : node) : outcome error node :=
  ls <~ fold_left (start_listener noClose) (go_range (n_listeners n)) (Ok (n_listeners n));
  Ok (mkNode (onClusterReady (n_broker n)) (n_handler n) ls (n_size n) (n_discovery n)
        (n_address n)).
End options.
End Clu.

(** ** Names and numbers *)

Lemma digit_value_pretty x : (x < 10)%N →
  digit_value (Ascii.byte_of_ascii (pretty_N_char x)) = Some (Z.of_N x).
Proof.
  intros Hx.
  assert (∀ k, (k < 10)%nat → digit_value (Ascii.byte_of_ascii (pretty_N_char (N.of_nat k))) =
    Some (Z.of_nat k)) as Hd by (intros k Hk; do 10 (destruct k; [done|]); lia).
  rewrite <-(N2Nat.id x), Hd by lia. f_equal. lia.
Qed.

Definition is_digit (b : byte) : Prop := is_Some (digit_value b).

(** Printing a number puts its digits in front; parsing them gives the number back. *)
Lemma parse_pretty_go x s :
  parse_digits 0 (bytes_of_string (pretty_N_go x s)) = parse_digits (Z.of_N x) (bytes_of_string s) ∧
  (Forall is_digit (bytes_of_string s) → Forall is_digit (bytes_of_string (pretty_N_go x s))).
Proof.
  revert s. induction (N.lt_wf_0 x) as [x _ IH]; intros s.
  destruct (decide (x = 0)%N) as [->|Hx]; [by rewrite pretty_N_go_0|].
  rewrite pretty_N_go_step by lia.
  assert (x `mod` 10 < 10)%N as Hm by (apply N.mod_lt; lia).
  destruct (IH (x `div` 10)%N ltac:(apply N.div_lt; lia)
    (String (pretty_N_char (x `mod` 10)) s)) as [-> Hf].
  pose proof (digit_value_pretty _ Hm) as Hd. split.
  - change (bytes_of_string (String ?c s)) with (Ascii.byte_of_ascii c :: bytes_of_string s).
    cbn [parse_digits]. rewrite Hd. f_equal.
    pose proof (N.div_mod x 10 ltac:(done)). lia.
  - intros Hs. apply Hf. apply Forall_cons. split; [|done]. by eexists.
Qed.

Lemma parse_pretty n : 0 <= n →
  parse_digits 0 (bytes_of_string (pretty n)) = Some n ∧
  Forall is_digit (bytes_of_string (pretty n)) ∧ bytes_of_string (pretty n) ≠ [].
Proof.
  intros Hn. destruct (decide (n = 0)) as [->|Hz].
  { split_and!; [done| |done]. apply Forall_cons. split; [by eexists|constructor]. }
  assert (pretty n = pretty_N_go (Z.to_N n) "") as ->.
  { destruct n as [|p|p]; [done|done|lia]. }
  destruct (parse_pretty_go (Z.to_N n) "") as [Hp Hf]. rewrite Hp.
  assert (parse_digits (Z.of_N (Z.to_N n)) (bytes_of_string "") = Some n) as E
    by (simpl; f_equal; lia).
  split_and!; [done|apply Hf; constructor|]. intros En. rewrite En, E in Hp. naive_solver.
Qed.

(** [strconv.ParseUint] recovers a number printed with [%d]. *)
Lemma ParseUint64_pretty n : inU 64 n → ParseUint64 (pretty n) = Some n.
Proof.
  intros Hn. destruct (parse_pretty n) as (Hp & _ & Hne); [apply Hn|]. unfold ParseUint64.
  destruct (bytes_of_string (pretty n)) eqn:E; [done|]. rewrite Hp.
  by rewrite bool_decide_eq_true_2.
Qed.

(** A host name that ends in a dash and an ordinal gives the node id 10000 + ordinal. *)
Lemma split_at_ne sep k s : split_at sep k s ≠ [].
Proof.
  revert k. induction s as [|a s IH]; intros k; [done|]. cbn [split_at].
  destruct k; [|apply IH]. destruct (String.prefix sep (String a s)); [done|].
  specialize (IH 0%nat). by destruct (split_at sep 0 s).
Qed.

Lemma Split_dash_last (h s : string) : Forall is_digit (bytes_of_string s) →
  List.last (Split (h +:+ "-" +:+ s) "-") "" = s ∧
  (1 < length (Split (h +:+ "-" +:+ s) "-"))%nat.
Proof.
  intros Hs. assert (∀ s, Forall is_digit (bytes_of_string s) → Split s "-" = [s]) as Hd.
  { clear. induction s as [|a s IH]; [done|].
    change (bytes_of_string (String a s)) with (Ascii.byte_of_ascii a :: bytes_of_string s).
    intros [Ha Hs]%Forall_cons. unfold Split in *. cbn [split_at].
    assert (String.prefix "-" (String a s) = false) as ->.
    { simpl. case_match; [|done]. subst a. by destruct Ha. }
    by rewrite IH. }
  induction h as [|a h IH].
  - unfold Split in *. change ("" +:+ "-" +:+ s) with (String (Ascii.ascii_of_byte x2d) s).
    cbn [split_at].
    assert (String.prefix "-" (String (Ascii.ascii_of_byte x2d) s) = true) as ->
      by by destruct s.
    change (String.length "-" - 1)%nat with 0%nat. rewrite Hd by done. split; [done|simpl; lia].
  - rewrite string_app_cons. unfold Split in *. cbn [split_at].
    destruct (String.prefix _ _).
    + change (String.length "-" - 1)%nat with 0%nat. destruct IH as [El Hl].
      destruct (split_at "-" 0 (h +:+ "-" +:+ s)) as [|x l] eqn:E; [simpl in Hl; lia|].
      split; [done|simpl in *; lia].
    + destruct IH as [El Hl].
      destruct (split_at "-" 0 (h +:+ "-" +:+ s)) as [|x l] eqn:E; [simpl in Hl; lia|].
      destruct l; [simpl in Hl; lia|]. split; [done|simpl in *; lia].
Qed.

Lemma GetNodeId_ordinal (h : string) n random : 0 <= n < 2 ^ 64 - 10000 →
  GetNodeId (Some (h +:+ "-" +:+ pretty n)) random = n + 10000.
Proof.
  intros Hn. destruct (parse_pretty n) as (_ & Hd & _); [lia|].
  destruct (Split_dash_last h (pretty n) Hd) as [El Hl]. unfold GetNodeId.
  rewrite bool_decide_eq_true_2 by done. rewrite El, ParseUint64_pretty by (unfold inU; lia).
  apply wrapU_id. unfold inU. lia.
Qed.
