(* ===== verification/Transport.v ===== *)
(** * Transports (src/internal/network: transport_tcp.go, transport_ws.go, transport_quic.go,
    transport_udp.go, conn.go)

    What the goroutines of a listener do with what arrives, as transition systems over the
    server's world.  The stream transports share their code: the first packet must be CONNECT and
    come in time ([waitConnPacket], [doConnecton]), then packets are read in a loop
    ([handleConn]) and each is handled by a goroutine of its own.  The UDP transport finds the
    connection of a datagram by the client id it carries.  Sockets are the segments they will
    deliver ([Stream]); accepting, TLS and statistics are left out.  Other calls of the server
    may happen at any time ([server_action]). *)
From S2P Require Import Prelude Errors Coder Packet Stream Queue Safe Server Sessions Options.
Local Open Scope Z_scope.

(** ** Addresses *)

(** [strs[0]]: [strings.Split] returns at least one string. *)
Definition getAddrIp (addr : string) : string :=
  match Split addr ":" with s :: _ => s | [] => "" end.

(** [getRealIP]: [header] is the X-Real-IP header of the request. *)
Definition getRealIP (header remoteAddr : string) : string :=
  if decide (header = "") then getAddrIp remoteAddr else header.

(** [pinger.SendPing]: only the error of an expired context closes the connection. *)
Definition pinger_SendPing (err : option error) (i : nat) `{!GoRange uint8} (w : world) : option world :=
  match err with
  | Some e => if is_timeout e then CloseCode ClosePingTimeOut i w else Some w
  | None => Some w
  end.

(** ** Stream transports

    A session is one call of [handleConn]: in [waitConnPacket], in the loop for the connection
    [i], or over; [Crashed] is a panic that nothing recovers.  [sn_stream] is all the socket
    delivers in its life, [sn_in] what was not read yet. *)
Inductive session_phase := Waiting | Serving (i : nat) | Over | Crashed (w : go_panic).

Record session := mkSession {
  sn_stream : reader;
  sn_in : reader;
  sn_closes : list uint8;            (* CLOSE packets [waitConnPacket] and its timer write *)
  sn_shut : bool;                    (* the socket was closed by [waitConnPacket] or its timer *)
  sn_phase : session_phase;
  sn_pending : list Packet;          (* goroutines that have not called [RecvPacket] yet *)
  sn_handled : list Packet
}.

Definition new_session (r : reader) : session := mkSession r r [] false Waiting [] [].

Section transports.
Context `{!GoRange uint8, !GoRange string} (h : handlers) (capacity : Z).

(** The timer of [waitConnPacket], which runs until the packet was read. *)
Definition timer_step (s : session) : option session :=
  match sn_phase s with
  | Waiting => Some (mkSession (sn_stream s) (sn_in s) (sn_closes s ++ [CloseAuthTimeout]) true Waiting
                       (sn_pending s) (sn_handled s))
  | _ => None
  end.

(** [packet.ReadFrom] on the socket, which was closed or not. *)
Definition session_read (shut : bool) (s : session) : outcome error Packet * reader :=
  if shut then (Err (EOther "use of closed network connection"), sn_in s) else packet_ReadFrom (sn_in s).

(** Closing a connection closes its socket. *)
Definition conn_shut (i : nat) (w : world) : bool :=
  match heap w !! i with Some c => c_closed c | None => true end.

(** The end of [waitConnPacket] with an error: the CLOSE packet is written, the socket closed. *)
Definition refuse (code : uint8) (r : reader) (s : session) : session :=
  mkSession (sn_stream s) r (sn_closes s ++ [code]) true Over (sn_pending s) (sn_handled s).

Definition with_phase (p : session_phase) (r : reader) (s : session) : session :=
  mkSession (sn_stream s) r (sn_closes s) (sn_shut s) p (sn_pending s) (sn_handled s).

(** [doConnecton]: [accept] is its part after the packet was read. *)
Definition connect_step (s : session) (w : world) : option (session * world) :=
  match sn_phase s with
  | Waiting =>
      let '(p, r) := session_read (sn_shut s) s in
      match p with
      | Panic x => Some (with_phase (Crashed x) r s, w)
      | Err e => Some (refuse (AsCloseCode e) r s, w)
      | Ok (PConnect p) =>
          match accept h capacity p w with
          | Ok res =>
              '(code, w') ← res;
              Some (with_phase (if decide (code = ConnectAccepted)
                                then Serving (fresh (dom (heap w))) else Over) r s, w')
          | Err _ => None
          | Panic x => Some (with_phase (Crashed x) r s, w)
          end
      | Ok _ => Some (refuse CloseInvalidPacket r s, w)
      end
  | _ => None
  end.

(** One turn of the loop of [handleConn]; [go c.RecvPacket(p)]. *)
Definition read_step (s : session) (w : world) : option (session * world) :=
  match sn_phase s with
  | Serving i =>
      let '(p, r) := session_read (conn_shut i w) s in
      match p with
      | Panic x => Some (with_phase (Crashed x) r s, w)
      | Err e => w' ← CloseCode (AsCloseCode e) i w; Some (with_phase Over r s, w')
      | Ok p => Some (mkSession (sn_stream s) r (sn_closes s) (sn_shut s) (Serving i)
                        (sn_pending s ++ [p]) (sn_handled s), w)
      end
  | _ => None
  end.

(** The [k]-th waiting goroutine runs; [i] is the session's connection. *)
Definition goroutine_step (i k : nat) (s : session) (w : world) : option (session * world) :=
  p ← sn_pending s !! k;
  w' ← RecvPacket h i p w;
  Some (mkSession (sn_stream s) (sn_in s) (sn_closes s) (sn_shut s) (sn_phase s) (delete k (sn_pending s))
          (sn_handled s ++ [p]), w').

(** The sessions of a listener with the connections they got, and the server. *)
Record net := mkNet { sessions : list (session * option nat); server : world }.

Definition conn_of (s : session) (i : option nat) : option nat :=
  match sn_phase s with Serving i => Some i | _ => i end.

Definition put_session (j : nat) (s : session) (i : option nat) (w : world) (n : net) : net :=
  mkNet (<[j := (s, conn_of s i)]> (sessions n)) w.

(** The calls of the server that do not come from its transport. *)
Definition server_call (a : server_action) : bool :=
  match a with SAccept _ | SRecv _ _ | SReadError _ _ => false | _ => true end.

Inductive stream_step : net → net → Prop :=
| st_accept n r : stream_step n (mkNet (sessions n ++ [(new_session r, None)]) (server n))
| st_timer n j s i s' : sessions n !! j = Some (s, i) → timer_step s = Some s' →
    stream_step n (put_session j s' i (server n) n)
| st_connect n j s i s' w' : sessions n !! j = Some (s, i) →
    connect_step s (server n) = Some (s', w') → stream_step n (put_session j s' i w' n)
| st_read n j s i s' w' : sessions n !! j = Some (s, i) →
    read_step s (server n) = Some (s', w') → stream_step n (put_session j s' i w' n)
| st_recv n j s i k s' w' : sessions n !! j = Some (s, Some i) →
    goroutine_step i k s (server n) = Some (s', w') → stream_step n (put_session j s' (Some i) w' n)
| st_server n a w' : server_call a = true → server_step h capacity a (server n) = Some w' →
    stream_step n (mkNet (sessions n) w').

(** ** The UDP transport *)

(** The connections made from a datagram, with the address they answer to; goroutines of
    [handleConn] for a datagram, and of [RecvPacket]. *)
Record udp := mkUdp {
  udp_addr : gmap nat string;
  udp_got : list (string * Packet);
  udp_recv : list (nat * Packet);
  udp_server : world
}.

(** One turn of the loop of [Listen]. *)
Definition udp_listen (addr : string) (data : bytes) (u : udp) : outcome error udp :=
  match Unmarshal (take (Z.to_nat MAX_UDP) data) with
  | Panic x => Panic x
  | Err _ => Ok u
  | Ok p => Ok (mkUdp (udp_addr u) (udp_got u ++ [(addr, p)]) (udp_recv u) (udp_server u))
  end.

(** [handleConn] for the [k]-th datagram. *)
Definition udp_handle (k : nat) (u : udp) : option (outcome error udp) :=
  '(addr, p) ← udp_got u !! k;
  let got := delete k (udp_got u) in
  match p with
  | PConnect p =>
      match accept h capacity p (udp_server u) with
      | Panic x => Some (Panic x)
      | Err e => Some (Err e)
      | Ok res =>
          '(_, w') ← res;
          Some (Ok (mkUdp (<[fresh (dom (heap (udp_server u))) := addr]> (udp_addr u)) got
                      (udp_recv u) w'))
      end
  | p =>
      Some (Ok (match Packet_Get p PropertyClientID ≫= (λ cid, GetConn cid (udp_server u)) with
                | Some i => mkUdp (udp_addr u) got (udp_recv u ++ [(i, p)]) (udp_server u)
                | None => mkUdp (udp_addr u) got (udp_recv u) (udp_server u)
                end))
  end.

Definition udp_receive (k : nat) (u : udp) : option udp :=
  '(i, p) ← udp_recv u !! k;
  w' ← RecvPacket h i p (udp_server u);
  Some (mkUdp (udp_addr u) (udp_got u) (delete k (udp_recv u)) w').

Inductive udp_step : udp → udp → Prop :=
| ut_listen u addr data u' : udp_listen addr data u = Ok u' → udp_step u u'
| ut_handle u k u' : udp_handle k u = Some (Ok u') → udp_step u u'
| ut_recv u k u' : udp_receive k u = Some u' → udp_step u u'
| ut_server u a w' : server_call a = true → server_step h capacity a (udp_server u) = Some w' →
    udp_step u (mkUdp (udp_addr u) (udp_got u) (udp_recv u) w').
End transports.

(** ** Facts *)
Section facts.
Context `{!GoRange uint8, !GoRange string} (h : handlers) (capacity : Z).

Abbreviation server_step := (server_step h capacity).

(** [w'] is reached from [w] by actions of the server, whose logins satisfy [P]. *)
Definition serves (P : Connect → Prop) (w w' : world) : Prop :=
  ∃ acts, server_run h capacity acts w = Some w' ∧ ∀ p, SAccept p ∈ acts → P p.

Lemma serves_refl P w : serves P w w.
Proof. exists []. split; [done|]. intros p Hin. by apply elem_of_nil in Hin. Qed.

Lemma serves_snoc P w w1 a w2 : serves P w w1 → server_step a w1 = Some w2 →
  (∀ p, a = SAccept p → P p) → serves P w w2.
Proof.
  intros (acts & E & HP) Ha Hp. exists (acts ++ [a]). split.
  - unfold server_run in *. by rewrite fold_left_app, E.
  - intros p [Hin|Hin%list_elem_of_singleton]%elem_of_app; [by apply HP|by apply Hp].
Qed.

Lemma serves_weaken (P Q : Connect → Prop) w w' : (∀ p, P p → Q p) → serves P w w' → serves Q w w'.
Proof. intros HPQ (acts & E & HP). exists acts. eauto. Qed.

Lemma recv_serves i k s w s' w' : goroutine_step h i k s w = Some (s', w') →
  ∃ p, server_step (SRecv i p) w = Some w' ∧ sn_pending s !! k = Some p ∧
    sn_stream s' = sn_stream s ∧ sn_in s' = sn_in s ∧ sn_phase s' = sn_phase s ∧
    sn_pending s' = delete k (sn_pending s) ∧ sn_handled s' = sn_handled s ++ [p].
Proof.
  unfold goroutine_step. destruct (sn_pending s !! k) as [p|] eqn:Ep; [|done]. simpl.
  destruct (RecvPacket h i p w) as [w1|] eqn:E; [|done]. simpl. intros [= <- <-]. by exists p.
Qed.

Lemma read_serves s w s' w' : read_step s w = Some (s', w') →
  (w' = w ∨ ∃ code i, server_step (SReadError code i) w = Some w') ∧
  sn_stream s' = sn_stream s ∧ sn_handled s' = sn_handled s ∧ sn_phase s' ≠ Waiting ∧
  ∃ i, sn_phase s = Serving i ∧
    ((∃ p r, session_read (conn_shut i w) s = (Ok p, r) ∧ sn_phase s' = Serving i ∧
        sn_pending s' = sn_pending s ++ [p] ∧ sn_in s' = r) ∨
     (sn_pending s' = sn_pending s ∧ ∀ i, sn_phase s' ≠ Serving i)).
Proof.
  unfold read_step. destruct (sn_phase s) as [|i| |]; [done| |done..].
  destruct (session_read _ s) as [[p|e|x] r] eqn:Er.
  - intros [= <- <-]. simpl. split_and!; try done; [by left|]. exists i. split; [done|]. left. by exists p, r.
  - cbn [mbind option_bind]. destruct (CloseCode _ i w) as [w1|] eqn:E; [|done].
    intros [= <- <-]. simpl. split_and!; try done; [|exists i; auto]. right. by exists (AsCloseCode e), i.
  - intros [= <- <-]. simpl. split_and!; try done; [by left|exists i; auto].
Qed.

Lemma connect_serves s w s' w' : connect_step h capacity s w = Some (s', w') →
  sn_stream s' = sn_stream s ∧ sn_phase s = Waiting ∧ sn_phase s' ≠ Waiting ∧
  sn_pending s' = sn_pending s ∧ sn_handled s' = sn_handled s ∧
  ((w' = w ∧ ∀ i, sn_phase s' ≠ Serving i) ∨
   ∃ p r, session_read (sn_shut s) s = (Ok (PConnect p), r) ∧ server_step (SAccept p) w = Some w' ∧
     sn_in s' = r).
Proof.
  unfold connect_step. destruct (sn_phase s); [|done..]. destruct (session_read _ s) as [[p|e|x] r].
  2: { intros [= <- <-]. naive_solver. }
  2: { intros [= <- <-]. naive_solver. }
  destruct p as [p|p|p|p|p|p|p|p]; try (intros [= <- <-]; naive_solver).
  destruct (accept h capacity p w) as [res|e|x] eqn:Ea; [|done|].
  - destruct res as [[code w1]|]; [|done]. simpl. intros [= <- <-]. simpl.
    split_and!; try done; [by destruct (decide _)|]. right. exists p, r. by rewrite Ea.
  - intros [= <- <-]. naive_solver.
Qed.

(** ** Stream sessions *)

(** The sessions so far account for every login of the server, and a session that has not
    connected has read nothing. *)
Definition opened_by (n : net) (p : Connect) : Prop :=
  ∃ s i r, (s, i) ∈ sessions n ∧ packet_ReadFrom (sn_stream s) = (Ok (PConnect p), r).

Definition net_inv (n : net) : Prop :=
  serves (opened_by n) empty_world (server n) ∧
  Forall (λ x, sn_phase x.1 = Waiting → sn_in x.1 = sn_stream x.1) (sessions n).

(** Sessions only grow in number and keep their streams. *)
Lemma opened_by_put n j s s' i i' w p : sessions n !! j = Some (s, i) →
  sn_stream s' = sn_stream s → opened_by n p → opened_by (put_session j s' i' w n) p.
Proof.
  intros Hj Es (s0 & i0 & r & Hin & Hr). apply list_elem_of_lookup in Hin as [k Hk].
  unfold opened_by. simpl. destruct (decide (j = k)) as [->|Hne].
  - simplify_eq. exists s', (conn_of s' i'), r. split; [|by rewrite Es].
    apply list_elem_of_lookup. exists k. apply list_lookup_insert_eq. by eapply lookup_lt_Some.
  - exists s0, i0, r. split; [|done]. apply list_elem_of_lookup. exists k.
    by rewrite list_lookup_insert_ne.
Qed.

Lemma net_inv_put n j s s' i i' w' : net_inv n → sessions n !! j = Some (s, i) →
  sn_stream s' = sn_stream s → (sn_phase s' = Waiting → sn_phase s = Waiting ∧ sn_in s' = sn_in s) →
  (serves (opened_by n) empty_world (server n) →
     serves (opened_by (put_session j s' i' w' n)) empty_world w') →
  net_inv (put_session j s' i' w' n).
Proof.
  intros [Hs Hf] Hj Est Hw Hsrv. split; [by apply Hsrv|]. simpl.
  apply Forall_insert; [done|]. simpl. intros Hp. destruct (Hw Hp) as [Hp' ->]. rewrite Est.
  rewrite Forall_lookup in Hf. by apply (Hf j (s, i)).
Qed.

Lemma net_inv_step n n' : net_inv n → stream_step h capacity n n' → net_inv n'.
Proof.
  intros Hn Hstep. destruct Hstep as
    [n r|n j s i s' Hj E|n j s i s' w' Hj E|n j s i s' w' Hj E|n j s i k s' w' Hj E|n a w' Hc E].
  - destruct Hn as [Hs Hf]. split; simpl.
    + eapply serves_weaken; [|exact Hs]. intros p (s & i & r' & Hin & Hr).
      exists s, i, r'. split; [|done]. simpl. apply elem_of_app. by left.
    + apply Forall_app. split; [done|]. by repeat constructor.
  - unfold timer_step in E. destruct (sn_phase s) eqn:Ep; simplify_eq.
    eapply net_inv_put; [done|done|done|done|]. apply serves_weaken. intros p. by eapply opened_by_put.
  - apply connect_serves in E as (Est & Ep & Ep' & _ & _ & Hw).
    eapply net_inv_put; [done|done|done|by intros ?|]. intros Hs.
    destruct Hw as [[-> _]|(p & r & Er & Ea & _)].
    + eapply serves_weaken; [|exact Hs]. intros p. by eapply opened_by_put.
    + eapply serves_snoc; [|exact Ea|].
      * eapply serves_weaken; [|exact Hs]. intros q. by eapply opened_by_put.
      * intros q [= <-]. eapply opened_by_put; [done|done|]. exists s, i, r.
        split; [by eapply list_elem_of_lookup_2|]. destruct Hn as [_ Hf].
        rewrite Forall_lookup in Hf. specialize (Hf j (s, i) Hj Ep). simpl in Hf.
        unfold session_read in Er. destruct (sn_shut s); [done|]. by rewrite <-Hf.
  - apply read_serves in E as (Hw & Est & _ & Ep & _).
    eapply net_inv_put; [done|done|done|by intros ?|]. intros Hs.
    apply (serves_weaken (opened_by n)); [intros p; by eapply opened_by_put|].
    destruct Hw as [->|(code & i' & Ea)]; [done|]. by eapply serves_snoc.
  - apply recv_serves in E as (p & Ea & _ & Est & Ein & Eph & _ & _).
    eapply net_inv_put; [done|done|done|by rewrite Eph|]. intros Hs.
    eapply serves_weaken; [|by eapply serves_snoc]. intros q. by eapply opened_by_put.
  - destruct Hn as [Hs Hf]. split; [|done]. simpl. eapply serves_snoc; [exact Hs|exact E|].
    by intros p ->.
Qed.

Lemma net_inv_reached n : steps (stream_step h capacity) (mkNet [] empty_world) n → net_inv n.
Proof. apply (steps_invariant _ net_inv net_inv_step). split; [apply serves_refl|constructor]. Qed.

(** Who is registered came in the first packet of a session. *)
Lemma net_inv_registered n cid i : net_inv n → rm (conns (server n)) !! cid = Some i →
  ∃ c id p s j r, heap (server n) !! i = Some c ∧ c_id c = Some id ∧
    connect_Identity p = Some id ∧ connectHandler h p = ConnectAccepted ∧
    (s, j) ∈ sessions n ∧ packet_ReadFrom (sn_stream s) = (Ok (PConnect p), r).
Proof.
  intros [(acts & Er & Ho) _] Hi.
  destruct (registered_accepted h capacity acts _ Er cid i Hi)
    as (c & id & Hc & Hid & p & Hp & Hacc & Hpid).
  destruct (Ho p Hp) as (s & j & r & Hin & Hr). by exists c, id, p, s, j, r.
Qed.

(** C24 (stream transports): whatever arrives on the sockets and however the goroutines
    interleave, the server goes through a run of its own actions, so that all its invariants
    hold, and the identity of every registered connection came in the first packet of some
    session's stream, a CONNECT that the handler accepted. *)
Theorem stream_refines n :
  steps (stream_step h capacity) (mkNet [] empty_world) n →
  (∃ acts, server_run h capacity acts empty_world = Some (server n)) ∧
  ∀ cid i, rm (conns (server n)) !! cid = Some i →
    ∃ c id p s j r, heap (server n) !! i = Some c ∧ c_id c = Some id ∧
      connect_Identity p = Some id ∧ connectHandler h p = ConnectAccepted ∧
      (s, j) ∈ sessions n ∧ packet_ReadFrom (sn_stream s) = (Ok (PConnect p), r).
Proof.
  intros Hn%net_inv_reached. split; [|intros cid i; by apply net_inv_registered].
  destruct Hn as [(acts & Er & _) _]. by exists acts.
Qed.

(** ** What a session handles *)

(** The pieces of all a client sends: a CONNECT and packets behind it.  A stream that is made of them
    ([made_of]) cuts no [Read] short. *)
Definition client_stream (c : Connect) (ps : list Packet) : reader :=
  mjoin (frame_segments <$> (PConnect c :: ps)).

Definition sendable (p : Packet) : Prop := Packet_wf p ∧ zlen (packet_body p) <= MAX_LEN.

(** The packets behind the CONNECT are read in order, each goes to one goroutine. *)
Definition session_inv (ps : list Packet) (s : session) : Prop :=
  match sn_phase s with
  | Waiting => sn_in s = sn_stream s ∧ sn_pending s = [] ∧ sn_handled s = []
  | p => ∃ k, sn_handled s ++ sn_pending s ≡ₚ take k ps ∧
      ∀ i, p = Serving i → made_of (sn_in s) (mjoin (frame_segments <$> drop k ps))
  end.

Lemma session_inv_intro ps s k : sn_phase s ≠ Waiting → sn_handled s ++ sn_pending s ≡ₚ take k ps →
  (∀ i, sn_phase s = Serving i → made_of (sn_in s) (mjoin (frame_segments <$> drop k ps))) → session_inv ps s.
Proof. intros Hp Hk Hi. unfold session_inv. destruct (sn_phase s); [done|by exists k..]. Qed.

Lemma session_inv_prefix ps s : session_inv ps s → ∃ k, sn_handled s ++ sn_pending s ≡ₚ take k ps.
Proof.
  unfold session_inv. destruct (sn_phase s); [|naive_solver..]. intros (_ & -> & ->). by exists 0%nat.
Qed.

Lemma session_inv_serving ps s i : session_inv ps s → sn_phase s = Serving i →
  ∃ k, sn_handled s ++ sn_pending s ≡ₚ take k ps ∧ made_of (sn_in s) (mjoin (frame_segments <$> drop k ps)).
Proof. unfold session_inv. intros Hs E. rewrite E in Hs. destruct Hs as (k & Hk & Hi). eauto. Qed.

Lemma ReadFrom_eof : ∃ e, packet_ReadFrom [] = (Err e, []).
Proof. eexists. reflexivity. Qed.

Lemma ReadFrom_sent ps k p rd r : Forall sendable ps →
  made_of rd (mjoin (frame_segments <$> drop k ps)) → packet_ReadFrom rd = (Ok p, r) →
  ps !! k = Some p ∧ made_of r (mjoin (frame_segments <$> drop (S k) ps)).
Proof.
  intros Hps Hrd. destruct (ps !! k) as [q|] eqn:Eq.
  - rewrite (drop_S _ q) in Hrd by done. rewrite fmap_cons in Hrd. change (mjoin (?a :: ?l)) with (a ++ mjoin l) in Hrd.
    rewrite Forall_lookup in Hps. destruct (Hps k q Eq).
    apply ReadFrom_made_of in Hrd as (rd' & -> & Hr); [|done|done|apply segments_wf]. by intros [= -> <-].
  - apply lookup_ge_None in Eq. rewrite drop_ge in Hrd by done. apply made_of_nil in Hrd as ->.
    destruct ReadFrom_eof as [e Ee]. by rewrite Ee.
Qed.

Lemma session_inv_connect c ps s w s' w' : Forall sendable (PConnect c :: ps) →
  made_of (sn_stream s) (client_stream c ps) → session_inv ps s →
  connect_step h capacity s w = Some (s', w') → session_inv ps s'.
Proof.
  intros [Hc Hps]%Forall_cons Est Hs (_ & Ep & Ep' & Epe & Eh & Hw)%connect_serves.
  unfold session_inv in Hs. rewrite Ep in Hs. destruct Hs as (Ein & Epe0 & Eh0).
  apply (session_inv_intro _ _ 0); [done|by rewrite Epe, Eh, Epe0, Eh0|].
  intros i Hi. destruct Hw as [[_ Hn]|(p & r & Er & _ & Ein')]; [by destruct (Hn i)|].
  unfold session_read in Er. destruct (sn_shut s); [done|]. rewrite Ein in Er.
  destruct (ReadFrom_sent (PConnect c :: ps) 0 (PConnect p) (sn_stream s) r) as [_ Hr]; [by constructor|exact Est|exact Er|].
  by rewrite Ein'.
Qed.

Lemma session_inv_read ps s w s' w' : Forall sendable ps → session_inv ps s →
  read_step s w = Some (s', w') → session_inv ps s'.
Proof.
  intros Hps Hs (_ & _ & Eh & Ep' & i & Ep & Hw)%read_serves.
  destruct (session_inv_serving ps s i Hs Ep) as (k & Hk & Ein).
  destruct Hw as [(p & r & Er & _ & Epe & Ein')|[Epe Hn]].
  - unfold session_read in Er. destruct (conn_shut i w); [done|].
    eapply ReadFrom_sent in Er as [Hl Hr]; [|done|exact Ein].
    apply (session_inv_intro _ _ (S k)); [done| |by intros; rewrite Ein'].
    by rewrite Epe, Eh, app_assoc, Hk, (take_S_r _ _ p).
  - apply (session_inv_intro _ _ k); [done|by rewrite Epe, Eh|]. intros j Hj. by destruct (Hn j).
Qed.

Lemma session_inv_recv ps i k s w s' w' : session_inv ps s →
  goroutine_step h i k s w = Some (s', w') → session_inv ps s'.
Proof.
  intros Hs (p & _ & Hp & Est & Ein & Eph & Epe & Eh)%recv_serves. unfold session_inv in *.
  rewrite Eph. destruct (sn_phase s); [destruct Hs as (_ & E & _); by rewrite E in Hp|..].
  all: destruct Hs as (m & Hm & Hi); exists m; rewrite Ein; split; [|done].
  all: rewrite Eh, Epe, <-app_assoc, <-Hm; apply Permutation_app_head; symmetry.
  all: by apply delete_Permutation.
Qed.

Definition sessions_inv (c : Connect) (ps : list Packet) (n : net) : Prop :=
  Forall (λ x : session * option nat, made_of (sn_stream x.1) (client_stream c ps) → session_inv ps x.1) (sessions n).

Lemma sessions_inv_step c ps n n' : Forall sendable (PConnect c :: ps) →
  sessions_inv c ps n → stream_step h capacity n n' → sessions_inv c ps n'.
Proof.
  intros Hps Hn Hstep. assert (∀ j s i s' i' w', sessions n !! j = Some (s, i) →
    sn_stream s' = sn_stream s → (made_of (sn_stream s) (client_stream c ps) → session_inv ps s → session_inv ps s') →
    sessions_inv c ps (put_session j s' i' w' n)) as Hput.
  { intros j s i s' i' w' Hj Est Hi. unfold sessions_inv. apply Forall_insert; [done|]. simpl.
    rewrite Est. intros E. apply Hi; [done|]. unfold sessions_inv in Hn. rewrite Forall_lookup in Hn.
    by apply (Hn j (s, i)). }
  destruct Hstep as
    [n r|n j s i s' Hj E|n j s i s' w' Hj E|n j s i s' w' Hj E|n j s i k s' w' Hj E|n a w' Hc E];
    [|eapply Hput; [exact Hj|..]..|done].
  - apply Forall_app. split; [done|]. repeat constructor.
  - unfold timer_step in E. destruct (sn_phase s); by simplify_eq.
  - intros _. unfold timer_step, session_inv in *. destruct (sn_phase s) eqn:Ep; by simplify_eq.
  - by apply connect_serves in E as (-> & _).
  - intros Est Hs. by eapply session_inv_connect.
  - by apply read_serves in E as (_ & -> & _).
  - intros _ Hs. eapply session_inv_read; [|done|done]. by apply Forall_cons in Hps as [_ ?].
  - by apply recv_serves in E as (_ & _ & _ & -> & _).
  - intros _ Hs. by eapply session_inv_recv.
Qed.

(** The only session of [n] serves the open connection [i]. *)
Definition serving (i : nat) (s : session) (w : world) : Prop :=
  sn_phase s = Serving i ∧ conn_shut i w = false.

(** The step that reads one packet. *)
Lemma read_one i w s p r : serving i s w → packet_ReadFrom (sn_in s) = (Ok p, r) →
  let s' := mkSession (sn_stream s) r (sn_closes s) (sn_shut s) (Serving i) (sn_pending s ++ [p]) (sn_handled s) in
  stream_step h capacity (mkNet [(s, Some i)] w) (mkNet [(s', Some i)] w) ∧ serving i s' w.
Proof.
  intros [Ep Ec] E s'. split; [|done]. apply (st_read h capacity (mkNet [(s, Some i)] w) 0 s (Some i) s' w); [done|].
  unfold read_step. rewrite Ep. unfold session_read. simpl server. by rewrite Ec, E.
Qed.

Lemma read_run i w s qs : serving i s w → Forall sendable qs → made_of (sn_in s) (mjoin (frame_segments <$> qs)) →
  ∃ s', steps (stream_step h capacity) (mkNet [(s, Some i)] w) (mkNet [(s', Some i)] w) ∧
    serving i s' w ∧ sn_stream s' = sn_stream s ∧ sn_handled s' = sn_handled s ∧
    sn_pending s' = sn_pending s ++ qs.
Proof.
  intros Hs Hqs. revert s Hs. induction Hqs as [|q qs [Hq Hl] _ IH]; intros s Hs Ein.
  - exists s. rewrite app_nil_r. split_and!; [constructor|done..].
  - rewrite fmap_cons in Ein. change (mjoin (?a :: ?l)) with (a ++ mjoin l) in Ein.
    apply ReadFrom_made_of in Ein as (r & Er & Hr); [|done|done|apply segments_wf].
    destruct (read_one i w s q r Hs Er) as [Hstep Hs1].
    destruct (IH _ Hs1 Hr) as (s' & Hsteps & Hs' & E1 & E2 & E3).
    exists s'. split_and!; [by eapply steps_step|done|done|done|by rewrite E3; simpl; rewrite <-app_assoc].
Qed.

Lemma recv_run i w ms s : serving i s w → sn_pending s ≡ₚ PMessage <$> ms →
  ∃ s', steps (stream_step h capacity) (mkNet [(s, Some i)] w) (mkNet [(s', Some i)] w) ∧
    sn_stream s' = sn_stream s ∧ sn_pending s' = [] ∧ sn_handled s' = sn_handled s ++ (PMessage <$> ms).
Proof.
  revert s. induction ms as [|m ms IH]; intros s [Ep Ec] Hpe.
  - apply Permutation_nil_r in Hpe. exists s. rewrite app_nil_r. split_and!; [constructor|done..].
  - assert (PMessage m ∈ sn_pending s) as [k Hk]%list_elem_of_lookup by (rewrite Hpe; left).
    set (s1 := mkSession (sn_stream s) (sn_in s) (sn_closes s) (sn_shut s) (Serving i)
                 (delete k (sn_pending s)) (sn_handled s ++ [PMessage m])).
    destruct (IH s1) as (s' & Hsteps & E1 & E2 & E3); [by split| |].
    { apply (Permutation_cons_inv (a := PMessage m)). change (PMessage <$> m :: ms) with
        (PMessage m :: (PMessage <$> ms)) in Hpe. rewrite <-Hpe. symmetry. by apply delete_Permutation. }
    exists s'. split_and!; [|done|done|by rewrite E3; simpl; rewrite <-app_assoc].
    eapply steps_step; [|exact Hsteps]. apply (st_recv h capacity (mkNet [(s, Some i)] w) 0 s i k s1 w); [done|].
    unfold goroutine_step. rewrite Hk, Ep. simpl. unfold RecvPacket. unfold conn_shut in Ec. simpl.
    destruct (heap w !! i) as [c|]; [|done]. simpl. by rewrite Ec.
Qed.

Lemma connect_first r s w : connect_step h capacity (new_session r) empty_world = Some (s, w) →
  steps (stream_step h capacity) (mkNet [] empty_world) (mkNet [(s, conn_of s None)] w).
Proof.
  intros E. eapply steps_step; [apply (st_accept h capacity _ r)|]. apply steps_one.
  by apply (st_connect h capacity (mkNet [(new_session r, None)] empty_world) 0 (new_session r)).
Qed.

Lemma connect_run c id rd r : 1 <= capacity → connectHandler h c = ConnectAccepted → connect_Identity c = Some id →
  packet_ReadFrom rd = (Ok (PConnect c), r) →
  ∃ i s w, steps (stream_step h capacity) (mkNet [] empty_world) (mkNet [(s, Some i)] w) ∧
    serving i s w ∧ sn_stream s = rd ∧ sn_in s = r ∧ sn_pending s = [] ∧ sn_handled s = [].
Proof.
  intros Hcap Hacc Hid Er.
  destruct (accept_free h capacity c id empty_world Hcap Hacc Hid) as (w & cn & E & Eh & _ & Eo & _); [done|].
  set (i := fresh (dom (heap empty_world))) in *. set (s := with_phase (Serving i) r (new_session rd)).
  exists i, s, w. split_and!; try done; [|split; [done|]].
  - apply (connect_first rd s w). unfold connect_step. simpl. unfold session_read. simpl. rewrite Er. by rewrite E.
  - unfold conn_shut. by rewrite Eh, lookup_insert_eq.
Qed.

Lemma sendable_Identity c : sendable (PConnect c) → ∃ id, connect_Identity c = Some id.
Proof.
  intros Hc. destruct (connect_Identity c) as [id|] eqn:Hid; [by exists id|].
  destruct Hc as [[_ Hc] _]. simpl in Hc. by rewrite Hid in Hc.
Qed.


(** ** Datagrams *)

Lemma udp_serves u u' : serves (λ _, True) empty_world (udp_server u) → udp_step h capacity u u' →
  serves (λ _, True) empty_world (udp_server u').
Proof.
  intros Hs Hstep. assert (∀ a, server_step a (udp_server u) = Some (udp_server u') →
    serves (λ _, True) empty_world (udp_server u')) as Hsnoc by (intros a Ha; by eapply serves_snoc).
  destruct Hstep as [u addr data u' E|u k u' E|u k u' E|u a w' Hc E]; [| | |by apply (Hsnoc a)].
  - unfold udp_listen in E. destruct (Unmarshal _); by simplify_eq.
  - unfold udp_handle in E. destruct (udp_got u !! k) as [[addr p]|]; [|done]. simpl in E.
    destruct p as [p|p|p|p|p|p|p|p];
      try (destruct (_ ≫= _) as [i|]; simplify_eq; done).
    destruct (accept h capacity p (udp_server u)) as [[[code w']|]|e|x] eqn:Ea; simplify_eq/=.
    apply (Hsnoc (SAccept p)). unfold Server.server_step. by rewrite Ea.
  - unfold udp_receive in E. destruct (udp_recv u !! k) as [[i p]|]; [|done]. simpl in E.
    destruct (RecvPacket h i p (udp_server u)) as [w'|] eqn:Er; simplify_eq/=. by apply (Hsnoc (SRecv i p)).
Qed.

Lemma lookup_snoc {A} (l : list A) x : (l ++ [x]) !! length l = Some x.
Proof. by apply list_lookup_middle. Qed.

Lemma delete_snoc {A} (l : list A) x : delete (length l) (l ++ [x]) = l.
Proof. rewrite delete_middle. apply app_nil_r. Qed.

Lemma zlen_frame p : zlen (frame p) <= zlen (packet_body p) + 5.
Proof.
  unfold frame. rewrite zlen_app. pose proof (zlen_frame_header (Packet_Type p) (zlen (packet_body p))). lia.
Qed.

(** A datagram that carries a registered client id is received by that client's connection,
    whatever address it came from. *)
Lemma udp_attributed addr p cid i u w' : Packet_wf p → zlen (frame p) <= MAX_UDP →
  Packet_Type p ≠ CONNECT → Packet_Get p PropertyClientID = Some cid →
  GetConn cid (udp_server u) = Some i → RecvPacket h i p (udp_server u) = Some w' →
  ∃ u1, udp_listen addr (frame p) u = Ok u1 ∧
    steps (udp_step h capacity) u1 (mkUdp (udp_addr u) (udp_got u) (udp_recv u) w').
Proof.
  intros Hp Hl Ht Hcid Hi Hr.
  set (u1 := mkUdp (udp_addr u) (udp_got u ++ [(addr, p)]) (udp_recv u) (udp_server u)).
  set (u2 := mkUdp (udp_addr u) (udp_got u) (udp_recv u ++ [(i, p)]) (udp_server u)).
  exists u1. split; [|apply (steps_step _ u1 u2); [|apply steps_one]].
  - unfold udp_listen. rewrite take_ge by (unfold zlen, MAX_UDP, MID_LEN_1 in *; lia).
    rewrite <-(app_nil_r (frame p)), Unmarshal_frame; [done|done| |by vm_compute].
    unfold frame in Hl. rewrite zlen_app in Hl.
    pose proof (zlen_nonneg (frame_header (Packet_Type p) (zlen (packet_body p)))).
    unfold MAX_UDP, MID_LEN_1, MAX_LEN in *. lia.
  - apply (ut_handle h capacity u1 (length (udp_got u))). unfold udp_handle, u1, u2.
    cbn [udp_got udp_addr udp_recv udp_server]. rewrite lookup_snoc, delete_snoc. cbn [mbind option_bind].
    destruct p; try done; rewrite Hcid; cbn [mbind option_bind]; by rewrite Hi.
  - apply (ut_recv h capacity u2 (length (udp_recv u))). unfold udp_receive, u2.
    cbn [udp_got udp_addr udp_recv udp_server]. rewrite lookup_snoc, delete_snoc. cbn [mbind option_bind].
    by rewrite Hr.
Qed.

(** A CLOSE packet that names the client. *)
Definition spoofed_close (cid : string) : Packet :=
  PClose (mkClose {[PropertyClientID := cid]} CloseNormal).

Lemma spoofed_close_wf cid : zlen (bytes_of_string cid) <= 900 →
  Packet_wf (spoofed_close cid) ∧ zlen (packet_body (spoofed_close cid)) <= 1000.
Proof.
  intros Hl. split; [split; [split|done]|].
  - unfold spoofed_close. simpl. rewrite map_size_singleton. lia.
  - intros k s. simpl. intros [<- <-]%lookup_singleton_Some. unfold short_string. lia.
  - unfold spoofed_close. simpl. unfold enc_props. rewrite go_range_singleton. simpl. rewrite app_nil_r.
    rewrite !zlen_cons. unfold enc_string, enc_data, AppendUvarint. rewrite app_nil_l, zlen_app.
    pose proof (zlen_uvarint (zlen (bytes_of_string cid))). lia.
Qed.

(** Whatever datagrams arrive, the server goes through a run of its own actions; but
    the client id in a datagram is all that says whose it is: in every reachable state, for
    every registered client there is one datagram that, sent from any address, makes the server
    close the client's connection and drop its registration. *)
Theorem udp_spoof u : steps (udp_step h capacity) (mkUdp ∅ [] [] empty_world) u →
  (∃ acts, server_run h capacity acts empty_world = Some (udp_server u)) ∧
  ∀ cid i, GetConn cid (udp_server u) = Some i → zlen (bytes_of_string cid) <= 900 →
    ∃ data, zlen data <= MAX_UDP ∧ ∀ addr, ∃ u1 u',
      udp_listen addr data u = Ok u1 ∧ steps (udp_step h capacity) u1 u' ∧
      GetConn cid (udp_server u') = None ∧ conn_shut i (udp_server u') = true.
Proof.
  intros Hu. assert (serves (λ _, True) empty_world (udp_server u)) as (acts & Er & _).
  { refine (steps_invariant _ (λ u, serves (λ _, True) empty_world (udp_server u)) _ _ _ _ Hu);
      [exact udp_serves|apply serves_refl]. }
  split; [by exists acts|]. intros cid i Hi Hl.
  destruct (server_inv_run h capacity acts _ _ server_inv_empty Er) as [_ Hinv].
  destruct (spoofed_close_wf cid Hl) as [Hp Hb]. exists (frame (spoofed_close cid)).
  assert (zlen (frame (spoofed_close cid)) <= MAX_UDP)
    by (pose proof (zlen_frame (spoofed_close cid)); unfold MAX_UDP, MID_LEN_1; lia).
  split; [done|]. intros addr.
  destruct (Hinv cid i Hi) as (c & id & Hc & Hid & Hcid & Ho).
  destruct (udp_attributed addr (spoofed_close cid) cid i u (conn_Close i (udp_server u)))
    as (u1 & E1 & Hsteps); [done|lia|done|apply lookup_singleton_eq|done|..].
  { unfold RecvPacket. rewrite Hc. simpl. by rewrite Ho. }
  eexists u1, _. split_and!; [done|exact Hsteps|..]; simpl.
  all: rewrite (conn_Close_open i c id (udp_server u)) by done; unfold GetConn, RMap_Get, conn_shut; simpl.
  - unfold GetConn, RMap_Get in Hi. unfold RMap_Delete. rewrite Hcid, Hi. simpl. apply lookup_delete_eq.
  - by rewrite lookup_insert_eq.
Qed.
End facts.

(** ** Concrete runs *)

Lemma getAddrIp_spec :
  getAddrIp "10.0.0.7:5000" = "10.0.0.7" ∧ getAddrIp "[::1]:5000" = "[".
Proof. by vm_compute. Qed.

(** One session whose CONNECT was read. *)
Definition alice_login : Connect := login_of "alice" "phone".

Definition alice_stream : reader := @client_stream range_forward alice_login [sample_message].

Definition alice_net : net :=
  match @connect_step range_forward echo_handlers 8 (new_session alice_stream) empty_world with
  | Some (s, w) => mkNet [(s, conn_of s None)] w
  | None => mkNet [] empty_world
  end.

Lemma alice_run : steps (@stream_step range_forward range_forward echo_handlers 8) (mkNet [] empty_world) alice_net.
Proof.
  unfold alice_net. destruct (connect_step _ _ _ _) as [[s w]|] eqn:E; [by apply (@connect_first range_forward range_forward) in E|constructor].
Qed.

Lemma stream_refines_witness :
  GetConn "phone" (server alice_net) = Some 0%nat ∧
  ∃ acts, @server_run range_forward range_forward echo_handlers 8 acts empty_world = Some (server alice_net).
Proof.
  split; [by vm_compute|].
  exact (proj1 (@stream_refines range_forward range_forward echo_handlers 8 alice_net alice_run)).
Defined.


(** The same login in a datagram. *)
Definition alice_udp : udp := mkUdp {[0%nat := "10.0.0.7:5000"]} [] [] (server alice_net).

Lemma alice_udp_run : steps (@udp_step range_forward range_forward echo_handlers 8) (mkUdp ∅ [] [] empty_world) alice_udp.
Proof.
  eapply steps_step; [|apply steps_one].
  - by apply (@ut_listen range_forward range_forward echo_handlers 8 _ "10.0.0.7:5000"
      (@frame range_forward (PConnect alice_login)) (mkUdp ∅ [("10.0.0.7:5000", PConnect alice_login)] [] empty_world)).
  - apply (@ut_handle range_forward range_forward echo_handlers 8 _ 0 alice_udp). by vm_compute.
Qed.

Lemma udp_spoof_witness :
  ∃ data, zlen data <= MAX_UDP ∧ ∃ u1 u',
    @udp_listen range_forward "203.0.113.9:1" data alice_udp = Ok u1 ∧
    steps (@udp_step range_forward range_forward echo_handlers 8) u1 u' ∧
    GetConn "phone" (udp_server u') = None.
Proof.
  destruct (proj2 (@udp_spoof range_forward range_forward echo_handlers 8 alice_udp alice_udp_run) "phone" 0%nat)
    as (data & Hl & Ha); [by vm_compute|by vm_compute|].
  destruct (Ha "203.0.113.9:1") as (u1 & u' & E & Hs & Hg & _). exists data. split; [done|]. by exists u1, u'.
Defined.
