(* ===== verification/Listening.v ===== *)
(** * Listening (src/internal/network: [Listen] of transport_tcp.go, transport_ws.go,
    transport_quic.go; the pinger of transport_udp.go)

    The accept loops, as transition systems over the sessions of [Transport].  What a client sends
    has two readings: [ar_wire], the bytes on the socket, and [ar_plain], what the TLS and the
    WebSocket library make of them; those libraries are not modelled.  A transport chooses which of
    the two its sessions read. *)
From S2P Require Import Prelude Errors Coder Packet Stream Queue Safe Server Sessions Options Retry Ping Watchdog Transport.
Local Open Scope Z_scope.

(** A client that comes: its bytes, and for WebSocket the protocols it names. *)
Record arrival := mkArrival { ar_wire : reader; ar_plain : reader; ar_protocols : list string }.

(** The handshake of the WebSocket server: [Protocol[0]] is read first. *)
Definition ws_Handshake (protocols : list string) : outcome error unit :=
  match protocols with
  | [] => Panic IndexRange
  | p :: _ => if decide (p = "cable") then Ok tt else Err (EOther "invalid protocol")
  end.

(** What becomes of a client: [handleConn] in a goroutine, with what its session reads.
    - TCP and TLS accept on the raw listener, although [l.listener] may be the TLS one;
    - net/http recovers the panic of a handshake and drops the client;
    - QUIC: [NewQUIC] does not set the delegate, [doConnecton] calls a method of a nil interface. *)
Definition handleConn (t : transport) (a : arrival) : outcome error (option session) :=
  match t with
  | TTCP | TTLS _ => Ok (Some (new_session (ar_wire a)))
  | TWS | TWSS _ =>
      match ws_Handshake (ar_protocols a) with
      | Ok _ => Ok (Some (new_session (ar_plain a)))
      | _ => Ok None
      end
  | TQUIC _ => Panic NilDereference
  | TUDP => Ok None      (* no connections, see [udp_listen] *)
  end.

(** Where [Listen] is: in [Accept]; for QUIC in [AcceptStream] of a client; returned; the process
    has crashed. *)
Inductive loop := LAccept | LStream (a : arrival) | LReturned (err : option error) | LCrashed (x : go_panic).

Record listening := mkListening { li_loop : loop; li_net : net }.

(** Opening the port: TCP resolves the address first; the error of [quic.Listen] is dropped. *)
Definition Listen (t : transport) (resolved opened : outcome error unit) : loop :=
  match t with
  | TQUIC _ => match opened with Ok _ => LAccept | _ => LReturned None end
  | _ =>
      match resolved, opened with
      | Err e, _ | Ok _, Err e => LReturned (Some e)
      | Ok _, Ok _ => LAccept
      | Panic x, _ | _, Panic x => LCrashed x
      end
  end.

(** A client is handled: by a goroutine, which may crash the process. *)
Definition handle (t : transport) (a : arrival) (n : net) : listening :=
  match handleConn t a with
  | Ok (Some s) => mkListening LAccept (mkNet (sessions n ++ [(s, None)]) (server n))
  | Ok None | Err _ => mkListening LAccept n
  | Panic x => mkListening (LCrashed x) n
  end.

Section listening.
Context `{!GoRange uint8, !GoRange string} (h : handlers) (capacity : Z) (t : transport) (comes : arrival → Prop).

Inductive listen_step : listening → listening → Prop :=
| ls_accept n a : comes a →
    listen_step (mkListening LAccept n)
      (match t with TQUIC _ => mkListening (LStream a) n | _ => handle t a n end)
| ls_stream n a : listen_step (mkListening (LStream a) n) (handle t a n)
| ls_leaves n a e : listen_step (mkListening (LStream a) n) (mkListening (LReturned (Some e)) n)
| ls_error n e : listen_step (mkListening LAccept n) (mkListening (LReturned (Some e)) n)
| ls_sessions l n n' : (∀ x, l ≠ LCrashed x) → length (sessions n') = length (sessions n) →
    stream_step h capacity n n' → listen_step (mkListening l n) (mkListening l n').

Definition started_listening : listening := mkListening LAccept (mkNet [] empty_world).

(** ** The loop adds nothing to what sessions do *)
Lemma listen_refines s s' : listen_step s s' → steps (stream_step h capacity) (li_net s) (li_net s').
Proof.
  destruct 1 as [n a Ha|n a|n a e|n e|l n n' _ _ Hs]; [| |apply steps_refl..|by apply steps_one].
  - destruct t; unfold handle, handleConn; try apply steps_refl; try apply steps_one, st_accept;
      destruct (ws_Handshake _); try apply steps_refl; apply steps_one, st_accept.
  - unfold handle, handleConn. destruct t; try apply steps_refl; try apply steps_one, st_accept;
      destruct (ws_Handshake _); try apply steps_refl; apply steps_one, st_accept.
Qed.

Lemma listen_reached s : steps listen_step started_listening s →
  steps (stream_step h capacity) (mkNet [] empty_world) (li_net s).
Proof.
  refine (steps_invariant _ (λ s, steps (stream_step h capacity) (mkNet [] empty_world) (li_net s)) _ _ _ _);
    [|apply steps_refl]. intros s1 s2 H1 H2. eapply steps_trans; [exact H1|by apply listen_refines].
Qed.

(** Sessions keep what they read from. *)
Lemma streams_put n j s i s' i' w (P : reader → Prop) : sessions n !! j = Some (s, i) →
  sn_stream s' = sn_stream s → Forall (λ x, P (sn_stream x.1)) (sessions n) →
  Forall (λ x, P (sn_stream x.1)) (sessions (put_session j s' i' w n)).
Proof.
  intros Hj Es Hf. simpl. apply Forall_insert; [done|]. simpl. rewrite Es.
  by apply (Forall_lookup_1 _ _ _ _ Hf Hj).
Qed.

Lemma streams_kept n n' (P : reader → Prop) : stream_step h capacity n n' →
  length (sessions n') = length (sessions n) →
  Forall (λ x, P (sn_stream x.1)) (sessions n) → Forall (λ x, P (sn_stream x.1)) (sessions n').
Proof.
  intros Hs Hl Hf. destruct Hs as
    [n r|n j s i s' Hj E|n j s i s' w' Hj E|n j s i s' w' Hj E|n j s i k s' w' Hj E|n a w' Hc E].
  - simpl in Hl. rewrite length_app in Hl. simpl in Hl. lia.
  - eapply streams_put; [done| |done]. unfold timer_step in E. by destruct (sn_phase s); simplify_eq.
  - eapply streams_put; [done| |done]. by apply connect_serves in E as (Est & _).
  - eapply streams_put; [done| |done]. by apply (read_serves h capacity) in E as (_ & Est & _).
  - eapply streams_put; [done| |done]. by apply (recv_serves h capacity) in E as (p & _ & _ & Est & _).
  - done.
Qed.

(** Over TCP and over TLS what a session reads is what is on the wire. *)
Lemma sessions_wire s : (∃ c, t = TTLS c) ∨ t = TTCP → steps listen_step started_listening s →
  Forall (λ x, ∃ a, comes a ∧ sn_stream x.1 = ar_wire a) (sessions (li_net s)).
Proof.
  intros Ht Hs. set (P := λ r, ∃ a, comes a ∧ r = ar_wire a).
  assert ((∀ a, li_loop s ≠ LStream a) ∧ Forall (λ x, P (sn_stream x.1)) (sessions (li_net s))) as [_ ?]; [|done].
  refine (steps_invariant _ (λ s, (∀ a, li_loop s ≠ LStream a) ∧ Forall (λ x, P (sn_stream x.1)) (sessions (li_net s)))
    _ _ _ _ Hs); [|split; [done|constructor]].
  intros s1 s2 [H1 H2] Hstep. destruct Hstep as [n a Ha|n a|n a e|n e|l n n' Hl Hlen Hst]; simpl in *.
  - assert (∃ s', s' = handle t a n ∧ li_loop s' = LAccept ∧
      sessions (li_net s') = sessions n ++ [(new_session (ar_wire a), None)]) as (s' & -> & El & Es)
      by (destruct Ht as [[c ->] | ->]; by eexists).
    destruct Ht as [[c ->] | ->]; (split; [by rewrite El|]; rewrite Es; apply Forall_app; split; [done|];
      apply Forall_singleton; by exists a).
  - by destruct (H1 a).
  - by destruct (H1 a).
  - by split.
  - split; [done|]. by eapply streams_kept.
Qed.
End listening.

(** ** Properties of the loops *)
Section properties.
Context `{!GoRange uint8, !GoRange string}.

(** A packet has the type its first byte announces. *)
Lemma ReadFrom_type b0 bs r p r' : packet_ReadFrom ((b0 :: bs) :: r) = (Ok p, r') →
  Packet_Type p = byte_of (Z.shiftr (Z_of_byte b0) 4).
Proof.
  unfold packet_ReadFrom. cbn [Read take]. destruct (header_info _) as [[byteCount length]|e|x]; [|done..].
  destruct (if 0 <? byteCount then _ else _) as [ext r1]. destruct ext as [ext|e|x]; [|done..].
  destruct (if 0 <? extend_length length ext then _ else _) as [data r2]. destruct data as [data|e|x]; [|done..].
  intros [= Hu _]. apply unpack_type in Hu as (b & Hb & ->). simpl in Hb. by injection Hb as ->.
Qed.

(** The first byte of a TLS connection: a handshake record. *)
Definition tls_handshake : byte := x16.

(** C39 (TLS in the clear): a listener over TLS accepts on its raw socket.  A client that speaks no TLS
    at all logs in there; one that does, whose first byte is that of a handshake record, is never
    served: if all clients speak TLS, nobody is ever registered. *)
Theorem tls_in_the_clear (h : handlers) capacity config (comes : arrival → Prop) :
  (∀ a p id, comes a → ar_wire a = frame_segments (PConnect p) → sendable (PConnect p) → 1 <= capacity →
     connectHandler h p = ConnectAccepted → connect_Identity p = Some id →
     ∃ s, steps (listen_step h capacity (TTLS config) comes) started_listening s ∧
       is_Some (GetConn (ClientID id) (server (li_net s)))) ∧
  ((∀ a, comes a → ∃ bs r, ar_wire a = (tls_handshake :: bs) :: r) →
     ∀ s, steps (listen_step h capacity (TTLS config) comes) started_listening s →
       rm (conns (server (li_net s))) = ∅).
Proof.
  split.
  - intros a p id Ha Ew [Hp Hl] Hcap Hacc Hid.
    destruct (accept_free h capacity p id empty_world Hcap Hacc Hid) as (w & cn & E & Eh & Em & _); [done|].
    set (i := fresh (dom (heap empty_world))) in *.
    set (s1 := with_phase (Serving i) [] (new_session (ar_wire a))).
    exists (mkListening LAccept (mkNet [(s1, Some i)] w)). split.
    + eapply steps_step; [by apply (ls_accept h capacity (TTLS config) comes _ a)|]. apply steps_one.
      unfold handle, handleConn. apply ls_sessions; [done|done|].
      apply (st_connect h capacity (mkNet [(new_session (ar_wire a), None)] empty_world) 0 (new_session (ar_wire a))
        None s1 w); [done|]. unfold connect_step, session_read. simpl. rewrite Ew, <-(app_nil_r (frame_segments (PConnect p))).
      rewrite ReadFrom_segments by done. rewrite E. cbn [mbind option_bind]. rewrite decide_True by done.
      unfold s1. by rewrite Ew, app_nil_r.
    + unfold GetConn, RMap_Get. simpl. rewrite Em, lookup_insert_eq. by eexists.
  - intros Htls s Hs. apply map_empty. intros cid.
    destruct (rm (conns (server (li_net s))) !! cid) as [i|] eqn:E; [|done].
    pose proof (listen_reached h capacity (TTLS config) comes s Hs) as Hn%net_inv_reached.
    destruct (net_inv_registered h capacity _ cid i Hn E) as (c & id & p & s0 & j & r & _ & _ & _ & _ & Hin & Hr).
    pose proof (sessions_wire h capacity (TTLS config) comes s ltac:(by left; eexists) Hs) as Hw.
    rewrite Forall_forall in Hw. destruct (Hw (s0, j) Hin) as (a & Ha & Es). simpl in Es.
    destruct (Htls a Ha) as (bs & r0 & Ea). rewrite Es, Ea in Hr. by apply ReadFrom_type in Hr.
Qed.

(** QUIC: no session ever starts.  While [AcceptStream] waits for a client nobody else is accepted; a
    client that leaves ends [Listen]; one that opens a stream crashes the process. *)
Theorem quic_never_serves (h : handlers) capacity q (comes : arrival → Prop) s :
  steps (listen_step h capacity (TQUIC q) comes) started_listening s →
  sessions (li_net s) = [] ∧
  (∀ a s', li_loop s = LStream a → listen_step h capacity (TQUIC q) comes s s' →
     li_loop s' = LStream a ∨ li_loop s' = LCrashed NilDereference ∨ ∃ e, li_loop s' = LReturned (Some e)) ∧
  (∀ a, li_loop s = LStream a → ∃ s', listen_step h capacity (TQUIC q) comes s s' ∧
     li_loop s' = LCrashed NilDereference).
Proof.
  intros Hs. split_and!.
  - refine (steps_invariant _ (λ s, sessions (li_net s) = []) _ _ _ _ Hs); [|done].
    intros s1 s2 H1 Hstep. destruct Hstep as [n a Ha|n a|n a e|n e|l n n' Hl Hlen Hst]; try done.
    simpl in *. rewrite H1 in Hlen. by apply nil_length_inv.
  - intros a s' El Hstep. destruct Hstep as [n b Ha|n b|n b e|n e|l n n' Hl Hlen Hst]; try done; simpl in *.
    + by right; left.
    + right. right. by eexists.
    + by left.
  - intros a El. destruct s as [l n]. simpl in El. subst l. eexists. split; [apply ls_stream|done].
Qed.
End properties.

(** ** Pingers over UDP

    [udpConn.Close] does nothing, so the pinger of a closed connection is never stopped: each run is
    refused and arms the next timer, for ever. *)
Definition server_udpConn_Close (w : watchdog) : outcome error unit * watchdog := (Ok tt, w).

(** The keep-alive of a closed connection: one timer is pending. *)
Definition pending_run (w : watchdog) (due : Z) : Prop :=
  KeepAlive.stoped (wd_alive w) = false ∧ KeepAlive.timers (wd_alive w) = [due] ∧ wd_blocked w = ∅.

Lemma wd_one {side : PingSide} a w w' : wd_next a w = Some w' → steps wd_step w w'.
Proof. intros E. apply steps_one. by exists a. Qed.

(** Time passes until the timer is due. *)
Lemma wait_due {side : PingSide} w due : pending_run w due → ∃ w1, steps wd_step w w1 ∧ pending_run w1 due ∧
  due <= KeepAlive.now (wd_alive w1) ∧ KeepAlive.interval (wd_alive w1) = KeepAlive.interval (wd_alive w) ∧
  wd_timeouts w1 = wd_timeouts w.
Proof.
  intros (Hs & Ht & Hb). destruct (Z.leb_spec due (KeepAlive.now (wd_alive w))).
  - exists w. split; [apply steps_refl|done].
  - set (t := due - KeepAlive.now (wd_alive w)). eexists. split.
    + apply (wd_one (WTick t)). cbn [wd_next]. destruct (Z.ltb_spec 0 t) as [_|Hn]; [done|subst t; lia].
    + split_and!; [by split_and!| |done|done]. cbn. subst t. lia.
Qed.

(** A run on a closed connection arms the next timer. *)
Lemma refused_run w due : pending_run w due → due <= KeepAlive.now (wd_alive w) →
  ∃ w', steps (wd_step (side := conn_side)) w w' ∧
    pending_run w' (KeepAlive.now (wd_alive w) + KeepAlive.interval (wd_alive w)) ∧
    KeepAlive.interval (wd_alive w') = KeepAlive.interval (wd_alive w) ∧ wd_timeouts w' = wd_timeouts w.
Proof.
  intros (Hs & Ht & Hb) Hdue. set (k := fresh (dom (pingers (wd_pings w)))).
  assert (pingers (wd_pings w) !! k = None) as Hk by apply not_elem_of_dom, is_fresh. clearbody k.
  destruct (wd_next (side := conn_side) (WBegin 0 k true) w) as [w1|] eqn:E.
  - pose proof E as E'. cbn [wd_next] in E'. unfold run_begin in E'. rewrite Ht in E'. cbn [lookup list_lookup mbind option_bind] in E'.
    rewrite (proj2 (Z.leb_le _ _) Hdue) in E'. unfold without_timer in E' at 1. cbn [KeepAlive.stoped] in E'. rewrite Hs in E'.
    destruct (i64 _ <? _) eqn:El.
    + injection E' as <-. eexists. split; [by eapply wd_one|]. unfold rearm, without_timer. cbn.
      split_and!; [split_and!; [done|by rewrite Ht|done]|done|done].
    + cbn [side_pstep pstep refusal conn_side] in E'. rewrite Hk in E'. cbn [mbind option_bind] in E'.
      assert (∃ w2, wd_next (side := conn_side) (WEnd k) w1 = Some w2 ∧
        w2 = mkWatchdog (rearm (wd_alive w1)) (wd_pings w1) (wd_blocked w1 ∖ {[k]}) (wd_timeouts w1)) as (w2 & E2 & ->).
      { injection E' as <-. cbn [wd_next]. unfold run_end. cbn [wd_pings pingers set_pinger wd_blocked].
        rewrite lookup_insert_eq, decide_True by set_solver. by eexists. }
      eexists. split; [eapply steps_trans; by eapply wd_one|]. injection E' as <-.
      unfold KeepAlive.sendPing, without_timer, rearm. cbn. cbn in El. rewrite El. cbn.
      split_and!; [split_and!; [done|by rewrite Ht|rewrite Hb; set_solver]|done|done].
  - exfalso. cbn [wd_next] in E. unfold run_begin in E. rewrite Ht in E. cbn [lookup list_lookup mbind option_bind] in E.
    rewrite (proj2 (Z.leb_le _ _) Hdue) in E. cbn in E. rewrite Hs in E. destruct (i64 _ <? _); [done|].
    by rewrite Hk in E.
Qed.

(** Nothing ends it: however long ago the connection was closed, a later timer is still pending, and
    no timeout is reported. *)
Theorem udp_pinger_outlives w due n : 0 <= KeepAlive.interval (wd_alive w) → pending_run w due →
  ∃ w' due', steps (wd_step (side := conn_side)) w w' ∧ pending_run w' due' ∧
    due + Z.of_nat n * KeepAlive.interval (wd_alive w) <= due' ∧ wd_timeouts w' = wd_timeouts w.
Proof.
  revert w due. induction n as [|n IH]; intros w due Hi Hw.
  { exists w, due. split_and!; [apply steps_refl|done|lia|done]. }
  destruct (wait_due (side := conn_side) w due Hw) as (w1 & H1 & Hw1 & Hd & Ei & Et).
  destruct (refused_run w1 due Hw1 Hd) as (w2 & H2 & Hw2 & Ei2 & Et2).
  destruct (IH w2 _ ltac:(rewrite Ei2, Ei; done) Hw2) as (w' & due' & H3 & Hw' & Hle & Et3).
  exists w', due'. split_and!; [|done| |congruence].
  - eapply steps_trans; [exact H1|]. eapply steps_trans; [exact H2|exact H3].
  - rewrite Ei2, Ei in Hle. lia.
Qed.

(** Alice logs in over a "tls" listener without TLS. *)
Definition clear_arrival : arrival :=
  mkArrival (@frame_segments range_forward (PConnect (login_of "alice" "phone"))) [] [].

Lemma tls_in_the_clear_witness :
  ∃ s, steps (@listen_step range_forward range_forward echo_handlers 8 (TTLS (mkTLSConfig 1 false false))
                (λ a, a = clear_arrival)) started_listening s ∧
    is_Some (GetConn "phone" (server (li_net s))).
Proof.
  apply (proj1 (@tls_in_the_clear range_forward range_forward echo_handlers 8 (mkTLSConfig 1 false false)
    (λ a, a = clear_arrival)) clear_arrival (login_of "alice" "phone") (mkIdentity "alice" "phone" ""));
    [done|done|vm_decide|lia|done|done].
Defined.
