(* ===== verification/Rawconn.v ===== *)
(** * Raw connections (src/internal/network: [rawconn] of conn.go, [tcpConn], [wsConn],
    [quicConn], [udpConn])

    A connection owns a raw connection, an interface that each transport implements over the socket
    of a library.  The interface is a class, what the send queue relies on are its laws, and the
    transports are instances; two of them do not satisfy the laws.

    A socket of TCP takes a whole write or fails; the stream of QUIC (golang.org/x/net/quic)
    is a parameter: "Write writes data to the stream write buffer.  Buffered data is only sent when
    the buffer is sufficiently full", or when the stream is flushed or closed. *)
From S2P Require Import Prelude Errors Coder Packet Options Transport.
Local Open Scope Z_scope.

(** [rawconn]; [raw_wire] is what has left for the client. *)
Class RawConn (R : Type) := {
  raw_ID : R → option Identity;
  raw_IP : R → string;
  raw_Close : R → option error * R;
  raw_WriteData : bytes → R → option error * R;
  raw_wire : R → bytes
}.

(** What a sender relies on: data that was written without an error has left, and nothing leaves
    after [Close]. *)
Class RawLaws (R : Type) {HR : RawConn R} := {
  raw_done : R → Prop;
  raw_written : ∀ data r r', raw_WriteData data r = (None, r') → raw_wire r' = raw_wire r ++ data;
  raw_failed : ∀ data e r r', raw_WriteData data r = (Some e, r') → raw_wire r' = raw_wire r;
  raw_closed : ∀ r, raw_done (raw_Close r).2;
  raw_shut : ∀ data r, raw_done r → ∃ e r', raw_WriteData data r = (Some e, r') ∧ raw_done r'
}.

(** The tasks of the send queue, one after the other; whether none failed. *)
Fixpoint write_all {R} {HR : RawConn R} (frames : list bytes) (r : R) : bool * R :=
  match frames with
  | [] => (true, r)
  | data :: frames =>
      let '(err, r) := raw_WriteData data r in
      let '(ok, r) := write_all frames r in
      (match err with None => ok | Some _ => false end, r)
  end.

(** ** Stream sockets *)

Definition ErrClosed : error := EOther "use of closed network connection".

(** [sk_fails]: the writes that will fail, [true] for those; a write that fails takes nothing. *)
Record sock := mkSock { sk_open : bool; sk_fails : list bool; sk_out : bytes }.

Definition sock_write (data : bytes) (s : sock) : option error * sock :=
  if negb (sk_open s) then (Some ErrClosed, s)
  else match sk_fails s with
       | true :: l => (Some (EOther "write"), mkSock true l (sk_out s))
       | _ => (None, mkSock true (tail (sk_fails s)) (sk_out s ++ data))
       end.

Definition sock_shut (s : sock) : option error * sock :=
  (if sk_open s then None else Some ErrClosed, mkSock false (sk_fails s) (sk_out s)).

(** [tcpConn] and [wsConn]: [remote] is the address of the client, [header] the X-Real-IP of the
    WebSocket request.  The bytes of a WebSocket are the payloads of its frames, one per write. *)
Record streamConn := mkStreamConn { sc_id : option Identity; sc_ip : string; sc_raw : sock }.

Definition new_tcp (id : option Identity) (remote : string) (raw : sock) : streamConn :=
  mkStreamConn id (getAddrIp remote) raw.
Definition new_ws (id : option Identity) (header remote : string) (raw : sock) : streamConn :=
  mkStreamConn id (getRealIP header remote) raw.

Definition tcpRaw_Close (c : streamConn) : option error * streamConn :=
  let '(err, s) := sock_shut (sc_raw c) in (err, mkStreamConn (sc_id c) (sc_ip c) s).
Definition tcpRaw_WriteData (data : bytes) (c : streamConn) : option error * streamConn :=
  let '(err, s) := sock_write data (sc_raw c) in (err, mkStreamConn (sc_id c) (sc_ip c) s).

#[export] Instance stream_raw : RawConn streamConn := {|
  raw_ID := sc_id; raw_IP := sc_ip; raw_Close := tcpRaw_Close; raw_WriteData := tcpRaw_WriteData;
  raw_wire := λ c, sk_out (sc_raw c)
|}.

#[export] Instance stream_laws : RawLaws streamConn.
Proof.
  refine (Build_RawLaws _ _ (λ c, sk_open (sc_raw c) = false) _ _ _ _).
  - intros data [i ip [o f out]] r'. cbn. unfold tcpRaw_WriteData, sock_write. cbn.
    destruct o; [|done]. destruct f as [|[] f]; cbn; by intros [= <-].
  - intros data e [i ip [o f out]] r'. cbn. unfold tcpRaw_WriteData, sock_write. cbn.
    destruct o; cbn; [|by intros [= _ <-]]. destruct f as [|[] f]; cbn; by intros [= _ <-].
  - done.
  - intros data [i ip [o f out]] Ho. cbn in Ho. subst o. by eexists _, _.
Qed.

(** ** The stream of QUIC *)
Class QuicStream (S : Type) := {
  qs_Write : bytes → S → option error * S;
  qs_Close : S → option error * S;
  qs_sent : S → bytes;
  qs_buffered : S → bytes;
  qs_limit : Z
}.

(** The buffer is sent when it reaches the limit, and by [Close]. *)
Class QuicLaws (S : Type) {HS : QuicStream S} := {
  qs_buffers : ∀ data s s', qs_Write data s = (None, s') →
    qs_sent s' ++ qs_buffered s' = qs_sent s ++ qs_buffered s ++ data ∧
    (zlen (qs_buffered s ++ data) < qs_limit →
     qs_sent s' = qs_sent s ∧ qs_buffered s' = qs_buffered s ++ data);
  qs_flushes : ∀ s s', qs_Close s = (None, s') → qs_sent s' = qs_sent s ++ qs_buffered s
}.

Record quicRaw (S : Type) := mkQuicRaw { qc_id : option Identity; qc_ip : string; qc_raw : S }.
Arguments mkQuicRaw {S} qc_id qc_ip qc_raw.
Arguments qc_id {S} q.
Arguments qc_ip {S} q.
Arguments qc_raw {S} q.

Section quic.
Context {S : Type} {HS : QuicStream S}.

Definition quicRaw_Close (c : quicRaw S) : option error * quicRaw S :=
  let '(err, s) := qs_Close (qc_raw c) in (err, mkQuicRaw (qc_id c) (qc_ip c) s).
Definition quicRaw_WriteData (data : bytes) (c : quicRaw S) : option error * quicRaw S :=
  let '(err, s) := qs_Write data (qc_raw c) in (err, mkQuicRaw (qc_id c) (qc_ip c) s).

#[export] Instance quic_raw : RawConn (quicRaw S) := {|
  raw_ID := qc_id; raw_IP := qc_ip; raw_Close := quicRaw_Close; raw_WriteData := quicRaw_WriteData;
  raw_wire := λ c, qs_sent (qc_raw c)
|}.
End quic.

(** ** UDP: all connections share the socket of the listener *)
Record udpAddr := mkUdpAddr { ua_ip : string; ua_port : Z }.

(** The socket of the listener, with the datagrams sent. *)
Record udpSock := mkUdpSock { us_open : bool; us_out : list (udpAddr * bytes) }.

Record udpRaw := mkUdpRaw { ur_id : option Identity; ur_addr : udpAddr; ur_raw : udpSock }.

Section udp.
Context (refuses : bytes → option error).   (* the system does not take the datagram *)

Definition udpRaw_Close (c : udpRaw) : option error * udpRaw := (None, c).
Definition udpRaw_WriteData (data : bytes) (c : udpRaw) : option error * udpRaw :=
  if negb (us_open (ur_raw c)) then (Some ErrClosed, c)
  else match refuses data with
       | Some e => (Some e, c)
       | None => (None, mkUdpRaw (ur_id c) (ur_addr c)
                          (mkUdpSock true (us_out (ur_raw c) ++ [(ur_addr c, data)])))
       end.

#[local] Instance udp_raw : RawConn udpRaw := {|
  raw_ID := ur_id; raw_IP := λ c, ua_ip (ur_addr c);
  raw_Close := udpRaw_Close; raw_WriteData := udpRaw_WriteData;
  raw_wire := λ c, mjoin (us_out (ur_raw c)).*2
|}.
End udp.

(** ** What senders get *)

Section laws.
Context {R : Type} {HR : RawConn R} {HL : RawLaws R}.

Lemma write_all_done frames r : raw_done r →
  raw_wire (write_all frames r).2 = raw_wire r ∧ (frames ≠ [] → (write_all frames r).1 = false).
Proof.
  revert r. induction frames as [|data frames IH]; intros r Hr; [done|]. cbn [write_all].
  destruct (raw_shut data r Hr) as (e & r1 & E & Hr1). rewrite E.
  destruct (IH r1 Hr1) as [Hw _]. destruct (write_all frames r1) as [ok r2]. simpl in *.
  split; [|done]. by rewrite Hw, (raw_failed _ _ _ _ E).
Qed.

(** Over a raw connection that satisfies the laws, as those of TCP and WebSocket do, frames that were
    written without an error have left in order, and none leaves after [Close]. *)
Theorem raw_delivers (frames : list bytes) (r : R) :
  ((write_all frames r).1 = true → raw_wire (write_all frames r).2 = raw_wire r ++ mjoin frames) ∧
  (let r' := (raw_Close r).2 in
   raw_wire (write_all frames r').2 = raw_wire r' ∧ (frames ≠ [] → (write_all frames r').1 = false)).
Proof.
  split; [|apply write_all_done, raw_closed].
  revert r. induction frames as [|data frames IH]; intros r; cbn [write_all]; [by rewrite app_nil_r|].
  destruct (raw_WriteData data r) as [[e|] r1] eqn:E; pose proof (IH r1) as IH1;
    destruct (write_all frames r1) as [ok r2]; [done|]. simpl in *. intros Hok.
  rewrite (IH1 Hok), (raw_written _ _ _ E). by rewrite app_assoc.
Qed.
End laws.

(** Over QUIC no code flushes the stream: as long as the frames do not fill the buffer
    none of them leaves, although every write succeeds; so the CONNACK of a login stays in the buffer,
    as the CONNECT of the client does ([quicConn.WritePacket] of client/conn.go writes to such a
    stream, too).  [Close] sends them. *)
Theorem quic_unflushed {S : Type} {HS : QuicStream S} {HL : QuicLaws S} (frames : list bytes) (c : quicRaw S) :
  (write_all frames c).1 = true → zlen (qs_buffered (qc_raw c) ++ mjoin frames) < qs_limit →
  let c' := (write_all frames c).2 in
  raw_wire c' = raw_wire c ∧ qs_buffered (qc_raw c') = qs_buffered (qc_raw c) ++ mjoin frames ∧
  ∀ c'', raw_Close c' = (None, c'') → raw_wire c'' = raw_wire c ++ qs_buffered (qc_raw c) ++ mjoin frames.
Proof.
  intros Hok Hlen c'.
  assert (raw_wire c' = raw_wire c ∧
    qs_buffered (qc_raw c') = qs_buffered (qc_raw c) ++ mjoin frames) as [E1 E2].
  { unfold c'. clear c'. revert c Hok Hlen. induction frames as [|data frames IH]; intros c; cbn [write_all].
    { simpl. by rewrite app_nil_r. }
    change (raw_WriteData data c) with (quicRaw_WriteData data c). unfold quicRaw_WriteData.
    destruct (qs_Write data (qc_raw c)) as [[e|] s] eqn:E.
    { by destruct (write_all frames _). }
    set (c1 := mkQuicRaw _ _ s). specialize (IH c1). destruct (write_all frames c1) as [ok c2].
    simpl in *. intros Hok Hlen. destruct (qs_buffers _ _ _ E) as [_ Hb].
    rewrite app_assoc in Hlen. destruct Hb as [Hs Hb].
    { rewrite zlen_app in Hlen. pose proof (zlen_nonneg (mjoin frames)). lia. }
    destruct IH as [IH1 IH2]; [done|by rewrite Hb|]. rewrite IH1, IH2, Hs, Hb. by rewrite <-app_assoc. }
  split_and!; [done..|]. intros c''. cbn. unfold quicRaw_Close.
  destruct (qs_Close (qc_raw c')) as [[e|] s] eqn:E; intros [= <-]. cbn.
  rewrite (qs_flushes _ _ E), E2. by change (qs_sent (qc_raw c')) with (raw_wire c'); rewrite E1.
Qed.

(** A stream that sends its buffer when it holds four bytes. *)
#[local] Instance toy_stream : QuicStream (bytes * bytes) := {|
  qs_Write := λ data s,
    if zlen (s.2 ++ data) <? 4 then (None, (s.1, s.2 ++ data)) else (None, (s.1 ++ s.2 ++ data, []));
  qs_Close := λ s, (None, (s.1 ++ s.2, []));
  qs_sent := fst; qs_buffered := snd; qs_limit := 4
|}.
#[local] Instance toy_stream_laws : QuicLaws (bytes * bytes).
Proof.
  refine (Build_QuicLaws _ _ _ _).
  - intros data [a b] s'. cbn. destruct (Z.ltb_spec (zlen (b ++ data)) 4); intros [= <-]; cbn.
    + done.
    + rewrite app_nil_r. split; [done|lia].
  - intros [a b] s'. cbn. by intros [= <-].
Qed.

Lemma quic_unflushed_witness :
  raw_wire (write_all [[x01]; [x02; x03]] (mkQuicRaw None "10.0.0.7" ([], []))).2 = [].
Proof.
  destruct (quic_unflushed [[x01]; [x02; x03]] (mkQuicRaw None "10.0.0.7" ([], []))) as (E & _ & _).
  - vm_compute. reflexivity.
  - vm_compute. reflexivity.
  - rewrite E. reflexivity.
Defined.

(** The sending of a UDP connection does not stop when it is closed: frames that are still queued
    leave, one datagram each, to the address of the login. *)
Theorem udp_after_close (refuses : bytes → option error) (frames : list bytes) (c : udpRaw) :
  us_open (ur_raw c) = true → Forall (λ data, refuses data = None) frames →
  let _ := udp_raw refuses in
  write_all frames (raw_Close c).2 =
    (true, mkUdpRaw (ur_id c) (ur_addr c)
             (mkUdpSock true (us_out (ur_raw c) ++ ((λ data, (ur_addr c, data)) <$> frames)))).
Proof.
  intros Ho Hf. cbn. destruct c as [i a [o out]]. cbn in *. subst o. revert out.
  induction Hf as [|data frames Hd Hf IH]; intros out; cbn [write_all fmap list_fmap]; [by rewrite app_nil_r|].
  unfold raw_WriteData at 1. cbn. unfold udpRaw_WriteData. cbn. rewrite Hd. rewrite IH. by rewrite <-app_assoc.
Qed.

Lemma udp_after_close_witness :
  let _ := udp_raw (λ _, None) in
  (write_all [[x01]] (raw_Close (mkUdpRaw None (mkUdpAddr "10.0.0.7" 5000) (mkUdpSock true []))).2).1 = true.
Proof.
  pose proof (udp_after_close (λ _, None) [[x01]] (mkUdpRaw None (mkUdpAddr "10.0.0.7" 5000) (mkUdpSock true []))
    eq_refl ltac:(by constructor)) as E. cbn zeta in *. rewrite E. reflexivity.
Defined.
