(* ===== verification/Endpoint.v ===== *)
(** * Endpoints (src/client: conn.go, options.go, client.go)

    The connections of a client over TLS, UDP, WebSocket and QUIC, as instances of the interface
    [Conn] next to TCP ([Client]); the options of a client; [client.New], which chooses the
    connection from the endpoint.  The results of dialling are oracles of the connection, as for
    TCP: a list of what the dials to come return, after which they fail.  What a method of a
    library does on a nil connection is the parameter [NilSocket]. *)
From S2P Require Import Prelude Errors Coder Packet Stream Queue Retry Server Options Transport Client.
Local Open Scope Z_scope.

Definition ErrClosedSocket : error := EOther "use of closed network connection".

(** ** TLS: the code of TCP over [tls.Dial] *)
Definition tlsConn : Type := tcpConn.

Definition newTLSConn (config : option tls) (ds : list (outcome error socket)) : outcome error tlsConn :=
  match config with
  | None => Panic (Explicit "tls config is nil")
  | Some _ => Ok (mkTcp None ds)
  end.

(** [newTCPConn]: [resolved] is the result of [net.ResolveTCPAddr], which is panicked with. *)
Definition newTCPConn (resolved : option error) (ds : list (outcome error socket)) : outcome error tcpConn :=
  match resolved with
  | Some e => Panic (Explicit (error_string e))
  | None => Ok (mkTcp None ds)
  end.

(** ** WebSocket

    [Close] neither looks whether there is a socket nor forgets it: a closed one stays. *)
Record wsConn := mkWs {
  ws_conn : option socket;
  ws_open : bool;
  ws_dials : list (outcome error socket)
}.

Definition newWSConn (ds : list (outcome error socket)) : wsConn := mkWs None false ds.

Definition newWSSConn (config : option tls) (ds : list (outcome error socket)) : outcome error wsConn :=
  match config with
  | None => Panic (Explicit "tls config is nil")
  | Some _ => Ok (newWSConn ds)
  end.

Definition ws_Dail (c : wsConn) : outcome error unit * wsConn :=
  match ws_dials c with
  | [] => (Err ErrDial, mkWs None false [])
  | Ok s :: ds => (Ok tt, mkWs (Some s) true ds)
  | Err e :: ds => (Err e, mkWs None false ds)
  | Panic w :: ds => (Panic w, mkWs None false ds)
  end.

(** Reading from and writing to a socket that is open or not. *)
Definition socket_read `{!GoRange uint8} (opened : bool) (s : socket) : outcome error Packet * socket :=
  if opened then
    let '(r, incoming) := packet_ReadFrom (incoming s) in
    (r, mkSocket incoming (outgoing s) (werror s))
  else (Err ErrClosedSocket, s).

Definition socket_write `{!GoRange uint8} (opened : bool) (p : Packet) (s : socket)
  : outcome error unit * socket :=
  let werr := if opened then werror s else Some ErrClosedSocket in
  match fst (packet_WriteTo 0 [] werr (outgoing s) p) with
  | Ok sent => (Ok tt, mkSocket (incoming s) sent (werror s))
  | Err e => (Err e, s)
  | Panic w => (Panic w, s)
  end.

Section conns.
Context `{!GoRange uint8, !NilSocket}.

Definition ws_Close (c : wsConn) : outcome error unit * wsConn :=
  match ws_conn c with
  | None => (nil_result, c)
  | Some s => (Ok tt, mkWs (Some s) false (ws_dials c))
  end.

Definition ws_ReadPacket (c : wsConn) : outcome error Packet * wsConn :=
  match ws_conn c with
  | None => (nil_result, c)
  | Some s => let '(r, s) := socket_read (ws_open c) s in (r, mkWs (Some s) (ws_open c) (ws_dials c))
  end.

Definition ws_WritePacket (p : Packet) (c : wsConn) : outcome error unit * wsConn :=
  match ws_conn c with
  | None => (nil_result, c)
  | Some s => let '(r, s) := socket_write (ws_open c) p s in (r, mkWs (Some s) (ws_open c) (ws_dials c))
  end.

#[export] Instance ws_Conn : Conn wsConn := {|
  Dail := ws_Dail; conn_Close := ws_Close; ReadPacket := ws_ReadPacket; WritePacket := ws_WritePacket |}.

(** ** QUIC

    [Dail] opens a UDP socket, an endpoint on it, a connection and a stream; [quic_endpoints]
    counts the endpoints that were opened and not closed, [quic_sockets] the UDP sockets. *)
Inductive quic_dial :=
| QuicNoSocket (e : error)
| QuicNoEndpoint (e : error)
| QuicNoStream (e : error)           (* [e.Dial] or [conn.NewStream] fails *)
| QuicStream (s : socket).

Record quicConn := mkQuic {
  quic_stream : option socket;
  quic_open : bool;
  quic_sockets : nat;
  quic_endpoints : nat;
  quic_dials : list quic_dial
}.

Definition newQUICConn (config : option quic) (ds : list quic_dial) : outcome error quicConn :=
  match config with
  | None => Panic (Explicit "quic config is nil")
  | Some _ => Ok (mkQuic None false 0 0 ds)
  end.

(** The stream and the endpoint of an earlier call are replaced, not closed. *)
Definition quic_Dail (c : quicConn) : outcome error unit * quicConn :=
  match quic_dials c with
  | [] => (Err ErrDial, c)
  | QuicNoSocket e :: ds =>
      (Err e, mkQuic (quic_stream c) (quic_open c) (quic_sockets c) (quic_endpoints c) ds)
  | QuicNoEndpoint e :: ds =>
      (Err e, mkQuic (quic_stream c) (quic_open c) (S (quic_sockets c)) (quic_endpoints c) ds)
  | QuicNoStream e :: ds =>
      (Err e, mkQuic (quic_stream c) (quic_open c) (S (quic_sockets c)) (S (quic_endpoints c)) ds)
  | QuicStream s :: ds =>
      (Ok tt, mkQuic (Some s) true (S (quic_sockets c)) (S (quic_endpoints c)) ds)
  end.

(** Closing the endpoint closes its socket; a second time it does nothing. *)
Definition quic_Close (c : quicConn) : outcome error unit * quicConn :=
  match quic_stream c with
  | None => (nil_result, c)
  | Some s =>
      (Ok tt, if quic_open c
              then mkQuic (Some s) false (pred (quic_sockets c)) (pred (quic_endpoints c)) (quic_dials c)
              else c)
  end.

Definition quic_ReadPacket (c : quicConn) : outcome error Packet * quicConn :=
  match quic_stream c with
  | None => (nil_result, c)
  | Some s =>
      let '(r, s) := socket_read (quic_open c) s in
      (r, mkQuic (Some s) (quic_open c) (quic_sockets c) (quic_endpoints c) (quic_dials c))
  end.

Definition quic_WritePacket (p : Packet) (c : quicConn) : outcome error unit * quicConn :=
  match quic_stream c with
  | None => (nil_result, c)
  | Some s =>
      let '(r, s) := socket_write (quic_open c) p s in
      (r, mkQuic (Some s) (quic_open c) (quic_sockets c) (quic_endpoints c) (quic_dials c))
  end.

#[export] Instance quic_Conn : Conn quicConn := {|
  Dail := quic_Dail; conn_Close := quic_Close;
  ReadPacket := quic_ReadPacket; WritePacket := quic_WritePacket |}.

(** ** UDP

    [received] is what [ReadFromUDP] will return, from whatever address; then it fails. *)
Record dgram := mkDgram { received : list (outcome error bytes); sent : list bytes; dg_werror : option error }.

Record udpConn := mkUdpConn {
  udp_cid : string;
  udp_conn : option dgram;
  udp_open : bool;
  udp_dials : list (outcome error dgram)
}.

Definition newUDPConn (resolved : option error) (cid : string) (ds : list (outcome error dgram))
  : outcome error udpConn :=
  match resolved with
  | Some e => Panic (Explicit (error_string e))
  | None => Ok (mkUdpConn cid None false ds)
  end.

Definition udpConn_Dail (c : udpConn) : outcome error unit * udpConn :=
  match udp_dials c with
  | [] => (Err ErrDial, mkUdpConn (udp_cid c) None false [])
  | Ok s :: ds => (Ok tt, mkUdpConn (udp_cid c) (Some s) true ds)
  | Err e :: ds => (Err e, mkUdpConn (udp_cid c) None false ds)
  | Panic w :: ds => (Panic w, mkUdpConn (udp_cid c) None false ds)
  end.

Definition udpConn_Close (c : udpConn) : outcome error unit * udpConn :=
  match udp_conn c with
  | None => (nil_result, c)
  | Some s =>
      (if udp_open c then Ok tt else Err ErrClosedSocket,
       mkUdpConn (udp_cid c) (Some s) false (udp_dials c))
  end.

Definition udpConn_ReadPacket (c : udpConn) : outcome error Packet * udpConn :=
  match udp_conn c with
  | None => (nil_result, c)
  | Some s =>
      if udp_open c then
        match received s with
        | [] => (Err EEOF, c)
        | data :: rest =>
            (data <~ data; Unmarshal (take (Z.to_nat MAX_UDP) data),
             mkUdpConn (udp_cid c) (Some (mkDgram rest (sent s) (dg_werror s))) true (udp_dials c))
        end
      else (Err ErrClosedSocket, c)
  end.

(** The client id is set on the caller's packet. *)
Definition stamped (c : udpConn) (p : Packet) : Packet := Packet_Set p PropertyClientID (udp_cid c).

Definition udpConn_WritePacket (p : Packet) (c : udpConn) : outcome error unit * udpConn :=
  match marshal (stamped c p) with
  | Err e => (Err e, c)
  | Panic w => (Panic w, c)
  | Ok data =>
      if MAX_UDP <? zlen data then (Err (EPacket ErrPacketSizeTooLarge), c)
      else match udp_conn c with
           | None => (nil_result, c)
           | Some s =>
               if udp_open c then
                 match dg_werror s with
                 | Some e => (Err e, c)
                 | None => (Ok tt, mkUdpConn (udp_cid c)
                     (Some (mkDgram (received s) (sent s ++ [data]) None)) true (udp_dials c))
                 end
               else (Err ErrClosedSocket, c)
           end
  end.

#[export] Instance udpConn_Conn : Conn udpConn := {|
  Dail := udpConn_Dail; conn_Close := udpConn_Close;
  ReadPacket := udpConn_ReadPacket; WritePacket := udpConn_WritePacket |}.
End conns.

(** ** The connection of an endpoint *)
Inductive anyConn :=
| CTcp (c : tcpConn)
| CTls (c : tlsConn)
| CUdp (c : udpConn)
| CWs (c : wsConn)
| CQuic (c : quicConn).

(** The package net and the libraries, per address. *)
Record network := mkNetwork {
  ResolveTCPAddr : string → option error;
  ResolveUDPAddr : string → option error;
  DialTCP : string → list (outcome error socket);
  DialTLS : string → list (outcome error socket);
  DialWS : string → list (outcome error socket);
  DialQUIC : string → list quic_dial;
  ListenUDP : list (outcome error dgram)
}.

Section any.
Context `{!GoRange uint8, !NilSocket}.

(** The methods of [tlsConn] are those of [tcpConn], word for word. *)
Definition tls_Conn : Conn tlsConn := tcp_Conn.

(** A method of the interface on the connection at hand. *)
Definition on_any {A} (f : ∀ {C}, Conn C → C → A * C) (c : anyConn) : A * anyConn :=
  match c with
  | CTcp c => let '(r, c) := f tcp_Conn c in (r, CTcp c)
  | CTls c => let '(r, c) := f tls_Conn c in (r, CTls c)
  | CUdp c => let '(r, c) := f udpConn_Conn c in (r, CUdp c)
  | CWs c => let '(r, c) := f ws_Conn c in (r, CWs c)
  | CQuic c => let '(r, c) := f quic_Conn c in (r, CQuic c)
  end.

#[export] Instance any_Conn : Conn anyConn := {|
  Dail := on_any (λ C H, @Dail C H);
  conn_Close := on_any (λ C H, @conn_Close C H);
  ReadPacket := on_any (λ C H, @ReadPacket C H);
  WritePacket := λ p, on_any (λ C H, @WritePacket C H p) |}.
End any.

(** ** Options *)
Module Cli.
Section options.
Context {B : Type} `{HB : Backoff B}.

Record options := mkOptions {
  id : option Identity;
  handler : Handler;
  retrier : option (Retrier B);
  tlsConfig : option tls;
  quicConfig : option quic;
  pingTimeout : Z;
  pingInterval : Z;
  writeTimeout : Z;
  requestTimeout : Z;
  messageTimeout : Z;
  sendQueueCapacity : Z
}.

Definition Option : Type := options → options.

(** [insecure] is the default TLS configuration, which has no certificates; [Exponential] is
    [backoff.Exponential(time.Second, 1.5)]. *)
Definition insecure : tls := mkTLSConfig 0 false false.

Definition defaults (Exponential : B) : options :=
  mkOptions None emptyHandler (Some (NewRetrier 10 Exponential)) (Some insecure)
    (Some (mkQUICConfig (Some insecure))) (Second * 5) (Second * 60) (Second * 5) (Second * 5)
    (Second * 5) 1024.

Definition newOptions (Exponential : B) (opts : list Option) : options :=
  fold_left (λ o f, f o) opts (defaults Exponential).

Definition WithID (x : option Identity) : Option := λ o,
  mkOptions x (handler o) (retrier o) (tlsConfig o) (quicConfig o) (pingTimeout o) (pingInterval o)
    (writeTimeout o) (requestTimeout o) (messageTimeout o) (sendQueueCapacity o).
Definition WithHandler (x : Handler) : Option := λ o,
  mkOptions (id o) x (retrier o) (tlsConfig o) (quicConfig o) (pingTimeout o) (pingInterval o)
    (writeTimeout o) (requestTimeout o) (messageTimeout o) (sendQueueCapacity o).
Definition WithRetrier (x : option (Retrier B)) : Option := λ o,
  mkOptions (id o) (handler o) x (tlsConfig o) (quicConfig o) (pingTimeout o) (pingInterval o)
    (writeTimeout o) (requestTimeout o) (messageTimeout o) (sendQueueCapacity o).
Definition WithTLSConfig (x : option tls) : Option := λ o,
  mkOptions (id o) (handler o) (retrier o) x (quicConfig o) (pingTimeout o) (pingInterval o)
    (writeTimeout o) (requestTimeout o) (messageTimeout o) (sendQueueCapacity o).
Definition WithQuicConfig (x : option quic) : Option := λ o,
  mkOptions (id o) (handler o) (retrier o) (tlsConfig o) x (pingTimeout o) (pingInterval o)
    (writeTimeout o) (requestTimeout o) (messageTimeout o) (sendQueueCapacity o).
Definition WithPing (timeout interval : Z) : Option := λ o,
  mkOptions (id o) (handler o) (retrier o) (tlsConfig o) (quicConfig o) timeout interval
    (writeTimeout o) (requestTimeout o) (messageTimeout o) (sendQueueCapacity o).
Definition WithKeepAlive (timeout interval : Z) : Option := λ o,
  mkOptions (id o) (handler o) (retrier o) (tlsConfig o) (quicConfig o) timeout interval
    (writeTimeout o) (requestTimeout o) (messageTimeout o) (sendQueueCapacity o).
Definition WithWriteTimeout (x : Z) : Option := λ o,
  mkOptions (id o) (handler o) (retrier o) (tlsConfig o) (quicConfig o) (pingTimeout o) (pingInterval o)
    x (requestTimeout o) (messageTimeout o) (sendQueueCapacity o).
Definition WithRequestTimeout (x : Z) : Option := λ o,
  mkOptions (id o) (handler o) (retrier o) (tlsConfig o) (quicConfig o) (pingTimeout o) (pingInterval o)
    (writeTimeout o) x (messageTimeout o) (sendQueueCapacity o).
Definition WithMessageTimeout (x : Z) : Option := λ o,
  mkOptions (id o) (handler o) (retrier o) (tlsConfig o) (quicConfig o) (pingTimeout o) (pingInterval o)
    (writeTimeout o) (requestTimeout o) x (sendQueueCapacity o).
Definition WithSendQueue (x : Z) : Option := λ o,
  mkOptions (id o) (handler o) (retrier o) (tlsConfig o) (quicConfig o) (pingTimeout o) (pingInterval o)
    (writeTimeout o) (requestTimeout o) (messageTimeout o) x.

(** The [switch] of [New]. *)
Definition new_conn (net : network) (o : options) (network address : string) : outcome error anyConn :=
  if decide (network = "ws") then Ok (CWs (newWSConn (DialWS net address)))
  else if decide (network = "wss") then
    c <~ newWSSConn (tlsConfig o) (DialWS net address); Ok (CWs c)
  else if decide (network = "tcp") then
    c <~ newTCPConn (ResolveTCPAddr net address) (DialTCP net address); Ok (CTcp c)
  else if decide (network = "tls") then
    c <~ newTLSConn (tlsConfig o) (DialTLS net address); Ok (CTls c)
  else if decide (network = "udp") then
    match id o with
    | None => Panic NilDereference
    | Some id => c <~ newUDPConn (ResolveUDPAddr net address) (ClientID id) (ListenUDP net); Ok (CUdp c)
    end
  else if decide (network = "quic") then
    c <~ newQUICConn (quicConfig o) (DialQUIC net address); Ok (CQuic c)
  else Panic (Explicit "unknown network").

(** [client.New]; the handler is what [client_run] is given. *)
Definition New (net : network) (Exponential : B) (endpoint : string) (opts : list Option) (now : Z)
  : outcome error (client anyConn B * Handler) :=
  match Split endpoint "://" with
  | [network; address] =>
      let address := if bool_decide (network = "ws" ∨ network = "wss") then endpoint else address in
      let o := newOptions Exponential opts in
      conn <~ new_conn net o network address;
      c <~ NewClient (id o) conn (retrier o) (pingInterval o) (sendQueueCapacity o) now;
      Ok (c, handler o)
  | _ => Panic (Explicit "invalid endpoint")
  end.
End options.
End Cli.

Arguments Cli.options B : clear implicits.
Arguments Cli.Option B : clear implicits.

(** ** Datagrams of a client *)
Section datagrams.
Context `{!GoRange uint8, !GoRange string, !NilSocket}.

Lemma MAX_UDP_LEN p : zlen (frame p) <= MAX_UDP → zlen (packet_body p) <= MAX_LEN.
Proof.
  unfold frame. rewrite zlen_app.
  pose proof (zlen_nonneg (frame_header (Packet_Type p) (zlen (packet_body p)))).
  unfold MAX_UDP, MID_LEN_1, MAX_LEN. lia.
Qed.

(** [r] fails with [e] when only [bs] is left. *)
Definition fails {A} (r : D A) (bs : bytes) (e : error) : Prop :=
  ∀ pre, zlen (pre ++ bs) < 2 ^ 63 → fst (r (mkDecoder (zlen pre) (pre ++ bs))) = Err e.

Lemma fails_dbind {A B} (m : D A) (k : A → D B) bs1 bs2 a e :
  reads m bs1 a → fails (k a) bs2 e → fails (dbind m k) (bs1 ++ bs2) e.
Proof.
  intros Hm Hk pre Hl. unfold dbind. rewrite Hm by done. rewrite <-zlen_app, app_assoc.
  apply Hk. by rewrite <-app_assoc.
Qed.

Lemma fails_dbind_l {A B} (m : D A) (k : A → D B) bs e : fails m bs e → fails (dbind m k) bs e.
Proof.
  intros Hm pre Hl. specialize (Hm pre Hl). unfold dbind.
  destruct (m _) as [[a|e'|w] d]; simpl in *; by simplify_eq.
Qed.

Lemma fails_ReadBytes l bs : zlen bs < l < 2 ^ 62 → fails (ReadBytes l) bs (ECoder ErrBufferTooShort).
Proof.
  intros Hl pre Hp. pose proof (zlen_nonneg bs). pose proof (zlen_nonneg pre). rewrite zlen_app in Hp.
  unfold ReadBytes. destruct (Z.eqb_spec l 0); [lia|]. cbn [pos dbuf]. rewrite zlen_app.
  rewrite wrapU_id by (unfold inU; lia). destruct (Z.ltb_spec (zlen pre + zlen bs) (zlen pre + l)); [done|lia].
Qed.

(** A frame that was cut behind its header is an error. *)
Lemma Unmarshal_cut p n : zlen (packet_body p) <= MAX_LEN → 5 <= Z.of_nat n < zlen (frame p) →
  Unmarshal (take n (frame p)) = Err (ECoder ErrBufferTooShort).
Proof.
  intros Hl Hn. pose proof (Packet_Type_small p) as Ht. pose proof (zlen_nonneg (packet_body p)) as Hb.
  destruct (frame_header_split (Packet_Type p) (zlen (packet_body p)))
    as (k & hi & h1 & ext & Hk & Hhi & Hext & Hlen & E); [done|lia|].
  unfold frame in *. rewrite E in *. set (h0 := byte_of _) in *. set (hd := [h0; h1] ++ ext) in *.
  assert (zlen hd = 2 + k) as Hhd by (unfold hd; rewrite zlen_app, Hext; done).
  rewrite zlen_app, Hhd in Hn.
  assert (take n (hd ++ packet_body p) = hd ++ take (n - length hd) (packet_body p)) as ->.
  { apply take_app_ge. unfold zlen in Hhd. lia. }
  set (b := take _ (packet_body p)). assert (zlen b < zlen (packet_body p)) as Hcut.
  { unfold b, zlen in *. rewrite length_take. lia. }
  assert (fails read_frame (hd ++ b) (ECoder ErrBufferTooShort)) as Hf.
  { unfold read_frame, hd. rewrite <-app_assoc.
    apply (fails_dbind _ _ _ _ _ _ (reads_ReadBytes [h0; h1])). rewrite <-(app_nil_l (ext ++ b)).
    apply (fails_dbind _ _ [] _ (k, hi * 256 + Z_of_byte h1)).
    { unfold h0. rewrite header_info_spec by lia. apply reads_lift. }
    cbv beta iota. apply (fails_dbind _ _ ext _ (zlen (packet_body p))).
    { by apply reads_extension. }
    apply fails_dbind_l. destruct (Z.ltb_spec 0 (zlen (packet_body p))); [|pose proof (zlen_nonneg b); lia].
    apply fails_ReadBytes. unfold MAX_LEN in Hl. lia. }
  assert (fst (read_frame (mkDecoder 0 (hd ++ b))) = Err (ECoder ErrBufferTooShort)) as Hr.
  { apply (Hf []). rewrite app_nil_l, zlen_app. unfold MAX_LEN in Hl. lia. }
  unfold Unmarshal, NewDecoder. destruct (read_frame _) as [[[hd' data]|e|w] d]; simpl in Hr; by simplify_eq.
Qed.

Lemma marshal_spec p : Packet_wf p → marshal p = Marshal_spec p.
Proof. intros Hp. apply (Marshal_ok 0 []); [by constructor|done]. Qed.

Definition with_dgram (s : dgram) (c : udpConn) : udpConn :=
  mkUdpConn (udp_cid c) (Some s) true (udp_dials c).

(** C26 (datagrams): a client over UDP stamps its client id on every packet; what fits into a
    datagram reaches the server as a packet of its connection, from whatever address, and what
    does not fit is refused with [ErrPacketSizeTooLarge]; reading gives back a packet of the
    server that fits, but one that does not fit, which the server sends all the same, is cut and
    is a read error, for which the client gives up its connection. *)
Theorem udp_datagrams c s : udp_conn c = Some s → udp_open c = true → dg_werror s = None →
  (∀ p, Packet_wf (stamped c p) →
     let d := frame (stamped c p) in
     if zlen d <=? MAX_UDP then
       udpConn_WritePacket p c = (Ok tt, with_dgram (mkDgram (received s) (sent s ++ [d]) None) c) ∧
       ∀ h capacity addr u i w', Packet_Type p ≠ CONNECT → GetConn (udp_cid c) (udp_server u) = Some i →
         RecvPacket h i (stamped c p) (udp_server u) = Some w' →
         ∃ u1, udp_listen addr d u = Ok u1 ∧
           steps (udp_step h capacity) u1 (mkUdp (udp_addr u) (udp_got u) (udp_recv u) w')
     else udpConn_WritePacket p c = (Err (EPacket ErrPacketSizeTooLarge), c)) ∧
  (∀ p rest, Packet_wf p → zlen (packet_body p) <= MAX_LEN → received s = Ok (frame p) :: rest →
     udpConn_ReadPacket c =
       (if zlen (frame p) <=? MAX_UDP then Ok p else Err (ECoder ErrBufferTooShort),
        with_dgram (mkDgram rest (sent s) None) c)).
Proof.
  intros Hs Ho Hw. split.
  - intros p Hp d. unfold udpConn_WritePacket. rewrite marshal_spec by done. unfold Marshal_spec.
    fold d. destruct (Z.leb_spec (zlen d) MAX_UDP) as [Hd|Hd].
    + rewrite (proj2 (Z.leb_le _ _)) by (by apply MAX_UDP_LEN). cbv iota.
      rewrite (proj2 (Z.ltb_ge _ _)), Hs, Ho, Hw by done.
      split; [done|]. intros h capacity addr u i w' Ht Hi Hr.
      eapply udp_attributed; [done|done| | |done|done].
      * by destruct p.
      * unfold stamped, Packet_Get. destruct p; apply lookup_insert_eq.
    + destruct (zlen (packet_body (stamped c p)) <=? MAX_LEN); [|done]. by rewrite (proj2 (Z.ltb_lt _ _)).
  - intros p rest Hp Hl Hr. unfold udpConn_ReadPacket. rewrite Hs, Ho, Hr, Hw. cbn [obind]. f_equal.
    destruct (Z.leb_spec (zlen (frame p)) MAX_UDP) as [Hd|Hd].
    + rewrite take_ge by (unfold zlen, MAX_UDP, MID_LEN_1 in *; lia).
      rewrite <-(app_nil_r (frame p)). apply Unmarshal_frame; [done|done|by vm_compute].
    + apply Unmarshal_cut; [done|]. unfold MAX_UDP, MID_LEN_1 in *. lia.
Qed.
End datagrams.

(** ** After [Close] *)
Section after_close.
Context {C B : Type} `{HC : Conn C} `{HB : Backoff B}.

Lemma client_run_cons h a acts c1 (c : client C B) r : client_step h a c = Some (Ok c1) →
  client_run h acts c1 = r → client_run h (a :: acts) c = r.
Proof. intros E <-. cbn [client_run]. by rewrite E. Qed.

(** The call of a timer is in [reconnect]. *)
Definition reopening id (x : C) (r : Retrier B) q k pg ib sd p wf dl ch : client C B :=
  mkClient id x true StatusOpening (Some r) true q k 0 pg ib sd [] [mkAttempt true p] [] wf dl ch.

(** [Close] closes the connection but not the client's status: the read
    of [recv] that fails for it is taken for a lost connection, and an open client whose retrier
    grants an attempt dials and logs in again; the closed client is open, its queue closed. *)
Theorem closed_client_reconnects h (c : client C B) (r r' : Retrier B) d x1 x2 x3 x4 x5 e :
  cl_status c = StatusOpened → cl_closed c = false → cl_retrying c = false → cl_id c ≠ None →
  receivers c = 1%nat → attempts c = [] → timers c = [] → closings c = [] →
  conn_Close (cl_conn c) = (Ok tt, x1) → ReadPacket x1 = (Err e, x2) → e ≠ EReason CloseReasonNormal →
  cl_retrier c = Some r → Retry e r = ((d, true), r') →
  Dail x2 = (Ok tt, x3) → WritePacket (PConnect (NewConnect (cl_id c))) x3 = (Ok tt, x4) →
  ReadPacket x4 = (Ok (PConnack (NewConnack ConnectAccepted)), x5) →
  ∃ c', client_run h [CClose; CRecv; CClosing 0; CTimer 0; CAttempt 0; CAttempt 0; CAttempt 0; CAttempt 0] c
          = Some (Ok c') ∧
    cl_closed c' = true ∧ IsReady c' = true ∧ closed (cl_queue c') = true ∧
    KeepAlive.stoped (cl_keepalive c') = false.
Proof.
  intros Hst Hcl Hre Hid Hrc Ha Ht Hclo Hx1 Hx2 He Hr Hret Hx3 Hx4 Hx5.
  destruct c as [id conn cl st rt rg q ka rc pg ib sd tm at0 cls wf dl ch].
  cbn [cl_id cl_conn cl_closed cl_status cl_retrier cl_retrying receivers timers attempts closings] in *. subst.
  set (k := KeepAlive.Stop ka). set (q' := Close_now q).
  eexists. split.
  - apply (client_run_cons _ _ _ (mkClient id x1 true StatusOpened (Some r) false q' k 1 pg ib sd [] [] [] wf dl ch)).
    { cbn [client_step]. unfold client_Close. simpl. by rewrite Hx1. }
    apply (client_run_cons _ _ _ (mkClient id x2 true StatusOpened (Some r) false q' k 0 pg ib sd [] [] [e] wf dl ch)).
    { cbn [client_step]. unfold recv_step. simpl. by rewrite Hx2. }
    apply (client_run_cons _ _ _ (mkClient id x2 true StatusOpening (Some r') true q' (KeepAlive.Stop k) 0 pg ib sd
      [d] [] [] wf (dl ++ [d]) (ch ++ [StatusOpening]))).
    { cbn [client_step]. unfold closing_step. simpl. unfold tryClose. simpl.
      rewrite !decide_False, Hret by done. reflexivity. }
    apply (client_run_cons _ _ _ (reopening id x2 r' q' (KeepAlive.Stop k) pg ib sd AtDial wf (dl ++ [d]) (ch ++ [StatusOpening]))).
    { reflexivity. }
    apply (client_run_cons _ _ _ (reopening id x3 r' q' (KeepAlive.Stop k) pg ib sd AtWrite wf (dl ++ [d]) (ch ++ [StatusOpening]))).
    { cbn [client_step]. unfold attempt_step. simpl. by rewrite Hx3. }
    apply (client_run_cons _ _ _ (reopening id x4 r' q' (KeepAlive.Stop k) pg ib sd AtRead wf (dl ++ [d]) (ch ++ [StatusOpening]))).
    { cbn [client_step]. unfold attempt_step. simpl. by rewrite Hx4. }
    apply (client_run_cons _ _ _ (reopening id x5 r' q' (KeepAlive.Stop k) pg ib sd AtOpened wf (dl ++ [d]) (ch ++ [StatusOpening]))).
    { cbn [client_step]. unfold attempt_step. simpl. by rewrite Hx5. }
    eapply client_run_cons; [reflexivity|reflexivity].
  - split_and!; [done|done| |apply Start_stoped]. simpl. unfold q', Close_now. by destruct (closed q) eqn:E.
Qed.
End after_close.

(** ** A connection that cannot be closed *)
Section unclosable.
Context {C B : Type} `{HC : Conn C} `{HB : Backoff B}.

(** States of a connection without a socket, where the network cannot be reached and the
    library's [Close] panics. *)
Context (U : C → Prop) (w : go_panic).
Hypothesis dial_fails : ∀ c, U c → ∃ e c', Dail c = (Err e, c') ∧ e ≠ EReason CloseReasonNormal ∧ U c'.
Hypothesis close_panics : ∀ c, U c → fst (conn_Close c) = Panic w.
Hypothesis read_keeps : ∀ c, U c → U (snd (ReadPacket c)).
Hypothesis write_keeps : ∀ p c, U c → U (snd (WritePacket p c)).

Definition unclosed (c : client C B) : Prop := U (cl_conn c) ∧ cl_status c ≠ StatusClosed.

Lemma unclosed_setStatus s c c' : unclosed c → setStatus s c = Ok c' → unclosed c'.
Proof using close_panics.
  intros [HU Hs]. unfold setStatus. destruct (decide _); [by intros [= <-]|]. destruct s.
  - intros [= <-]. by split.
  - pose proof (close_panics (cl_conn c) HU) as Hp. simpl. destruct (conn_Close (cl_conn c)) as [r x].
    simpl in Hp. by rewrite Hp.
  - intros [= <-]. by split.
  - intros [= <-]. by split.
  - intros [= <-]. by split.
Qed.

Lemma unclosed_tryClose e c c' : unclosed c → tryClose e c = Ok c' → unclosed c'.
Proof using close_panics.
  intros Hc. unfold tryClose. destruct (cl_retrying c); [by intros [= <-]|].
  do 2 (destruct (decide _); [by intros [= <-]|]). destruct (decide _); [by apply unclosed_setStatus|].
  destruct (cl_retrier c) as [r|]; [|by apply unclosed_setStatus].
  destruct (Retry e r) as [[delay []] r'].
  - destruct (setStatus _ _) as [c1| |] eqn:E; [|done..]. apply unclosed_setStatus in E; [|by destruct Hc].
    intros [= <-]. by destruct E.
  - apply unclosed_setStatus. by destruct Hc.
Qed.

Lemma unclosed_attempt_fail i a e c c' : unclosed c → attempt_fail i a e c = Ok c' → unclosed c'.
Proof.
  intros [HU Hs]. unfold attempt_fail. destruct (by_timer a); [by intros [= <-]|].
  destruct (cl_retrier _); by intros [= <-].
Qed.

Lemma unclosed_attempt i c c' : unclosed c → attempt_step i c = Some (Ok c') → unclosed c'.
Proof using All.
  intros Hc. unfold attempt_step. destruct (attempts c !! i) as [a|]; [|done]. simpl.
  intros E. apply (inj Some) in E. revert E. destruct Hc as [HU Hs].
  assert (∀ x p, U x → unclosed (advance i a p (with_conn x c))) as Hadv by done.
  assert (∀ x e, U x → attempt_fail i a e (with_conn x c) = Ok c' → unclosed c') as Hfail
    by (intros x e Hx; by apply unclosed_attempt_fail).
  destruct (at_ a).
  - destruct (setStatus _ _) as [c1| |] eqn:E; [|done..]. apply unclosed_setStatus in E; [|done].
    intros [= <-]. by destruct E.
  - destruct (dial_fails (cl_conn c) HU) as (e & x & -> & _ & Hx). by apply Hfail.
  - pose proof (write_keeps (PConnect (NewConnect (cl_id c))) (cl_conn c) HU) as Hx.
    destruct (WritePacket _ _) as [[] x]; [intros [= <-]; by apply Hadv|by apply Hfail|done].
  - pose proof (read_keeps (cl_conn c) HU) as Hx.
    destruct (ReadPacket _) as [[p| |] x]; [|by apply Hfail|done].
    destruct (check_ack p); [by apply Hfail|]. intros [= <-]. by apply Hadv.
  - by apply unclosed_setStatus.
Qed.

Lemma unclosed_runner t c c' : unclosed c → runner_step t c = Some (Ok c') → unclosed c'.
Proof using All.
  intros [HU Hs]. unfold runner_step.
  assert ((q ← qstep (if t then ARunTasks else ARun) (cl_queue c); Some (@Ok error _ (with_queue q c))) =
    Some (Ok c') → unclosed c') as Hother by (destruct (qstep _ _); simpl; [|done]; by intros [= <-]).
  destruct (write_failed c) as [e|]; destruct (runner (cl_queue c)) as [| |j p|]; try done.
  - destruct (tryClose _ _) as [c1| |] eqn:E; [|done..]. apply unclosed_tryClose in E; [|done].
    intros [= <-]. by destruct E.
  - destruct (IsReady c); [|by intros [= <-]]. pose proof (write_keeps p (cl_conn c) HU) as Hx.
    destruct (WritePacket _ _) as [[] x]; by intros [= <-].
Qed.

Lemma unclosed_step h a c c' : unclosed c → client_step h a c = Some (Ok c') → unclosed c'.
Proof using All.
  intros Hc. destruct Hc as [HU Hs]. assert (unclosed c) as Hc by done.
  destruct a as [|i|i|i|ctx m|i|t| |i|r|i|t|]; cbn [client_step].
  - intros [= <-]. unfold client_Connect. by destruct (cl_status c) eqn:E; split; simpl; rewrite ?E.
  - by apply unclosed_attempt.
  - unfold timer_fire. destruct (timers c !! i); [|done]. simpl. intros [= <-]. by destruct (decide _).
  - unfold closing_step. destruct (closings c !! i); [|done]. simpl. intros E. apply (inj Some) in E.
    by apply unclosed_tryClose in E.
  - unfold client_SendMessage. destruct (IsReady c); [|by intros [= <-]].
    destruct (Push_now _ _ _ _) as [[r q]|]; [|done]. simpl. by intros [= <-].
  - unfold client_push_step. destruct (sending c !! i) as [[j p]|]; [|done]. simpl.
    destruct (Push_now _ _ _ _) as [[r q]|]; [|done]. simpl. by intros [= <-].
  - by apply unclosed_runner.
  - unfold recv_step. destruct (receivers c); [done|]. pose proof (read_keeps (cl_conn c) HU) as Hx.
    destruct (ReadPacket _) as [[] x]; by intros [= <-].
  - unfold handlePacket. destruct (inbox c !! i) as [p|]; [|done]. simpl.
    destruct p; try (by intros [= <-]); unfold sendPacket.
    + destruct (response_to h _); [|done..]. destruct (IsReady _); by intros [= <-].
    + destruct (IsReady _); by intros [= <-].
  - unfold ping_done. destruct (pinging c); [done|]. simpl. intros [= <-].
    by destruct r as [e|]; [destruct (is_timeout e)|].
  - unfold keepalive_step. destruct (KeepAlive.run i _); [|done]. simpl. intros [= <-]. by destruct (_ && _).
  - by intros [= <-].
  - unfold client_Close. destruct (cl_closed c); [by intros [= <-]|]. simpl.
    pose proof (close_panics (cl_conn c) HU) as Hp. destruct (conn_Close (cl_conn c)) as [r x].
    simpl in Hp. by rewrite Hp.
Qed.

Lemma unclosed_run h acts : ∀ c c', unclosed c → client_run h acts c = Some (Ok c') → unclosed c'.
Proof using All.
  induction acts as [|a acts IH]; intros c c' Hc; cbn [client_run]; [by intros [= <-]|].
  destruct (client_step h a c) as [[c1| |]|] eqn:E; [|done..]. apply IH. by eapply unclosed_step.
Qed.

(** Retrying: [tryClose] has the failure [e], [k] attempts were granted. *)
Definition failing id x lim k b q ka cl pg ib sd e wf dl ch : client C B :=
  mkClient id x cl StatusOpening (Some (mkRetrier lim k None b)) false q ka 0 pg ib sd [] [] [e] wf dl ch.

Lemma failing_crashes h id lim b q ka cl pg ib sd wf : id ≠ None → lim < 2 ^ 62 →
  ∀ n, 0 <= n → ∀ k x e dl ch, U x → e ≠ EReason CloseReasonNormal → 0 <= k → lim - k = n →
  ∃ acts, client_run h acts (failing id x lim k b q ka cl pg ib sd e wf dl ch) = Some (Panic w).
Proof using dial_fails close_panics.
  intros Hid Hlim. refine (natlike_ind _ _ _).
  - intros k x e dl ch Hx He Hk Hn. exists [CClosing 0]. cbn [client_run client_step].
    unfold closing_step. simpl. unfold tryClose. simpl. rewrite !decide_False by done.
    unfold Retry. simpl. rewrite (proj2 (Z.leb_le _ _)) by lia. unfold setStatus. simpl.
    pose proof (close_panics x Hx) as Hp. destruct (conn_Close x) as [r x']. simpl in Hp. by rewrite Hp.
  - intros n Hn0 IH k x e dl ch Hx He Hk Hn. destruct (dial_fails x Hx) as (e' & x' & Ed & He' & Hx').
    destruct (IH (k + 1) x' e' (dl ++ [Next b (k + 1)]) ch Hx' He' ltac:(lia) ltac:(lia)) as [acts Hacts].
    exists ([CClosing 0; CTimer 0; CAttempt 0] ++ acts).
    apply (client_run_cons _ _ _ (mkClient id x cl StatusOpening (Some (mkRetrier lim (k + 1) None b)) true
      q ka 0 pg ib sd [Next b (k + 1)] [] [] wf (dl ++ [Next b (k + 1)]) ch)).
    { cbn [client_step]. unfold closing_step. simpl. unfold tryClose. simpl. rewrite !decide_False by done.
      unfold Retry. simpl. rewrite (proj2 (Z.leb_gt _ _)) by lia. rewrite wrapS_id by (unfold inS; lia).
      reflexivity. }
    apply (client_run_cons _ _ _ (mkClient id x cl StatusOpening (Some (mkRetrier lim (k + 1) None b)) true
      q ka 0 pg ib sd [] [mkAttempt true AtDial] [] wf (dl ++ [Next b (k + 1)]) ch)).
    { reflexivity. }
    eapply client_run_cons; [|exact Hacts].
    cbn [client_step]. unfold attempt_step. simpl. rewrite Ed. reflexivity.
Qed.

(** A client whose server is never reached is never closed, and in some run it panics. *)
Lemma unclosable_crashes h id x lim b ping capacity now c0 : 0 <= lim < 2 ^ 62 → U x →
  NewClient (Some id) x (Some (NewRetrier lim b)) ping capacity now = Ok c0 →
  (∀ acts c, client_run h acts c0 = Some (Ok c) → cl_status c ≠ StatusClosed) ∧
  ∃ acts, client_run h acts c0 = Some (Panic w).
Proof using All.
  intros Hlim Hx Hnew. unfold NewClient in Hnew. destruct (Queue.New capacity) as [q| |] eqn:Eq; simplify_eq/=.
  set (ka := KeepAlive.New ping now). split.
  - intros acts c Hrun. apply unclosed_run in Hrun; [by destruct Hrun|done].
  - destruct (dial_fails x Hx) as (e & x' & Ed & He & Hx').
    destruct (failing_crashes h (Some id) lim b q (KeepAlive.Stop ka) false 0 [] [] None ltac:(done) ltac:(lia)
      lim ltac:(lia) 0 x' e [] [StatusOpening] Hx' He ltac:(done) ltac:(lia)) as [acts Hacts].
    exists ([CConnect; CAttempt 0; CAttempt 0] ++ acts).
    eapply client_run_cons; [reflexivity|].
    apply (client_run_cons _ _ _ (mkClient (Some id) x false StatusOpening (Some (NewRetrier lim b)) false
      q (KeepAlive.Stop ka) 0 0 [] [] [] [mkAttempt false AtDial] [] None [] [StatusOpening])).
    { reflexivity. }
    eapply client_run_cons; [|exact Hacts].
    cbn [client_step]. unfold attempt_step. simpl. rewrite Ed. reflexivity.
Qed.
End unclosable.

Section crashes.
Context {B : Type} `{HB : Backoff B} `{!GoRange uint8, !NilSocket}.

Definition ws_unreachable (c : wsConn) : Prop :=
  ws_conn c = None ∧ Forall (λ o, ∃ e, o = Err e ∧ e ≠ EReason CloseReasonNormal) (ws_dials c).

(** Whether a dial fails, and whether it opened an endpoint. *)
Definition quic_failure (d : quic_dial) : option error :=
  match d with QuicNoSocket e | QuicNoEndpoint e | QuicNoStream e => Some e | QuicStream _ => None end.

Definition opens_endpoint (d : quic_dial) : bool :=
  match d with QuicNoStream _ | QuicStream _ => true | _ => false end.

Definition quic_unreachable (c : quicConn) : Prop :=
  quic_stream c = None ∧
  Forall (λ d, ∃ e, quic_failure d = Some e ∧ e ≠ EReason CloseReasonNormal) (quic_dials c).

Lemma ws_dial_fails c : ws_unreachable c → ∃ e c', Dail c = (Err e, c') ∧
  e ≠ EReason CloseReasonNormal ∧ ws_unreachable c'.
Proof.
  intros [Hn Hds]. simpl. unfold ws_Dail. destruct (ws_dials c) as [|d ds]; [by exists ErrDial, (mkWs None false [])|].
  apply Forall_cons in Hds as [(e & -> & He) Hds]. by exists e, (mkWs None false ds).
Qed.

Lemma quic_dial_fails c : quic_unreachable c → ∃ e c', Dail c = (Err e, c') ∧
  e ≠ EReason CloseReasonNormal ∧ quic_unreachable c'.
Proof.
  intros [Hn Hds]. simpl. unfold quic_Dail. destruct (quic_dials c) as [|d ds] eqn:Ed.
  { exists ErrDial, c. split_and!; [done..|]. split; [done|]. by rewrite Ed. }
  apply Forall_cons in Hds as [(e & Ee & He) Hds]. destruct d; simplify_eq/=; eexists _, _; done.
Qed.

(** Over WebSocket and QUIC [Close] calls the library without looking
    whether there is a connection; where that panics, a client whose server is never reached
    does not end closed, as over TCP: it is never closed, and giving up panics. *)
Theorem unreachable_crashes h id (lim : Z) (b : B) ping capacity now w :
  0 <= lim < 2 ^ 62 → nil_socket = inr w →
  (∀ x c0, ws_unreachable x →
     NewClient (Some id) x (Some (NewRetrier lim b)) ping capacity now = Ok c0 →
     (∀ acts c, client_run h acts c0 = Some (Ok c) → cl_status c ≠ StatusClosed) ∧
     ∃ acts, client_run h acts c0 = Some (Panic w)) ∧
  (∀ x c0, quic_unreachable x →
     NewClient (Some id) x (Some (NewRetrier lim b)) ping capacity now = Ok c0 →
     (∀ acts c, client_run h acts c0 = Some (Ok c) → cl_status c ≠ StatusClosed) ∧
     ∃ acts, client_run h acts c0 = Some (Panic w)).
Proof.
  intros Hlim Hnil. assert (∀ A, nil_result (A := A) = Panic w) as Hn
    by (intros A; unfold nil_result; by rewrite Hnil).
  split; intros x c0 Hx Hnew.
  - eapply (unclosable_crashes ws_unreachable w); [exact ws_dial_fails| | | |done..].
    + intros c [Hc _]. simpl. unfold ws_Close. by rewrite Hc, Hn.
    + intros c [Hc Hd]. simpl. unfold ws_ReadPacket. by rewrite Hc.
    + intros p c [Hc Hd]. simpl. unfold ws_WritePacket. by rewrite Hc.
  - eapply (unclosable_crashes quic_unreachable w); [exact quic_dial_fails| | | |done..].
    + intros c [Hc _]. simpl. unfold quic_Close. by rewrite Hc, Hn.
    + intros c [Hc Hd]. simpl. unfold quic_ReadPacket. by rewrite Hc.
    + intros p c [Hc Hd]. simpl. unfold quic_WritePacket. by rewrite Hc.
Qed.

(** Every dial over QUIC that gets as far as an endpoint leaves it open, whatever becomes of the
    connection: the next dial does not close it, and [Close] closes at most one. *)
Theorem quic_endpoints_leak (ds : list quic_dial) (c : quicConn) : quic_dials c = ds →
  let c' := fold_left (λ c _, snd (quic_Dail c)) ds c in
  let n := (quic_endpoints c + length (filter (λ d, opens_endpoint d = true) ds))%nat in
  quic_endpoints c' = n ∧ (pred n <= quic_endpoints (snd (quic_Close c')))%nat.
Proof.
  revert c. induction ds as [|d ds IH]; intros c Hds.
  - rewrite filter_nil, Nat.add_0_r. split; [done|]. simpl. unfold quic_Close.
    destruct (quic_stream c); simpl; [|lia]. destruct (quic_open c); simpl; lia.
  - cbn [fold_left]. assert (quic_dials (snd (quic_Dail c)) = ds ∧
      quic_endpoints (snd (quic_Dail c)) = (quic_endpoints c + if opens_endpoint d then 1 else 0)%nat) as [E1 E2].
    { unfold quic_Dail. rewrite Hds. destruct d; simpl; split; try done; lia. }
    destruct (IH _ E1) as [H1 H2]. rewrite E2 in H1, H2. rewrite filter_cons.
    destruct (opens_endpoint d); [rewrite decide_True by done|rewrite decide_False by done];
      simpl in *; rewrite H1; split; lia.
Qed.
End crashes.

(** ** Construction *)
Section construction.
Context {B : Type} `{HB : Backoff B}.

(** The endpoints [New] makes a connection for. *)
Definition dialable (net : network) (o : Cli.options B) (n a : string) : Prop :=
  n = "ws" ∨ (n = "wss" ∧ Cli.tlsConfig o ≠ None) ∨ (n = "tcp" ∧ ResolveTCPAddr net a = None) ∨
  (n = "tls" ∧ Cli.tlsConfig o ≠ None) ∨
  (n = "udp" ∧ Cli.id o ≠ None ∧ ResolveUDPAddr net a = None) ∨ (n = "quic" ∧ Cli.quicConfig o ≠ None).

Lemma new_conn_total net (o : Cli.options B) n a e : Cli.new_conn net o n a ≠ Err e.
Proof.
  unfold Cli.new_conn, newWSSConn, newTCPConn, newTLSConn, newUDPConn, newQUICConn.
  repeat (case_match; simpl; try done).
Qed.

Lemma new_conn_dialable net (o : Cli.options B) n a : (∃ c, Cli.new_conn net o n a = Ok c) ↔ dialable net o n a.
Proof.
  unfold Cli.new_conn, dialable, newWSSConn, newTCPConn, newTLSConn, newUDPConn, newQUICConn.
  repeat (destruct (decide _) as [->|?]);
    repeat match goal with |- context [match ?x with Some _ => _ | None => _ end] => destruct x eqn:? end;
    simpl; split; intros H; try (destruct H as [? [=]]); try (by eexists); naive_solver.
Qed.

(** [New] returns a client exactly for an endpoint of the form network://address
    with a known network whose connection can be made - over UDP only with an identity - and a
    positive queue; otherwise it panics.  The client starts in status Unknown with the identity
    of the options. *)
Theorem New_spec net (Exponential : B) endpoint opts now :
  let o := Cli.newOptions Exponential opts in
  (∀ e, Cli.New net Exponential endpoint opts now ≠ Err e) ∧
  ((∃ r, Cli.New net Exponential endpoint opts now = Ok r) ↔
   ∃ n a, Split endpoint "://" = [n; a] ∧ dialable net o n a ∧ 1 <= Cli.sendQueueCapacity o) ∧
  (∀ c h, Cli.New net Exponential endpoint opts now = Ok (c, h) →
     cl_status c = StatusUnknown ∧ cl_id c = Cli.id o ∧ cl_retrier c = Cli.retrier o ∧ h = Cli.handler o).
Proof.
  intros o. unfold Cli.New. fold o.
  destruct (Split endpoint "://") as [|n [|a [|? ?]]];
    [split_and!; [done|split; [by intros [? [=]]|naive_solver]|done]..| |
     split_and!; [done|split; [by intros [? [=]]|naive_solver]|done]].
  set (a' := if bool_decide (n = "ws" ∨ n = "wss") then endpoint else a).
  assert (dialable net o n a' ↔ dialable net o n a) as Ha.
  { unfold a', dialable. case_bool_decide as Hn; [|done].
    destruct Hn as [-> | ->]; split; intros H; naive_solver. }
  pose proof (new_conn_dialable net o n a') as Hd. rewrite Ha in Hd.
  destruct (Cli.new_conn net o n a') as [conn|e|w] eqn:E; simpl.
  - unfold NewClient, Queue.New. destruct (Z.ltb_spec (Cli.sendQueueCapacity o) 1) as [Hq|Hq]; simpl.
    + split_and!; [done| |done]. split; [by intros [? [=]]|]. intros (? & ? & _ & _ & ?). lia.
    + split_and!; [done| |by intros c h [= <- <-]]. split; [|by eexists].
      intros _. exists n, a. split_and!; [done| |done]. apply Hd. by exists conn.
  - by apply new_conn_total in E.
  - split_and!; [done| |done]. split; [by intros [? [=]]|]. intros (n0 & a0 & [= <- <-] & Hdi & _).
    by apply Hd in Hdi as [? [=]].
Qed.
End construction.

(** ** Concrete clients *)
#[local] Existing Instances range_forward sample_nil.

Definition open_dgram : dgram := mkDgram [Ok (frame sample_message)] [] None.

Definition phone_conn : udpConn := mkUdpConn "phone" (Some open_dgram) true [].

Lemma udp_datagrams_witness :
  fst (@udpConn_ReadPacket range_forward sample_nil phone_conn) = Ok sample_message ∧
  ∃ u1 u2, udp_listen "198.51.100.7:9" (frame (stamped phone_conn (PPing NewPing))) alice_udp = Ok u1 ∧
    steps (udp_step echo_handlers 8) u1 u2.
Proof.
  destruct (@udp_datagrams range_forward range_forward sample_nil phone_conn open_dgram
    ltac:(done) ltac:(done) ltac:(done)) as [Hw Hr].
  split.
  - rewrite (Hr sample_message []); [done|vm_decide|by vm_compute|done].
  - pose proof (Hw (PPing NewPing) ltac:(vm_decide)) as Hp. cbv zeta in Hp.
    rewrite (proj2 (Z.leb_le _ _)) in Hp by (by vm_compute). destruct Hp as [_ Hp].
    destruct (RecvPacket echo_handlers 0 (stamped phone_conn (PPing NewPing)) (udp_server alice_udp))
      as [w'|] eqn:Er; [|by vm_compute in Er].
    destruct (Hp echo_handlers 8 "198.51.100.7:9" alice_udp 0%nat w') as (u1 & E & Hs);
      [done|by vm_compute|done|]. by eexists u1, _.
Defined.

(** The client of [Client], connected over TCP, with a second server to dial. *)
Lemma closed_client_reconnects_witness :
  cl_status (sample_after connect_actions) = StatusOpened ∧
  ∃ c', client_run emptyHandler
      [CClose; CRecv; CClosing 0; CTimer 0; CAttempt 0; CAttempt 0; CAttempt 0; CAttempt 0]
      (sample_after connect_actions) = Some (Ok c') ∧ cl_closed c' = true ∧ IsReady c' = true.
Proof.
  split; [by vm_compute|].
  destruct (closed_client_reconnects (HC := @tcp_Conn range_forward sample_nil) emptyHandler
    (sample_after connect_actions) (NewRetrier 2 ConstantD) (mkRetrier 2 1 None ConstantD)
    (Second * 3) (mkTcp None [Ok accepting]) (mkTcp None [Ok accepting]) (mkTcp (Some accepting) [])
    (snd (@tcp_WritePacket range_forward sample_nil (PConnect (NewConnect (Some sample_id)))
            (mkTcp (Some accepting) [])))
    (mkTcp (Some (mkSocket [] (frame (PConnect (NewConnect (Some sample_id)))) None)) [])
    (EOther "invalid argument")) as (c' & Hrun & Hc & Hr & _);
    try (vm_compute; reflexivity); [vm_compute; discriminate|discriminate|].
  exists c'. split_and!; [exact Hrun|exact Hc|exact Hr].
Defined.

Definition crash_nil : NilSocket := {| nil_socket := inr NilDereference |}.

Lemma unreachable_crashes_witness :
  ∃ c0, @NewClient wsConn constantBackoff (Some sample_id) (newWSConn [])
      (Some (NewRetrier 10 ConstantD)) (Second * 60) 8 0 = Ok c0 ∧
    ∃ acts, @client_run wsConn constantBackoff (@ws_Conn range_forward crash_nil) constant_Backoff emptyHandler
      acts c0 = Some (Panic NilDereference).
Proof.
  eexists. split; [reflexivity|].
  destruct (proj1 (@unreachable_crashes constantBackoff constant_Backoff range_forward crash_nil emptyHandler
    sample_id 10 ConstantD (Second * 60) 8 0 NilDereference ltac:(lia) eq_refl) (newWSConn []) _
    ltac:(by split) eq_refl) as [_ Hc]. exact Hc.
Defined.

(** A lost connection and one that is closed, two endpoints: one stays. *)
Lemma quic_endpoints_leak_witness :
  (1 <= quic_endpoints (snd (@quic_Close crash_nil (fold_left (λ c _, snd (quic_Dail c))
     [QuicStream accepting; QuicStream accepting] (mkQuic None false 0 0 [QuicStream accepting; QuicStream accepting])))))%nat.
Proof.
  exact (proj2 (@quic_endpoints_leak crash_nil [QuicStream accepting; QuicStream accepting]
    (mkQuic None false 0 0 [QuicStream accepting; QuicStream accepting]) eq_refl)).
Defined.

(** An endpoint of the documentation, and a UDP client without identity. *)
Definition sample_network : network :=
  mkNetwork (λ _, None) (λ _, None) (λ _, []) (λ _, []) (λ _, []) (λ _, []) [].

Lemma New_spec_witness :
  (∃ r, Cli.New sample_network ConstantD "tcp://127.0.0.1:1883" [Cli.WithID (Some sample_id)] 0 = Ok r) ∧
  ¬ ∃ r, Cli.New sample_network ConstantD "udp://127.0.0.1:1883" [] 0 = Ok r.
Proof.
  split.
  - apply (New_spec sample_network ConstantD "tcp://127.0.0.1:1883" [Cli.WithID (Some sample_id)] 0).
    exists "tcp", "127.0.0.1:1883". split_and!; [by vm_compute| |done]. right; right; left. done.
  - rewrite (proj1 (proj2 (New_spec sample_network ConstantD "udp://127.0.0.1:1883" [] 0))).
    intros (n & a & E & Hd & _). vm_compute in E. injection E as <- <-.
    destruct Hd as [?|[[? _]|[[? _]|[[? _]|[(_ & Hi & _)|[? _]]]]]]; done.
Defined.
