(* ===== verification/Lifecycle.v ===== *)
(** * Starting and shutting down (src/server/server.go, src/cluster: broker.go, listener.go,
    peer_server.go, cluster.go)

    [Server.Shutdown] as a transition system over the server: it is called once, closes idle
    connections in passes until none is left, and can be interrupted between passes, while the
    rest of the server goes on.  A pass is one step.  Then the shutdown of a broker with all its
    listeners and their transports, its peer server and its cluster with the discovery. *)
From S2P Require Import Prelude Errors Coder Packet Queue Safe Registry Client Server Sessions Broker Raft Options Endpoint.
Local Open Scope Z_scope.

(** ** Shutting down a server *)

(** Where the call of [Shutdown] is: not made, before a pass, in the pause after a pass, returned. *)
Inductive shutdown_phase :=
| ShNone
| ShPass (err : option error)
| ShWait (err : option error) (wait : Z)
| ShReturned (err : option error).

Record closing_server := mkClosing { cs_phase : shutdown_phase; cs_server : world }.

Section shutdown.
Context `{!GoRange uint8, !GoRange string} (h : handlers) (capacity : Z).

(** [transport_err] is what closing the transport returns, [ctx_err] the error of the context. *)
Inductive shutdown_step (transport_err : option error) : closing_server → closing_server → Prop :=
| sh_begin w w' : Shutdown_begin w = Ok w' →
    shutdown_step transport_err (mkClosing ShNone w) (mkClosing (ShPass transport_err) w')
| sh_pass err w n w' : Shutdown_pass w = (n, w') →
    shutdown_step transport_err (mkClosing (ShPass err) w)
      (mkClosing (if n =? 0 then ShReturned err else ShWait err (Shutdown_wait n)) w')
| sh_after err t w :
    shutdown_step transport_err (mkClosing (ShWait err t) w) (mkClosing (ShPass err) w)
| sh_done err t ctx_err w :
    shutdown_step transport_err (mkClosing (ShWait err t) w) (mkClosing (ShReturned (Some ctx_err)) w)
| sh_server p a w w' : server_step h capacity a w = Some w' →
    shutdown_step transport_err (mkClosing p w) (mkClosing p w').

(** ** What a pass does *)

Definition idle (w : world) (i : nat) : bool :=
  match heap w !! i with Some c => conn_IsIdle c | None => false end.

Definition closed_conn (c : conn) : conn := mkConn (c_id c) true (Close_now (c_queue c)) true.

Definition pass_one '(activeConn, w) (x : string * nat) : Z * world :=
  match RMap_Get x.1 (conns w) ≫= (λ i, c ← heap w !! i; Some (i, c)) with
  | Some (i, c) => if conn_IsIdle c then (activeConn, conn_Close i w) else (activeConn + 1, w)
  | None => (activeConn, w)
  end.

(** Closing a registered connection. *)
Lemma close_registered k i w : server_inv w → rm (conns w) !! k = Some i →
  ∃ c, heap w !! i = Some c ∧ heap (conn_Close i w) = <[i := closed_conn c]> (heap w) ∧
    rm (conns (conn_Close i w)) = delete k (rm (conns w)) ∧ server_inv (conn_Close i w).
Proof.
  intros Hw Hk. pose proof Hw as [_ Hr]. destruct (Hr k i Hk) as (c & id & Hc & Hid & <- & Ho).
  exists c. split; [done|]. split_and!; [..|by apply server_inv_Close];
    rewrite (conn_Close_open i c id w) by done; simpl.
  - unfold closed_conn. by rewrite Hid.
  - unfold RMap_Delete. by rewrite Hk.
Qed.

Lemma filter_ext_in {A} (P Q : A → Prop) `{!∀ x, Decision (P x), !∀ x, Decision (Q x)} (l : list A) :
  (∀ x, x ∈ l → P x ↔ Q x) → filter P l = filter Q l.
Proof.
  induction l as [|x l IH]; intros HPQ; [done|]. rewrite !filter_cons.
  rewrite IH by (intros y Hy; apply HPQ; by right). specialize (HPQ x ltac:(left)).
  repeat case_decide; naive_solver.
Qed.

Lemma pass_fold l : NoDup l.*1 → ∀ n w, server_inv w →
  (∀ k i, (k, i) ∈ l → rm (conns w) !! k = Some i) →
  ∃ w', fold_left pass_one l (n, w) =
      (n + zlen (filter (λ x, idle w x.2 = false) l), w') ∧ server_inv w' ∧
    (∀ k, rm (conns w') !! k = i ← rm (conns w) !! k;
       if bool_decide (k ∈ l.*1) && idle w i then None else Some i) ∧
    (∀ j c, heap w !! j = Some c →
       heap w' !! j = Some (if bool_decide (j ∈ l.*2) && conn_IsIdle c then closed_conn c else c)).
Proof.
  induction l as [|[k i] l IH]; intros Hl n w Hw Hreg.
  - exists w. cbn [fold_left]. rewrite filter_nil, Z.add_0_r. split_and!; [done..| |].
    + intros k. by destruct (rm (conns w) !! k).
    + intros j c ->. done.
  - apply NoDup_cons in Hl as [Hk Hl]. pose proof (Hreg k i ltac:(left)) as Ei.
    destruct (close_registered k i w Hw Ei) as (c & Hc & Eh & Em & Hw').
    assert (∀ k' i', (k', i') ∈ l → k' ≠ k ∧ i' ≠ i ∧ rm (conns w) !! k' = Some i') as Hl'.
    { intros k' i' Hin. pose proof (Hreg k' i' ltac:(by right)) as Ek. split_and!; [|intros ->|done].
      - intros ->. apply Hk, list_elem_of_fmap. by exists (k, i').
      - apply (registered_inj k' k i w Hw Ek) in Ei as ->. apply Hk, list_elem_of_fmap. by exists (k, i). }
    assert (i ∉ l.*2) as Hi2.
    { intros ([k' i'] & -> & Hin)%list_elem_of_fmap. by destruct (Hl' k' i' Hin) as (_ & ? & _). }
    rewrite !fmap_cons. cbn [fold_left]. unfold pass_one at 2. cbn [fst snd]. unfold RMap_Get. rewrite Ei. simpl. rewrite Hc. simpl.
    assert (idle w i = conn_IsIdle c) as Eidle by (unfold idle; by rewrite Hc).
    rewrite filter_cons. cbn [snd]. rewrite Eidle. destruct (conn_IsIdle c) eqn:Eb.
    + rewrite decide_False by done. set (w1 := conn_Close i w) in *.
      assert (∀ j, j ≠ i → idle w1 j = idle w j) as Hidle
        by (intros j Hj; unfold idle; by rewrite Eh, lookup_insert_ne).
      destruct (IH Hl n w1 Hw') as (w' & E & Hinv & Hm & Hh).
      { intros k' i' Hin. destruct (Hl' k' i' Hin) as (? & _ & ?). by rewrite Em, lookup_delete_ne. }
      exists w'. rewrite E. split_and!; [|done|..].
      * f_equal. do 2 f_equal. apply filter_ext_in. intros [k' i'] Hin. simpl.
        destruct (Hl' k' i' Hin) as (_ & ? & _). by rewrite Hidle.
      * intros k0. rewrite Hm, Em. destruct (decide (k0 = k)) as [->|Hne].
        { rewrite lookup_delete_eq, Ei. simpl. rewrite bool_decide_true by left. by rewrite Eidle. }
        rewrite lookup_delete_ne by done. destruct (rm (conns w) !! k0) as [i0|] eqn:E0; [|done]. simpl.
        rewrite Hidle by (intros ->; by apply (registered_inj k0 k i w Hw E0) in Ei).
        by rewrite (bool_decide_ext (k0 ∈ k :: l.*1) (k0 ∈ l.*1)) by (rewrite elem_of_cons; naive_solver).
      * intros j cj Hj. destruct (decide (j = i)) as [->|Hne].
        { rewrite (Hh i (closed_conn c)) by (by rewrite Eh, lookup_insert_eq).
          simplify_eq. rewrite (bool_decide_false (i ∈ l.*2)), bool_decide_true by first [done|left].
          by rewrite Eb. }
        rewrite (Hh j cj) by (by rewrite Eh, lookup_insert_ne).
        by rewrite (bool_decide_ext (j ∈ i :: l.*2) (j ∈ l.*2)) by (rewrite elem_of_cons; naive_solver).
    + rewrite decide_True by done.
      destruct (IH Hl (n + 1) w Hw ltac:(intros k' i' Hin; by apply Hl')) as (w' & E & Hinv & Hm & Hh).
      exists w'. rewrite E. split_and!; [rewrite zlen_cons; f_equal; lia|done|..].
      * intros k0. rewrite Hm. destruct (rm (conns w) !! k0) as [i0|] eqn:E0; [|done]. simpl.
        destruct (decide (k0 = k)) as [->|Hne].
        { simplify_eq. by rewrite Eidle, !andb_false_r. }
        by rewrite (bool_decide_ext (k0 ∈ k :: l.*1) (k0 ∈ l.*1)) by (rewrite elem_of_cons; naive_solver).
      * intros j cj Hj. rewrite (Hh j cj Hj). destruct (decide (j = i)) as [->|Hne].
        { simplify_eq. by rewrite Eb, !andb_false_r. }
        by rewrite (bool_decide_ext (j ∈ i :: l.*2) (j ∈ l.*2)) by (rewrite elem_of_cons; naive_solver).
Qed.

(** ** The call of [Shutdown] *)

Lemma size_filter_go_range {K V} `{Countable K, !GoRange K} (P : K * V → Prop) `{!∀ x, Decision (P x)}
    (m : gmap K V) : zlen (filter P (go_range m)) = Z.of_nat (base.size (filter P m)).
Proof.
  unfold zlen. f_equal. rewrite (go_range_perm m), map_filter_alt, map_size_list_to_map; [done|].
  apply NoDup_fmap_2_strong; [|apply NoDup_filter, NoDup_map_to_list].
  intros [k1 v1] [k2 v2] [_ H1]%list_elem_of_filter [_ H2]%list_elem_of_filter E. simpl in E. subst.
  apply elem_of_map_to_list in H1, H2. by simplify_eq.
Qed.

(** The registered connections with something left to write. *)
Definition busy (w : world) : gmap string nat := filter (λ x, idle w x.2 = false) (rm (conns w)).

Lemma Shutdown_pass_spec w : server_inv w → ∃ w', Shutdown_pass w = (Z.of_nat (base.size (busy w)), w') ∧
  server_inv w' ∧ rm (conns w') = busy w ∧
  (∀ k i c, rm (conns w) !! k = Some i → heap w !! i = Some c → conn_IsIdle c = true →
     heap w' !! i = Some (closed_conn c)) ∧
  (∀ j c, heap w !! j = Some c → (∀ k, rm (conns w) !! k ≠ Some j) → heap w' !! j = Some c).
Proof.
  intros Hw. destruct (pass_fold (go_range (rm (conns w))) (NoDup_go_range _) 0 w Hw) as (w' & E & Hinv & Hm & Hh).
  { intros k i. by rewrite elem_of_go_range. }
  exists w'. split_and!; [|done|..].
  - unfold busy. rewrite <-size_filter_go_range. exact E.
  - apply map_eq. intros k. rewrite Hm. unfold busy. rewrite map_lookup_filter.
    destruct (rm (conns w) !! k) as [i|] eqn:Ek; [|done]. simpl.
    assert (k ∈ (go_range (rm (conns w))).*1) as Hk.
    { apply list_elem_of_fmap. exists (k, i). by rewrite elem_of_go_range. }
    rewrite bool_decide_true by done. simpl. by destruct (idle w i).
  - intros k i c Hk Hc Hi. rewrite (Hh i c Hc), Hi, bool_decide_true; [done|].
    apply list_elem_of_fmap. exists (k, i). by rewrite elem_of_go_range.
  - intros j c Hc Hj. rewrite (Hh j c Hc), bool_decide_false; [done|].
    intros ([k i] & -> & Hin)%list_elem_of_fmap. rewrite elem_of_go_range in Hin. by apply (Hj k).
Qed.

Lemma Shutdown_wait_bounds n : 1 <= n < 2 ^ 40 →
  Millisecond * 50 <= Shutdown_wait n <= Millisecond * 1000.
Proof.
  intros Hn. unfold Shutdown_wait, Millisecond. rewrite !wrapS_id by (unfold inS; lia).
  destruct (Z.ltb_spec 1000000000 (1000000 * n)); [lia|].
  destruct (Z.ltb_spec (1000000 * n) (1000000 * 50)); lia.
Qed.

(** The server stays closed or open in every step but [Shutdown]. *)
Lemma step_closed a w w' : server_step h capacity a w = Some w' → s_closed w' = s_closed w.
Proof.
  intros Ha. assert ((∃ p, a = SAccept p) ∨ ∀ p, a ≠ SAccept p) as [[p ->]|Hno]
    by (destruct a; eauto; by right); [|by apply shrinks_step in Ha as (_ & _ & ?)].
  cbn [server_step] in Ha. unfold accept in Ha. destruct (newConn _ _) as [c|e|x]; [|done..]. simpl in Ha.
  destruct (OnConnect h _ p _) as [[code w1]|] eqn:E; [|done]. simpl in Ha. injection Ha as <-.
  revert E. unfold OnConnect. case_decide.
  - destruct (connect_Identity p) as [id|]; [|done]. simpl.
    destruct (RMap_Swap (ClientID id) _ _) as [old m]. destruct old as [old|]; simpl.
    + destruct (CloseCode CloseDuplicateLogin old _) as [w2|] eqn:E1; [|done]. simpl.
      destruct (on_conn _ _ w2) as [[r w3]|] eqn:E2; [|done]. simpl. intros [= _ <-].
      apply shrinks_push in E2 as (_ & _ & ->). by apply shrinks_CloseCode in E1 as (_ & _ & ->).
    + destruct (on_conn _ _ _) as [[r w3]|] eqn:E2; [|done]. simpl. intros [= _ <-].
      by apply shrinks_push in E2 as (_ & _ & ->).
  - destruct (on_conn _ _ _) as [[r w3]|] eqn:E2; [|done]. simpl. intros [= _ <-].
    apply shrinks_push in E2 as (_ & _ & E2). by destruct (shrinks_Close (fresh (dom (heap w))) w3) as (_ & _ & ->).
Qed.

Definition closing_inv (terr : option error) (s : closing_server) : Prop :=
  server_inv (cs_server s) ∧
  match cs_phase s with
  | ShNone => True
  | ShPass err | ShWait err _ => err = terr ∧ s_closed (cs_server s) = true
  | ShReturned _ => s_closed (cs_server s) = true
  end.

Lemma pass_closed w n w' : Shutdown_pass w = (n, w') → s_closed w' = s_closed w.
Proof.
  change (Shutdown_pass w) with (fold_left pass_one (go_range (rm (conns w))) (0, w)).
  generalize 0. generalize (go_range (rm (conns w))). intros l. revert w.
  induction l as [|x l IH]; intros w z; cbn [fold_left]; [by intros [= _ <-]|]. unfold pass_one at 2.
  destruct (_ ≫= _) as [[i c]|]; [|by apply IH]. destruct (conn_IsIdle c); [|by apply IH].
  intros E. apply IH in E as ->. by destruct (shrinks_Close i w) as (_ & _ & ->).
Qed.

Lemma closing_inv_step terr s s' : closing_inv terr s → shutdown_step terr s s' → closing_inv terr s'.
Proof.
  intros [Hw Hs] Hstep. destruct Hstep as [w w' E|err w n w' E|err t w|err t e w|p a w w' E]; simpl in *.
  - unfold Shutdown_begin in E. destruct (s_closed w); [done|]. injection E as <-. by split.
  - destruct Hs as [-> Hs]. split; simpl.
    + destruct (Shutdown_pass_spec w Hw) as (w1 & E1 & Hw1 & _). rewrite E in E1. by injection E1 as -> ->.
    + apply pass_closed in E. rewrite <-E in Hs. by destruct (n =? 0).
  - by split.
  - split; [done|apply Hs].
  - split; [by eapply server_inv_step|]. apply step_closed in E. simpl. rewrite E. by destruct p.
Qed.

(** C22 (shutting down a server): [Shutdown] is let through once.  A pass closes exactly the
    idle registered connections; [Shutdown] returns the transport's result when none of the
    others is left, and waits between 50 milliseconds and a second otherwise.  But nothing keeps
    a client from logging in meanwhile or afterwards: it is accepted and registered, and no
    message can be sent to it. *)
Theorem server_shutdown terr w0 s : server_inv w0 →
  steps (shutdown_step terr) (mkClosing ShNone w0) s →
  let w := cs_server s in
  (cs_phase s ≠ ShNone → Shutdown_begin w = Err (EXerr ServerAlreadyClosed)) ∧
  (∀ err, cs_phase s = ShPass err → err = terr ∧
     ∃ w', shutdown_step terr s (mkClosing (if decide (busy w = ∅) then ShReturned terr
         else ShWait terr (Shutdown_wait (Z.of_nat (base.size (busy w))))) w') ∧
       rm (conns w') = busy w ∧
       (∀ k i c, rm (conns w) !! k = Some i → heap w !! i = Some c → conn_IsIdle c = true →
          heap w' !! i = Some (closed_conn c)) ∧
       (Z.of_nat (base.size (busy w)) < 2 ^ 40 → busy w ≠ ∅ →
          Millisecond * 50 <= Shutdown_wait (Z.of_nat (base.size (busy w))) <= Millisecond * 1000)) ∧
  (∀ p id, cs_phase s ≠ ShNone → 1 <= capacity → connectHandler h p = ConnectAccepted →
     connect_Identity p = Some id → GetConn (ClientID id) w = None →
     ∃ w', server_step h capacity (SAccept p) w = Some w' ∧ IsActive (ClientID id) w' = true ∧
       ∀ ctx m, SendMessage ctx (ClientID id) m w' = Some (Err (EXerr ServerIsClosed), w')).
Proof.
  intros Hw0 Hs w. assert (closing_inv terr s) as [Hw Hp].
  { refine (steps_invariant _ (closing_inv terr) (closing_inv_step terr) _ _ _ Hs). by split. }
  assert (cs_phase s ≠ ShNone → s_closed w = true) as Hc by (destruct (cs_phase s); naive_solver).
  split_and!.
  - intros Hn. unfold Shutdown_begin. by rewrite (Hc Hn).
  - intros err He. rewrite He in Hp. destruct Hp as [-> Hcl]. split; [done|].
    destruct (Shutdown_pass_spec w Hw) as (w' & E & _ & Em & Hh & _). exists w'.
    destruct s as [ph w1]; simpl in *; subst.
    split_and!; [|done|exact Hh|].
    + replace (if decide _ then _ else _) with
        (if Z.of_nat (base.size (busy w)) =? 0 then ShReturned terr
         else ShWait terr (Shutdown_wait (Z.of_nat (base.size (busy w))))); [by apply sh_pass|].
      destruct (Z.eqb_spec (Z.of_nat (base.size (busy w))) 0) as [E0|E0]; case_decide as Hb; try done.
      * exfalso. apply Hb, map_size_empty_iff. lia.
      * exfalso. apply E0. by rewrite Hb, map_size_empty.
    + intros Hlt Hb. apply Shutdown_wait_bounds.
      assert (base.size (busy w) ≠ 0%nat) by (by rewrite map_size_empty_iff). lia.
  - intros p id Hn Hcap Hacc Hid Hfree.
    destruct (accept_free h capacity p id w Hcap Hacc Hid Hfree) as (w' & c & E & Eh & Em & Hco & _).
    assert (server_step h capacity (SAccept p) w = Some w') as Ha by (cbn [server_step]; by rewrite E).
    exists w'. split; [done|]. split.
    + unfold IsActive, RMap_Get. rewrite Em, lookup_insert_eq. simpl. rewrite Eh, lookup_insert_eq.
      unfold conn_IsClosed. by rewrite Hco.
    + intros ctx m. unfold SendMessage. by rewrite (step_closed _ _ _ Ha), (Hc Hn).
Qed.
End shutdown.

(** ** Expelling the connections of a server *)
Section expel.
Context `{!GoRange uint8, !GoRange string}.

(** No registered connection has its jumps full, so that [CloseCode] does not wait for one that
    does not read. *)
Definition room (w : world) : Prop :=
  ∀ k i c, rm (conns w) !! k = Some i → heap w !! i = Some c → zlen (jumps (c_queue c)) < jumps_cap.

Lemma CloseCode_registered code k i c w : server_inv w → rm (conns w) !! k = Some i →
  heap w !! i = Some c → zlen (jumps (c_queue c)) < jumps_cap →
  ∃ w' c', CloseCode code i w = Some w' ∧ server_inv w' ∧ s_closed w' = s_closed w ∧
    heap w' = <[i := c']> (heap w) ∧ c_closed c' = true ∧ rm (conns w') = delete k (rm (conns w)).
Proof.
  intros Hw Hk Hc Hj. assert (∃ r c1, jumpPacket None (PClose (NewClose code)) c = Some (r, c1)) as (r & c1 & E).
  { unfold jumpPacket, pushPacket. destruct (c_closed c); [by eauto|]. rewrite marshal_close.
    unfold Push_now. destruct (closed (c_queue c)); [by eauto|]. destruct (jumps_closed (c_queue c)); [by eauto|].
    rewrite (proj2 (Z.ltb_lt _ _)) by done. by eauto. }
  set (w1 := put_conn i c1 w). assert (on_conn i (jumpPacket None (PClose (NewClose code))) w = Some (r, w1)) as Eo.
  { unfold on_conn. rewrite Hc. simpl. by rewrite E. }
  assert (server_inv w1) as Hw1 by (by eapply server_inv_push).
  destruct (close_registered k i w1 Hw1 Hk) as (c2 & Hc2 & Eh & Em & Hw2).
  exists (conn_Close i w1), (closed_conn c2). split_and!; [|done| | |done|].
  - unfold CloseCode. by rewrite Eo.
  - by destruct (shrinks_Close i w1) as (_ & _ & ->).
  - rewrite Eh. unfold w1. simpl. by rewrite insert_insert_eq.
  - by rewrite Em.
Qed.

Definition expel_one (acc : option world) (x : string * nat) : option world :=
  w ← acc;
  match RMap_Get x.1 (conns w) with
  | Some i => CloseCode CloseServerExpeled i w
  | None => Some w
  end.

Lemma expel_fold l : NoDup l.*1 → ∀ w, server_inv w → room w →
  (∀ k i, (k, i) ∈ l → rm (conns w) !! k = Some i) →
  ∃ w', fold_left expel_one l (Some w) = Some w' ∧ server_inv w' ∧ s_closed w' = s_closed w ∧
    (∀ k i, (k, i) ∈ l → conn_IsClosed <$> heap w' !! i = Some true) ∧
    (∀ j, j ∉ l.*2 → heap w' !! j = heap w !! j).
Proof.
  induction l as [|[k i] l IH]; intros Hl w Hw Hr Hreg.
  { exists w. split_and!; [done..| |done]. intros k i Hin. by apply elem_of_nil in Hin. }
  rewrite !fmap_cons. apply NoDup_cons in Hl as [Hk Hl]. pose proof (Hreg k i ltac:(left)) as Ei.
  pose proof Hw as [_ Hrr]. destruct (Hrr k i Ei) as (c & _ & Hc & _).
  destruct (CloseCode_registered CloseServerExpeled k i c w Hw Ei Hc (Hr k i c Ei Hc))
    as (w1 & c1 & E & Hw1 & Hs & Eh & Hc1 & Em).
  assert (∀ k' i', (k', i') ∈ l → k' ≠ k ∧ i' ≠ i) as Hne.
  { intros k' i' Hin. pose proof (Hreg k' i' ltac:(by right)) as Ek. split; intros ->.
    - apply Hk, list_elem_of_fmap. by exists (k, i').
    - apply (registered_inj k' k i w Hw Ek) in Ei as ->. apply Hk, list_elem_of_fmap. by exists (k, i). }
  destruct (IH Hl w1 Hw1) as (w' & E' & Hw' & Hs' & Hin & Hout).
  { intros k' i' c'. rewrite Em, Eh. intros [Hnk Hk']%lookup_delete_Some.
    rewrite lookup_insert_ne; [by eapply Hr|]. intros <-. by apply Hnk, (registered_inj k k' i w). }
  { intros k' i' Hx. destruct (Hne k' i' Hx). rewrite Em, lookup_delete_ne by done. apply Hreg. by right. }
  exists w'. cbn [fold_left fst snd]. unfold expel_one at 2. simpl. unfold RMap_Get. rewrite Ei, E.
  split_and!; [done|done|congruence|..].
  - intros k' i' [[= -> ->]|Hx]%elem_of_cons; [|by eapply Hin]. rewrite Hout, Eh, lookup_insert_eq.
    + simpl. unfold conn_IsClosed. by rewrite Hc1.
    + intros ([k2 i2] & -> & Hx)%list_elem_of_fmap. by destruct (Hne k2 i2 Hx).
  - intros j [Hj1 Hj2]%not_elem_of_cons. by rewrite Hout, Eh, lookup_insert_ne.
Qed.

Lemma Expel_spec w : server_inv w → room w →
  ∃ w', ExpelAllConns w = Some w' ∧ server_inv w' ∧ s_closed w' = s_closed w ∧ conns w' = RMap_empty ∧
    (∀ k i, rm (conns w) !! k = Some i → conn_IsClosed <$> heap w' !! i = Some true).
Proof.
  intros Hw Hr. destruct (expel_fold (go_range (rm (conns w))) (NoDup_go_range _) w Hw Hr)
    as (w' & E & _ & Hs & Hin & _); [intros k i; by rewrite elem_of_go_range|].
  exists (with_conns RMap_empty w'). split_and!; [|by split|done|done|].
  - unfold ExpelAllConns. change (fold_left _ _ _) with (fold_left expel_one (go_range (rm (conns w))) (Some w)).
    by rewrite E.
  - intros k i Hk. apply (Hin k). by rewrite elem_of_go_range.
Qed.
End expel.

(** ** Closing a transport

    [Listen] was not called yet, failed to open its port, or is accepting. *)
Inductive listen_state := NotListening | ListenFailed | Listening.

(** [Close] of the transports; [closed] is what closing an open listener returns.  The field
    [listener] of TCP is a nil interface until [Listen] has opened the port, that of UDP a nil
    pointer; the HTTP server is made before its port is opened; no code sets the QUIC endpoint. *)
Definition transport_Close `{!NilSocket} (closed : outcome error unit) (t : transport) (s : listen_state)
  : outcome error unit :=
  match t, s with
  | (TTCP | TTLS _), Listening => closed
  | (TTCP | TTLS _), _ => Panic NilDereference
  | TUDP, Listening => closed
  | TUDP, _ => nil_result
  | (TWS | TWSS _), NotListening => nil_result
  | (TWS | TWSS _), _ => closed
  | TQUIC _, _ => nil_result
  end.

(** ** Shutting down a broker *)
Section broker.
Context {CS D : Type} `{!GoRange uint8, !GoRange string, !NilSocket, !DiscoveryApi D}.

(** The transport of each network, where its [Listen] is, and what closing the open port returns. *)
Context (transport_of : string → transport) (state_of : string → listen_state) (closed : string → option error).

Definition close_of (net : string) : outcome error unit :=
  transport_Close (match closed net with None => Ok tt | Some e => Err e end) (transport_of net) (state_of net).

(** [Listener.Shutdown], whole: after [ExpelAllConns] no connection is registered, so that the
    first pass of [Server.Shutdown] is the last. *)
Definition listener_Shutdown (l : listener) : option (outcome error (option error * listener)) :=
  if negb (started l) then Some (Ok (None, l))
  else
    let l := mkListener (l_port l) (l_network l) (autoStart l) false (srv l) in
    r ← Listener_ExpelAllConns l;
    Some (l <~ r;
      match srv l with
      | None => Panic NilDereference
      | Some w =>
          match Shutdown_begin w with
          | Ok w =>
              match close_of (l_network l) with
              | Panic x => Panic x
              | Err e => Ok (Some e, with_srv (snd (Shutdown_pass w)) l)
              | Ok _ => Ok (None, with_srv (snd (Shutdown_pass w)) l)
              end
          | Err e => Ok (Some e, l)
          | Panic x => Panic x
          end
      end).

(** The loop of [Shutdown]: each listener's error replaces the one before. *)
Definition shutdown_one (acc : option (outcome error (option error * broker))) (x : string * listener)
  : option (outcome error (option error * broker)) :=
  r ← acc;
  match r with
  | Ok (_, b) =>
      r ← listener_Shutdown x.2;
      Some (y <~ r; Ok (fst y, with_listeners (<[x.1 := snd y]> (listeners b)) b))
  | r => Some r
  end.

(** [peerServer.Shutdown] waits for the calls in progress and returns nil. *)
Definition peer_Shutdown : option error := None.

(** [Shutdown]: [err] is overwritten by the peer server's. *)
Definition broker_Shutdown (d : D) (c : cluster CS) : option (outcome error (option error * D * cluster CS)) :=
  r ← fold_left shutdown_one (go_range (listeners (node c))) (Some (Ok (None, node c)));
  Some (y <~ r;
    let err := peer_Shutdown in
    x <~ cluster_Stop d (with_node (snd y) c);
    Ok (err, x.1, x.2)).

(** [Listener_Shutdown] of [Broker] is the case of a transport that closes without an error. *)
Lemma listener_Shutdown_closes l : close_of (l_network l) = Ok tt →
  listener_Shutdown l =
    (r ← Listener_Shutdown l;
     Some (match r with
           | Ok l' => Ok (None, l')
           | Panic x => Panic x
           | Err e => Ok (Some e, from_option (λ r, match r with Ok l' => l' | _ => l end) l
               (Listener_ExpelAllConns (mkListener (l_port l) (l_network l) (autoStart l) false (srv l))))
           end)).
Proof.
  intros Hc. unfold listener_Shutdown, Listener_Shutdown. destruct (negb (started l)); [done|].
  unfold Listener_ExpelAllConns. simpl. destruct (srv l) as [w|]; [|done]. simpl.
  destruct (ExpelAllConns w) as [w1|]; [|done]. simpl. unfold Shutdown_begin.
  destruct (s_closed w1); simpl; [done|]. by rewrite Hc.
Qed.

(** *** What it does *)

(** A started listener whose server is in order. *)
Definition in_order (l : listener) : Prop :=
  started l = true → ∃ w, srv l = Some w ∧ server_inv w ∧ s_closed w = false ∧ room w.

(** It is not started and has the settings of [l]; if [l] was started, its server is closed, no
    connection is registered and every connection that was is closed. *)
Definition stopped (l l' : listener) : Prop :=
  started l' = false ∧ l_network l' = l_network l ∧ l_port l' = l_port l ∧
  if started l then ∃ w w', srv l = Some w ∧ srv l' = Some w' ∧ s_closed w' = true ∧ rm (conns w') = ∅ ∧
    ∀ k i, rm (conns w) !! k = Some i → conn_IsClosed <$> heap w' !! i = Some true
  else srv l' = srv l.

Lemma listener_stops l : in_order l →
  match close_of (l_network l) with
  | Panic x => started l = true → listener_Shutdown l = Some (Panic x)
  | _ => ∃ err l', listener_Shutdown l = Some (Ok (err, l')) ∧ stopped l l'
  end.
Proof.
  intros Hl. destruct (started l) eqn:Es.
  - destruct (Hl Es) as (w & Ew & Hw & Hc & Hr). destruct (Expel_spec w Hw Hr) as (w1 & E & Hw1 & Hs & Hm & Hcl).
    unfold listener_Shutdown. rewrite Es. simpl. unfold Listener_ExpelAllConns. simpl. rewrite Ew. simpl.
    rewrite E. simpl. unfold Shutdown_begin. rewrite Hs, Hc. set (w2 := mkWorld _ _ _ _).
    assert (Shutdown_pass w2 = (0, w2)) as Ep.
    { unfold Shutdown_pass, w2. simpl. rewrite Hm. simpl. by rewrite go_range_empty. }
    rewrite Ep. assert (stopped l (with_srv w2 (mkListener (l_port l) (l_network l) (autoStart l) false (Some w)))) as Hst.
    { unfold stopped. rewrite Es. split_and!; [done..|]. exists w, w2. split_and!; [done..| |done].
      unfold w2. simpl. by rewrite Hm. }
    destruct (close_of (l_network l)); [by eexists _, _|by eexists _, _|done].
  - assert (listener_Shutdown l = Some (Ok (None, l))) as E by (unfold listener_Shutdown; by rewrite Es).
    assert (stopped l l) by (unfold stopped; by rewrite Es).
    destruct (close_of (l_network l)); [by eexists _, _|by eexists _, _|done].
Qed.

(** Closing the transport of a listener panics: TCP whose port was never opened, and, where a method of
    a nil pointer panics, UDP whose port was never opened, WebSocket before [Listen], and QUIC. *)
Definition close_panics (l : listener) : bool :=
  let nil_panics := is_panic (nil_result (A := unit)) in
  started l &&
  match transport_of (l_network l), state_of (l_network l) with
  | (TTCP | TTLS _), Listening => false
  | (TTCP | TTLS _), _ => true
  | TUDP, Listening => false
  | TUDP, _ => nil_panics
  | (TWS | TWSS _), NotListening => nil_panics
  | (TWS | TWSS _), _ => false
  | TQUIC _, _ => nil_panics
  end.

Lemma close_panics_spec l : close_panics l = started l && is_panic (close_of (l_network l)).
Proof.
  unfold close_panics, close_of, transport_Close. f_equal.
  destruct (closed (l_network l)), (transport_of (l_network l)), (state_of (l_network l)); done.
Qed.

Lemma shutdown_fold l : NoDup l.*1 → (∀ k x, (k, x) ∈ l → in_order x) → ∀ err b,
  (∃ x, fold_left shutdown_one l (Some (Ok (err, b))) = Some (Panic x) ∧
     ∃ k x, (k, x) ∈ l ∧ close_panics x = true) ∨
  (∃ err' b', fold_left shutdown_one l (Some (Ok (err, b))) = Some (Ok (err', b')) ∧
     (∀ k x, (k, x) ∈ l → close_panics x = false) ∧
     (∀ k, k ∉ l.*1 → listeners b' !! k = listeners b !! k) ∧
     (∀ k x, (k, x) ∈ l → ∃ x', listeners b' !! k = Some x' ∧ stopped x x') ∧
     nodeId b' = nodeId b ∧ reg b' = reg b ∧ peers b' = peers b).
Proof.
  induction l as [|[k x] l IH]; intros Hl Hok err b.
  { right. exists err, b. split_and!; try done; intros ? ? Hin; by apply elem_of_nil in Hin. }
  rewrite fmap_cons. apply NoDup_cons in Hl as [Hk Hl].
  pose proof (listener_stops x ltac:(apply (Hok k); left)) as Hx.
  cbn [fold_left]. unfold shutdown_one at 2 4. cbn [mbind option_bind fst snd].
  assert (∀ err1 x1, listener_Shutdown x = Some (Ok (err1, x1)) → stopped x x1 → close_panics x = false →
    (∃ w, fold_left shutdown_one l (r ← listener_Shutdown x;
         Some (y <~ r; Ok (fst y, with_listeners (<[k := snd y]> (listeners b)) b))) = Some (Panic w) ∧
       ∃ k0 y, (k0, y) ∈ (k, x) :: l ∧ close_panics y = true) ∨
    (∃ err' b', fold_left shutdown_one l (r ← listener_Shutdown x;
         Some (y <~ r; Ok (fst y, with_listeners (<[k := snd y]> (listeners b)) b))) = Some (Ok (err', b')) ∧
       (∀ k0 y, (k0, y) ∈ (k, x) :: l → close_panics y = false) ∧
       (∀ k0, k0 ∉ k :: l.*1 → listeners b' !! k0 = listeners b !! k0) ∧
       (∀ k0 y, (k0, y) ∈ (k, x) :: l → ∃ y', listeners b' !! k0 = Some y' ∧ stopped y y') ∧
       nodeId b' = nodeId b ∧ reg b' = reg b ∧ peers b' = peers b)) as Hgo.
  { intros err1 x1 E Hst Hp. rewrite E. cbn [mbind option_bind obind fst snd].
    destruct (IH Hl ltac:(intros k0 y Hy; apply (Hok k0); by right) err1 (with_listeners (<[k := x1]> (listeners b)) b))
      as [(w & E1 & k0 & y & Hy & Hyp)|(err' & b' & E1 & Hnp & Hout & Hin & Hn & Hreg & Hpe)].
    - left. exists w. split; [done|]. exists k0, y. split; [by right|done].
    - right. exists err', b'. split_and!; try done.
      + intros k0 y [[= -> ->]|Hy]%elem_of_cons; [done|by eapply Hnp].
      + intros k0 [Hk0 Hk1]%not_elem_of_cons. rewrite Hout by done. simpl. by rewrite lookup_insert_ne.
      + intros k0 y [[= -> ->]|Hy]%elem_of_cons; [|by apply Hin].
        exists x1. split; [|done]. rewrite Hout by done. simpl. by rewrite lookup_insert_eq. }
  destruct (close_of (l_network x)) as [[]|e|w] eqn:Et.
  - destruct Hx as (err1 & x1 & E & Hst). apply (Hgo err1 x1 E Hst). rewrite close_panics_spec. by rewrite Et, andb_false_r.
  - destruct Hx as (err1 & x1 & E & Hst). apply (Hgo err1 x1 E Hst). rewrite close_panics_spec. by rewrite Et, andb_false_r.
  - destruct (started x) eqn:Es.
    + rewrite (Hx eq_refl). cbn [mbind option_bind obind]. left. exists w. split.
      * clear. induction l as [|y l IH]; [done|]. cbn [fold_left]. exact IH.
      * exists k, x. split; [left|]. rewrite close_panics_spec. by rewrite Es, Et.
    + apply (Hgo None x); unfold listener_Shutdown, stopped; rewrite ?close_panics_spec; by rewrite Es.
Qed.

(** C23 (shutting down a broker): when every started listener's server is in order, no registered
    connection has its queue of urgent packets full, and raft was not stopped before, [Shutdown] goes
    through all listeners.  Where one of them is started and its transport never opened its port it
    panics, for TCP always, for the others where a method of a nil pointer panics.  Otherwise every
    listener is stopped with its connections closed, the discovery is shut down, raft is stopped if it
    was started, the cluster is no longer ready, and the result is nil whatever the transports and the
    discovery returned, unless shutting down the discovery panics; a second [Shutdown] panics. *)
Theorem broker_shutdown `{!DiscoveryLaws D} (d : D) (c : cluster CS) :
  map_Forall (λ _ l, in_order l) (listeners (node c)) → StopNode ∉ raft_log c →
  (map_Exists (λ _ l, close_panics l = true) (listeners (node c)) →
     ∃ x, broker_Shutdown d c = Some (Panic x)) ∧
  (map_Forall (λ _ l, close_panics l = false) (listeners (node c)) →
     match disc_Shutdown d with
     | inr x => broker_Shutdown d c = Some (Panic x)
     | inl (_, d') =>
         ∃ c', broker_Shutdown d c = Some (Ok (None, d', c')) ∧ ready c' = false ∧
           raft_log c' = raft_log c ++ (if raft c then [StopNode] else []) ∧
           (∀ net l, listeners (node c) !! net = Some l →
              ∃ l', listeners (node c') !! net = Some l' ∧ stopped l l') ∧
           ∃ x, broker_Shutdown d' c' = Some (Panic x)
     end).
Proof.
  intros Hok Hraft. set (ls := go_range (listeners (node c))).
  assert (∀ k x, (k, x) ∈ ls → listeners (node c) !! k = Some x) as Hls
    by (intros k x; by rewrite <-elem_of_go_range).
  destruct (shutdown_fold ls (NoDup_go_range _) ltac:(intros k x Hx; apply (Hok k), Hls, Hx) None (node c))
    as [(w & E & k & x & Hx & Hp)|(err' & b' & E & Hnp & Hout & Hin & _)].
  - split.
    + intros _. exists w. unfold broker_Shutdown. fold ls. by rewrite E.
    + intros Hall. apply Hls in Hx. specialize (Hall k x Hx). simpl in Hall. congruence.
  - split.
    { intros (k & x & Hx & Hp). rewrite (Hnp k x) in Hp; [done|]. by apply elem_of_go_range. }
    intros _. destruct (disc_Shutdown d) as [[err d']|w] eqn:Ed; unfold broker_Shutdown at 1; fold ls; rewrite E;
      cbn [mbind option_bind obind snd]; unfold cluster_Stop; rewrite Ed; [|done].
    assert (existsb (λ x, match x with StopNode => true | _ => false end) (raft_log c) = false) as Hno.
    { apply not_true_iff_false. rewrite existsb_exists. intros (y & Hy & Ey).
      destruct y; try done. by apply Hraft, list_elem_of_In. }
    cbn [raft with_leader with_node raft_log].
    assert (∀ net l, listeners (node c) !! net = Some l →
      ∃ l', listeners b' !! net = Some l' ∧ stopped l l') as Hst
      by (intros net l Hl; apply Hin; by apply elem_of_go_range).
    destruct (shutdown_once d err d' Ed) as [w Ew].
    assert (∀ c' : cluster CS, listeners (node c') = listeners b' → ∃ x, broker_Shutdown d' c' = Some (Panic x)) as Hagain.
    { intros c' El. destruct (shutdown_fold (go_range (listeners (node c'))) (NoDup_go_range _)) with
        (err := @None error) (b := node c') as [(x & E' & _)|(err2 & b2 & E' & _)].
      - intros k x Hx Hstart. rewrite elem_of_go_range, El in Hx. destruct (listeners (node c) !! k) as [l|] eqn:Ec.
        + destruct (Hst k l Ec) as (l' & E' & Hs & _). congruence.
        + rewrite Hout in Hx; [congruence|]. intros ([k' l] & -> & Hl)%list_elem_of_fmap.
          apply Hls in Hl. simpl in Ec. congruence.
      - exists x. unfold broker_Shutdown. by rewrite E'.
      - exists w. unfold broker_Shutdown. rewrite E'. cbn [mbind option_bind obind]. unfold cluster_Stop.
        by rewrite Ew. }
    destruct (raft c) eqn:Er; [rewrite Hno|]; cbn [obind fst snd]; eexists; (split; [done|]);
      (split_and!; [done|by simpl; rewrite ?app_nil_r|exact Hst|by apply Hagain]).
Qed.
End broker.

(** ** Concrete shutdowns *)
#[local] Existing Instance range_forward.

(** Alice is logged in when [Shutdown] is called; Bob logs in afterwards. *)
Definition alice_closing : closing_server :=
  mkClosing (ShPass None) (mkWorld (heap logged_in) (conns logged_in) true (closed_ids logged_in)).

Lemma server_shutdown_witness :
  Shutdown_begin (cs_server alice_closing) = Err (EXerr ServerAlreadyClosed) ∧
  ∃ w', server_step echo_handlers 8 (SAccept (login_of "bob" "pad")) (cs_server alice_closing) = Some w' ∧
    IsActive "pad" w' = true.
Proof.
  destruct (server_shutdown echo_handlers 8 None logged_in alice_closing logged_in_inv) as (H1 & _ & H3).
  { apply steps_one, sh_begin. done. }
  split; [by apply H1|].
  destruct (H3 (login_of "bob" "pad") (mkIdentity "bob" "pad" "")) as (w' & E & Ha & _); try done.
  by exists w'.
Defined.

(** A broker with Alice's listener over TCP, whose raft was started. *)
Definition tcp_listener : listener := mkListener 1883 "tcp" true true (Some logged_in).

Definition tcp_cluster : cluster unit :=
  with_started [1] (newCluster (mkBroker 1 (mkRegistry RMap_empty RMap_empty RMap_empty)
    {["tcp" := tcp_listener]} RMap_empty) 1).

Lemma tcp_in_order : map_Forall (λ _ l, in_order l) (listeners (node tcp_cluster)).
Proof.
  apply map_Forall_singleton. intros _. exists logged_in. split_and!; [done|apply logged_in_inv|done|].
  assert (map_Forall (λ _ c, zlen (jumps (c_queue c)) < jumps_cap) (heap logged_in)) as H by vm_decide.
  intros k i c _ Hc. by apply (H i).
Qed.

(** A discovery that knows whether it was shut down. *)
#[local] Instance flag_discovery : DiscoveryApi bool :=
  {| disc_Shutdown := λ down : bool, if down then inr ClosedChannel else inl (None, true) |}.
#[local] Instance flag_laws : DiscoveryLaws bool.
Proof. intros [] err d' [=]; subst; by eexists. Defined.

(** It shuts down once; had the port been taken, [Shutdown] would have panicked. *)
Lemma broker_shutdown_witness :
  let down (s : listen_state) := broker_Shutdown (H := crash_nil) (λ _, TTCP) (λ _, s) (λ _, None) in
  (∃ c' x, down Listening false tcp_cluster = Some (Ok (None, true, c')) ∧
     down Listening true c' = Some (Panic x)) ∧
  ∃ x, down ListenFailed false tcp_cluster = Some (Panic x).
Proof.
  split.
  - destruct (broker_shutdown (H := crash_nil) (λ _, TTCP) (λ _, Listening) (λ _, None) false tcp_cluster
      tcp_in_order) as [_ Hs]; [by intros Hin%list_elem_of_singleton|].
    destruct Hs as (c' & E & _ & _ & _ & x & Hx); [by apply map_Forall_singleton|].
    exists c', x. split; [exact E|exact Hx].
  - apply (broker_shutdown (H := crash_nil) (λ _, TTCP) (λ _, ListenFailed) (λ _, None) false tcp_cluster
      tcp_in_order); [by intros Hin%list_elem_of_singleton|]. by exists "tcp", tcp_listener.
Defined.
