(* ===== verification/Booter.v ===== *)
(** * Starting the service (src/cmd/cable/booter.go, [newBooter])

    The service makes a listener for every entry of its configuration and a broker that owns
    them.  Loading a certificate is a parameter. *)
From S2P Require Import Prelude Errors Coder Packet Queue Safe.
From S2P Require Import RaftOps Registry Server Broker Config Options.
From stdpp Require Import pretty.
Local Open Scope Z_scope.

(** ** Construction *)
Section boot.
(** [load]: whether [tls.LoadX509KeyPair] succeeds on the two files. *)
Context {Cl H : Type} (noClose : Cl) (emptyHandler : H) (load : string → string → bool).

Definition listener_tls (l : listenerConfig) : option tls :=
  match TLS l with
  | Some t => if load (CertFile t) (KeyFile t) then Some (mkTLSConfig 1 false false) else None
  | None => None
  end.

Definition listener_quic (l : listenerConfig) : option quic :=
  (λ t, mkQUICConfig (Some t)) <$> listener_tls l.

Definition booter_listener (l : listenerConfig) : Srv.Listener Cl :=
  Srv.NewListener (lis_Network l) (lis_Port l) (AutoStart l)
    [Srv.WithSendQueue (QueueSize l); Srv.WithTLSConfig (listener_tls l);
     Srv.WithQUICConfig (listener_quic l)].

(** [newBooter]; [b] is the booter as the handler of the broker's events. *)
Definition newBooter (m : Clu.broker_methods) (b : H) (generated : Z) (c : config)
  : outcome error (@Clu.node Cl H discovery_choice) :=
  Clu.NewBroker emptyHandler m generated
    [Clu.WithNodeId (NodeId c); Clu.WithHandler b; Clu.WithClusterSize (ClusterSize c);
     Clu.WithDiscovery (GetDiscovery c); Clu.WithListeners (booter_listener <$> Listeners c)].

(** ** What the listeners are *)

(** The last entry for a network. *)
Definition last_listener (net : string) (ls : list listenerConfig) : option listenerConfig :=
  last (filter (λ l, lis_Network l = net) ls).

(** The settings of the server of an entry. *)
Definition expected (m : Clu.broker_methods) (l : listenerConfig) : Srv.options Cl :=
  Srv.mkOptions (lis_Network l) (listener_tls l) (listener_quic l) 10 (QueueSize l)
    (Clu.on_closed m)
    (mkHandlers (Clu.on_connect m (lis_Network l)) (Clu.on_message m) (Clu.on_request m)).

Definition has_options (m : @Clu.broker_methods Cl) (l : listenerConfig) : Srv.Listener Cl :=
  Srv.AddOptions (Clu.broker_options m (booter_listener l)) (booter_listener l).

Lemma has_options_settings m l :
  Srv.newOptions noClose (Srv.options_of (has_options m l)) = expected m l.
Proof. done. Qed.

(** The networks whose transport asserts a certificate. *)
Definition secure (net : string) : Prop := net = "wss" ∨ net = "tls" ∨ net = "quic".

#[export] Instance secure_dec net : Decision (secure net).
Proof. unfold secure. apply _. Defined.

(** An entry whose server cannot be made. *)
Definition lacks_certificate (l : listenerConfig) : bool :=
  bool_decide (secure (lis_Network l) ∧ listener_tls l = None).

Lemma new_transport_expected m l : lis_Network l ∈ networks →
  if lacks_certificate l then ∃ p, Srv.new_transport (expected m l) = Panic p
  else ∃ t, Srv.new_transport (expected m l) = Ok t.
Proof.
  intros Hn. unfold lacks_certificate, secure, Srv.new_transport, expected; simpl.
  unfold listener_quic, NewWSS, NewTLS, NewQUIC, assertTLS.
  unfold networks in Hn. repeat (apply elem_of_cons in Hn as [->|Hn]);
    [..|by apply elem_of_nil in Hn]; simpl;
    unfold listener_tls; destruct (TLS l); simpl; try destruct (load _ _); simpl; eauto.
Qed.

(** A listener whose server was made and started. *)
Definition runs (m : @Clu.broker_methods Cl) (l : listenerConfig) (t : transport)
  : Srv.Listener Cl :=
  Srv.mkListener (Listener_Start (Srv.core (has_options m l))) (Srv.options_of (has_options m l))
    (Some (Srv.mkServer (":" +:+ pretty (lis_Port l)) (expected m l) t)).

Lemma Start_has_options m l : lis_Network l ∈ networks →
  if lacks_certificate l then ∃ p, Srv.Start noClose (has_options m l) = Panic p
  else ∃ t, Srv.Start noClose (has_options m l) = Ok (runs m l t).
Proof.
  intros Hn. pose proof (new_transport_expected m l Hn) as Ht.
  unfold Srv.Start. change (started _) with false. cbn match. unfold Srv.New.
  rewrite has_options_settings. change (l_port _) with (lis_Port l).
  destruct (lacks_certificate l); destruct Ht as [x ->]; simpl; eauto.
Qed.

Lemma fold_add_listener m ls acc net :
  fold_left (Clu.add_listener m) (booter_listener <$> ls) acc !! net =
  match last_listener net ls with
  | Some l => Some (has_options m l)
  | None => acc !! net
  end.
Proof.
  revert acc. induction ls as [|l ls IH] using rev_ind; intros acc; [done|].
  unfold last_listener. rewrite fmap_app, fold_left_app, filter_app. simpl.
  unfold Clu.add_listener at 1. simpl. destruct (decide (lis_Network l = net)) as [<-|Hne].
  - rewrite filter_cons_True, last_app by done. simpl. apply lookup_insert_eq.
  - rewrite filter_cons_False, app_nil_r by done. rewrite lookup_insert_ne by done. apply IH.
Qed.

(** Starting listeners one after the other. *)
Definition blocked (l : listenerConfig) : bool := AutoStart l && lacks_certificate l.

Lemma fold_start_panic l p :
  fold_left (Clu.start_listener noClose) l (Panic p : outcome error (gmap string (Srv.Listener Cl)))
    = Panic p.
Proof. induction l; [done|by simpl]. Qed.

Lemma fold_start m (xs : list (string * listenerConfig)) acc :
  NoDup xs.*1 → Forall (λ x, lis_Network x.2 ∈ networks) xs →
  if existsb (λ x, blocked x.2) xs then
    ∃ p, fold_left (Clu.start_listener noClose) (prod_map id (has_options m) <$> xs) (Ok acc) = Panic p
  else
    ∃ ls, fold_left (Clu.start_listener noClose) (prod_map id (has_options m) <$> xs) (Ok acc) = Ok ls ∧
      ∀ net, match (list_to_map xs : gmap string listenerConfig) !! net with
             | Some l => if AutoStart l then ∃ t, ls !! net = Some (runs m l t)
                         else ls !! net = acc !! net
             | None => ls !! net = acc !! net
             end.
Proof.
  revert acc. induction xs as [|[k l] xs IH]; intros acc Hnd Hn; simpl.
  { eexists. split; [done|]. intros net. by rewrite lookup_empty. }
  apply NoDup_cons in Hnd as [Hk Hnd]. apply Forall_cons in Hn as [Hl Hn]. cbn [snd] in Hl.
  assert ((list_to_map xs : gmap string listenerConfig) !! k = None) as Ek
    by by apply not_elem_of_list_to_map_1.
  change (list_fmap _ _ ?f xs) with (f <$> xs).
  pose proof (Start_has_options m l Hl) as Hs. unfold blocked at 1.
  destruct (AutoStart l) eqn:Ea; simpl.
  - destruct (lacks_certificate l); destruct Hs as [t ->]; simpl.
    { eexists. by apply fold_start_panic. }
    specialize (IH (<[k := runs m l t]> acc) Hnd Hn).
    destruct (existsb _ xs); [done|]. destruct IH as (ls & E & Hls). exists ls. split; [done|].
    intros net. specialize (Hls net). destruct (decide (net = k)) as [->|Hne].
    + rewrite Ek, lookup_insert_eq in Hls. rewrite lookup_insert_eq, Ea. eauto.
    + rewrite lookup_insert_ne in Hls by done. by rewrite lookup_insert_ne.
  - specialize (IH acc Hnd Hn). destruct (existsb _ xs); [done|].
    destruct IH as (ls & E & Hls). exists ls. split; [done|].
    intros net. specialize (Hls net). destruct (decide (net = k)) as [->|Hne].
    + rewrite Ek in Hls. by rewrite lookup_insert_eq, Ea.
    + by rewrite lookup_insert_ne.
Qed.

(** The range over the broker's listeners, as entries of the configuration. *)
Lemma listeners_of_entries m ls (ys : list (string * Srv.Listener Cl)) :
  Forall (λ y, ∃ l, last_listener y.1 ls = Some l ∧ y.2 = has_options m l) ys →
  ∃ xs, ys = prod_map id (has_options m) <$> xs ∧ Forall (λ x, last_listener x.1 ls = Some x.2) xs.
Proof.
  induction 1 as [|[k y] ys (l & El & Ey) _ (xs & -> & Hxs)]; simpl in *; subst.
  - by exists [].
  - exists ((k, l) :: xs). split; [done|by constructor].
Qed.

Lemma last_listener_in net l ls : last_listener net ls = Some l → lis_Network l = net ∧ l ∈ ls.
Proof.
  unfold last_listener. intros E. apply last_Some_elem_of, list_elem_of_filter in E.
  done.
Qed.

Lemma newBooter_node m b generated c : config_wf c →
  ∃ n, newBooter m b generated c = Ok n ∧
    (∀ net, Clu.n_listeners n !! net = has_options m <$> last_listener net (Listeners c)) ∧
    (∀ l, Srv.newOptions noClose (Srv.options_of (has_options m l)) = expected m l) ∧
    Clu.n_address n = ":4567" ∧
    (match Clu.n_discovery n with DMulticast _ p | DEtcd _ p _ => p end) = PeerPort c.
Proof.
  intros Hc. destruct (GetDiscovery_wf c Hc) as (d & Ed & Ep).
  unfold newBooter, Clu.NewBroker. cbn [Clu.newOptions fold_left Clu.WithNodeId Clu.WithHandler
    Clu.WithClusterSize Clu.WithDiscovery Clu.WithListeners Clu.discovery]. rewrite Ed.
  eexists. split; [done|]. cbn [Clu.n_listeners Clu.n_address Clu.n_discovery Clu.listeners]. split_and!.
  - intros net. change (Clu.listeners _) with (booter_listener <$> Listeners c).
    rewrite fold_add_listener. by destruct (last_listener _ _).
  - apply has_options_settings.
  - by vm_compute.
  - by destruct d; injection Ep.
Qed.

Lemma newBooter_range `{!GoRange string} m b generated c n : config_wf c →
  newBooter m b generated c = Ok n →
  ∃ xs, go_range (Clu.n_listeners n) = prod_map id (has_options m) <$> xs ∧ NoDup xs.*1 ∧
    Forall (λ x, lis_Network x.2 ∈ networks) xs ∧
    ∀ net l, (net, l) ∈ xs ↔ last_listener net (Listeners c) = Some l.
Proof.
  intros Hc En. destruct (newBooter_node m b generated c Hc) as (n' & En' & Hls & _).
  rewrite En in En'. injection En' as <-.
  destruct (listeners_of_entries m (Listeners c) (go_range (Clu.n_listeners n))) as (xs & E & Hxs).
  { apply Forall_forall. intros [net L] Hin%elem_of_go_range. rewrite Hls in Hin.
    apply fmap_Some in Hin as (l & El & ->). by exists l. }
  exists xs. rewrite Forall_forall in Hxs.
  assert (∀ net l, (net, l) ∈ xs ↔ last_listener net (Listeners c) = Some l) as Hin.
  { intros net l. split; [by intros ?%Hxs|]. intros El.
    assert ((net, has_options m l) ∈ prod_map id (has_options m) <$> xs) as Hin.
    { rewrite <-E. apply elem_of_go_range. by rewrite Hls, El. }
    apply list_elem_of_fmap in Hin as ([net' l'] & [= <- _] & Hin).
    pose proof (Hxs _ Hin) as El'. simpl in El'. rewrite El in El'. by injection El' as <-. }
  split_and!; [done| | |done].
  - assert (xs.*1 = (go_range (Clu.n_listeners n)).*1) as ->; [|apply NoDup_go_range].
    rewrite E, <-list_fmap_compose. by apply list_fmap_ext.
  - apply Forall_forall. intros [net l] Hl%Hin%last_listener_in.
    destruct Hl as [_ Hl]. destruct (wf_listeners _ Hc) as [_ Hall].
    rewrite Forall_forall in Hall. apply (lwf_network _ (Hall _ Hl)).
Qed.

(** ** Properties of starting *)

(** A valid configuration makes a broker with one listener
    per network, that of the last entry for it; earlier entries for the network are dropped.
    The server of a listener will have the entry's network and queue capacity, and the broker's
    callbacks, where the connect callback is told the network.  The peer server listens on port
    4567, while the discovery announces the configured peer port. *)
Theorem newBooter_listeners m b generated c : config_wf c →
  ∃ n, newBooter m b generated c = Ok n ∧
    (∀ net, Clu.n_listeners n !! net = has_options m <$> last_listener net (Listeners c)) ∧
    (∀ l, Srv.newOptions noClose (Srv.options_of (has_options m l)) = expected m l) ∧
    Clu.n_address n = ":4567" ∧
    (match Clu.n_discovery n with DMulticast _ p | DEtcd _ p _ => p end) = PeerPort c.
Proof. apply newBooter_node. Qed.

(** C32 (readiness): when the cluster becomes ready, the service panics exactly if
    some listener that starts by itself needs a certificate and has none, although the
    configuration was accepted; otherwise exactly the listeners that start by themselves run,
    each with its own settings.  The order of the listeners does not matter. *)
Theorem ready_panics `{!GoRange string} m b generated c n : config_wf c →
  newBooter m b generated c = Ok n →
  (is_panic (Clu.onClusterReady noClose n) = true ↔
     ∃ net l, last_listener net (Listeners c) = Some l ∧ blocked l = true) ∧
  (is_panic (Clu.onClusterReady noClose n) = false →
     ∃ n', Clu.onClusterReady noClose n = Ok n' ∧
       ∀ net l, last_listener net (Listeners c) = Some l →
         if AutoStart l then ∃ t, Clu.n_listeners n' !! net = Some (runs m l t)
         else Clu.n_listeners n' !! net = Some (has_options m l)).
Proof.
  intros Hc En. destruct (newBooter_range m b generated c n Hc En) as (xs & E & Hnd & Hn & Hin).
  destruct (newBooter_node m b generated c Hc) as (n' & En' & Hls & _).
  rewrite En in En'. injection En' as <-.
  pose proof (fold_start m xs (Clu.n_listeners n) Hnd Hn) as Hf.
  unfold Clu.onClusterReady. rewrite E.
  destruct (existsb _ xs) eqn:Eb.
  - destruct Hf as [p ->]. simpl. split; [|done]. split; [intros _|done].
    apply existsb_exists in Eb as ([net l] & Hl & Hb). exists net, l.
    split; [|done]. by apply Hin, list_elem_of_In.
  - destruct Hf as (ls & -> & Hls'). simpl. split.
    + split; [done|]. intros (net & l & El & Hb). rewrite <-Eb.
      apply existsb_exists. exists (net, l). split; [|done]. by apply list_elem_of_In, Hin.
    + intros _. eexists. split; [done|]. intros net l El. simpl. specialize (Hls' net).
      rewrite (elem_of_list_to_map_1 xs net l) in Hls' by (done || by apply Hin).
      destruct (AutoStart l); [done|]. by rewrite Hls', Hls, El.
Qed.
End boot.

(** ** Witnesses *)
Definition quiet_methods : @Clu.broker_methods unit :=
  Clu.mkMethods tt (λ _ _, None) (λ _ _, Err EEOF) (λ _ _, ConnectAccepted).

Lemma newBooter_listeners_witness :
  ∃ n, newBooter () (λ _ _, true) quiet_methods () 0 (shipped false) = Ok n ∧
    (l_port ∘ Srv.core) <$> Clu.n_listeners n !! "tcp" = Some 1893.
Proof.
  destruct (newBooter_listeners () () (λ _ _, true) quiet_methods () 0 (shipped false)
    (shipped_wf false)) as (n & E & Hls & _).
  exists n. split; [exact E|]. rewrite Hls. by vm_compute.
Defined.

Lemma ready_panics_witness :
  ∃ n, newBooter () (λ _ _, false) quiet_methods () 0 (shipped true) = Ok n ∧
    is_panic (@Clu.onClusterReady _ _ _ range_forward () n) = true.
Proof.
  destruct (newBooter () (λ _ _, false) quiet_methods () 0 (shipped true)) as [n| |] eqn:E;
    [|by vm_compute in E..].
  exists n. split; [done|].
  apply (@ready_panics _ _ () () (λ _ _, false) range_forward quiet_methods () 0 (shipped true) n
    (shipped_wf true) E).
  exists "tls"%string. eexists. split; by vm_compute.
Defined.
