(* ===== verification/Discovery.v ===== *)
(** * Discovery of brokers (src/discovery/discovery.go, src/cmd/cable/discovery_etcd.go)

    Brokers find each other by multicast or through etcd.  Sockets and the etcd client are left
    out: the model is what happens to a datagram, to a watch event, to a listing.  The cluster
    is seen through the interface of [discovery.Handler].  Times are nanoseconds; an update
    reads the clock twice, when the entry is made and in the loop over the table. *)
From S2P Require Import Prelude Errors Coder Packet Server Options.
From stdpp Require Import pretty.
Local Open Scope Z_scope.

(** [discovery.Handler]. *)
Class DiscoveryHandler (H : Type) := {
  h_OnNodeJoin : Z → string → H → outcome error H;
  h_OnNodeLeave : Z → H → H
}.

(** A handler that records its calls. *)
Inductive handler_call := Join (id : Z) (addr : string) | Leave (id : Z).

#[export] Instance recorder : DiscoveryHandler (list handler_call) := {|
  h_OnNodeJoin := λ id addr l, Ok (l ++ [Join id addr]);
  h_OnNodeLeave := λ id l, l ++ [Leave id]
|}.

Record node := mkNode { n_id : Z; n_addr : string; n_updateTime : Z }.

Record discovery (H : Type) := mkDiscovery {
  d_id : Z; d_ipaddr : string; d_handler : H; allNodes : gmap Z node }.
Arguments mkDiscovery {H} d_id d_ipaddr d_handler allNodes.
Arguments d_id {H} d.
Arguments d_ipaddr {H} d.
Arguments d_handler {H} d.
Arguments allNodes {H} d.

(** [NewMuticast]: [ip] is the result of [getLocalIP]. *)
Definition NewMuticast {H} (id port : Z) (ip : string + error) (handler : H)
  : outcome error (discovery H) :=
  match ip with
  | inr e => Panic (Explicit (error_string e))
  | inl ip => Ok (mkDiscovery id (ip +:+ ":" +:+ pretty port) handler ∅)
  end.

Definition Second30 : Z := 30 * 1000000000.

Section multicast.
Context {H : Type} {HH : DiscoveryHandler H} `{!GoRange uint8, !GoRange Z}.
Implicit Types m : discovery H.

(** The loop of [updateNode]: entries that were not updated for 30 seconds are removed. *)
Definition expire_one (now : Z) (m : discovery H) (x : Z * node) : discovery H :=
  if Second30 <? now - n_updateTime x.2 then
    mkDiscovery (d_id m) (d_ipaddr m) (h_OnNodeLeave (n_id x.2) (d_handler m))
      (delete (n_id x.2) (allNodes m))
  else m.

Definition updateNode (t now : Z) (id : Z) (addr : string) (m : discovery H)
  : outcome error (discovery H) :=
  let m := mkDiscovery (d_id m) (d_ipaddr m) (d_handler m) (<[id := mkNode id addr t]> (allNodes m)) in
  let m := fold_left (expire_one now) (go_range (allNodes m)) m in
  h <~ h_OnNodeJoin id addr (d_handler m);
  Ok (mkDiscovery (d_id m) (d_ipaddr m) h (allNodes m)).

(** The id and address a node sends. *)
Definition announce (id : Z) (addr : string) : bytes :=
  ebuf (WriteString (WriteUInt64 (mkEncoder []) id) addr).

Definition read_announce : D (Z * string) := id <-- ReadUInt64; addr <-- ReadString; dret (id, addr).

(** A datagram is read into a buffer of [MAX_UDP] bytes. *)
Definition received (data : bytes) : bytes := take (Z.to_nat MAX_UDP) data.

(** [heartbeat]: the datagram that is multicast. *)
Definition heartbeat (m : discovery H) : outcome error bytes :=
  marshal (PRequest (NewRequest "discovery" (Some (announce (d_id m) (d_ipaddr m))))).

(** One turn of the loop of [listen]: the node and the answer to the sender, if one is sent.
    When the answer cannot be marshalled an empty datagram is sent. *)
Definition listen (t now : Z) (data : bytes) (m : discovery H)
  : outcome error (discovery H * option bytes) :=
  match Unmarshal (received data) with
  | Panic w => Panic w
  | Err _ => Ok (m, None)
  | Ok (PRequest req) =>
      if decide (Method req ≠ "discovery") then Ok (m, None)
      else match fst (read_announce (NewDecoder (request_Body req))) with
           | Panic w => Panic w
           | Err _ => Ok (m, None)
           | Ok (id, ipaddr) =>
               m <~ updateNode t now id ipaddr m;
               match marshal (PResponse (Request_Response req StatusOK
                                (Some (announce (d_id m) (d_ipaddr m))))) with
               | Ok bytes => Ok (m, Some bytes)
               | Err _ => Ok (m, Some [])
               | Panic w => Panic w
               end
           end
  | Ok _ => Ok (m, None)
  end.

(** One turn of the loop of [watch], which receives the answers. *)
Definition watch (t now : Z) (data : bytes) (m : discovery H) : outcome error (discovery H) :=
  match Unmarshal (received data) with
  | Panic w => Panic w
  | Err _ => Ok m
  | Ok (PResponse resp) =>
      match fst (read_announce (NewDecoder (response_Body resp))) with
      | Panic w => Panic w
      | Err _ => Ok m
      | Ok (id, ipaddr) => updateNode t now id ipaddr m
      end
  | Ok _ => Ok m
  end.
End multicast.

(** ** Discovery through etcd *)

(** The key of a node, [fmt.Sprintf] of its id. *)
Definition key_prefix : string := "/cable/nodes/".
Definition nodeKey (id : Z) : string := key_prefix +:+ pretty id.

(** [fmt.Sscanf] with [%d]: white space is skipped, a line feed is an error; the digits that
    follow are the number, what comes after them is ignored. *)
Fixpoint SkipSpace (fuel : nat) (l : bytes) : option bytes :=
  match fuel, l with
  | S fuel, x0a :: _ => None
  | S fuel, _ => match strip_one space_encodings l with
                 | Some l => SkipSpace fuel l
                 | None => Some l
                 end
  | O, _ => Some l
  end.

Fixpoint take_digits (l : bytes) : bytes :=
  match l with
  | b :: l => match digit_value b with Some _ => b :: take_digits l | None => [] end
  | [] => []
  end.

Definition extractNodeID (key : string) : option Z :=
  match Packet.strip_prefix (bytes_of_string key_prefix) (bytes_of_string key) with
  | Some l => match SkipSpace (length l) l with
              | Some l => ParseUint64 (string_of_bytes (take_digits l))
              | None => None
              end
  | None => None
  end.

Inductive etcd_event := EventTypePut (key value : string) | EventTypeDelete (key : string).

Record etcdDiscovery (H : Type) := mkEtcd { e_id : Z; e_ipaddr : string; e_handler : option H }.
Arguments mkEtcd {H} e_id e_ipaddr e_handler.
Arguments e_id {H} e.
Arguments e_ipaddr {H} e.
Arguments e_handler {H} e.

(** [newEtcdDiscovery]; the handler is set later. *)
Definition newEtcdDiscovery {H} (id port : Z) (ip : string + error)
  : outcome error (etcdDiscovery H) :=
  match ip with
  | inr e => Panic (Explicit (error_string e))
  | inl ip => Ok (mkEtcd id (ip +:+ ":" +:+ pretty port) None)
  end.

Section etcd.
Context {H : Type} {HH : DiscoveryHandler H}.
Implicit Types e : etcdDiscovery H.

Definition SetHandler (h : H) e : etcdDiscovery H := mkEtcd (e_id e) (e_ipaddr e) (Some h).

(** The entry [Start] puts under the lease. *)
Definition registration e : string * string := (nodeKey (e_id e), e_ipaddr e).

Definition node_joined (id : Z) (value : string) e : outcome error (etcdDiscovery H) :=
  match e_handler e with
  | Some h => h <~ h_OnNodeJoin id value h; Ok (SetHandler h e)
  | None => Ok e
  end.

Definition node_left (id : Z) e : etcdDiscovery H :=
  match e_handler e with Some h => SetHandler (h_OnNodeLeave id h) e | None => e end.

(** One event in [watchNodesLoop], and the events of a response. *)
Definition watch_event e (ev : etcd_event) : outcome error (etcdDiscovery H) :=
  match ev with
  | EventTypePut key value =>
      match extractNodeID key with Some id => node_joined id value e | None => Ok e end
  | EventTypeDelete key =>
      match extractNodeID key with Some id => Ok (node_left id e) | None => Ok e end
  end.

Definition watchNodes (evs : list etcd_event) (r : outcome error (etcdDiscovery H)) :=
  fold_left (λ r ev, e <~ r; watch_event e ev) evs r.

(** [discoverExistingNodes]: the entries of the listing, but the node's own. *)
Definition discover_kv e (kv : string * string) : outcome error (etcdDiscovery H) :=
  match extractNodeID kv.1 with
  | Some id => if negb (id =? e_id e) then node_joined id kv.2 e else Ok e
  | None => Ok e
  end.

Definition discoverExistingNodes (kvs : list (string * string))
    (r : outcome error (etcdDiscovery H)) :=
  fold_left (λ r kv, e <~ r; discover_kv e kv) kvs r.
End etcd.

(** ** Facts *)

Section exchange.
Context `{!GoRange uint8, !GoRange Z}.

Lemma read_announce_announce id addr : inU 64 id → zlen (bytes_of_string addr) <= 900 →
  fst (read_announce (NewDecoder (announce id addr))) = Ok (id, addr).
Proof.
  intros Hid Ha. unfold announce. rewrite ebuf_WriteString by (unfold short_string; lia).
  assert (reads read_announce (be_bytes 8 id ++ enc_string addr) (id, addr)) as Hr.
  { eapply reads_dbind; [by apply reads_ReadUInt64|].
    apply (reads_bind_ret _ (λ a, (id, a))), reads_ReadString. unfold short_string. lia. }
  specialize (Hr [] []). rewrite app_nil_r in Hr. unfold NewDecoder.
  change ([] ++ ?l) with l in Hr. rewrite zlen_nil in Hr. simpl ebuf. rewrite Hr; [done|].
  rewrite zlen_app. unfold enc_string, enc_data, AppendUvarint. rewrite !zlen_app, zlen_nil.
  pose proof (zlen_uvarint (zlen (bytes_of_string addr))). change (zlen (be_bytes 8 id)) with 8. lia.
Qed.

Lemma zlen_announce id addr : zlen (bytes_of_string addr) <= 900 → zlen (announce id addr) <= 918.
Proof.
  intros Ha. unfold announce. rewrite ebuf_WriteString by (unfold short_string; lia).
  unfold enc_string, enc_data, AppendUvarint. simpl ebuf. rewrite !zlen_app, zlen_nil.
  pose proof (zlen_uvarint (zlen (bytes_of_string addr))). change (zlen (be_bytes 8 id)) with 8. lia.
Qed.

(** A packet that fits a datagram arrives. *)
Lemma datagram_arrives p : Packet_wf p → zlen (packet_body p) <= 1000 →
  marshal p = Ok (frame p) ∧ Unmarshal (received (frame p)) = Ok p.
Proof.
  intros Hp Hl. split; [apply marshal_frame; [done|unfold MAX_LEN; lia]|].
  unfold received. rewrite take_ge.
  - rewrite <-(app_nil_r (frame p)). apply Unmarshal_frame; [done|unfold MAX_LEN; lia|by vm_compute].
  - unfold frame, MAX_UDP, MID_LEN_1. rewrite length_app.
    pose proof (zlen_frame_header (Packet_Type p) (zlen (packet_body p))). unfold zlen in *. lia.
Qed.

Lemma request_arrives id addr : zlen (bytes_of_string addr) <= 900 →
  let p := PRequest (NewRequest "discovery" (Some (announce id addr))) in
  marshal p = Ok (frame p) ∧ Unmarshal (received (frame p)) = Ok p.
Proof.
  intros Ha p. apply datagram_arrives; [split; [split; vm_decide|split; vm_decide]|].
  unfold p. simpl. unfold enc_props. rewrite go_range_empty. simpl.
  pose proof (zlen_announce id addr Ha). rewrite !zlen_cons. lia.
Qed.

Lemma response_arrives rid id addr : inU 16 rid → zlen (bytes_of_string addr) <= 900 →
  let p := PResponse (mkResponse ∅ rid StatusOK (announce id addr)) in
  marshal p = Ok (frame p) ∧ Unmarshal (received (frame p)) = Ok p.
Proof.
  intros Hr Ha p. apply datagram_arrives; [split; [split; vm_decide|done]|].
  unfold p. simpl. unfold enc_props. rewrite go_range_empty. simpl.
  pose proof (zlen_announce id addr Ha). rewrite !zlen_cons. lia.
Qed.
End exchange.

Section expiry.
Context {H : Type} {HH : DiscoveryHandler H} `{!GoRange Z}.
Implicit Types m : discovery H.

Definition expired (now : Z) (n : node) : Prop := Second30 < now - n_updateTime n.

#[export] Instance expired_dec now n : Decision (expired now n).
Proof. unfold expired. apply _. Defined.

(** Every entry of the table is stored under its own id. *)
Definition nodes_wf (ms : gmap Z node) : Prop := map_Forall (λ k n, n_id n = k) ms.

Lemma expire_fold now l m : Forall (λ x, n_id x.2 = x.1) l →
  let gone := (filter (λ x : Z * node, expired now x.2) l).*1 in
  fold_left (expire_one now) l m =
  mkDiscovery (d_id m) (d_ipaddr m) (fold_left (λ h k, h_OnNodeLeave k h) gone (d_handler m))
    (fold_left (λ ms k, delete k ms) gone (allNodes m)).
Proof.
  revert m. induction l as [|[k n] l IH]; intros m Hl; [by destruct m|].
  apply Forall_cons in Hl as [Hk Hl]. cbn [fold_left]. rewrite IH by done. simpl in Hk.
  rewrite filter_cons. unfold expire_one. simpl n_updateTime.
  destruct (Z.ltb_spec Second30 (now - n_updateTime n)) as [He|He].
  - rewrite decide_True by done. cbn [fmap list_fmap fold_left fst snd d_id d_ipaddr d_handler allNodes].
    by rewrite Hk.
  - by rewrite decide_False by (unfold expired; simpl; lia).
Qed.

Lemma lookup_fold_delete (l : list Z) (ms : gmap Z node) k :
  fold_left (λ ms k, delete k ms) l ms !! k = if decide (k ∈ l) then None else ms !! k.
Proof.
  revert ms. induction l as [|x l IH]; intros ms; [done|]. simpl. rewrite IH.
  destruct (decide (k ∈ l)).
  { by rewrite decide_True by (by apply list_elem_of_further). }
  destruct (decide (k = x)) as [->|].
  - rewrite decide_True by apply list_elem_of_here. by rewrite lookup_delete_eq.
  - rewrite decide_False by (intros [?|?]%elem_of_cons; done).
    by rewrite lookup_delete_ne.
Qed.

Lemma expire_all now m : nodes_wf (allNodes m) →
  ∃ gone, gone ≡ₚ (map_to_list (filter (λ x, expired now x.2) (allNodes m))).*1 ∧
  fold_left (expire_one now) (go_range (allNodes m)) m =
  mkDiscovery (d_id m) (d_ipaddr m) (fold_left (λ h k, h_OnNodeLeave k h) gone (d_handler m))
    (filter (λ x, ¬ expired now x.2) (allNodes m)).
Proof.
  intros Hwf. exists (filter (λ x : Z * node, expired now x.2) (go_range (allNodes m))).*1. split.
  - apply fmap_Permutation. apply NoDup_Permutation.
    + apply NoDup_filter, (NoDup_fmap_1 fst), NoDup_go_range.
    + apply NoDup_map_to_list.
    + intros [k n]. rewrite list_elem_of_filter, elem_of_go_range, elem_of_map_to_list.
      rewrite map_lookup_filter_Some. naive_solver.
  - rewrite expire_fold.
    + f_equal. apply map_eq. intros k. rewrite lookup_fold_delete.
      destruct (decide _) as [Hin|Hni].
      * symmetry. apply map_lookup_filter_None. right. intros n Hn Hne.
        apply list_elem_of_fmap in Hin as ([k' n'] & -> & Hin).
        apply list_elem_of_filter in Hin as [He Hin]. apply elem_of_go_range in Hin.
        simpl in *. naive_solver.
      * destruct (allNodes m !! k) as [n|] eqn:E.
        -- symmetry. apply map_lookup_filter_Some. split; [done|]. intros He. apply Hni.
           apply list_elem_of_fmap. exists (k, n). split; [done|].
           apply list_elem_of_filter. split; [done|]. by apply elem_of_go_range.
        -- symmetry. apply map_lookup_filter_None. by left.
    + apply Forall_forall. intros [k n] Hin. apply elem_of_go_range in Hin. by apply (Hwf k).
Qed.

Lemma updateNode_self t now id addr m m' : updateNode t now id addr m = Ok m' →
  d_id m' = d_id m ∧ d_ipaddr m' = d_ipaddr m.
Proof.
  unfold updateNode. set (m1 := mkDiscovery _ _ _ _). intros E.
  set (m2 := fold_left (expire_one now) (go_range (allNodes m1)) m1) in E.
  assert (d_id m2 = d_id m ∧ d_ipaddr m2 = d_ipaddr m) as [E1 E2].
  { unfold m2. apply (fold_inv (expire_one now) (λ x, d_id x = d_id m ∧ d_ipaddr x = d_ipaddr m));
      [|done]. intros x a [??]. unfold expire_one. by destruct (_ <? _). }
  change (allNodes m1) with (<[id := mkNode id addr t]> (allNodes m)) in *. unfold m1 in *.
  cbn [d_id d_ipaddr d_handler allNodes] in E. fold m2 in E.
  destruct (h_OnNodeJoin id addr (d_handler m2)); [|done..].
  injection E as <-. done.
Qed.

(** While every known node was heard of in the last 30 seconds nothing expires. *)
Lemma update_fresh t now id addr m start : nodes_wf (allNodes m) →
  map_Forall (λ _ n, start <= n_updateTime n) (allNodes m) →
  start <= t → now <= start + Second30 →
  updateNode t now id addr m =
    (h <~ h_OnNodeJoin id addr (d_handler m);
     Ok (mkDiscovery (d_id m) (d_ipaddr m) h (<[id := mkNode id addr t]> (allNodes m)))).
Proof.
  intros Hwf Hs Ht Hnow. set (ms := <[id := mkNode id addr t]> (allNodes m)).
  set (m1 := mkDiscovery (d_id m) (d_ipaddr m) (d_handler m) ms).
  assert (nodes_wf (allNodes m1)) as Hwf1 by (by apply map_Forall_insert_2).
  assert (∀ k n, ms !! k = Some n → ¬ expired now n) as Hf.
  { assert (map_Forall (λ _ n, start <= n_updateTime n) ms) as Hs1
      by by apply map_Forall_insert_2.
    intros k n Hn. specialize (Hs1 k n Hn). unfold expired. simpl in Hs1. lia. }
  destruct (expire_all now m1 Hwf1) as (gone & Hp & E). unfold updateNode. fold ms m1. rewrite E.
  simpl allNodes in *.
  rewrite (map_empty_filter_2 _ ms) in Hp by (intros k n Hn; by apply (Hf k)).
  rewrite map_to_list_empty in Hp. apply Permutation_nil_r in Hp as ->.
  rewrite (map_filter_id _ ms) by (intros k n Hn; by apply (Hf k)). done.
Qed.

(** Hearing of a node stores it with the time, and removes and reports as
    left, each once, exactly the nodes not heard of for more than 30 seconds; then the node is
    reported as joined.  Every entry stays stored under its own id. *)
Theorem nodes_expire t now id addr m :
  nodes_wf (allNodes m) →
  let ms := <[id := mkNode id addr t]> (allNodes m) in
  ∃ gone, gone ≡ₚ (map_to_list (filter (λ x, expired now x.2) ms)).*1 ∧ NoDup gone ∧
    updateNode t now id addr m =
      (h <~ h_OnNodeJoin id addr (fold_left (λ h k, h_OnNodeLeave k h) gone (d_handler m));
       Ok (mkDiscovery (d_id m) (d_ipaddr m) h (filter (λ x, ¬ expired now x.2) ms))) ∧
    nodes_wf (filter (λ x, ¬ expired now x.2) ms).
Proof.
  intros Hwf ms. set (m1 := mkDiscovery (d_id m) (d_ipaddr m) (d_handler m) ms).
  assert (nodes_wf (allNodes m1)) as Hwf1 by (by apply map_Forall_insert_2).
  destruct (expire_all now m1 Hwf1) as (gone & Hp & E). exists gone. split_and!; [done|..].
  - rewrite Hp. apply NoDup_fst_map_to_list.
  - unfold updateNode. fold ms. fold m1. rewrite E. done.
  - intros k n. rewrite map_lookup_filter_Some. intros [Hn _]. by apply Hwf1.
Qed.
End expiry.

(** A heartbeat is taken for its sender's id and address, and answered. *)
Lemma listen_heartbeat {HA HB} `{!DiscoveryHandler HB, !GoRange uint8, !GoRange Z} t now
    (a : discovery HA) (b b' : discovery HB) :
  inU 64 (d_id a) → inU 64 (d_id b) →
  zlen (bytes_of_string (d_ipaddr a)) <= 900 → zlen (bytes_of_string (d_ipaddr b)) <= 900 →
  updateNode t now (d_id a) (d_ipaddr a) b = Ok b' →
  ∃ beat, heartbeat a = Ok beat ∧ listen t now beat b =
    Ok (b', Some (frame (PResponse (mkResponse ∅ 0 StatusOK (announce (d_id b) (d_ipaddr b)))))).
Proof.
  intros Ha Hb Haa Hab Hu. destruct (updateNode_self _ _ _ _ _ _ Hu) as [Eid Eip].
  destruct (request_arrives (d_id a) (d_ipaddr a) Haa) as [Em Eu].
  destruct (response_arrives 0 (d_id b) (d_ipaddr b) ltac:(vm_decide) Hab) as [Em' _].
  eexists. split; [exact Em|]. unfold listen. rewrite Eu. cbn beta iota.
  change (request_Body (NewRequest "discovery" (Some ?bs))) with bs.
  rewrite decide_False, read_announce_announce by naive_solver.
  cbn beta iota. rewrite Hu. cbn [obind]. rewrite Eid, Eip.
  change (Request_Response _ StatusOK (Some ?bs)) with (mkResponse ∅ 0 StatusOK bs).
  by rewrite Em'.
Qed.

(** The heartbeat of a node, received by another, is taken for that
    node's id and address; the answer sent back makes the first node hear of the second, so each
    reports the other's join. *)
Theorem discovery_exchange {HA HB} `{!DiscoveryHandler HA, !DiscoveryHandler HB, !GoRange uint8,
    !GoRange Z} t now t' now' (a : discovery HA) (b b' : discovery HB) :
  inU 64 (d_id a) → inU 64 (d_id b) →
  zlen (bytes_of_string (d_ipaddr a)) <= 900 → zlen (bytes_of_string (d_ipaddr b)) <= 900 →
  updateNode t now (d_id a) (d_ipaddr a) b = Ok b' →
  ∃ beat reply, heartbeat a = Ok beat ∧ listen t now beat b = Ok (b', Some reply) ∧
    watch t' now' reply a = updateNode t' now' (d_id b) (d_ipaddr b) a.
Proof.
  intros Ha Hb Haa Hab Hu. destruct (listen_heartbeat t now a b b') as (beat & Eb & El); try done.
  destruct (response_arrives 0 (d_id b) (d_ipaddr b) ltac:(vm_decide) Hab) as [_ Eu].
  eexists _, _. split_and!; [exact Eb|exact El|].
  unfold watch. rewrite Eu. cbn [response_Body]. by rewrite read_announce_announce.
Qed.

(** A CONNECT whose identity announces a length near 2^64 (see [Packet]), sent as a datagram, is
    a run-time panic of every node that receives it, whatever the sender: the loops do not
    recover. *)
Theorem datagram_crashes {H} `{!DiscoveryHandler H, !GoRange uint8, !GoRange Z} :
  ∃ data, zlen data <= MAX_UDP ∧ ∀ t now (m : discovery H),
    listen t now data m = Panic SliceBounds ∧ watch t now data m = Panic SliceBounds.
Proof.
  exists [x00; x0d; x01; xff; xff; xff; xff; xff; xff; xff; xff; xff; x01; x61; x62].
  split; [by vm_compute|]. intros t now m. split; reflexivity.
Qed.

(** ** The nodes etcd lists *)

Lemma bytes_of_string_app s1 s2 :
  bytes_of_string (s1 +:+ s2) = bytes_of_string s1 ++ bytes_of_string s2.
Proof. induction s1 as [|a s1 IH]; [done|]. rewrite string_app_cons.
  change (bytes_of_string (String a ?s)) with (Ascii.byte_of_ascii a :: bytes_of_string s).
  by rewrite IH.
Qed.

Lemma strip_prefix_app p l : Packet.strip_prefix p (p ++ l) = Some l.
Proof. induction p as [|b p IH]; [done|]. simpl. by rewrite decide_True. Qed.

Lemma SkipSpace_digit fuel b l : is_digit b → SkipSpace fuel (b :: l) = Some (b :: l).
Proof.
  intros [v Hv]. destruct fuel; [done|]. destruct b; try discriminate Hv; reflexivity.
Qed.

Lemma take_digits_all l : Forall is_digit l → take_digits l = l.
Proof. induction 1 as [|b l [v Hv] _ IH]; [done|]. simpl. by rewrite Hv, IH. Qed.

Lemma extractNodeID_nodeKey id : inU 64 id → extractNodeID (nodeKey id) = Some id.
Proof.
  intros Hid. destruct (parse_pretty id) as (_ & Hd & Hne); [apply Hid|].
  unfold extractNodeID, nodeKey. rewrite bytes_of_string_app, strip_prefix_app.
  assert (SkipSpace (length (bytes_of_string (pretty id))) (bytes_of_string (pretty id)) =
    Some (bytes_of_string (pretty id))) as ->.
  { destruct (bytes_of_string (pretty id)) as [|b l]; [done|]. apply SkipSpace_digit.
    by apply Forall_cons in Hd as [??]. }
  rewrite take_digits_all, string_of_bytes_of_string by done. by apply ParseUint64_pretty.
Qed.

(** A handler that keeps the table of the nodes it was told of. *)
#[export] Instance members : DiscoveryHandler (gmap Z string) := {|
  h_OnNodeJoin := λ id addr t, Ok (<[id := addr]> t);
  h_OnNodeLeave := λ id t, delete id t
|}.

(** What happens to the registered nodes, and the events etcd reports. *)
Inductive change := Registered (id : Z) (addr : string) | Expired (id : Z).

Definition apply_change (store : gmap Z string) (c : change) : gmap Z string :=
  match c with Registered id addr => <[id := addr]> store | Expired id => delete id store end.

Definition change_id (c : change) : Z :=
  match c with Registered id _ => id | Expired id => id end.

Definition event_of (c : change) : etcd_event :=
  match c with
  | Registered id addr => EventTypePut (nodeKey id) addr
  | Expired id => EventTypeDelete (nodeKey id)
  end.

Definition listing (store : gmap Z string) : list (string * string) :=
  (λ kv, (nodeKey kv.1, kv.2)) <$> map_to_list store.

Definition with_table (e : etcdDiscovery (gmap Z string)) (t : gmap Z string) :=
  mkEtcd (e_id e) (e_ipaddr e) (Some t).

Lemma watch_changes e t cs : Forall (λ c, inU 64 (change_id c)) cs →
  watchNodes (event_of <$> cs) (Ok (with_table e t)) =
    Ok (with_table e (fold_left apply_change cs t)).
Proof.
  intros Hcs. revert t. induction Hcs as [|c cs Hc _ IH]; intros t; [done|].
  unfold watchNodes in *. cbn [fmap list_fmap fold_left]. rewrite <-IH. f_equal.
  destruct c; simpl in *; rewrite extractNodeID_nodeKey by done; done.
Qed.

Lemma discover_listing e t store : map_Forall (λ id _, inU 64 id) store →
  discoverExistingNodes (listing store) (Ok (with_table e t)) =
    Ok (with_table e (delete (e_id e) store ∪ t)).
Proof.
  intros Hs. unfold listing.
  assert (∀ (l : list (Z * string)) t, NoDup l.*1 → Forall (λ x, inU 64 x.1) l →
    discoverExistingNodes ((λ kv, (nodeKey kv.1, kv.2)) <$> l) (Ok (with_table e t)) =
      Ok (with_table e (delete (e_id e) (list_to_map l) ∪ t))) as Hl.
  { clear. intros l. induction l as [|[k a] l IH]; intros t Hnd Hl.
    - rewrite list_to_map_nil, delete_empty, (left_id_L ∅ (∪)). done.
    - apply Forall_cons in Hl as [Hk Hl]. cbn [fmap list_fmap fst] in Hnd.
      apply NoDup_cons in Hnd as [Hni Hnd]. unfold discoverExistingNodes in *.
      cbn [fmap list_fmap fold_left obind fst snd]. unfold discover_kv at 2.
      cbn [fst snd]. rewrite extractNodeID_nodeKey by done. simpl e_id.
      apply not_elem_of_list_to_map_1 in Hni. cbn [list_to_map foldr].
      destruct (Z.eqb_spec k (e_id e)) as [->|Hne]; cbn [negb].
      + rewrite IH by done. cbn [list_to_map foldr fst snd]. by rewrite delete_insert_eq.
      + unfold node_joined. simpl e_handler. cbn [h_OnNodeJoin members obind].
        change (SetHandler ?h (with_table e t)) with (with_table e h).
        rewrite IH by done. do 2 f_equal. cbn [list_to_map foldr fst snd].
        rewrite delete_insert_ne by done. apply map_eq. intros j.
        destruct (decide (j = k)) as [->|].
        * transitivity (Some a); [|symmetry; apply lookup_union_Some_l, lookup_insert_eq].
          rewrite lookup_union_r; [apply lookup_insert_eq|]. by rewrite lookup_delete_ne.
        * by rewrite !lookup_union, !lookup_insert_ne. }
  rewrite Hl, list_to_map_to_list; [done|apply NoDup_fst_map_to_list|].
  apply Forall_forall. intros [k a] Hin. apply elem_of_map_to_list in Hin. by apply (Hs k a).
Qed.

(** When the watched changes come after the listing, the handler knows
    exactly the registered nodes, its own apart.  The listing and the watch are handled by two
    goroutines: a listed node whose expiry was already handled is joined and never leaves. *)
Theorem etcd_members (e : etcdDiscovery (gmap Z string)) store cs :
  map_Forall (λ id _, inU 64 id) store → Forall (λ c, inU 64 (change_id c)) cs →
  (∃ t, watchNodes (event_of <$> cs)
          (discoverExistingNodes (listing store) (Ok (SetHandler ∅ e))) = Ok (SetHandler t e) ∧
     ∀ id, id ≠ e_id e → t !! id = fold_left apply_change cs store !! id) ∧
  (∀ id addr, store !! id = Some addr → id ≠ e_id e →
     ∃ t, discoverExistingNodes (listing store)
            (watchNodes [event_of (Expired id)] (Ok (SetHandler ∅ e))) = Ok (SetHandler t e) ∧
       t !! id = Some addr ∧ apply_change store (Expired id) !! id = None).
Proof.
  intros Hs Hcs. change (SetHandler ?h e) with (with_table e h). split.
  - exists (fold_left apply_change cs (delete (e_id e) store)).
    rewrite discover_listing, (right_id_L ∅ (∪)) by done. split; [by apply watch_changes|].
    intros id Hid. assert (delete (e_id e) store !! id = store !! id) as E
      by by rewrite lookup_delete_ne.
    revert E. generalize (delete (e_id e) store). clear Hs Hcs. revert store.
    induction cs as [|c cs IH]; intros s1 s2 E; [done|]. simpl. apply IH.
    destruct c as [k a|k]; simpl; (destruct (decide (id = k)) as [->|];
      [by rewrite ?lookup_insert_eq, ?lookup_delete_eq
      |by rewrite ?lookup_insert_ne, ?lookup_delete_ne by done]).
  - intros id addr Hl Hid. rewrite (watch_changes e ∅ [Expired id]).
    + rewrite discover_listing by done. eexists. split; [done|]. split; [|apply lookup_delete_eq].
      apply lookup_union_Some_l. by rewrite lookup_delete_ne.
    + constructor; [|constructor]. by apply (Hs id addr).
Qed.

(** ** Witnesses *)

Definition fresh_node (id : Z) : discovery (list handler_call) :=
  mkDiscovery id ("10.0.0." +:+ pretty id +:+ ":4567") [] ∅.

Lemma nodes_expire_witness :
  let m := mkDiscovery 1 "a:4567" [] {[ 7 := mkNode 7 "g:4567" 0 ]} in
  @updateNode (list handler_call) recorder range_forward (31 * 1000000000) (31 * 1000000000) 2 "b:4567" m =
    Ok (mkDiscovery 1 "a:4567" [Leave 7; Join 2 "b:4567"]
          {[ 2 := mkNode 2 "b:4567" (31 * 1000000000) ]}) ∧
  ∃ gone, NoDup gone ∧ @updateNode (list handler_call) recorder range_forward (31 * 1000000000)
    (31 * 1000000000) 2 "b:4567" m =
      (h <~ @h_OnNodeJoin _ recorder 2 "b:4567" (fold_left (λ h k, h_OnNodeLeave k h) gone []);
       Ok (mkDiscovery 1 "a:4567" h
             (filter (λ x, ¬ expired (31 * 1000000000) x.2)
               (<[2 := mkNode 2 "b:4567" (31 * 1000000000)]>
                  {[ 7 := mkNode 7 "g:4567" 0 ]})))).
Proof.
  split; [vm_compute; reflexivity|].
  destruct (@nodes_expire (list handler_call) recorder range_forward (31 * 1000000000) (31 * 1000000000)
    2 "b:4567" (mkDiscovery 1 "a:4567" [] {[ 7 := mkNode 7 "g:4567" 0 ]}))
    as (gone & _ & Hnd & E & _); [by apply map_Forall_singleton|].
  exists gone. split; [exact Hnd|exact E].
Defined.

Lemma discovery_exchange_witness :
  ∃ b' beat reply, @heartbeat _ range_forward (fresh_node 1) = Ok beat ∧
    @listen _ recorder range_forward range_forward 5 6 beat (fresh_node 2) = Ok (b', Some reply) ∧
    d_handler b' = [Join 1 "10.0.0.1:4567"] ∧
    omap_ok d_handler (@watch _ recorder range_forward range_forward 7 8 reply (fresh_node 1)) =
      Ok [Join 2 "10.0.0.2:4567"].
Proof.
  destruct (@discovery_exchange _ _ recorder recorder range_forward range_forward 5 6 7 8
    (fresh_node 1) (fresh_node 2)
    (mkDiscovery 2 "10.0.0.2:4567" [Join 1 "10.0.0.1:4567"] {[ 1 := mkNode 1 "10.0.0.1:4567" 5 ]}))
    as (beat & reply & Eb & El & Ew);
    [vm_decide|vm_decide|vm_compute; discriminate|vm_compute; discriminate
    |vm_compute; reflexivity|].
  eexists _, beat, reply. split; [exact Eb|]. split; [exact El|]. split; [reflexivity|].
  rewrite Ew. vm_compute. reflexivity.
Defined.

Lemma etcd_members_witness :
  let e := mkEtcd 1 "a:4567" None in
  let store := {[ 1 := "a:4567"; 2 := "b:4567" ]} in
  ∃ t, watchNodes [EventTypePut "/cable/nodes/3" "c:4567"; EventTypeDelete "/cable/nodes/2"]
         (discoverExistingNodes (listing store) (Ok (SetHandler ∅ e))) = Ok (SetHandler t e) ∧
    t !! 2 = None ∧ t !! 3 = Some "c:4567".
Proof.
  destruct (etcd_members (mkEtcd 1 "a:4567" None) {[ 1 := "a:4567"; 2 := "b:4567" ]}
    [Registered 3 "c:4567"; Expired 2]) as [(t & E & Ht) _].
  - vm_decide.
  - repeat constructor; vm_decide.
  - exists t. split; [exact E|]. rewrite !Ht by done. vm_compute. done.
Defined.
