(* ===== verification/Bootstrap.v ===== *)
(** * From discovery to the consensus group (src/discovery, src/cluster)

    The cluster is the handler of the discovery: nodes it hears of join it, and once all are
    known raft starts ([Raft.bootstrap_peers] is about the cluster alone). *)
From S2P Require Import Prelude Errors Coder Packet Safe Registry.
From S2P Require Import Server Broker Raft Options Discovery.
Local Open Scope Z_scope.

Section bootstrap.
Context {CS : Type} `{!GoRange uint8, !GoRange Z} (dial : string → bool) (reply : option error).

(** [SetHandler(c.cluster)] (broker.go). *)
#[local] Instance raft_handler : DiscoveryHandler (cluster CS) := {|
  h_OnNodeJoin := OnNodeJoin dial reply;
  h_OnNodeLeave := OnNodeLeave reply
|}.

(** A heartbeat of a node, heard when the clock is [time]. *)
Record beat := mkBeat { b_node : Z; b_addr : string; b_time : Z }.

Definition beat_wf (b : beat) : Prop :=
  inU 64 (b_node b) ∧ zlen (bytes_of_string (b_addr b)) <= 900.

Definition hear (r : outcome error (discovery (cluster CS))) (b : beat) :=
  m <~ r;
  data <~ heartbeat (mkDiscovery (b_node b) (b_addr b) tt ∅);
  omap_ok fst (listen (b_time b) (b_time b) data m).

(** While no node is silent for more than 30 seconds, hearing nodes is joining them. *)
Lemma hear_joins m c0 start bs :
  Forall beat_wf bs → Forall (λ b, start <= b_time b <= start + Second30) bs →
  inU 64 (d_id m) → zlen (bytes_of_string (d_ipaddr m)) <= 900 →
  allNodes m = ∅ → d_handler m = c0 →
  ∀ c', joins dial reply ((λ b, (b_node b, b_addr b)) <$> bs) (Ok c0) = Ok c' →
  ∃ m', fold_left hear bs (Ok m) = Ok m' ∧ d_handler m' = c' ∧ d_id m' = d_id m ∧
    d_ipaddr m' = d_ipaddr m ∧ nodes_wf (allNodes m') ∧
    map_Forall (λ _ n, start <= n_updateTime n) (allNodes m').
Proof.
  intros Hwf Ht Hid Hip He Hh. induction bs as [|b bs IH] using rev_ind; intros c' Hj.
  { injection Hj as <-. exists m. rewrite He. split_and!; try done; apply map_Forall_empty. }
  apply Forall_app in Hwf as [Hwf [[Hbi Hba] _]%Forall_cons].
  apply Forall_app in Ht as [Ht [Hbt _]%Forall_cons].
  rewrite fmap_app in Hj. unfold joins in *. rewrite fold_left_app in Hj.
  destruct (fold_left _ _ (Ok c0)) as [c1| |]; [|done..].
  destruct (IH Hwf Ht c1 eq_refl) as (m1 & E1 & Eh & Ei & Ea & Hn & Hs).
  cbn [fmap list_fmap fold_left obind fst snd] in Hj.
  set (ms := <[b_node b := mkNode (b_node b) (b_addr b) (b_time b)]> (allNodes m1)).
  assert (map_Forall (λ _ n, start <= n_updateTime n) ms) as Hs'.
  { apply map_Forall_insert_2; [simpl; lia|done]. }
  pose proof (update_fresh (b_time b) (b_time b) (b_node b) (b_addr b) m1 start Hn Hs
    ltac:(lia) ltac:(lia)) as E2.
  rewrite Eh in E2. cbn [h_OnNodeJoin raft_handler] in E2. rewrite Hj in E2. cbn [obind] in E2.
  edestruct (listen_heartbeat (b_time b) (b_time b)
    (mkDiscovery (b_node b) (b_addr b) tt ∅) m1) as (data & Ed & El);
    [exact Hbi|by rewrite Ei|exact Hba|by rewrite Ea|exact E2|].
  eexists. rewrite fold_left_app, E1. cbn [fold_left]. unfold hear at 1. cbn [obind].
  rewrite Ed. cbn [obind]. rewrite El. split; [done|]. cbn [d_handler d_id d_ipaddr allNodes].
  split_and!; [done..| |done]. by apply map_Forall_insert_2.
Qed.

(** C20 (a cluster that finds itself): when a fresh broker hears heartbeats within 30 seconds, each node
    any number of times and itself among them, its cluster knows exactly the other nodes heard, and
    raft was started, once, exactly if they are all it expects: with this node and, before the first
    [s - 1] others, as many peers whose id is 0. *)
Theorem heartbeats_bootstrap (b : broker) (s : Z) (addr : string) start bs :
  let others : gset Z := list_to_set (b_node <$> bs) ∖ {[nodeId b]} in
  2 <= s < 2 ^ 31 → nodeId b ≠ 0 → inU 64 (nodeId b) → peers b = RMap_empty →
  zlen (bytes_of_string addr) <= 900 →
  Forall beat_wf bs → Forall (λ x, start <= b_time x <= start + Second30) bs →
  Z.of_nat (base.size others) < 2 ^ 31 →
  ∃ m' c', fold_left hear bs (Ok (mkDiscovery (nodeId b) addr (newCluster b s) ∅)) = Ok m' ∧
    d_handler m' = c' ∧ dom (rm (cl_peers c')) = others ∧
    raft c' = bool_decide (s - 1 <= Z.of_nat (base.size others)) ∧
    if decide (s - 1 <= Z.of_nat (base.size others))
    then ∃ first, first ≡ₚ take (Z.to_nat (s - 1)) (heard (nodeId b) (b_node <$> bs)) ∧
      raft_log c' = [StartNode (nodeId b :: replicate (Z.to_nat (s - 1)) 0 ++ first)]
    else raft_log c' = [].
Proof.
  intros others Hs Hb0 Hb Hp Ha Hwf Ht Hl. set (l := (λ x, (b_node x, b_addr x)) <$> bs).
  assert (l.*1 = b_node <$> bs) as El by (unfold l; rewrite <-list_fmap_compose; done).
  unfold others in *. rewrite <-zlen_heard in *.
  destruct (joins_joined (CS := CS) dial reply (nodeId b) s l Hs Hb0 ltac:(by rewrite El) b eq_refl Hp)
    as (c' & Ej & _ & _ & _ & _ & Hdom & Hraft & Hlog).
  destruct (hear_joins (mkDiscovery (nodeId b) addr (newCluster b s) ∅) (newCluster b s) start bs
    Hwf Ht Hb Ha eq_refl eq_refl c' Ej) as (m' & Em & Eh & _).
  rewrite El in *. exists m', c'. split_and!; [done..| |done|done].
  rewrite Hdom. apply set_eq. intros id. destruct (heard_spec (nodeId b) (b_node <$> bs)) as [_ Hin].
  rewrite elem_of_list_to_set, Hin, elem_of_difference, elem_of_list_to_set. set_solver.
Qed.
End bootstrap.

(** The node 2 is heard three times, twice once all are known; the broker hears itself. *)
Definition some_beats : list beat :=
  [mkBeat 2 "10.0.0.2:4567" 5; mkBeat 1 "10.0.0.1:4567" 6; mkBeat 3 "10.0.0.3:4567" 9;
   mkBeat 2 "10.0.0.2:4567" 15; mkBeat 1 "10.0.0.1:4567" 16; mkBeat 2 "10.0.0.2:4567" 25].

Lemma heartbeats_bootstrap_witness :
  ∃ m' c', fold_left (@hear unit range_forward range_forward (λ _, true) None) some_beats
      (Ok (mkDiscovery 1 "10.0.0.1:4567" (newCluster (lone_broker 1) 3) ∅)) = Ok m' ∧
    d_handler m' = c' ∧ raft c' = true.
Proof.
  destruct (@heartbeats_bootstrap unit range_forward range_forward (λ _, true) None
    (lone_broker 1) 3 "10.0.0.1:4567" 5 some_beats) as (m' & c' & E & Eh & _ & Er & _).
  - lia.
  - done.
  - vm_decide.
  - done.
  - vm_compute; discriminate.
  - repeat constructor; vm_compute; discriminate.
  - repeat constructor; vm_compute; discriminate.
  - vm_compute; reflexivity.
  - exists m', c'. split; [exact E|]. split; [exact Eh|]. rewrite Er. vm_compute. reflexivity.
Defined.
