(* ===== verification/Joins.v ===== *)
(** * Nodes that join at the same time (src/cluster: cluster.go, cluster_raft.go, peer_client.go)

    Both discoveries call [OnNodeJoin] from two goroutines: the multicast one from [listen] and
    [watch], the one over etcd from [discoverExistingNodes] and [watchNodesLoop].  [Raft] and [Peers]
    have each call run to its end; here a call is cut at every access to what the goroutines share:
    the map of the peers, its counter, the leader, the node of raft.  A goroutine has a list of
    nodes to report; any number of goroutines runs, and the raft loop may change the leader.  No
    node leaves meanwhile.

    A call that is not disturbed is [Raft.OnNodeJoin]; disturbed calls can start raft once for
    each goroutine. *)
From S2P Require Import Prelude Errors Coder Packet Safe RaftOps Registry Snapshot Server Broker Raft Peers.

Section joining.
Context {CS : Type} `{!GoRange Z} (valid : string → bool) (reply : option error).

(** The cluster, whose peers are objects, and the counter of their map. *)
Record group := mkGroup { g_cluster : cluster CS; g_net : peer_network; g_len : Z }.

(** The cluster as [Raft] has it. *)
Definition cl_of (g : group) : cluster CS :=
  with_node (with_peers (mkRMap (peers_view (g_net g)) (g_len g)) (node (g_cluster g))) (g_cluster g).

Definition with_cluster (c : cluster CS) (g : group) : group := mkGroup c (g_net g) (g_len g).
Definition with_net (n : peer_network) (g : group) : group := mkGroup (g_cluster g) n (g_len g).

(** What a goroutine does next. *)
Variant join_pc :=
| JIdle
| JGet (id : Z) (addr : string)       (* AddBroker: c.peers.Get *)
| JUpdate (o : nat) (addr : string)   (* p.updateAddr *)
| JSwap (id : Z) (addr : string)      (* newPeerClient; c.peers.Set: m.Swap *)
| JCount (id : Z) (o : nat)           (* c.peers.Set: l.Add *)
| JConnect (id : Z) (o : nat)         (* peer.connect *)
| JKnown (id : Z)                     (* c.peers.Len() == c.size-1 *)
| JLead (id : Z)                      (* c.IsLeader *)
| JPropose (id : Z)                   (* c.addNode *)
| JComplete                           (* OnNodeJoin: c.peers.Len() == c.size-1 *)
| JNil                                (* startRaft: c.raft != nil *)
| JStart.                             (* the rest of startRaft *)

(** [c.peers.Set] of a new peer, without the counter. *)
Definition swap_peer (id : Z) (addr : string) (n : peer_network) : peer_network :=
  mkNetwork (objs n ++ [mkPC addr None None false]) (chans n) (retries n)
    (<[id := length (objs n)]> (members n)).

Definition complete (g : group) : bool := g_len g =? i32 (size (g_cluster g) - 1).

(** [startRaft] after the check. *)
Definition start_now (g : group) : outcome error group :=
  let c := cl_of g in
  if size c <? 0 then Panic MakeSlice
  else match replicate (Z.to_nat (size c)) 0 with
       | [] => Panic IndexRange
       | _ :: zeros =>
           Ok (with_cluster (with_started (self c :: zeros ++ (go_range (rm (cl_peers c))).*1)
                               (g_cluster g)) g)
       end.

Definition join_step (pc : join_pc) (g : group) : outcome error (join_pc * group) :=
  let n := g_net g in
  match pc with
  | JIdle => Ok (JIdle, g)
  | JGet id addr =>
      if id =? self (g_cluster g) then Ok (JComplete, g)
      else Ok (match members n !! id with Some o => JUpdate o addr | None => JSwap id addr end, g)
  | JUpdate o addr => Ok (JComplete, with_net (pc_updateAddr valid o addr n) g)
  | JSwap id addr =>
      let o := length (objs n) in
      Ok (match members n !! id with Some _ => JConnect id o | None => JCount id o end,
          with_net (swap_peer id addr n) g)
  | JCount id o => Ok (JConnect id o, mkGroup (g_cluster g) n (i32 (g_len g + 1)))
  | JConnect id o => Ok (JKnown id, with_net (pc_connect valid o n) g)
  | JKnown id => Ok (if complete g then JComplete else JLead id, g)
  | JLead id => Ok (if IsLeader (g_cluster g) then JPropose id else JComplete, g)
  | JPropose id => Ok (JComplete, with_cluster (snd (addNode reply id (g_cluster g))) g)
  | JComplete => Ok (if complete g then JNil else JIdle, g)
  | JNil => Ok (if raft (g_cluster g) then JIdle else JStart, g)
  | JStart => g <~ start_now g; Ok (JIdle, g)
  end.

(** A call that nothing disturbs. *)
Fixpoint join_alone (fuel : nat) (pc : join_pc) (g : group) : outcome error group :=
  match pc, fuel with
  | JIdle, _ => Ok g
  | _, O => Panic OutOfFuel
  | _, S fuel => r <~ join_step pc g; join_alone fuel r.1 r.2
  end.

(** The goroutines, each with the nodes it will report. *)
Record race := mkRace { r_group : group; r_threads : list (join_pc * list (Z * string)) }.

(** The next step of goroutine [k]; a new leader; a timer of a peer. *)
Variant race_move := MThread (k : nat) | MLeader (lead : Z) | MRetry (k : nat).

Definition race_step (m : race_move) (r : race) : option (outcome error race) :=
  match m with
  | MThread k =>
      th ← r_threads r !! k;
      match th with
      | (JIdle, []) => None
      | (JIdle, (id, addr) :: todo) =>
          Some (Ok (mkRace (r_group r) (<[k := (JGet id addr, todo)]> (r_threads r))))
      | (pc, todo) =>
          Some (x <~ join_step pc (r_group r); Ok (mkRace x.2 (<[k := (x.1, todo)]> (r_threads r))))
      end
  | MLeader lead =>
      let g := r_group r in
      if raft (g_cluster g)
      then Some (Ok (mkRace (with_cluster (applySoftState lead (g_cluster g)) g) (r_threads r)))
      else None
  | MRetry k =>
      let g := r_group r in
      Some (Ok (mkRace (with_net (retry valid k (g_net g)) g) (r_threads r)))
  end.

Fixpoint race_run (ms : list race_move) (r : race) : option (outcome error race) :=
  match ms with
  | [] => Some (Ok r)
  | m :: ms =>
      x ← race_step m r;
      match x with Ok r => race_run ms r | x => Some x end
  end.

(** How often raft was started. *)
Definition is_start (x : raft_call) : bool := match x with StartNode _ => true | _ => false end.
Definition starts (r : race) : nat := length (List.filter is_start (raft_log (g_cluster (r_group r)))).

Definition in_start (th : join_pc * list (Z * string)) : Prop := th.1 = JStart.
#[local] Instance in_start_dec th : Decision (in_start th).
Proof. unfold in_start. destruct th as [[] ?]; solve [by left|by right]. Defined.

(** The goroutines that have found raft not started, and have not started it yet. *)
Definition starting (r : race) : nat := length (filter in_start (r_threads r)).

(** ** One call *)
Lemma alone_step fuel pc g pc' g' : pc ≠ JIdle → join_step pc g = Ok (pc', g') →
  join_alone (S fuel) pc g = join_alone fuel pc' g'.
Proof. intros Hp E. destruct pc; try done; cbn [join_alone]; by rewrite E. Qed.

Lemma alone_idle fuel g : join_alone fuel JIdle g = Ok g.
Proof. by destruct fuel. Qed.

Lemma cl_of_with_cluster (f : cluster CS → cluster CS) g :
  (∀ c p, f (with_node (with_peers p (node c)) c) = with_node (with_peers p (node (f c))) (f c)) →
  cl_of (with_cluster (f (g_cluster g)) g) = f (cl_of g).
Proof. intros Hf. unfold cl_of at 2. by rewrite Hf. Qed.

(** [if Len == size-1 { startRaft }]. *)
Lemma alone_complete fuel g :
  omap_ok cl_of (join_alone (S (S (S fuel))) JComplete g) =
    if RMap_Len (cl_peers (cl_of g)) =? i32 (size (cl_of g) - 1) then startRaft (cl_of g) else Ok (cl_of g).
Proof.
  erewrite alone_step; [|done|reflexivity]. change (RMap_Len _ =? _) with (complete g).
  destruct (complete g); [|by rewrite alone_idle].
  erewrite alone_step; [|done|reflexivity].
  unfold startRaft. change (raft (cl_of g)) with (raft (g_cluster g)).
  destruct (raft (g_cluster g)); [by rewrite alone_idle|].
  cbn [join_alone join_step]. unfold start_now.
  destruct (size (cl_of g) <? 0); [done|]. destruct (replicate _ 0); [done|].
  cbn [obind fst snd]. by rewrite alone_idle.
Qed.

Lemma omap_alone fuel pc g pc' g' : pc ≠ JIdle → join_step pc g = Ok (pc', g') →
  omap_ok cl_of (join_alone (S fuel) pc g) = omap_ok cl_of (join_alone fuel pc' g').
Proof. intros ? E. by erewrite alone_step. Qed.

Lemma join_alone_spec id addr g : net_ok (g_net g) → refused valid (g_net g) →
  omap_ok cl_of (join_alone 10 (JGet id addr) g) = OnNodeJoin valid reply id addr (cl_of g).
Proof.
  intros Hn Hrf. unfold OnNodeJoin, AddBroker. change (self (cl_of g)) with (self (g_cluster g)).
  pose proof (join_view valid (self (g_cluster g)) id addr (g_net g) Hn Hrf) as Hv.
  unfold join in Hv. change (GetPeer id (cl_of g)) with (peers_view (g_net g) !! id).
  destruct (id =? self (g_cluster g)) eqn:Eid.
  { erewrite omap_alone; [|done|cbn [join_step]; rewrite Eid; reflexivity]. apply (alone_complete 6). }
  erewrite omap_alone; [|done|cbn [join_step]; rewrite Eid; reflexivity].
  destruct (members (g_net g) !! id) as [o|] eqn:Em.
  - destruct (nk_members _ Hn _ _ Em) as [p Ep].
    rewrite (peers_view_lookup id (g_net g) o p) in * by done.
    erewrite omap_alone; [|done|reflexivity]. rewrite (alone_complete 5).
    replace (cl_of (with_net _ g)) with (put_peer id (updateAddr valid addr (view p)) (cl_of g)); [done|].
    unfold put_peer, cl_of, with_node, with_peers, cl_peers. simpl.
    unfold RMap_Set. simpl. rewrite (peers_view_lookup id (g_net g) o p) by done. simpl.
    by rewrite Hv.
  - assert (peers_view (g_net g) !! id = None) as En by (unfold peers_view; by rewrite lookup_omap, Em).
    rewrite En in *.
    erewrite omap_alone; [|done|cbn [join_step]; rewrite Em; reflexivity].
    erewrite omap_alone; [|done|reflexivity]. erewrite omap_alone; [|done|reflexivity].
    cbn [g_net with_net g_len g_cluster]. set (g1 := with_net _ _).
    assert (cl_of g1 = put_peer id (peer_connect valid (newPeerClient addr)) (cl_of g)) as E1.
    { unfold put_peer, cl_of, with_node, with_peers, cl_peers. simpl.
      unfold RMap_Set. simpl. rewrite En. unfold add_len. simpl. unfold swap_peer. by rewrite Hv. }
    rewrite <-E1. erewrite omap_alone; [|done|reflexivity].
    change (RMap_Len (cl_peers (cl_of g1)) =? i32 (size (cl_of g1) - 1)) with (complete g1).
    destruct (complete g1) eqn:Ec.
    + rewrite (alone_complete 2). by change (RMap_Len _ =? _) with (complete g1); rewrite Ec.
    + erewrite omap_alone; [|done|reflexivity].
      change (IsLeader (cl_of g1)) with (IsLeader (g_cluster g1)).
      destruct (IsLeader (g_cluster g1)); simpl negb; cbn iota.
      2: { rewrite (alone_complete 1). by change (RMap_Len _ =? _) with (complete g1); rewrite Ec. }
      erewrite omap_alone; [|done|reflexivity]. rewrite (alone_complete 0).
      rewrite (cl_of_with_cluster (λ c, snd (addNode reply id c))); [|intros c p; unfold addNode; simpl; by destruct (raft c)].
      by destruct (addNode reply id (cl_of g1)).
Qed.

(** ** All interleavings *)
Definition started_times (g : group) : nat := length (List.filter is_start (raft_log (g_cluster g))).

Lemma addNode_log id (c : cluster CS) :
  raft (snd (addNode reply id c)) = raft c ∧
  List.filter is_start (raft_log (snd (addNode reply id c))) = List.filter is_start (raft_log c).
Proof.
  unfold addNode. destruct (raft c) eqn:E; simpl; [|by rewrite E]. split; [done|].
  by rewrite List.filter_app, app_nil_r.
Qed.

Lemma start_now_log g g' : start_now g = Ok g' →
  raft (g_cluster g') = true ∧ started_times g' = S (started_times g).
Proof.
  unfold start_now. destruct (_ <? 0); [done|]. destruct (replicate _ _); [done|].
  intros [= <-]. split; [done|]. unfold started_times. simpl.
  rewrite List.filter_app, length_app. simpl. lia.
Qed.

(** Only [JStart] starts raft, and only a check that found it not started leads there. *)
Lemma join_step_log pc g pc' g' : join_step pc g = Ok (pc', g') →
  (pc = JStart ∧ pc' = JIdle ∧ raft (g_cluster g') = true ∧ started_times g' = S (started_times g)) ∨
  (pc ≠ JStart ∧ (pc' = JStart → raft (g_cluster g) = false) ∧
   raft (g_cluster g') = raft (g_cluster g) ∧ started_times g' = started_times g).
Proof.
  intros E. destruct pc as [|i a|o a|i a|i o|i o|i|i|i| | |]; cbn [join_step] in E.
  12: { destruct (start_now g) as [g1| |] eqn:E1; [|done..]. injection E as <- <-.
        left. by destruct (start_now_log _ _ E1). }
  all: right; split; [done|].
  9: { injection E as <- <-. destruct (addNode_log i (g_cluster g)) as [E1 E2].
       unfold started_times. simpl. by rewrite E1, E2. }
  1-8: try injection E as <- <-; repeat case_match; simplify_eq; done.
  - injection E as <- <-. by destruct (complete g).
  - injection E as <- <-. by destruct (raft (g_cluster g)).
Qed.

Lemma applySoftState_log lead (c : cluster CS) :
  raft (applySoftState lead c) = raft c ∧ raft_log (applySoftState lead c) = raft_log c.
Proof. unfold applySoftState. repeat case_match; done. Qed.

Definition race_ok (n : nat) (r : race) : Prop :=
  length (r_threads r) = n ∧ raft (g_cluster (r_group r)) = bool_decide (starts r ≠ 0%nat) ∧
  (starts r + starting r <= n)%nat.

Lemma starting_le r : (starting r <= length (r_threads r))%nat.
Proof. apply length_filter. Qed.

Lemma thread_ok n r k pc todo pc' todo' g' :
  race_ok n r → r_threads r !! k = Some (pc, todo) →
  (join_step pc (r_group r) = Ok (pc', g') ∨ (pc = JIdle ∧ pc' ≠ JStart ∧ g' = r_group r)) →
  race_ok n (mkRace g' (<[k := (pc', todo')]> (r_threads r))).
Proof.
  intros (Hl & Hr & Hs) Ek Hstep.
  assert (length (<[k := (pc', todo')]> (r_threads r)) = n) as Hl' by by rewrite length_insert.
  pose proof (filter_insert_length in_start (r_threads r) k (pc, todo) (pc', todo') Ek) as Hf.
  unfold race_ok, starting, starts in *. simpl in *. fold (started_times (r_group r)) in *.
  fold (started_times g'). pose proof (starting_le r) as Hle. unfold starting in Hle.
  assert (in_start (pc, todo) ↔ pc = JStart) as Hp by done.
  assert (in_start (pc', todo') ↔ pc' = JStart) as Hp' by done.
  destruct Hstep as [Hstep|(-> & Hne & ->)].
  - destruct (join_step_log _ _ _ _ Hstep) as [(-> & -> & Er & Es)|(Hne & Hstart & Er & Es)].
    + rewrite decide_True, decide_False in Hf by done. rewrite Er, Es. split_and!; [done| |lia].
      by rewrite bool_decide_eq_true_2.
    + rewrite Er, Es. split_and!; [done..|]. rewrite decide_False in Hf by tauto.
      destruct (decide (in_start (pc', todo'))) as [Hin|]; [|lia].
      rewrite (Hstart (proj1 Hp' Hin)) in Hr. symmetry in Hr. apply bool_decide_eq_false in Hr.
      assert (length (filter in_start (<[k:=(pc', todo')]> (r_threads r))) <= n)%nat.
      { rewrite <-Hl'. apply length_filter. } lia.
  - rewrite !decide_False in Hf by (try rewrite Hp; try rewrite Hp'; done). split_and!; [done..|lia].
Qed.

Lemma race_step_ok n m r r' : race_ok n r → race_step m r = Some (Ok r') → race_ok n r'.
Proof.
  intros Hr. destruct m as [k|lead|k]; cbn [race_step].
  - destruct (r_threads r !! k) as [[pc todo]|] eqn:Ek; cbn [mbind option_bind]; [|done].
    assert (pc = JIdle ∨ pc ≠ JIdle) as [->|Hpc] by (destruct pc; auto).
    + destruct todo as [|[id addr] todo]; [done|]. intros [= <-]. eapply thread_ok; [done..|by right].
    + intros E. assert ((x <~ join_step pc (r_group r);
        Ok (mkRace x.2 (<[k:=(x.1, todo)]> (r_threads r)))) = Ok r') as E1 by (destruct pc; [done|by apply (inj Some) in E..]).
      destruct (join_step pc (r_group r)) as [[pc' g']| |] eqn:Es; [|done..].
      injection E1 as <-. eapply thread_ok; [done..|by left].
  - destruct (raft (g_cluster (r_group r))) eqn:Er; [|done]. intros [= <-].
    destruct (applySoftState_log lead (g_cluster (r_group r))) as [E1 E2].
    unfold race_ok, starts, starting in *. simpl. by rewrite E1, E2.
  - by intros [= <-].
Qed.

Lemma race_run_ok n ms r r' : race_ok n r → race_run ms r = Some (Ok r') → race_ok n r'.
Proof.
  revert r. induction ms as [|m ms IH]; intros r Hr; cbn [race_run]; [by intros [= <-]|].
  destruct (race_step m r) as [[r1| |]|] eqn:E; cbn [mbind option_bind]; [|done..].
  apply IH. by eapply race_step_ok.
Qed.

(** Goroutines that find a fresh cluster of [s] brokers. *)
Definition fresh_race (b : broker) (s : Z) (todos : list (list (Z * string))) : race :=
  mkRace (mkGroup (newCluster b s) no_peers 0) ((λ l, (JIdle, l)) <$> todos).

Lemma fresh_race_ok b s todos : race_ok (length todos) (fresh_race b s todos).
Proof.
  unfold race_ok, starts, starting, fresh_race. simpl. rewrite length_fmap. split_and!; [done..|].
  enough (length (filter in_start ((λ l, (JIdle, l)) <$> todos)) = 0)%nat as -> by lia.
  induction todos as [|l todos IH]; [done|]. cbn [fmap list_fmap]. rewrite filter_cons.
  by rewrite decide_False.
Qed.

(** A step of a goroutine that is in a call, and the start of a call. *)
Lemma run_call k r pc todo pc' g' ms : r_threads r !! k = Some (pc, todo) → pc ≠ JIdle →
  join_step pc (r_group r) = Ok (pc', g') →
  race_run (MThread k :: ms) r = race_run ms (mkRace g' (<[k := (pc', todo)]> (r_threads r))).
Proof.
  intros Ek Hp E. cbn [race_run race_step]. rewrite Ek. cbn [mbind option_bind].
  destruct pc; [done|..]; by rewrite E.
Qed.

Lemma run_next k r id addr todo ms : r_threads r !! k = Some (JIdle, (id, addr) :: todo) →
  race_run (MThread k :: ms) r =
    race_run ms (mkRace (r_group r) (<[k := (JGet id addr, todo)]> (r_threads r))).
Proof. intros Ek. cbn [race_run race_step]. by rewrite Ek. Qed.

(** A call up to the counter. *)
Lemma run_enter k r id addr todo ms : let g := r_group r in
  r_threads r !! k = Some (JIdle, (id, addr) :: todo) → id ≠ self (g_cluster g) →
  members (g_net g) !! id = None →
  race_run (replicate 4 (MThread k) ++ ms) r =
    race_run ms (mkRace (mkGroup (g_cluster g) (swap_peer id addr (g_net g)) (i32 (g_len g + 1)))
      (<[k := (JConnect id (length (objs (g_net g))), todo)]> (r_threads r))).
Proof.
  intros g Ek Hid Hm. cbn [replicate app]. assert (k < length (r_threads r))%nat by by eapply lookup_lt_Some.
  erewrite run_next by done.
  erewrite run_call; [|by apply list_lookup_insert_eq|done|].
  2: { cbn [join_step r_group]. fold g. rewrite (proj2 (Z.eqb_neq _ _)), Hm by done. reflexivity. }
  cbn [r_threads]. rewrite list_insert_insert_eq.
  erewrite run_call; [|by apply list_lookup_insert_eq|done|].
  2: { cbn [join_step r_group]. rewrite Hm. reflexivity. }
  cbn [r_threads]. rewrite list_insert_insert_eq.
  erewrite run_call; [|by apply list_lookup_insert_eq|done|reflexivity].
  cbn [r_group r_threads with_net g_net g_len g_cluster]. by rewrite list_insert_insert_eq.
Qed.

(** The rest of it, up to the start of raft, when all peers are known and raft was not started. *)
Lemma run_check k r id o todo ms : let g := r_group r in
  r_threads r !! k = Some (JConnect id o, todo) → complete g = true → raft (g_cluster g) = false →
  race_run (replicate 4 (MThread k) ++ ms) r =
    race_run ms (mkRace (with_net (pc_connect valid o (g_net g)) g)
      (<[k := (JStart, todo)]> (r_threads r))).
Proof.
  intros g Ek Hc Hr. cbn [replicate app]. assert (k < length (r_threads r))%nat by by eapply lookup_lt_Some.
  erewrite run_call; [|exact Ek|done|reflexivity]. fold g.
  set (g1 := with_net _ g). assert (complete g1 = true) as Hc1 by done.
  erewrite run_call; [|by apply list_lookup_insert_eq|done|].
  2: { cbn [join_step r_group]. rewrite Hc1. reflexivity. }
  erewrite run_call; [|cbn [r_threads]; apply list_lookup_insert_eq; by rewrite length_insert|done|].
  2: { cbn [join_step r_group]. rewrite Hc1. reflexivity. }
  erewrite run_call; [|cbn [r_threads]; apply list_lookup_insert_eq; by rewrite !length_insert|done|].
  2: { cbn [join_step r_group]. change (raft (g_cluster g1)) with (raft (g_cluster g)). rewrite Hr. reflexivity. }
  cbn [r_group r_threads]. by rewrite !list_insert_insert_eq.
Qed.

(** Or to the end, when more peers are expected and this node does not lead. *)
Lemma run_leave k r id o todo ms : let g := r_group r in
  r_threads r !! k = Some (JConnect id o, todo) → complete g = false → IsLeader (g_cluster g) = false →
  race_run (replicate 4 (MThread k) ++ ms) r =
    race_run ms (mkRace (with_net (pc_connect valid o (g_net g)) g)
      (<[k := (JIdle, todo)]> (r_threads r))).
Proof.
  intros g Ek Hc Hr. cbn [replicate app]. assert (k < length (r_threads r))%nat by by eapply lookup_lt_Some.
  erewrite run_call; [|exact Ek|done|reflexivity]. fold g.
  set (g1 := with_net _ g). assert (complete g1 = false) as Hc1 by done.
  erewrite run_call; [|by apply list_lookup_insert_eq|done|].
  2: { cbn [join_step r_group]. rewrite Hc1. reflexivity. }
  erewrite run_call; [|cbn [r_threads]; apply list_lookup_insert_eq; by rewrite length_insert|done|].
  2: { cbn [join_step r_group]. change (IsLeader (g_cluster g1)) with (IsLeader (g_cluster g)). rewrite Hr. reflexivity. }
  erewrite run_call; [|cbn [r_threads]; apply list_lookup_insert_eq; by rewrite !length_insert|done|].
  2: { cbn [join_step r_group]. rewrite Hc1. reflexivity. }
  cbn [r_group r_threads]. by rewrite !list_insert_insert_eq.
Qed.

Lemma run_start k r todo ms : r_threads r !! k = Some (JStart, todo) →
  0 < size (g_cluster (r_group r)) →
  ∃ r', race_run (MThread k :: ms) r = race_run ms r' ∧ starts r' = S (starts r) ∧
    r_threads r' = <[k := (JIdle, todo)]> (r_threads r) ∧
    size (g_cluster (r_group r')) = size (g_cluster (r_group r)).
Proof.
  intros Ek Hs.
  assert (∃ g', start_now (r_group r) = Ok g' ∧ size (g_cluster g') = size (g_cluster (r_group r))) as (g' & E & Es).
  { unfold start_now. change (size (cl_of (r_group r))) with (size (g_cluster (r_group r))).
    destruct (Z.ltb_spec (size (g_cluster (r_group r))) 0); [lia|].
    destruct (Z.to_nat _) eqn:En; [lia|]. cbn [replicate]. eauto. }
  exists (mkRace g' (<[k := (JIdle, todo)]> (r_threads r))). split_and!; [|by destruct (start_now_log _ _ E)|done..].
  apply run_call with JStart; [done..|]. cbn [join_step]. by rewrite E.
Qed.
End joining.

Section races.
Context {CS : Type} `{!GoRange Z} (valid : string → bool) (reply : option error).

(** C21 (raft is started by each goroutine): while any number of goroutines report nodes to a fresh cluster,
    in any interleaving raft is started at most once per goroutine.  A call that is not disturbed
    is [OnNodeJoin] of [Raft], which starts it once.  But when two goroutines report the last two
    nodes of a cluster of three at the same time, raft can be started twice; and when they report
    the same node, one of two peer objects is lost with its channel open. *)
Theorem concurrent_joins (b : broker) (s : Z) (todos : list (list (Z * string))) :
  (∀ ms (r : race (CS := CS)), race_run valid reply ms (fresh_race b s todos) = Some (Ok r) →
     (starts r <= length todos)%nat ∧
     raft (g_cluster (r_group r)) = bool_decide (starts r ≠ 0%nat)) ∧
  (∀ es id addr (g : group (CS := CS)), g_net g = net_run valid (self (g_cluster g)) es no_peers →
     omap_ok cl_of (join_alone valid reply 10 (JGet id addr) g) =
       OnNodeJoin valid reply id addr (cl_of g)) ∧
  (∀ i j ai aj, s = 3 → i ≠ j → nodeId b ∉ [i; j] → todos = [[(i, ai)]; [(j, aj)]] →
     ∃ ms (r : race (CS := CS)), race_run valid reply ms (fresh_race b s todos) = Some (Ok r) ∧
       starts r = 2%nat ∧ r_threads r = [(JIdle, []); (JIdle, [])]) ∧
  (∀ i ai, s = 3 → nodeId b ∉ [0; i] → valid ai = true → todos = [[(i, ai)]; [(i, ai)]] →
     ∃ ms (r : race (CS := CS)), race_run valid reply ms (fresh_race b s todos) = Some (Ok r) ∧
       r_threads r = [(JIdle, []); (JIdle, [])] ∧ members (g_net (r_group r)) = {[i := 1%nat]} ∧
       g_len (r_group r) = 1 ∧ open_channels (g_net (r_group r)) = 2%nat).
Proof.
  split_and!.
  - intros ms r E. destruct (race_run_ok valid reply _ _ _ _ (fresh_race_ok b s todos) E) as (_ & Hr & Hs).
    split; [lia|done].
  - intros es id addr g Hg. destruct (reached_ok valid (self (g_cluster g)) es).
    apply join_alone_spec; by rewrite Hg.
  - intros i j ai aj -> Hij Hb ->.
    exists (replicate 4 (MThread 0) ++ replicate 4 (MThread 1) ++ replicate 4 (MThread 0) ++
            replicate 4 (MThread 1) ++ [MThread 0; MThread 1]).
    rewrite run_enter with (id := i) (addr := ai) (todo := []); [|done|set_solver|done].
    cbn [fresh_race fmap list_fmap r_group r_threads g_cluster g_net g_len].
    rewrite run_enter with (id := j) (addr := aj) (todo := []); [|done|set_solver|by apply lookup_singleton_ne].
    cbn [fresh_race fmap list_fmap r_group r_threads g_cluster g_net g_len].
    erewrite run_check; [|done|by vm_compute|done].
    erewrite run_check; [|done|by vm_compute|done].
    cbn [r_group r_threads]. set (r0 := mkRace _ _).
    destruct (run_start valid reply 0 r0 [] [MThread 1]) as (r1 & -> & E1 & T1 & S1); [done|done|].
    destruct (run_start valid reply 1 r1 [] []) as (r2 & -> & E2 & T2 & S2); [by rewrite T1|by rewrite S1|].
    exists r2. split; [done|]. rewrite E2, E1, T2, T1. done.
  - intros i ai -> Hb Hv ->.
    exists (MThread 0 :: MThread 0 :: replicate 4 (MThread 1) ++ MThread 0 :: replicate 4 (MThread 0) ++
            replicate 4 (MThread 1) ++ []).
    assert (IsLeader (newCluster (CS := CS) b 3) = false) as Hl.
    { change ((0 =? nodeId b) = false). apply Z.eqb_neq. set_solver. }
    erewrite run_next by done. erewrite run_call; [|done|done|].
    2: { cbn [join_step r_group]. rewrite (proj2 (Z.eqb_neq _ _)) by set_solver. reflexivity. }
    erewrite run_enter with (id := i) (addr := ai) (todo := []); [|done|set_solver|done].
    cbn [fresh_race fmap list_fmap r_group r_threads g_cluster g_net g_len].
    erewrite run_call with (pc := JSwap i ai); [|done|done|].
    2: { cbn [join_step r_group g_net]. unfold swap_peer. cbn [members]. rewrite lookup_insert_eq. reflexivity. }
    erewrite run_leave; [|done|by vm_compute|done]. erewrite run_leave; [|done|by vm_compute|done].
    eexists. split; [done|]. split; [done|]. cbn [r_group].
    split_and!.
    + cbn [with_net g_net r_group]. rewrite !connect_members. apply insert_insert_eq.
    + done.
    + unfold pc_connect, peer_reconnnect. cbn. rewrite Hv. cbn. by rewrite Hv.
Qed.
End races.
