(* ===== verification/Multicast.v ===== *)
(** * Starting and stopping the multicast discovery (src/discovery/discovery.go)

    [Discovery] says what happens to a datagram.  Here are the three goroutines that [Start] begins,
    with their sockets, [Shutdown] in its three statements, and as a whole for the cluster
    ([multicast_api]), and the choice of the local address.
    What a socket does is the [net] package's: binding may fail, a closed socket fails every read
    and write; what the methods of a nil [*net.UDPConn] do is a parameter, since the package does not
    say.  A datagram that is not sent because its socket fails is an error that is logged. *)
From S2P Require Import Prelude Errors Coder Packet Server Broker Raft Options Discovery.
From stdpp Require Import pretty.
Local Open Scope Z_scope.

(** ** [getLocalIP], in discovery.go and in discovery_etcd.go *)

(** [net.Interface]; its addresses, or an error.  An address is given when it is a [*net.IPNet] of
    four bytes. *)
Record iface := mkIface { if_up : bool; if_loopback : bool; if_addrs : option (list (option string)) }.

Fixpoint first_ip4 (l : list (option string)) : option string :=
  match l with
  | [] => None
  | Some ip :: _ => Some ip
  | None :: l => first_ip4 l
  end.

Fixpoint scan_ifaces (l : list iface) : string + error :=
  match l with
  | [] => inr (EOther "no network interface found")
  | i :: l =>
      if negb (if_up i) || if_loopback i then scan_ifaces l
      else match if_addrs i with
           | None => scan_ifaces l
           | Some addrs => match first_ip4 addrs with Some ip => inl ip | None => scan_ifaces l end
           end
  end.

Definition getLocalIP (interfaces : list iface + error) : string + error :=
  match interfaces with inl l => scan_ifaces l | inr e => inr e end.

(** The addresses that can be chosen. *)
Definition usable (i : iface) : list string :=
  if negb (if_up i) || if_loopback i then []
  else omap (λ x, x) (default [] (if_addrs i)).

Lemma first_ip4_head l : first_ip4 l = head (omap (λ x, x) l).
Proof. induction l as [|[ip|] l IH]; done. Qed.

(** The address is the first one of four bytes of the interfaces that are up and no loopback; a
    broker on a host without one does not start. *)
Theorem local_address {H} (l : list iface) (id port : Z) (handler : H) :
  match head (l ≫= usable) with
  | Some ip => getLocalIP (inl l) = inl ip ∧
      ∃ d, NewMuticast id port (getLocalIP (inl l)) handler = Ok d ∧ d_ipaddr d = ip +:+ ":" +:+ pretty port
  | None => is_panic (NewMuticast id port (getLocalIP (inl l)) handler) = true
  end.
Proof.
  assert (getLocalIP (inl l) = match head (l ≫= usable) with
    | Some ip => inl ip | None => inr (EOther "no network interface found") end) as ->.
  { unfold getLocalIP. induction l as [|i l IH]; [done|].
    cbn [scan_ifaces mbind list_bind]. unfold usable at 1.
    destruct (negb (if_up i) || if_loopback i); [exact IH|].
    destruct (if_addrs i) as [addrs|]; [|exact IH]. simpl default.
    rewrite first_ip4_head. by destruct (omap (λ x, x) addrs). }
  destruct (head _) as [ip|]; [|done]. split; [done|]. by eexists.
Qed.

(** ** The goroutines *)
Section life.
Context {H : Type} {HH : DiscoveryHandler H} `{!GoRange uint8, !GoRange Z}.
Context (nil_socket : outcome error unit).   (* a method of a nil *net.UDPConn *)

(** A goroutine that has not bound its socket, reads from it, has ended. *)
Variant mc_loop := LBinding | LReading | LEnded.

(** The statements of [Shutdown]. *)
Variant shutdown_pc := SConn | SListener (err : bool) | SChan (err : bool) | SDone (err : bool).

Record multicast := mkMulticast {
  mc_disc : discovery H;
  mc_conn : option bool;        (* m.conn: nil, or whether it is open *)
  mc_listener : option bool;    (* m.listener *)
  mc_stopped : bool;            (* m.stopChan is closed *)
  mc_listen : mc_loop;
  mc_watch : mc_loop;
  mc_beating : bool;            (* the goroutine of the ticker *)
  mc_sent : list bytes;         (* the datagrams sent *)
  mc_calls : list shutdown_pc   (* the calls of Shutdown *)
}.

Definition put_disc (d : discovery H) (m : multicast) : multicast :=
  mkMulticast d (mc_conn m) (mc_listener m) (mc_stopped m) (mc_listen m) (mc_watch m) (mc_beating m)
    (mc_sent m) (mc_calls m).
Definition with_listen (s : option bool) (p : mc_loop) (m : multicast) : multicast :=
  mkMulticast (mc_disc m) (mc_conn m) s (mc_stopped m) p (mc_watch m) (mc_beating m) (mc_sent m) (mc_calls m).
Definition with_watch (s : option bool) (p : mc_loop) (m : multicast) : multicast :=
  mkMulticast (mc_disc m) s (mc_listener m) (mc_stopped m) (mc_listen m) p (mc_beating m) (mc_sent m) (mc_calls m).
Definition with_sent (l : list bytes) (m : multicast) : multicast :=
  mkMulticast (mc_disc m) (mc_conn m) (mc_listener m) (mc_stopped m) (mc_listen m) (mc_watch m)
    (mc_beating m) (mc_sent m ++ l) (mc_calls m).
Definition with_stop (conn listener : option bool) (stopped : bool) (calls : list shutdown_pc)
    (m : multicast) : multicast :=
  mkMulticast (mc_disc m) conn listener stopped (mc_listen m) (mc_watch m) (mc_beating m) (mc_sent m) calls.
Definition with_beating (b : bool) (m : multicast) : multicast :=
  mkMulticast (mc_disc m) (mc_conn m) (mc_listener m) (mc_stopped m) (mc_listen m) (mc_watch m) b
    (mc_sent m) (mc_calls m).

(** [Start]. *)
Definition mc_Start (d : discovery H) : multicast :=
  mkMulticast d None None false LBinding LBinding true [] [].

(** [Close] of a socket that may be nil. *)
Definition sock_close (s : option bool) : outcome error unit :=
  match s with
  | None => nil_socket
  | Some true => Ok tt
  | Some false => Err (EOther "use of closed network connection")
  end.

Definition shut (s : option bool) : option bool := (λ _, false) <$> s.

Definition is_err (r : outcome error unit) : bool := match r with Err _ => true | _ => false end.

(** The next statement of a call of [Shutdown]. *)
Definition shutdown_stmt (k : nat) (pc : shutdown_pc) (m : multicast) : outcome error multicast :=
  let next pc := <[k := pc]> (mc_calls m) in
  match pc with
  | SConn =>
      let r := sock_close (mc_conn m) in
      match r with
      | Panic w => Panic w
      | _ => Ok (with_stop (shut (mc_conn m)) (mc_listener m) (mc_stopped m) (next (SListener (is_err r))) m)
      end
  | SListener _ =>
      let r := sock_close (mc_listener m) in
      match r with
      | Panic w => Panic w
      | _ => Ok (with_stop (mc_conn m) (shut (mc_listener m)) (mc_stopped m) (next (SChan (is_err r))) m)
      end
  | SChan err =>
      if mc_stopped m then Panic ClosedChannel
      else Ok (with_stop (mc_conn m) (mc_listener m) true (next (SDone err)) m)
  | SDone _ => Ok m
  end.

(** A heartbeat when the ticker fires. *)
Definition tick (m : multicast) : outcome error multicast :=
  match heartbeat (mc_disc m) with
  | Ok data =>
      match mc_conn m with
      | Some true => Ok (with_sent [data] m)
      | Some false => Ok m
      | None => match nil_socket with Panic w => Panic w | _ => Ok m end
      end
  | _ => Ok m
  end.

Variant mc_event :=
| EBindListen (ok : bool)
| EBindWatch (ok : bool)
| EListen (t now : Z) (data : bytes)   (* a datagram for the group *)
| EWatch (t now : Z) (data : bytes)    (* a datagram for the other socket *)
| EReadListen                          (* a read fails; the socket is closed *)
| EReadWatch
| ETick
| EStopped                             (* the ticker's goroutine sees stopChan closed *)
| EShutdown                            (* a call of Shutdown *)
| ECall (k : nat).                     (* its next statement *)

(** One step; [None] when it is not possible. *)
Definition mc_step (e : mc_event) (m : multicast) : option (outcome error multicast) :=
  match e with
  | EBindListen ok =>
      match mc_listen m with
      | LBinding => Some (Ok (if ok then with_listen (Some true) LReading m
                              else with_listen (mc_listener m) LEnded m))
      | _ => None
      end
  | EBindWatch ok =>
      match mc_watch m with
      | LBinding => Some (Ok (if ok then with_watch (Some true) LReading m
                              else with_watch (mc_conn m) LEnded m))
      | _ => None
      end
  | EListen t now data =>
      match mc_listen m, mc_listener m with
      | LReading, Some true =>
          Some (r <~ listen t now data (mc_disc m);
                Ok (with_sent (option_list r.2) (put_disc r.1 m)))
      | _, _ => None
      end
  | EWatch t now data =>
      match mc_watch m, mc_conn m with
      | LReading, Some true => Some (d <~ watch t now data (mc_disc m); Ok (put_disc d m))
      | _, _ => None
      end
  | EReadListen =>
      match mc_listen m, mc_listener m with
      | LReading, Some _ => Some (Ok (with_listen (Some false) LEnded m))
      | _, _ => None
      end
  | EReadWatch =>
      match mc_watch m, mc_conn m with
      | LReading, Some _ => Some (Ok (with_watch (Some false) LEnded m))
      | _, _ => None
      end
  | ETick =>
      if mc_beating m then
        Some (tick m)
      else None
  | EStopped => if mc_beating m && mc_stopped m then Some (Ok (with_beating false m)) else None
  | EShutdown => Some (Ok (with_stop (mc_conn m) (mc_listener m) (mc_stopped m) (mc_calls m ++ [SConn]) m))
  | ECall k => pc ← mc_calls m !! k; Some (shutdown_stmt k pc m)
  end.

Fixpoint mc_run (es : list mc_event) (m : multicast) : option (outcome error multicast) :=
  match es with
  | [] => Some (Ok m)
  | e :: es => x ← mc_step e m; match x with Ok m => mc_run es m | x => Some x end
  end.

(** ** Shutting down *)

(** Both sockets were bound, or never will be; what the calls of [Shutdown] have done. *)
Record winding_down (m : multicast) : Prop := {
  wd_listen : mc_listen m ≠ LBinding;
  wd_watch : mc_watch m ≠ LBinding;
  wd_conn : (∃ pc, pc ∈ mc_calls m ∧ pc ≠ SConn) → mc_conn m ≠ Some true;
  wd_listener : (∃ err, SChan err ∈ mc_calls m ∨ SDone err ∈ mc_calls m) → mc_listener m ≠ Some true
}.

Lemma shut_closed s : shut s ≠ Some true.
Proof. by destruct s. Qed.

Lemma elem_of_insert_pc (l : list shutdown_pc) k pc x : x ∈ <[k := pc]> l → x = pc ∨ x ∈ l.
Proof.
  rewrite !list_elem_of_lookup. intros (i & [(-> & <- & _)|[_ Hi]]%list_lookup_insert_Some); [by left|right; eauto].
Qed.

(** What a statement of [Shutdown] does. *)
Lemma stmt_cases k pc m m' : shutdown_stmt k pc m = Ok m' →
  (∃ err, pc = SConn ∧
     m' = with_stop (shut (mc_conn m)) (mc_listener m) (mc_stopped m) (<[k := SListener err]> (mc_calls m)) m) ∨
  (∃ e err, pc = SListener e ∧
     m' = with_stop (mc_conn m) (shut (mc_listener m)) (mc_stopped m) (<[k := SChan err]> (mc_calls m)) m) ∨
  (∃ e, pc = SChan e ∧ mc_stopped m = false ∧
     m' = with_stop (mc_conn m) (mc_listener m) true (<[k := SDone e]> (mc_calls m)) m) ∨
  (∃ e, pc = SDone e ∧ m' = m).
Proof.
  destruct pc as [|e|e|e]; cbn [shutdown_stmt].
  - destruct (sock_close (mc_conn m)); [|..|done]; intros [= <-]; left; by eexists.
  - destruct (sock_close (mc_listener m)); [|..|done]; intros [= <-]; right; left; by eexists _, _.
  - destruct (mc_stopped m); [done|]. intros [= <-]. right; right; left. by eexists.
  - intros [= <-]. right; right; right. by eexists.
Qed.

Lemma call_winding k pc m m' : winding_down m → mc_calls m !! k = Some pc →
  shutdown_stmt k pc m = Ok m' → winding_down m'.
Proof.
  intros Hm Ek E. pose proof Hm as [Hl Hw Hc Hs].
  assert (pc ∈ mc_calls m) as Hin by by eapply list_elem_of_lookup_2.
  destruct (stmt_cases _ _ _ _ E) as [(err & -> & ->)|[(e & err & -> & ->)|[(e & -> & _ & ->)|(e & -> & ->)]]];
    [..|done]; split; simpl; try done; try (intros; apply shut_closed).
  - intros (e1 & [[?|?]%elem_of_insert_pc|[?|?]%elem_of_insert_pc]); try done; eauto.
  - intros _. apply Hc. by exists (SListener e).
  - intros _. apply Hc. by exists (SChan e).
  - intros _. apply Hs. eauto.
Qed.

Lemma tick_cases m m' : tick m = Ok m' → (∃ l, m' = with_sent l m) ∨ m' = m.
Proof.
  unfold tick.
  intros E. repeat case_match; simplify_eq; eauto.
Qed.

Lemma mc_step_winding e m m' : winding_down m → mc_step e m = Some (Ok m') → winding_down m'.
Proof.
  intros Hm. pose proof Hm as [Hl Hw Hc Hs].
  destruct e as [ok|ok|t now data|t now data| | | | | |k].
  10: { cbn [mc_step]. destruct (mc_calls m !! k) as [pc|] eqn:Ek; [|done]. intros [= E].
        by eapply call_winding. }
  all: cbn [mc_step].
  - by destruct (mc_listen m).
  - by destruct (mc_watch m).
  - destruct (mc_listen m) eqn:El, (mc_listener m) as [[]|] eqn:Es; try done. intros [= E].
    destruct (listen t now data (mc_disc m)) as [[d out]| |]; [|done..]. injection E as <-.
    split; simpl; rewrite ?El, ?Es; auto.
  - destruct (mc_watch m) eqn:El, (mc_conn m) as [[]|] eqn:Es; try done. intros [= E].
    destruct (watch t now data (mc_disc m)) as [d| |]; [|done..]. injection E as <-.
    split; simpl; rewrite ?El, ?Es; auto.
  - destruct (mc_listen m) eqn:El, (mc_listener m) eqn:Es; try done. intros [= <-]. by split.
  - destruct (mc_watch m) eqn:El, (mc_conn m) eqn:Es; try done. intros [= <-]. by split.
  - destruct (mc_beating m); [|done]. intros [= E]. destruct (tick_cases m m' E) as [[l ->]| ->]; [|done].
    by split.
  - destruct (_ && _); [|done]. intros [= <-]. by split.
  - intros [= <-]. split; simpl; try done.
    + intros (pc & [?| ->%list_elem_of_singleton]%elem_of_app & Hne); [|done]. apply Hc. eauto.
    + intros (err & [Hin|Hin]); apply elem_of_app in Hin as [?|?%list_elem_of_singleton]; try done; apply Hs; eauto.
Qed.

Lemma mc_run_winding es m m' : winding_down m → mc_run es m = Some (Ok m') → winding_down m'.
Proof.
  revert m. induction es as [|e es IH]; intros m Hm; cbn [mc_run]; [by intros [= <-]|].
  destruct (mc_step e m) as [[m1| |]|] eqn:E; cbn [mbind option_bind]; [|done..].
  apply IH. by eapply mc_step_winding.
Qed.

(** Sockets that are closed, and will not be bound. *)
Definition silent (m : multicast) : Prop :=
  winding_down m ∧ mc_conn m ≠ Some true ∧ mc_listener m ≠ Some true.

Lemma silent_step e m m' : silent m → mc_step e m = Some (Ok m') →
  silent m' ∧ mc_disc m' = mc_disc m ∧ mc_sent m' = mc_sent m.
Proof.
  intros (Hm & Hc & Hs) E. pose proof (mc_step_winding _ _ _ Hm E) as Hm'.
  assert ((mc_conn m' ≠ Some true ∧ mc_listener m' ≠ Some true) ∧
    mc_disc m' = mc_disc m ∧ mc_sent m' = mc_sent m) as [[? ?] ?]; [|done].
  pose proof (wd_listen _ Hm). pose proof (wd_watch _ Hm).
  destruct e as [ok|ok|t now data|t now data| | | | | |k]; cbn [mc_step] in E.
  - by destruct (mc_listen m).
  - by destruct (mc_watch m).
  - by destruct (mc_listen m), (mc_listener m) as [[]|].
  - by destruct (mc_watch m), (mc_conn m) as [[]|].
  - destruct (mc_listen m), (mc_listener m); simplify_eq; simpl; auto.
  - destruct (mc_watch m), (mc_conn m); simplify_eq; simpl; auto.
  - destruct (mc_beating m); [|done]. injection E as E.
    unfold tick in E. destruct (mc_conn m) as [[]|] eqn:Ec; [done|..]; repeat case_match; simplify_eq; by rewrite ?Ec.
  - destruct (_ && _); [|done]. injection E as <-. simpl; auto.
  - injection E as <-. simpl; auto.
  - destruct (mc_calls m !! k) as [pc|]; [|done]. injection E as E.
    destruct (stmt_cases _ _ _ _ E) as [(err & _ & ->)|[(e & err & _ & ->)|[(e & _ & _ & ->)|(e & _ & ->)]]];
      simpl; auto using shut_closed.
Qed.

Lemma silent_run es m m' : silent m → mc_run es m = Some (Ok m') →
  mc_disc m' = mc_disc m ∧ mc_sent m' = mc_sent m.
Proof.
  revert m. induction es as [|e es IH]; intros m Hm; cbn [mc_run]; [by intros [= <-]|].
  destruct (mc_step e m) as [[m1| |]|] eqn:E; cbn [mbind option_bind]; [|done..].
  destruct (silent_step _ _ _ Hm E) as (Hm1 & <- & <-). by apply IH.
Qed.

(** A call that is done has closed [stopChan]. *)
Definition done_stopped (m : multicast) : Prop := ∀ err, SDone err ∈ mc_calls m → mc_stopped m = true.

Lemma done_stopped_step e m m' : done_stopped m → mc_step e m = Some (Ok m') → done_stopped m'.
Proof.
  intros Hm E. destruct e as [ok|ok|t now data|t now data| | | | | |k]; cbn [mc_step] in E.
  - destruct (mc_listen m); simplify_eq. by destruct ok.
  - destruct (mc_watch m); simplify_eq. by destruct ok.
  - destruct (mc_listen m), (mc_listener m) as [[]|]; try done.
    destruct (listen _ _ _ _) as [[d out]| |]; [|done..]. by injection E as <-.
  - destruct (mc_watch m), (mc_conn m) as [[]|]; try done.
    destruct (watch _ _ _ _) as [d| |]; [|done..]. by injection E as <-.
  - by destruct (mc_listen m), (mc_listener m); simplify_eq.
  - by destruct (mc_watch m), (mc_conn m); simplify_eq.
  - destruct (mc_beating m); [|done]. injection E as E. by destruct (tick_cases m m' E) as [[l ->]| ->].
  - destruct (_ && _); [|done]. by injection E as <-.
  - injection E as <-. intros err [?|?%list_elem_of_singleton]%elem_of_app; [|done]. by eapply Hm.
  - destruct (mc_calls m !! k) as [pc|] eqn:Ek; [|done]. injection E as E.
    destruct (stmt_cases _ _ _ _ E) as [(err & -> & ->)|[(e & err & -> & ->)|[(e & -> & _ & ->)|(e & -> & ->)]]];
      [..|done]; [| |done]; intros x [?|?]%elem_of_insert_pc; try done; by eapply Hm.
Qed.

Lemma done_stopped_run es m m' : done_stopped m → mc_run es m = Some (Ok m') → done_stopped m'.
Proof.
  revert m. induction es as [|e es IH]; intros m Hm; cbn [mc_run]; [by intros [= <-]|].
  destruct (mc_step e m) as [[m1| |]|] eqn:E; cbn [mbind option_bind]; [|done..].
  apply IH. by eapply done_stopped_step.
Qed.

(** A call of [Shutdown] without interruption, for the cluster. *)
Definition shutdown_call (m : multicast) : list mc_event :=
  let k := length (mc_calls m) in [EShutdown; ECall k; ECall k; ECall k].

Definition mc_Shutdown (m : multicast) : (option error * multicast) + go_panic :=
  match mc_run (shutdown_call m) m with
  | Some (Panic w) => inr w
  | Some (Ok m') =>
      inl (match mc_calls m' !! length (mc_calls m) with
           | Some (SDone true) => Some (EOther "use of closed network connection")
           | _ => None
           end, m')
  | _ => inl (None, m)
  end.

Lemma shutdown_call_cases m :
  (∃ w, mc_run (shutdown_call m) m = Some (Panic w)) ∨
  (mc_stopped m = false ∧ ∃ m', mc_run (shutdown_call m) m = Some (Ok m') ∧ mc_stopped m' = true).
Proof.
  unfold shutdown_call. set (k := length (mc_calls m)).
  assert (∀ l, (mc_calls m ++ [l]) !! k = Some l) as Ek by (intros l; by apply list_lookup_middle).
  assert (∀ a b, <[k := b]> (mc_calls m ++ [a]) = mc_calls m ++ [b]) as Ei.
  { intros a b. unfold k. by rewrite insert_app_r_alt, Nat.sub_diag by lia. }
  cbn. rewrite Ek. cbn. destruct (sock_close (mc_conn m)); [| |left; by eexists]; cbn; rewrite Ei, Ek; cbn.
  all: destruct (sock_close (mc_listener m)); [| |left; by eexists]; cbn; rewrite Ei, Ek; cbn.
  all: destruct (mc_stopped m); [left; by eexists|right]; split; [done|]; eexists; split; done.
Qed.

Definition multicast_api : DiscoveryApi multicast := {| disc_Shutdown := mc_Shutdown |}.

Lemma multicast_laws : @DiscoveryLaws _ multicast_api.
Proof.
  intros m err m'. simpl. unfold mc_Shutdown. destruct (shutdown_call_cases m) as [[w ->]|(_ & m1 & -> & Hs)]; [done|].
  intros [= _ <-]. destruct (shutdown_call_cases m1) as [[w ->]|[? _]]; [by exists w|congruence].
Qed.

(** Once both sockets were bound, or could not be, a [Shutdown] that returns silences the
    discovery: it handles no datagram and sends none, and its goroutines can end.  A second
    [Shutdown] panics.  A [Shutdown] before the sockets are bound meets nil: if their methods
    panic, so does it, and the ticker too; if they return an error, it stops the ticker only:
    both sockets are bound afterwards and every datagram is handled, whatever the handler has
    become.  The error of the first socket is lost. *)
Theorem multicast_shutdown (d : discovery H) :
  (∀ es m es' m' err, mc_run es (mc_Start d) = Some (Ok m) → mc_calls m = [] →
     mc_listen m ≠ LBinding → mc_watch m ≠ LBinding →
     mc_run es' m = Some (Ok m') → SDone err ∈ mc_calls m' →
     (∀ es'' m'', mc_run es'' m' = Some (Ok m'') → mc_disc m'' = mc_disc m' ∧ mc_sent m'' = mc_sent m') ∧
     (mc_beating m' = true → mc_step EStopped m' = Some (Ok (with_beating false m')))) ∧
  (∀ es m err, mc_run es (mc_Start d) = Some (Ok m) → SDone err ∈ mc_calls m →
     let k := length (mc_calls m) in
     ∃ w, mc_run [EShutdown; ECall k; ECall k; ECall k] m = Some (Panic w)) ∧
  match nil_socket with
  | Panic w =>
      mc_run [EShutdown; ECall 0] (mc_Start d) = Some (Panic w) ∧
      ∀ data, heartbeat d = Ok data → mc_run [ETick] (mc_Start d) = Some (Panic w)
  | _ =>
      (∃ m err, mc_run [EShutdown; ECall 0; ECall 0; ECall 0; EStopped; EBindListen true; EBindWatch true]
          (mc_Start d) = Some (Ok m) ∧ mc_calls m = [SDone err] ∧ mc_beating m = false ∧
        ∀ t now data d' out, listen t now data d = Ok (d', out) →
          mc_step (EListen t now data) m = Some (Ok (with_sent (option_list out) (put_disc d' m)))) ∧
      (∃ m, mc_run [EBindListen true; EBindWatch false; EShutdown; ECall 0; ECall 0; ECall 0] (mc_Start d) =
          Some (Ok m) ∧ mc_calls m = [SDone false])
  end.
Proof.
  assert (done_stopped (mc_Start d)) as H0 by (intros err Hin; by apply elem_of_nil in Hin).
  split_and!.
  - intros es m es' m' err E Hcalls Hl Hw E' Hin.
    assert (winding_down m) as Hm.
    { split; [done|done| |]; rewrite Hcalls; intros (x & Hx); exfalso.
      - by destruct Hx as [?%elem_of_nil _].
      - by destruct Hx as [?%elem_of_nil|?%elem_of_nil]. }
    pose proof (mc_run_winding _ _ _ Hm E') as Hm'. split.
    + intros es'' m''. apply silent_run. split; [done|]. split; [apply Hm'|apply Hm'; eauto].
      by exists (SDone err).
    + intros Hb. cbn [mc_step].
      rewrite Hb, (done_stopped_run _ _ _ (done_stopped_run _ _ _ H0 E) E' err Hin). done.
  - intros es m err E Hin k. pose proof (done_stopped_run _ _ _ H0 E err Hin) as Hs.
    destruct (shutdown_call_cases m) as [Hw|[? _]]; [exact Hw|congruence].
  - destruct nil_socket as [[]|e|w] eqn:En.
    1-2: split; [eexists _, _; split; [by cbn; rewrite En; cbn; rewrite En|];
                 split; [done|]; split; [done|]; intros t now data d' out E; cbn; by rewrite E
                |eexists; split; [by cbn; rewrite En|done]].
    split; [by cbn; rewrite En|]. intros data E.
    cbn [mc_run mc_step mc_Start mc_beating]. unfold tick. change (mc_disc (mc_Start d)) with d. by rewrite E, En.
Qed.
End life.
