(* ===== verification/PeerServer.v ===== *)
(** * Starting a broker and its peer server (src/cluster: broker.go, peer_server.go)

    [Start] of a broker begins a goroutine that serves the calls of the peers, and the discovery.
    gRPC's server is a library: it can be given a service once and before it serves (otherwise the
    process ends), [Serve] returns [ErrServerStopped] when it was stopped before, and nil when it
    is stopped meanwhile; [GracefulStop] waits for the calls in progress.  What the peers ask is
    [Broker]'s and [Inspect]'s; here is when they are answered. *)
From S2P Require Import Prelude Errors Coder Packet Safe RaftOps Registry Snapshot Server Broker Raft Options Discovery Lifecycle Multicast.
From stdpp Require Import pretty.
Local Open Scope Z_scope.

Definition ErrServerStopped : error := EOther "grpc: the server has been stopped".

(** [grpc.Server]: whether the service was registered, [Serve] was called, it was stopped; the
    calls in progress. *)
Record grpcServer := mkGrpc { gs_registered : bool; gs_serve : bool; gs_stopped : bool; gs_calls : nat }.

Record peer_server := mkPeerServer { pv_address : string; pv_server : grpcServer }.

Definition newPeerServer (peerPort : Z) : peer_server :=
  mkPeerServer (":" +:+ pretty peerPort) (mkGrpc false false false 0).

(** Where a call of [Serve] is. *)
Variant serve_pc := VListen | VRegister | VServe | VServing | VReturned (err : option error).

(** Where a call of [Shutdown] is: before [GracefulStop], waiting in it, returned. *)
Variant stop_pc := TStop | TWait | TDone (err : option error).

Section start.
Context {H : Type}.

(** A broker that is started and shut down: the calls of [Serve], one for each [Start], those of
    [Shutdown]; [sb_crashed] is an exit of the process. *)
Record serving_broker := mkServing {
  sb_server : peer_server;
  sb_discovery : option (multicast (H := H));
  sb_serves : list serve_pc;
  sb_stops : list stop_pc;
  sb_crashed : bool
}.

Definition new_broker_server (peerPort : Z) : serving_broker := mkServing (newPeerServer peerPort) None [] [] false.

(** [broker.Start]; [d] is the discovery of the cluster. *)
Definition broker_Start (d : discovery H) (b : serving_broker) : serving_broker :=
  mkServing (sb_server b) (Some (mc_Start d)) (sb_serves b ++ [VListen]) (sb_stops b) (sb_crashed b).

Definition with_grpc (g : grpcServer) (b : serving_broker) : serving_broker :=
  mkServing (mkPeerServer (pv_address (sb_server b)) g) (sb_discovery b) (sb_serves b) (sb_stops b) (sb_crashed b).
Definition with_serve (k : nat) (pc : serve_pc) (b : serving_broker) : serving_broker :=
  mkServing (sb_server b) (sb_discovery b) (<[k := pc]> (sb_serves b)) (sb_stops b) (sb_crashed b).
Definition with_stopping (k : nat) (pc : stop_pc) (b : serving_broker) : serving_broker :=
  mkServing (sb_server b) (sb_discovery b) (sb_serves b) (<[k := pc]> (sb_stops b)) (sb_crashed b).
Definition crash_broker (b : serving_broker) : serving_broker :=
  mkServing (sb_server b) (sb_discovery b) (sb_serves b) (sb_stops b) true.

(** The next step of the [k]-th call of [Serve]; [opened] is the answer of [net.Listen]. *)
Definition serve_step (opened : option error) (k : nat) (b : serving_broker) : option serving_broker :=
  pc ← sb_serves b !! k;
  let g := pv_server (sb_server b) in
  match pc with
  | VListen => Some (with_serve k (match opened with Some e => VReturned (Some e) | None => VRegister end) b)
  | VRegister =>
      if gs_serve g || gs_registered g then Some (crash_broker b)
      else Some (with_serve k VServe (with_grpc (mkGrpc true (gs_serve g) (gs_stopped g) (gs_calls g)) b))
  | VServe =>
      Some (with_serve k (if gs_stopped g then VReturned (Some ErrServerStopped) else VServing)
              (with_grpc (mkGrpc (gs_registered g) true (gs_stopped g) (gs_calls g)) b))
  | VServing => if gs_stopped g then Some (with_serve k (VReturned None) b) else None
  | VReturned _ => None
  end.

(** The next step of the [k]-th call of [Shutdown]. *)
Definition stop_step (k : nat) (b : serving_broker) : option serving_broker :=
  pc ← sb_stops b !! k;
  let g := pv_server (sb_server b) in
  match pc with
  | TStop => Some (with_stopping k TWait (with_grpc (mkGrpc (gs_registered g) (gs_serve g) true (gs_calls g)) b))
  | TWait => if decide (gs_calls g = O) then Some (with_stopping k (TDone peer_Shutdown) b) else None
  | TDone _ => None
  end.

(** A peer calls: answered when a [Serve] is serving and the server was not stopped. *)
Definition serving (b : serving_broker) : bool :=
  negb (sb_crashed b) && negb (gs_stopped (pv_server (sb_server b))) &&
  existsb (λ pc, match pc with VServing => true | _ => false end) (sb_serves b).

Inductive serving_step : serving_broker → serving_broker → Prop :=
| sv_serve b opened k b' : sb_crashed b = false → serve_step opened k b = Some b' → serving_step b b'
| sv_shutdown b : sb_crashed b = false →
    serving_step b (mkServing (sb_server b) (sb_discovery b) (sb_serves b) (sb_stops b ++ [TStop]) false)
| sv_stop b k b' : sb_crashed b = false → stop_step k b = Some b' → serving_step b b'
| sv_call b : serving b = true → let g := pv_server (sb_server b) in
    serving_step b (with_grpc (mkGrpc (gs_registered g) (gs_serve g) (gs_stopped g) (S (gs_calls g))) b)
| sv_answer b n : sb_crashed b = false → let g := pv_server (sb_server b) in gs_calls g = S n →
    serving_step b (with_grpc (mkGrpc (gs_registered g) (gs_serve g) (gs_stopped g) n) b).

(** With one call of [Serve]: what its place says of the server. *)
Definition serve_ok (b : serving_broker) : Prop :=
  sb_crashed b = false ∧
  (∀ k, k ≠ O → sb_serves b !! k = None) ∧
  (∀ pc, sb_serves b !! O = Some pc →
     match pc with
     | VListen | VRegister => gs_registered (pv_server (sb_server b)) = false ∧ gs_serve (pv_server (sb_server b)) = false
     | _ => True
     end) ∧
  ((∃ err, TDone err ∈ sb_stops b ∨ TWait ∈ sb_stops b) → gs_stopped (pv_server (sb_server b)) = true) ∧
  ((∃ err, TDone err ∈ sb_stops b) → gs_calls (pv_server (sb_server b)) = O).

Lemma serve_lookup (l : list serve_pc) k pc j x : <[k := pc]> l !! j = Some x → (j = k ∧ x = pc) ∨ (j ≠ k ∧ l !! j = Some x).
Proof. rewrite list_lookup_insert_Some. naive_solver. Qed.

Lemma elem_of_insert_stop (l : list stop_pc) k pc x : x ∈ <[k := pc]> l → x = pc ∨ x ∈ l.
Proof.
  rewrite !list_elem_of_lookup. intros (i & [(-> & <- & _)|[_ Hi]]%list_lookup_insert_Some); [by left|right; eauto].
Qed.

Lemma serve_ok_step b b' : serve_ok b → serving_step b b' → serve_ok b'.
Proof.
  intros (Hc & Hone & Hpc & Hst & Hcalls) Hs.
  destruct Hs as [b opened k b' _ E|b _|b k b' _ E|b Hserving g|b n _ g Hg].
  - unfold serve_step in E. destruct (sb_serves b !! k) as [pc|] eqn:Ek; [|done].
    assert (k = O) as -> by (destruct k; [done|]; by rewrite Hone in Ek).
    assert (∀ k x, k ≠ O → <[O := x]> (sb_serves b) !! k = None) as Hone'.
    { intros k x Hk. rewrite list_lookup_insert_ne by done. by apply Hone. }
    specialize (Hpc _ Ek). cbn [mbind option_bind] in E. destruct pc as [| | | |err].
    + injection E as <-. split_and!; try done; [by intros; apply Hone'|].
      intros pc [[_ ->]|[? _]]%serve_lookup; [destruct opened; [done|exact Hpc]|done].
    + destruct Hpc as [Hr Hv]. rewrite Hr, Hv in E. injection E as <-.
      split_and!; try done; [by intros; apply Hone'|].
      intros pc [[_ ->]|[? _]]%serve_lookup; done.
    + injection E as <-. split_and!; try done; [by intros; apply Hone'|].
      intros pc [[_ ->]|[? _]]%serve_lookup; try done; by destruct (gs_stopped _).
    + destruct (gs_stopped _) eqn:Es; [|done]. injection E as <-.
      split_and!; try done; [by intros; apply Hone'|].
      intros pc [[_ ->]|[? _]]%serve_lookup; done.
    + done.
  - split_and!; try done.
    + intros (err & [[?|?%list_elem_of_singleton]%elem_of_app|[?|?%list_elem_of_singleton]%elem_of_app]); try done;
        apply Hst; exists err; auto.
    + intros (err & [?|?%list_elem_of_singleton]%elem_of_app); [|done]. apply Hcalls. eauto.
  - unfold stop_step in E. destruct (sb_stops b !! k) as [pc|] eqn:Ek; [|done].
    assert (pc ∈ sb_stops b) as Hin by by eapply list_elem_of_lookup_2.
    cbn [mbind option_bind] in E. destruct pc as [| |err].
    + injection E as <-. split_and!; try done.
      intros (err & [?|?]%elem_of_insert_stop); [done|]. apply Hcalls. eauto.
    + destruct (decide _) as [H0|]; [|done]. injection E as <-. split_and!; try done.
      intros (err & [?|?]); apply Hst; exists None; by right.
    + done.
  - split_and!; try done. intros (err & Hin). exfalso.
    unfold serving in Hserving. rewrite Hst in Hserving by eauto.
    by rewrite andb_false_r in Hserving.
  - split_and!; try done. intros Hd. specialize (Hcalls Hd). unfold g in Hg. congruence.
Qed.

(** A broker is started once.  Whatever the order of [Serve] and [Shutdown], the process does not end,
    once [Shutdown] has returned no call is in progress and none is answered any more, and [Serve]
    can return.  When the port cannot be opened, [Serve] returns the error to its goroutine: the
    discovery runs, the broker joins its cluster and answers no peer.  A second [Start] can end the
    process. *)
Theorem broker_started (peerPort : Z) (d : discovery H) :
  (∀ b, steps serving_step (broker_Start d (new_broker_server peerPort)) b →
     sb_crashed b = false ∧
     ∀ err, TDone err ∈ sb_stops b →
       gs_calls (pv_server (sb_server b)) = O ∧ serving b = false ∧
       (sb_serves b = [VServing] → serve_step None 0 b = Some (with_serve 0 (VReturned None) b))) ∧
  (∀ e, ∃ b, steps serving_step (broker_Start d (new_broker_server peerPort)) b ∧
     sb_serves b = [VReturned (Some e)] ∧ sb_discovery b = Some (mc_Start d) ∧
     ∀ b', steps serving_step b b' → serving b' = false) ∧
  (∃ b, steps serving_step (broker_Start d (broker_Start d (new_broker_server peerPort))) b ∧ sb_crashed b = true).
Proof.
  split_and!.
  - intros b Hs.
    assert (serve_ok b) as (Hc & _ & _ & Hst & Hcalls).
    { refine (steps_invariant _ serve_ok _ _ _ _ Hs); [by intros; eapply serve_ok_step|].
      split_and!; try done.
      - by intros [|k].
      - intros pc [= <-]. done.
      - intros (err & [?%elem_of_nil|?%elem_of_nil]); done. }
    split; [done|]. intros err Hin. assert (gs_stopped (pv_server (sb_server b)) = true) as Hstop by (apply Hst; eauto).
    split_and!; [apply Hcalls; eauto|by unfold serving; rewrite Hstop, andb_false_r|].
    intros E. unfold serve_step. rewrite E. cbn. by rewrite Hstop.
  - intros e. eexists. split; [eapply steps_step; [by apply (sv_serve _ (Some e) 0)|apply steps_refl]|].
    split; [done|]. split; [done|]. intros b' Hs.
    assert (sb_serves b' = [VReturned (Some e)]) as E.
    { refine (steps_invariant _ (λ b, sb_serves b = [VReturned (Some e)]) _ _ _ _ Hs); [|done].
      intros b1 b2 E1 Hstep. destruct Hstep as [b opened k b2 _ E|b _|b k b2 _ E|b _ g|b n _ g _]; try done.
      { unfold serve_step in E. rewrite E1 in E. by destruct k. }
      { unfold stop_step in E. destruct (sb_stops b !! k) as [[| |]|]; simplify_eq/=; [done|].
        destruct (decide _); by simplify_eq. } }
    unfold serving. rewrite E. simpl. apply andb_false_r.
  - eexists. split; [|].
    + eapply steps_step; [by apply (sv_serve _ None 0)|].
      eapply steps_step; [by apply (sv_serve _ None 0)|].
      eapply steps_step; [by apply (sv_serve _ None 1)|].
      eapply steps_step; [by apply (sv_serve _ None 1)|]. apply steps_refl.
    + done.
Qed.
End start.
