(* ===== verification/Lease.v ===== *)
(** * The registration of a broker in etcd (src/cmd/cable/discovery_etcd.go)

    [Start] registers the broker under a lease and starts two goroutines: one receives the answers
    that keep the lease alive, one handles the changes of the other registrations; then it handles
    the listing.  The model is a transition system over these goroutines and etcd, which is a
    parameter: the operations the code calls, what other clients and time do, and what etcd
    documents of them.  The handler is the cluster of [Raft] in the last part; [etcd_api] is
    [Shutdown] as the cluster calls it. *)
From S2P Require Import Prelude Errors Coder Packet Safe Registry Server Broker Raft Options Discovery Bootstrap.
Local Open Scope Z_scope.

(** The calls of the etcd client, and what may happen to etcd between them. *)
Class EtcdClient (S L : Type) := {
  et_Grant : Z → S → (L + error) * S;
  et_Put : string → string → L → S → option error * S;
  et_Get : S → list (string * string) + error;       (* the entries under the prefix *)
  et_Revoke : L → S → option error * S;
  et_others : S → S → Prop
}.

(** The documented behaviour: an entry lives as long as its lease; a call that fails may have
    been done or not; nobody else puts the entry [key]. *)
Class EtcdLaws (S L : Type) `{!EtcdClient S L} (key : string) := {
  et_entry : S → option (string * L);                (* the value and the lease of [key] *)
  et_alive : S → L → Prop;
  et_entry_alive : ∀ s v l, et_entry s = Some (v, l) → et_alive s l;
  et_Put_Ok : ∀ v l s s', et_Put key v l s = (None, s') → et_entry s' = Some (v, l);
  et_Revoke_Ok : ∀ l s s', et_Revoke l s = (None, s') → ¬ et_alive s' l;
  et_Revoke_entry : ∀ l s, et_entry (et_Revoke l s).2 = et_entry s ∨ et_entry (et_Revoke l s).2 = None;
  et_others_entry : ∀ s s', et_others s s' → et_entry s' = et_entry s ∨ et_entry s' = None
}.

(** How far [Start] is: before the lease is granted, before the entry is put, after; or it
    returned after an error. *)
Inductive start_phase (L : Type) := EInit | EGranted (l : L) | ERunning (l : L) | EFailed.
Arguments EInit {L}.
Arguments EGranted {L} l.
Arguments ERunning {L} l.
Arguments EFailed {L}.

Record registration_state (H L : Type) := mkReg {
  rs_disc : etcdDiscovery H;
  rs_client : bool;                              (* e.client is not nil *)
  rs_leaseID : option L;                         (* e.leaseID, [None] for its zero value *)
  rs_phase : start_phase L;
  rs_keepalive : bool;                           (* keepaliveLeaseLoop runs *)
  rs_watch : bool;                               (* watchNodesLoop runs *)
  rs_listing : option (list (string * string));  (* the rest of the listing, once there is one *)
  rs_stopped : bool                              (* e.stopChan is closed *)
}.
Arguments mkReg {H L}.
Arguments rs_disc {H L} r.
Arguments rs_client {H L} r.
Arguments rs_leaseID {H L} r.
Arguments rs_phase {H L} r.
Arguments rs_keepalive {H L} r.
Arguments rs_watch {H L} r.
Arguments rs_listing {H L} r.
Arguments rs_stopped {H L} r.

Section lease.
Context {S L H : Type} {HH : DiscoveryHandler H} {EC : EtcdClient S L}.
Implicit Types r : registration_state H L.

Definition new_registration (e : etcdDiscovery H) : registration_state H L :=
  mkReg e false None EInit false false None false.

Definition failed r : registration_state H L :=
  mkReg (rs_disc r) (rs_client r) (rs_leaseID r) EFailed (rs_keepalive r) (rs_watch r)
    (rs_listing r) (rs_stopped r).

(** The first part of [Start]; [new] is the error of [clientv3.New]. *)
Definition Start_grant (new : option error) r (s : S) : registration_state H L * S :=
  match new with
  | Some _ => (failed r, s)
  | None =>
      let r := mkReg (rs_disc r) true (rs_leaseID r) (rs_phase r) (rs_keepalive r) (rs_watch r)
                 (rs_listing r) (rs_stopped r) in
      match et_Grant 10 s with
      | (inr _, s) => (failed r, s)
      | (inl l, s) =>
          (mkReg (rs_disc r) (rs_client r) (Some l) (EGranted l) (rs_keepalive r) (rs_watch r)
             (rs_listing r) (rs_stopped r), s)
      end
  end.

(** The second: the entry is put, the goroutines are started. *)
Definition Start_put (l : L) r (s : S) : registration_state H L * S :=
  let '(key, value) := registration (rs_disc r) in
  match et_Put key value l s with
  | (Some _, s) => (failed r, s)
  | (None, s) =>
      (mkReg (rs_disc r) (rs_client r) (rs_leaseID r) (ERunning l) true true (rs_listing r)
         (rs_stopped r), s)
  end.

Definition with_disc (e : etcdDiscovery H) (listing : option (list (string * string))) r
  : registration_state H L :=
  mkReg e (rs_client r) (rs_leaseID r) (rs_phase r) (rs_keepalive r) (rs_watch r) listing
    (rs_stopped r).

(** [keepaliveLeaseLoop] and [watchNodesLoop] return. *)
Definition without_loops (keepalive watch : bool) r : registration_state H L :=
  mkReg (rs_disc r) (rs_client r) (rs_leaseID r) (rs_phase r) keepalive watch (rs_listing r)
    (rs_stopped r).

(** [Shutdown], with the error of [Close] as [close]; the lease may be the zero value, which etcd
    does not know. *)
Definition etcd_Shutdown (close : option error) r (s : S)
  : outcome error (option error * registration_state H L * S) :=
  if rs_stopped r then Panic ClosedChannel
  else
    let r := mkReg (rs_disc r) (rs_client r) (rs_leaseID r) (rs_phase r) (rs_keepalive r)
               (rs_watch r) (rs_listing r) true in
    if rs_client r then
      Ok (close, r, match rs_leaseID r with Some l => snd (et_Revoke l s) | None => s end)
    else Ok (None, r, s).

(** A step of the process or of etcd.  Calls of a client that was closed fail. *)
Variant lease_step : registration_state H L * S → registration_state H L * S → Prop :=
| LOthers r s s' : et_others s s' → lease_step (r, s) (r, s')
| LGrant new r s : rs_phase r = EInit → lease_step (r, s) (Start_grant new r s)
| LPut l r s : rs_phase r = EGranted l →
    lease_step (r, s) (if rs_stopped r then (failed r, s) else Start_put l r s)
| LKeepaliveEnds r s : rs_keepalive r = true → lease_step (r, s) (without_loops false (rs_watch r) r, s)
| LWatchEnds r s : rs_watch r = true → lease_step (r, s) (without_loops (rs_keepalive r) false r, s)
| LWatch ev e r s : rs_watch r = true → watch_event (rs_disc r) ev = Ok e →
    lease_step (r, s) (with_disc e (rs_listing r) r, s)
| LGet kvs r s l : rs_phase r = ERunning l → rs_listing r = None → et_Get s = inl kvs →
    lease_step (r, s) (with_disc (rs_disc r) (Some kvs) r, s)
| LDiscover kv kvs e r s : rs_listing r = Some (kv :: kvs) → discover_kv (rs_disc r) kv = Ok e →
    lease_step (r, s) (with_disc e (Some kvs) r, s)
| LShutdown close err r r' s s' : etcd_Shutdown close r s = Ok (err, r', s') →
    lease_step (r, s) (r', s').

(** ** The entry of the broker *)

(** Handling changes and listings keeps the broker's own id and address. *)
Definition identity (e : etcdDiscovery H) : Z * string := (e_id e, e_ipaddr e).

Lemma node_joined_identity id v e e' : node_joined id v e = Ok e' → identity e' = identity e.
Proof.
  unfold node_joined. destruct (e_handler e) as [h|]; [|by intros [= <-]].
  destruct (h_OnNodeJoin id v h); simpl; [by intros [= <-]|done..].
Qed.

Lemma watch_event_identity e ev e' : watch_event e ev = Ok e' → identity e' = identity e.
Proof.
  destruct ev as [k v|k]; simpl; destruct (extractNodeID k) as [id|]; try by intros [= <-].
  - apply node_joined_identity.
  - intros [= <-]. unfold node_left. by destruct (e_handler e).
Qed.

Lemma discover_kv_identity e kv e' : discover_kv e kv = Ok e' → identity e' = identity e.
Proof.
  unfold discover_kv. destruct (extractNodeID kv.1) as [id|]; [|by intros [= <-]].
  destruct (negb _); [apply node_joined_identity|by intros [= <-]].
Qed.

Lemma step_identity x y : lease_step x y → identity (rs_disc y.1) = identity (rs_disc x.1).
Proof.
  intros Hs. destruct Hs as [| new r s| l r s| | | | | |close err r r' s s' E]; simpl; try done.
  - unfold Start_grant. destruct new; [done|]. by destruct (et_Grant 10 s) as [[?|?] ?].
  - destruct (rs_stopped r); [done|]. unfold Start_put. simpl. by destruct (et_Put _ _ _ _) as [[?|] ?].
  - by eapply watch_event_identity.
  - by eapply discover_kv_identity.
  - unfold etcd_Shutdown in E. destruct (rs_stopped r); [done|]. simpl in E.
    destruct (rs_client r); by injection E as <- <- <-.
Qed.

(** [Start] was given the lease it works with. *)
Definition leased r : Prop :=
  match rs_phase r with
  | EGranted l | ERunning l => rs_client r = true ∧ rs_leaseID r = Some l
  | _ => True
  end.

Lemma Shutdown_state close r s err r' s' : etcd_Shutdown close r s = Ok (err, r', s') →
  rs_stopped r = false ∧
  r' = mkReg (rs_disc r) (rs_client r) (rs_leaseID r) (rs_phase r) (rs_keepalive r) (rs_watch r)
         (rs_listing r) true ∧
  (s' = s ∨ ∃ l, rs_client r = true ∧ rs_leaseID r = Some l ∧ s' = (et_Revoke l s).2).
Proof.
  unfold etcd_Shutdown. destruct (rs_stopped r); [done|]. simpl.
  destruct (rs_client r) eqn:Ec; intros [= <- <- <-]; split_and!; rewrite ?Ec; auto.
  destruct (rs_leaseID r); eauto.
Qed.

(** [Shutdown] for the cluster, with the error of [Close]. *)
Definition etcd_api (close : option error) : DiscoveryApi (registration_state H L * S) := {|
  disc_Shutdown x :=
    match etcd_Shutdown close x.1 x.2 with
    | Ok (err, r, s) => inl (err, (r, s))
    | Err e => inl (Some e, x)
    | Panic w => inr w
    end
|}.

Lemma etcd_laws close : @DiscoveryLaws _ (etcd_api close).
Proof.
  intros [r s] err [r1 s1]. simpl. destruct (etcd_Shutdown close r s) as [[[err1 r2] s2]|e|w] eqn:E.
  - intros [= _ <- <-]. apply Shutdown_state in E as (_ & -> & _). by eexists.
  - revert E. unfold etcd_Shutdown. destruct (rs_stopped r); [done|]. simpl. by destruct (rs_client r).
  - done.
Qed.

Lemma leased_step x y : lease_step x y → leased x.1 → leased y.1.
Proof.
  intros Hs Hl. unfold leased in *.
  destruct Hs as [| new r s Hp| l r s Hp| | | | | |close err r r' s s' E]; simpl in *; try done.
  - unfold Start_grant. destruct new; [done|]. by destruct (et_Grant 10 s) as [[?|?] ?].
  - destruct (rs_stopped r); [done|]. unfold Start_put. simpl. rewrite Hp in Hl.
    by destruct (et_Put _ _ _ _) as [[?|] ?].
  - apply Shutdown_state in E as (_ & -> & _). done.
Qed.

Context (key : string) {EL : EtcdLaws S L key}.

(** Once [Start] is done, its entry is there or none is. *)
Definition registered_ok (x : registration_state H L * S) : Prop :=
  key = nodeKey (e_id (rs_disc x.1)) ∧
  match rs_phase x.1 with
  | ERunning l => et_entry x.2 = Some (e_ipaddr (rs_disc x.1), l) ∨ et_entry x.2 = None
  | _ => True
  end.

(** From then on an entry that is gone stays away. *)
Lemma step_entry x y l : lease_step x y → rs_phase x.1 = ERunning l →
  rs_phase y.1 = ERunning l ∧ (et_entry y.2 = et_entry x.2 ∨ et_entry y.2 = None).
Proof.
  intros Hs Hp. destruct Hs as [| | | | | | | |close err r r' s s' E]; simpl in *; try congruence; auto.
  - split; [done|]. by apply et_others_entry.
  - apply Shutdown_state in E as (_ & -> & [->|(l' & _ & _ & ->)]); [by auto|].
    split; [done|]. apply et_Revoke_entry.
Qed.

Lemma registered_ok_step x y : lease_step x y → registered_ok x → registered_ok y.
Proof.
  intros Hs [Hk Hp]. pose proof (step_identity _ _ Hs) as [= Hid Hip].
  split; [by rewrite Hid|]. destruct (rs_phase x.1) as [|l|l|] eqn:Ep.
  3: { destruct (step_entry _ _ l Hs Ep) as [-> [->| ->]]; [|by right]. by rewrite Hip. }
  all: destruct Hs as [| new r s| l' r s Hl| | | | | |close err r r' s s' E]; simpl in *;
    rewrite ?Ep; try done; try congruence.
  all: try by apply Shutdown_state in E as (_ & -> & _); simpl; rewrite Ep.
  - unfold Start_grant. destruct new; [done|]. by destruct (et_Grant 10 s) as [[?|?] ?].
  - destruct (rs_stopped r); [done|]. unfold Start_put in *. simpl in *.
    destruct (et_Put _ _ _ _) as [[?|] s'] eqn:E; simpl in *; [done|].
    left. rewrite <-Hk in E. by eapply et_Put_Ok.
Qed.

Lemma gone_stays x y l : steps lease_step x y → rs_phase x.1 = ERunning l → et_entry x.2 = None →
  et_entry y.2 = None.
Proof.
  intros Hs. induction Hs as [|x1 x2 x3 Hs _ IH]; [done|]. intros Hp He.
  destruct (step_entry _ _ l Hs Hp) as [Hp2 [He2|He2]]; apply IH; congruence.
Qed.

Lemma reached_registered e s0 x : key = nodeKey (e_id e) →
  steps lease_step (new_registration e, s0) x →
  registered_ok x ∧ leased x.1 ∧ identity (rs_disc x.1) = identity e.
Proof.
  intros Hk Hs. refine (steps_invariant _ (λ x, registered_ok x ∧ leased x.1 ∧
    identity (rs_disc x.1) = identity e) _ _ _ _ Hs); [|done].
  intros x1 x2 (H1 & H2 & H3) Hstep. split_and!; [by eapply registered_ok_step|by eapply leased_step|].
  by rewrite <-H3, (step_identity _ _ Hstep).
Qed.
End lease.

(** The deletion of an entry, at a broker whose handler is its cluster. *)
Lemma deletion_proposes {CS} `{!GoRange uint8, !GoRange Z} dial reply (c : cluster CS)
    (e : etcdDiscovery (cluster CS)) id : inU 64 id → e_handler e = Some c → raft c = true →
  ∃ c' n, @watch_event _ (raft_handler dial reply) e (EventTypeDelete (nodeKey id)) = Ok (SetHandler c' e) ∧
    raft_log c' = raft_log c ++ [ProposeRemoveNode id n] ∧
    ready c' = (if id =? self c then false else ready c).
Proof.
  intros Hid He Hr. unfold watch_event. rewrite extractNodeID_nodeKey by done. unfold node_left.
  rewrite He. simpl. unfold OnNodeLeave, KickBroker.
  destruct (id =? self c) eqn:E; unfold removeNode; simpl; rewrite Hr; simpl; eauto.
Qed.

(** C36 (safety): after [Start] registered a broker, etcd has exactly this registration, as long as
    its lease lives, or none; once there is none the broker is never registered again, although its
    process goes on.  Every broker with a running raft that hears of the deletion, the broker
    itself included, proposes to remove it from the cluster, and the broker itself is not ready any
    more.  [Shutdown] ends the registration if the lease is revoked. *)
Theorem lease_lost {S L H CS : Type} {HH : DiscoveryHandler H} {EC : EtcdClient S L}
    `{!GoRange uint8, !GoRange Z} (e : etcdDiscovery H) {EL : EtcdLaws S L (nodeKey (e_id e))}
    (s0 s : S) (r : registration_state H L) (l : L) :
  inU 64 (e_id e) → steps lease_step (new_registration e, s0) (r, s) → rs_phase r = ERunning l →
  (et_entry s = Some (e_ipaddr e, l) ∧ et_alive s l ∨ et_entry s = None) ∧
  (et_entry s = None → ∀ r' s', steps lease_step (r, s) (r', s') → et_entry s' = None) ∧
  (∀ dial reply (c : cluster CS) (w : etcdDiscovery (cluster CS)),
     e_handler w = Some c → raft c = true →
     ∃ c' n, @watch_event _ (raft_handler dial reply) w (EventTypeDelete (nodeKey (e_id e))) =
         Ok (SetHandler c' w) ∧
       raft_log c' = raft_log c ++ [ProposeRemoveNode (e_id e) n] ∧
       ready c' = (if e_id e =? self c then false else ready c)) ∧
  (∀ close, rs_stopped r = false → (et_Revoke l s).1 = None →
     ∃ r' s', etcd_Shutdown close r s = Ok (close, r', s') ∧ et_entry s' = None).
Proof.
  intros Hid Hs Hp. destruct (reached_registered _ e s0 (r, s) eq_refl Hs) as ([_ Hok] & Hl & [= Hi Ha]).
  unfold leased in Hl. simpl in *. rewrite Hp, Ha in *. destruct Hl as [Hc Hli]. split_and!.
  - destruct Hok as [Hok|]; [left|by right]. split; [done|by eapply et_entry_alive].
  - intros He r' s' Hs'. by apply (gone_stays _ _ _ l Hs').
  - intros dial reply c w Hw Hr. by apply deletion_proposes.
  - intros close Hst Hrev. unfold etcd_Shutdown. rewrite Hst. simpl. rewrite Hc, Hli.
    eexists _, _. split; [done|]. destruct (et_Revoke l s) as [o s'] eqn:E. simpl in *. subst o.
    pose proof (et_Revoke_Ok _ _ _ E) as Hdead. pose proof (et_Revoke_entry l s) as He. rewrite E in He.
    destruct He as [He|He]; [|exact He]. simpl in He. destruct Hok as [Hok|Hok]; [|congruence].
    destruct Hdead. eapply et_entry_alive. by rewrite He.
Qed.

(** ** Witness: a store of entries and leases, the lease expires *)
Definition toy_store : Type := gmap string (string * nat) * gset nat.

Definition expire_leases (s : toy_store) (gone : gset nat) : toy_store :=
  (filter (λ x, x.2.2 ∉ gone) s.1, s.2 ∖ gone).

#[local] Instance toy_client : EtcdClient toy_store nat := {|
  et_Grant := λ _ s, let l := fresh s.2 in (inl l, (s.1, {[l]} ∪ s.2));
  et_Put := λ k v l s,
    if decide (l ∈ s.2) then (None, (<[k := (v, l)]> s.1, s.2)) else (Some (EOther "no lease"), s);
  et_Get := λ s, inl ((λ kv, (kv.1, kv.2.1)) <$> map_to_list s.1);
  et_Revoke := λ l s, (None, expire_leases s {[l]});
  et_others := λ s s', ∃ gone, s' = expire_leases s gone
|}.

(** An entry counts while its lease lives. *)
Definition toy_entry (key : string) (s : toy_store) : option (string * nat) :=
  x ← s.1 !! key; if decide (x.2 ∈ s.2) then Some x else None.

Lemma toy_entry_expire key s gone :
  toy_entry key (expire_leases s gone) = toy_entry key s ∨ toy_entry key (expire_leases s gone) = None.
Proof.
  unfold toy_entry, expire_leases. simpl. destruct (filter _ s.1 !! key) as [x|] eqn:E; [|by right].
  apply map_lookup_filter_Some in E as [-> Hx]. simpl in *. destruct (decide (x.2 ∈ s.2 ∖ gone)); [left|by right].
  rewrite decide_True by set_solver. done.
Qed.

#[local] Instance toy_laws key : EtcdLaws toy_store nat key.
Proof.
  refine (Build_EtcdLaws _ _ _ key (toy_entry key) (λ s l, l ∈ s.2) _ _ _ _ _).
  - intros s v l. unfold toy_entry. destruct (s.1 !! key) as [x|]; simpl; [|done].
    destruct (decide _); [|done]. by intros [= ->].
  - intros v l s s'. simpl. destruct (decide _) as [Hl|]; [|done]. intros [= <-].
    unfold toy_entry. simpl. rewrite lookup_insert_eq. simpl. by rewrite decide_True.
  - intros l s s' [= <-]. simpl. set_solver.
  - intros l s. apply toy_entry_expire.
  - intros s s' [gone ->]. apply toy_entry_expire.
Defined.

Definition toy_broker : etcdDiscovery (list handler_call) := mkEtcd 3 "c:4567" (Some []).

(** The broker registers, the lease is lost. *)
Definition toy_registered : registration_state (list handler_call) nat * toy_store :=
  let x := Start_grant None (new_registration toy_broker) (∅, ∅) in
  Start_put 0%nat x.1 x.2.

Lemma lease_lost_witness :
  toy_entry "/cable/nodes/3" toy_registered.2 = Some ("c:4567", 0%nat) ∧
  ∀ r' s', steps lease_step (toy_registered.1, expire_leases toy_registered.2 {[0%nat]}) (r', s') →
    toy_entry "/cable/nodes/3" s' = None.
Proof.
  assert (steps lease_step (new_registration toy_broker, (∅, ∅))
    (toy_registered.1, expire_leases toy_registered.2 {[0%nat]})) as Hs.
  { eapply steps_step; [by apply (LGrant None)|]. eapply steps_step; [by apply (LPut 0%nat)|].
    eapply steps_step; [|apply steps_refl]. apply LOthers. by exists {[0%nat]}. }
  split; [vm_compute; reflexivity|].
  destruct (@lease_lost toy_store nat (list handler_call) unit recorder toy_client range_forward
    range_forward toy_broker (toy_laws _) (∅, ∅) _ _ 0%nat ltac:(vm_decide) Hs ltac:(vm_compute; reflexivity))
    as (_ & H & _).
  apply H. vm_compute. reflexivity.
Defined.
