(* ===== verification/Service.v ===== *)
(** * The service around a broker (src/cmd/cable: booter.go, cable_redis.go, cable_kafka.go)

    The booter is the handler of the broker's events: it authenticates logins, routes messages,
    and keeps the channels of users in Redis.  Redis, the JWT library and the authentication
    server are parameters; the broker is an interface, [BrokerApi], that [Broker] implements.
    The goroutines that one message starts work on different things (the cluster, Kafka) and
    are run one after the other; tracing and statistics are left out. *)
From S2P Require Import Prelude Errors Coder Packet Queue Safe RaftOps.
From S2P Require Import Registry Server Sessions Broker Inspect Config.
Local Open Scope Z_scope.

(** ** The broker as the service sees it *)
Class BrokerApi (S : Type) := {
  api_IsReady : S → bool;
  api_IsOnline : string → S → option bool;
  api_KickUser : string → S → option S;
  api_SendToAll : Message → S → option (outcome error (Z * Z) * S);
  api_SendToUser : string → Message → S → option (outcome error (Z * Z) * S);
  api_SendToChannel : string → Message → S → option (outcome error (Z * Z) * S);
  api_JoinChannel : string → gmap string string → S → outcome error unit * S;
  api_LeaveChannel : string → gmap string string → S → outcome error unit * S;
  api_ListUsers : Z → S → outcome error (gmap string (gmap string string));
  api_KickBroker : Z → S → outcome error unit * S;
  api_StartListener : string → S → option (outcome error unit * S);
  api_StopListener : string → S → option (outcome error unit * S);
  api_Inspects : S → outcome error (list nodeStatus)
}.

(** The brokers of a cluster and what the broker [me] proposed to raft: an implementation. *)
Record cluster_env := mkEnv {
  e_me : Z;
  e_ctx : option error;
  e_link : Z → rpc;
  e_submit : opdata → outcome error bytes;
  e_kick : Z → outcome error unit;
  e_inspects : brokers → outcome error (list nodeStatus)      (* see [Inspect] *)
}.

Record cluster_state := mkCluster {
  cs_ready : bool; cs_brokers : brokers; cs_log : list bytes; cs_kicked : list Z }.

Definition with_brokers (bs : brokers) (s : cluster_state) : cluster_state :=
  mkCluster (cs_ready s) bs (cs_log s) (cs_kicked s).

(** A proposal: [submitJoinChannel], [submitLeaveChannel]. *)
Definition propose (r : outcome error bytes) (s : cluster_state) : outcome error unit * cluster_state :=
  match r with
  | Ok data => (Ok tt, mkCluster (cs_ready s) (cs_brokers s) (cs_log s ++ [data]) (cs_kicked s))
  | Err e => (Err e, s)
  | Panic w => (Panic w, s)
  end.

Section cluster_api.
Context `{!GoRange uint8, !GoRange string, !GoRange Z} (env : cluster_env).

Definition on_brokers {A} (f : brokers → option (A * brokers)) (s : cluster_state)
  : option (A * cluster_state) := '(a, bs) ← f (cs_brokers s); Some (a, with_brokers bs s).

Definition cluster_api : BrokerApi cluster_state := {|
  api_IsReady := cs_ready;
  api_IsOnline := λ uid s, IsOnline (e_me env) (e_link env) uid (cs_brokers s);
  api_KickUser := λ uid s,
    bs ← KickUser (e_me env) (e_link env) uid (cs_brokers s); Some (with_brokers bs s);
  api_SendToAll := λ m, on_brokers (SendToAll (e_me env) (e_ctx env) (e_link env) m);
  api_SendToUser := λ uid m, on_brokers (SendToUser (e_me env) (e_ctx env) (e_link env) uid m);
  api_SendToChannel := λ ch m, on_brokers (SendToChannel (e_me env) (e_ctx env) (e_link env) ch m);
  api_JoinChannel := λ uid chs, propose (user_JoinChannel (e_submit env) uid chs);
  api_LeaveChannel := λ uid chs, propose (user_LeaveChannel (e_submit env) uid chs);
  api_ListUsers := λ node s,
    match cs_brokers s !! e_me env with
    | Some b => ListUsers node b
    | None => Panic NilDereference
    end;
  api_KickBroker := λ id s,
    match e_kick env id with
    | Ok _ => (Ok tt, mkCluster (cs_ready s) (cs_brokers s) (cs_log s) (cs_kicked s ++ [id]))
    | r => (r, s)
    end;
  api_StartListener := λ net, on_brokers (StartListener (e_me env) (e_link env) net);
  api_StopListener := λ net, on_brokers (StopListener (e_me env) (e_link env) net);
  api_Inspects := λ s, e_inspects env (cs_brokers s)
|}.
End cluster_api.

(** ** Redis (cable_redis.go)

    The commands the service uses; [R] is the state of the server. *)
Class RedisImpl (R : Type) := {
  r_Get : string → R → string + error;
  r_HSet : string → gmap string string → R → (Z + error) * R;
  r_HDel : string → list string → R → (Z + error) * R;
  r_HGetAll : string → R → gmap string string + error
}.

(** What Redis documents of them, for the hash under a key (the empty one if there is none).  A command
    that ends in an error was executed or was not. *)
Class RedisLaws (R : Type) `{!RedisImpl R} := {
  hash : R → string → gmap string string;
  HGetAll_Ok : ∀ k r m, r_HGetAll k r = inl m → m = hash r k;
  HSet_Ok : ∀ k m r n r', r_HSet k m r = (inl n, r') →
    ∀ k', hash r' k' = if decide (k' = k) then m ∪ hash r k else hash r k';
  HDel_Ok : ∀ k fs r n r', r_HDel k fs r = (inl n, r') →
    ∀ k', hash r' k' = if decide (k' = k) then filter (λ x, x.1 ∉ fs) (hash r k) else hash r k';
  HSet_Err : ∀ k m r e r', r_HSet k m r = (inr e, r') →
    (∀ k', hash r' k' = hash r k') ∨
    ∀ k', hash r' k' = if decide (k' = k) then m ∪ hash r k else hash r k';
  HDel_Err : ∀ k fs r e r', r_HDel k fs r = (inr e, r') →
    (∀ k', hash r' k' = hash r k') ∨
    ∀ k', hash r' k' = if decide (k' = k) then filter (λ x, x.1 ∉ fs) (hash r k) else hash r k'
}.

Record redisClient (R : Type) := mkRedisClient {
  impl : R; joinPrefix : string; authPrefix : string }.
Arguments mkRedisClient {R} impl joinPrefix authPrefix.
Arguments impl {R} r.
Arguments joinPrefix {R} r.
Arguments authPrefix {R} r.

Section redis.
Context {R : Type} `{!RedisImpl R}.

Definition with_impl (r : R) (c : redisClient R) : redisClient R :=
  mkRedisClient r (joinPrefix c) (authPrefix c).

Definition JoinKey (c : redisClient R) (uid : string) : string := joinPrefix c +:+ ":" +:+ uid.
Definition AuthKey (c : redisClient R) (uid : string) : string := authPrefix c +:+ ":" +:+ uid.

Definition redis_Get (key : string) (c : redisClient R) : string + error :=
  r_Get key (impl c).

Definition redis_HSet (key : string) (values : gmap string string) (c : redisClient R)
  : (Z + error) * redisClient R :=
  let '(r, i) := r_HSet key values (impl c) in (r, with_impl i c).

Definition redis_HDel (key : string) (fields : list string) (c : redisClient R)
  : (Z + error) * redisClient R :=
  let '(r, i) := r_HDel key fields (impl c) in (r, with_impl i c).

Definition redis_HGetAll (key : string) (c : redisClient R) : gmap string string + error :=
  r_HGetAll key (impl c).

(** [startRedis]: [server] and [cluster] are what the two constructors of clients make. *)
Definition startRedis (server : string → R) (cluster : list string → R) (config : redisConfig)
  : option (redisClient R) :=
  if negb (redis_Enabled config) then None
  else match Addresses config with
       | [addr] => Some (mkRedisClient (server addr) (JoinPrefix config) (AuthPrefix config))
       | addrs => Some (mkRedisClient (cluster addrs) (JoinPrefix config) (AuthPrefix config))
       end.
End redis.

(** A server in memory; [up] is whether it answers. *)
Record memory := mkMemory {
  up : bool; strings : gmap string string; hashes : gmap string (gmap string string) }.

Definition down : error := EOther "connection refused".
Definition redis_Nil : error := EOther "redis: nil".

#[export] Instance memory_impl : RedisImpl memory := {|
  r_Get := λ k r, if up r then match strings r !! k with Some v => inl v | None => inr redis_Nil end
                  else inr down;
  r_HSet := λ k m r,
    if up r then (inl (Z.of_nat (size m)),
                  mkMemory (up r) (strings r) (<[k := m ∪ default ∅ (hashes r !! k)]> (hashes r)))
    else (inr down, r);
  r_HDel := λ k fs r,
    if up r then (inl (Z.of_nat (length fs)),
                  mkMemory (up r) (strings r)
                    (<[k := filter (λ x, x.1 ∉ fs) (default ∅ (hashes r !! k))]> (hashes r)))
    else (inr down, r);
  r_HGetAll := λ k r, if up r then inl (default ∅ (hashes r !! k)) else inr down
|}.

#[export] Program Instance memory_laws : RedisLaws memory := {|
  hash := λ r k, default ∅ (hashes r !! k)
|}.
Next Obligation. intros k r m. simpl. destruct (up r); by intros [= <-]. Qed.
Next Obligation.
  intros k m r n r'. simpl. destruct (up r); intros [= <- <-] k'. simpl.
  destruct (decide (k' = k)) as [->|]; [by rewrite lookup_insert_eq|by rewrite lookup_insert_ne].
Qed.
Next Obligation.
  intros k fs r n r'. simpl. destruct (up r); intros [= <- <-] k'. simpl.
  destruct (decide (k' = k)) as [->|]; [by rewrite lookup_insert_eq|by rewrite lookup_insert_ne].
Qed.
Next Obligation. intros k m r e r'. simpl. destruct (up r); intros [= <- <-]. by left. Qed.
Next Obligation. intros k fs r e r'. simpl. destruct (up r); intros [= <- <-]. by left. Qed.

(** ** The booter *)

(** *** Kafka headers (cable_kafka.go) *)
Definition KafkaHeader : Type := list (string * bytes).

Definition header_Set (key value : string) (k : KafkaHeader) : KafkaHeader :=
  k ++ [(key, bytes_of_string value)].

Fixpoint header_Get (key : string) (k : KafkaHeader) : string :=
  match k with
  | [] => ""
  | (x, v) :: k => if decide (x = key) then string_of_bytes v else header_Get key k
  end.

Definition header_Keys (k : KafkaHeader) : list string := k.*1.

Record kafkaMessage := mkKafkaMessage { Topic : string; Value : bytes; Headers : KafkaHeader }.

(** [redis] is nil until [startRedis]; [b_kafka] are the messages given to the producer. *)
Record booter (S R : Type) := mkBooter {
  b_config : config;
  b_redis : option (redisClient R);
  b_broker : S;
  b_producer : bool;
  b_kafka : list kafkaMessage
}.
Arguments mkBooter {S R} b_config b_redis b_broker b_producer b_kafka.
Arguments b_config {S R} b.
Arguments b_redis {S R} b.
Arguments b_broker {S R} b.
Arguments b_producer {S R} b.
Arguments b_kafka {S R} b.

(** *** JSON Web Tokens

    A key is any Go value; the claims are a map of them.  [jwt_Parse] is
    [jwt.ParseWithClaims]: it may call the key function with whether the token's method is
    HMAC, and returns the claims and [token.Valid]. *)
Inductive jwt_key := KString (s : string) | KBytes (b : bytes).
Inductive claim := CString (s : string) | CNil | COther.

#[export] Instance claim_eq_dec : EqDecision claim.
Proof. solve_decision. Defined.

Section booter.
Context {S R : Type} {HB : BrokerApi S} {HR : RedisImpl R} `{!GoRange string}.
Context (jwt_Parse : string → (bool → jwt_key + error) → (gmap string claim * bool) + error).
(** [http.Get]: the status code. *)
Context (http_Get : string → Z + error).
(** The headers that the text map propagator injects. *)
Context (trace_headers : list (string * string)).

Abbreviation booter := (booter S R).

Definition with_redis (r : option (redisClient R)) (b : booter) : booter :=
  mkBooter (b_config b) r (b_broker b) (b_producer b) (b_kafka b).
Definition with_broker (s : S) (b : booter) : booter :=
  mkBooter (b_config b) (b_redis b) s (b_producer b) (b_kafka b).
Definition with_kafka (k : list kafkaMessage) (b : booter) : booter :=
  mkBooter (b_config b) (b_redis b) (b_broker b) (b_producer b) k.

(** [Start]: [client] and [producer] are whether the two Kafka constructors succeed. *)
Definition startKafka (client producer : bool) (b : booter) : booter :=
  if negb (kafka_Enabled (Kafka (b_config b))) then b
  else mkBooter (b_config b) (b_redis b) (b_broker b) (client && producer) (b_kafka b).

Definition booter_Start (server : string → R) (cluster : list string → R) (client producer : bool)
    (b : booter) : booter :=
  let b := with_redis (startRedis server cluster (Redis (b_config b))) b in
  startKafka client producer b.

(** *** Logins *)
Definition key_of (key : string) (hmac : bool) : jwt_key + error :=
  if hmac then inl (KString key) else inr (EOther "unexpected signing method").

Definition parseJWT (token key : string) : gmap string claim + error :=
  match jwt_Parse token (key_of key) with
  | inr e => inr e
  | inl (claims, Valid) => if Valid : bool then inl claims else inr (EOther "invalid token")
  end.

Definition remote_url (url : string) (id : Identity) : string :=
  url +:+ "?uid=" +:+ UserID id +:+ "&pwd=" +:+ Password id.

(** An error of the lookup is logged and the login rejected. *)
Definition judge {A} (r : A + error) (good : A → bool) : uint8 :=
  match r with
  | inl a => if good a then ConnectAccepted else ConnectAuthfail
  | inr _ => ConnectAuthfail
  end.

Definition check_jwt (secret : string) (id : Identity) : uint8 :=
  judge (parseJWT (Password id) secret)
    (λ claims, bool_decide (default CNil (claims !! "sub"%string) = CString (UserID id))).

Definition check_redis (prefix : string) (id : Identity) (c : redisClient R) : uint8 :=
  judge (redis_Get (prefix +:+ UserID id) c) (λ pwd, bool_decide (pwd = Password id)).

Definition check_remote (url : string) (id : Identity) : uint8 :=
  judge (http_Get (remote_url url id)) (λ status, status =? 200).

(** A CONNECT without identity is a nil pointer; so is the Redis client of a service without
    Redis. *)
Definition OnUserConnect (b : booter) (p : Connect) : outcome error uint8 :=
  let auth := Auth (b_config b) in
  if decide (auth_Method auth = "pass") then Ok ConnectAccepted
  else if decide (auth_Method auth ∈ ["jwt"; "static"; "redis"; "remote"]) then
    match connect_Identity p with
    | None => Panic NilDereference
    | Some id =>
        if decide (auth_Method auth = "jwt") then Ok (check_jwt (Secret auth) id)
        else if decide (auth_Method auth = "static") then
          Ok (if decide (Password id = Secret auth) then ConnectAccepted else ConnectAuthfail)
        else if decide (auth_Method auth = "redis") then
          match b_redis b with
          | None => Panic NilDereference
          | Some c => Ok (check_redis (AuthPrefix (Redis (b_config b))) id c)
          end
        else Ok (check_remote (AuthURL auth) id)
    end
  else Ok ConnectAuthfail.

(** *** Messages *)

(** [SendToAll], [SendToUser], [SendToChannel]: the broker's, with zero counts on an error. *)
Definition lift_send (r : option (outcome error (Z * Z) * S)) (b : booter)
  : option (outcome error (Z * Z) * booter) := '(r, s) ← r; Some (r, with_broker s b).

Definition booter_SendToAll (m : Message) (b : booter) : option (outcome error (Z * Z) * booter) :=
  lift_send (api_SendToAll m (b_broker b)) b.
Definition booter_SendToUser (uid : string) (m : Message) (b : booter)
  : option (outcome error (Z * Z) * booter) := lift_send (api_SendToUser uid m (b_broker b)) b.
Definition booter_SendToChannel (channel : string) (m : Message) (b : booter)
  : option (outcome error (Z * Z) * booter) := lift_send (api_SendToChannel channel m (b_broker b)) b.

(** [SendToKafka]; the producer's error is logged only. *)
Definition kafka_headers (toUserID toChannel : string) (id : option Identity) (m : Message)
  : KafkaHeader :=
  let h := [("messageKind"%string, [Kind m])] in
  let h := if decide (toUserID = "") then h else header_Set "toUser" toUserID h in
  let h := if decide (toChannel = "") then h else header_Set "toChannel" toChannel h in
  let h := match id with
           | None => h
           | Some id => header_Set "fromClient" (ClientID id) (header_Set "fromUser" (UserID id) h)
           end in
  fold_left (λ h x, header_Set x.1 x.2 h) trace_headers h.

Definition SendToKafka (topic toUserID toChannel : string) (id : option Identity) (m : Message)
    (b : booter) : booter :=
  with_kafka (b_kafka b ++
    [mkKafkaMessage topic (Payload m) (kafka_headers toUserID toChannel id m)]) b.

(** Where a message is resent to: the target, and its user and channel for Kafka; [None] when
    the handler returns at once. *)
Inductive target := ToNone | ToAll | ToUser (uid : string) | ToChannel (channel : string).

Definition resend_target (r : route) (m : Message) : option target :=
  if decide (ResendType r = resendToAll) then Some ToAll
  else if decide (ResendType r = resendToUser) then ToUser <$> message_props m !! PropertyUserID
  else if decide (ResendType r = resendToChannel) then
    ToChannel <$> message_props m !! PropertyChannel
  else Some ToNone.

Definition resend (t : target) (m : Message) (b : booter) : option booter :=
  match t with
  | ToNone => Some b
  | ToAll => snd <$> booter_SendToAll m b
  | ToUser uid => snd <$> booter_SendToUser uid m b
  | ToChannel channel => snd <$> booter_SendToChannel channel m b
  end.

Definition route_of (c : config) (m : Message) : option route :=
  routes ← MessageRoute c; routes !! Kind m.

(** [OnUserMessage]: always without an error. *)
Definition OnUserMessage (m : Message) (id : option Identity) (b : booter)
  : option (option error * booter) :=
  match route_of (b_config b) m with
  | None => Some (None, b)
  | Some r =>
      if negb (route_Enabled r) then Some (None, b)
      else match resend_target r m with
           | None => Some (None, b)
           | Some t =>
               b ← resend t m b;
               let toUserID := match t with ToUser uid => uid | _ => "" end%string in
               let toChannel := match t with ToChannel ch => ch | _ => "" end%string in
               Some (None,
                 if bool_decide (KafkaTopic r ≠ ""%string) && b_producer b
                 then SendToKafka (KafkaTopic r) toUserID toChannel id m b else b)
           end
  end.

(** *** Channels *)

(** A nil map is [None]. *)
Definition ListChannels (uid : string) (b : booter) : option (gmap string string) + error :=
  match b_redis b with
  | None => inl None
  | Some c => match redis_HGetAll (JoinKey c uid) c with inl m => inl (Some m) | inr e => inr e end
  end.

(** [GetUserChannels]: a map, empty if it is nil, and an error. *)
Definition GetUserChannels (b : booter) (uid : string) : gmap string string * option error :=
  match ListChannels uid b with
  | inl m => (default ∅ m, None)
  | inr e => (∅, Some e)
  end.

Definition booter_JoinChannel (uid : string) (channels : gmap string string) (b : booter)
  : outcome error unit * booter :=
  match b_redis b with
  | None => (Ok tt, b)
  | Some c =>
      let '(r, c) := redis_HSet (JoinKey c uid) channels c in
      let b := with_redis (Some c) b in
      match r with
      | inr e => (Err e, b)
      | inl _ => let '(r, s) := api_JoinChannel uid channels (b_broker b) in (r, with_broker s b)
      end
  end.

Definition booter_LeaveChannel (uid : string) (channels : gmap string string) (b : booter)
  : outcome error unit * booter :=
  match b_redis b with
  | None => (Ok tt, b)
  | Some c =>
      let keys := (go_range channels).*1 in
      let '(r, c) := redis_HDel (JoinKey c uid) keys c in
      let b := with_redis (Some c) b in
      match r with
      | inr e => (Err e, b)
      | inl _ => let '(r, s) := api_LeaveChannel uid channels (b_broker b) in (r, with_broker s b)
      end
  end.
End booter.

(** ** Authentication *)
Section auth.
Context {S R : Type} {HR : RedisImpl R} `{!GoRange uint8, !GoRange string}.
Context (jwt_Parse : string → (bool → jwt_key + error) → (gmap string claim * bool) + error).
Context (http_Get : string → Z + error).

Abbreviation OnUserConnect := (OnUserConnect (S := S) jwt_Parse http_Get).

(** What the identity of an accepted login proves. *)
Definition credentials (b : booter S R) (id : Identity) : Prop :=
  let auth := Auth (b_config b) in
  (auth_Method auth = "static" → Password id = Secret auth) ∧
  (auth_Method auth = "redis" → ∃ c, b_redis b = Some c ∧
     redis_Get (AuthPrefix (Redis (b_config b)) +:+ UserID id) c = inl (Password id)) ∧
  (auth_Method auth = "jwt" → ∃ claims, parseJWT jwt_Parse (Password id) (Secret auth) = inl claims ∧
     claims !! "sub" = Some (CString (UserID id))) ∧
  (auth_Method auth = "remote" → http_Get (remote_url (AuthURL auth) id) = inl 200).

Lemma judge_accepted {A} (r : A + error) good : Ok (judge r good) = Ok ConnectAccepted :> outcome error _ →
  ∃ a, r = inl a ∧ good a = true.
Proof. destruct r as [a|e]; simpl; [|done..]. destruct (good a) eqn:E; [by exists a|done]. Qed.

Lemma OnUserConnect_credentials b p id : OnUserConnect b p = Ok ConnectAccepted →
  connect_Identity p = Some id → credentials b id.
Proof.
  unfold Service.OnUserConnect, credentials. set (m := auth_Method (Auth (b_config b))).
  intros H Eid. rewrite Eid in H.
  split_and!; intros Hm; rewrite Hm, decide_False, decide_True in H by (done || set_solver).
  - rewrite decide_False, decide_True in H by done. by destruct (decide (Password id = _)).
  - rewrite !decide_False, decide_True in H by done.
    destruct (b_redis b) as [c|]; [|done]. exists c. split; [done|].
    apply judge_accepted in H as (pwd & -> & ->%bool_decide_eq_true). done.
  - rewrite decide_True in H by done. apply judge_accepted in H as (claims & -> & Hs%bool_decide_eq_true). exists claims.
    split; [done|]. by destruct (claims !! "sub"%string); simplify_eq/=.
  - rewrite !decide_False in H by done. apply judge_accepted in H as (st & -> & ->%Z.eqb_eq). done.
Qed.

(** A server whose connect handler is the service's. *)
Definition authenticated_by (b : booter S R) (h : handlers) : Prop :=
  ∀ p, connectHandler h p = ConnectAccepted → OnUserConnect b p = Ok ConnectAccepted.

(** C13 (sessions are authenticated): when the server asks the service about logins, every
    connection it has registered, in any world it reaches, belongs to an identity that showed
    the configured credentials: the shared secret, the password stored in Redis, a valid token
    for the user id, or a 200 answer of the authentication server. *)
Theorem sessions_authenticated b h capacity acts w cid i :
  authenticated_by b h → server_run h capacity acts empty_world = Some w →
  GetConn cid w = Some i → ∃ c id, heap w !! i = Some c ∧ c_id c = Some id ∧ credentials b id.
Proof.
  intros Hh Hr Hi. destruct (registered_accepted h capacity acts w Hr cid i Hi)
    as (c & id & Ei & Eid & p & _ & Hc & Hp).
  exists c, id. split_and!; [done..|]. eapply OnUserConnect_credentials; [by apply Hh|done].
Qed.

(** The user id and the password are put into the URL as they are.  A login
    of the user [u] with the password [x&pwd=y] makes the same request as a login of the user
    [u&pwd=x] with the password [y], so the service cannot tell them apart. *)
Theorem remote_logins_confused b p1 p2 u x y c1 c2 : auth_Method (Auth (b_config b)) = "remote" →
  connect_Identity p1 = Some (mkIdentity u c1 (x +:+ "&pwd=" +:+ y)) →
  connect_Identity p2 = Some (mkIdentity (u +:+ "&pwd=" +:+ x) c2 y) →
  OnUserConnect b p1 = OnUserConnect b p2.
Proof.
  intros Hm E1 E2. unfold Service.OnUserConnect. rewrite Hm, E1, E2.
  assert (∀ url, remote_url url (mkIdentity u c1 (x +:+ "&pwd=" +:+ y)) =
    remote_url url (mkIdentity (u +:+ "&pwd=" +:+ x) c2 y)) as Hu.
  { intros url. unfold remote_url. simpl. by rewrite !string_app_assoc. }
  unfold check_remote. by rewrite Hu.
Qed.
End auth.

(** A configuration that authenticates with Redis is accepted
    although it does not enable Redis; the service it starts panics on every login. *)
Theorem redis_auth_without_redis {S R : Type} {HR : RedisImpl R} `{!GoRange uint8}
    jwt http (server : string → R) (cluster : list string → R) client producer (b : booter S R) p :
  config_wf (b_config b) → auth_Method (Auth (b_config b)) = "redis" →
  redis_Enabled (Redis (b_config b)) = false →
  validate (b_config b) = Ok tt ∧
  is_panic (OnUserConnect jwt http (booter_Start server cluster client producer b) p) = true.
Proof.
  intros Hc Hm Hr. split; [by apply validate_iff|]. unfold booter_Start, startRedis. rewrite Hr.
  unfold OnUserConnect, startKafka. simpl. destruct (negb _); simpl; rewrite Hm; by destruct p as [? ? [id|]].
Qed.

(** ** The channels of users *)
Section channels.
Context {S R : Type} {HB : BrokerApi S} {HR : RedisImpl R} {HL : RedisLaws R}.
Context `{!GoRange uint8, !GoRange string, !GoRange Z}.
Implicit Types b : booter S R.

(** The channels Redis has for a user. *)
Definition stored (c : redisClient R) (uid : string) : gmap string string :=
  hash (impl c) (JoinKey c uid).

Lemma JoinKey_inj (c : redisClient R) u1 u2 : JoinKey c u1 = JoinKey c u2 → u1 = u2.
Proof. unfold JoinKey. by intros ?%(inj _)%(inj _). Qed.

Lemma ListChannels_stored b uid m : ListChannels uid b = inl (Some m) →
  ∃ c, b_redis b = Some c ∧ m = stored c uid.
Proof.
  unfold ListChannels. destruct (b_redis b) as [c|]; [|done].
  destruct (redis_HGetAll _ c) as [m'|] eqn:E; [|done]. intros [= ->]. exists c.
  split; [done|]. by apply HGetAll_Ok.
Qed.

Lemma JoinChannel_stored b b1 c uid chs : b_redis b = Some c →
  booter_JoinChannel uid chs b = (Ok tt, b1) →
  ∃ c1, b_redis b1 = Some c1 ∧
    ∀ u, stored c1 u = if decide (u = uid) then chs ∪ stored c u else stored c u.
Proof.
  intros Hc. unfold booter_JoinChannel. rewrite Hc. unfold redis_HSet.
  destruct (r_HSet _ _ _) as [r i] eqn:E. destruct r as [n|e]; [|done].
  destruct (api_JoinChannel _ _ _) as [r s]. intros [= _ <-]. eexists. split; [done|].
  intros u. unfold stored. simpl. rewrite (HSet_Ok _ _ _ _ _ E). unfold JoinKey. simpl.
  destruct (decide (u = uid)) as [->|Hne]; [by rewrite decide_True|].
  rewrite decide_False; [done|]. intros Hk. by apply Hne, (JoinKey_inj c).
Qed.

Lemma LeaveChannel_stored b b1 c uid chs : b_redis b = Some c →
  booter_LeaveChannel uid chs b = (Ok tt, b1) →
  ∃ c1, b_redis b1 = Some c1 ∧
    ∀ u, stored c1 u = if decide (u = uid) then filter (λ x, chs !! x.1 = None) (stored c u)
                       else stored c u.
Proof.
  intros Hc. unfold booter_LeaveChannel. rewrite Hc. unfold redis_HDel.
  destruct (r_HDel _ _ _) as [r i] eqn:E. destruct r as [n|e]; [|done].
  destruct (api_LeaveChannel _ _ _) as [r s]. intros [= _ <-]. eexists. split; [done|].
  intros u. unfold stored. simpl. rewrite (HDel_Ok _ _ _ _ _ E). unfold JoinKey. simpl.
  destruct (decide (u = uid)) as [->|Hne]; [rewrite !decide_True by done|].
  - apply map_filter_ext. intros ch x _. simpl. rewrite list_elem_of_fmap, eq_None_not_Some. split.
    + intros Hn [v Hv]. apply Hn. exists (ch, v). split; [done|]. by apply elem_of_go_range.
    + intros Hn ([ch' v] & -> & Hv). apply Hn. exists v. by apply elem_of_go_range.
  - rewrite !decide_False; [done..|]. intros Hk. by apply Hne, (JoinKey_inj c).
Qed.

(** Joining or leaving no channel keeps all of them, whatever happens. *)
Lemma JoinChannel_none b c uid : b_redis b = Some c →
  ∃ c1, b_redis (booter_JoinChannel uid ∅ b).2 = Some c1 ∧ ∀ u, stored c1 u = stored c u.
Proof.
  intros Hc. unfold booter_JoinChannel. rewrite Hc. unfold redis_HSet. destruct (r_HSet _ _ _) as [[n|e] i] eqn:E.
  - destruct (api_JoinChannel _ _ _) as [r s]. eexists. split; [done|]. intros u. unfold stored. simpl.
    rewrite (HSet_Ok _ _ _ _ _ E). unfold JoinKey. simpl. case_decide as Hk; [|done].
    rewrite (left_id_L ∅ (∪)). by rewrite Hk.
  - eexists. split; [done|]. intros u. unfold stored. simpl. unfold JoinKey. simpl.
    destruct (HSet_Err _ _ _ _ _ E) as [-> | ->]; [done|]. case_decide as Hk; [|done].
    rewrite (left_id_L ∅ (∪)). unfold JoinKey in Hk. simpl in Hk. by rewrite Hk.
Qed.

Lemma LeaveChannel_none b c uid : b_redis b = Some c →
  ∃ c1, b_redis (booter_LeaveChannel uid ∅ b).2 = Some c1 ∧ ∀ u, stored c1 u = stored c u.
Proof.
  assert (∀ m : gmap string string, filter (λ x, x.1 ∉ (go_range (∅ : gmap string string)).*1) m = m) as Hf.
  { intros m. apply map_filter_id. intros k v _. simpl. intros ([k' v'] & _ & Hv%elem_of_go_range)%list_elem_of_fmap.
    by rewrite lookup_empty in Hv. }
  intros Hc. unfold booter_LeaveChannel. rewrite Hc. unfold redis_HDel. destruct (r_HDel _ _ _) as [[n|e] i] eqn:E.
  - destruct (api_LeaveChannel _ _ _) as [r s]. eexists. split; [done|]. intros u. unfold stored. simpl.
    rewrite (HDel_Ok _ _ _ _ _ E). unfold JoinKey. simpl. case_decide as Hk; [|done]. rewrite Hf. by rewrite Hk.
  - eexists. split; [done|]. intros u. unfold stored. simpl. unfold JoinKey. simpl.
    destruct (HDel_Err _ _ _ _ _ E) as [-> | ->]; [done|]. case_decide as Hk; [|done].
    rewrite Hf. by rewrite Hk.
Qed.

(** What a login proposes and what applying it does. *)
Lemma login_channels b me link connect submit p net bs bs' id data :
  onUserConnect me link connect (GetUserChannels b) submit p net bs =
    Some (Ok (ConnectAccepted, Some data), bs') →
  connect_Identity p = Some id →
  submit (OpOpened (mkUserOpened (UserID id) (ClientID id) net me
    (GetUserChannels b (UserID id)).1)) = Ok data.
Proof.
  intros H Eid. unfold onUserConnect in H. rewrite Eid in H.
  destruct (decide _) as [Hd|Hd]; [by injection H|].
  destruct (bs !! me) as [b0|]; [|done]. simpl in H. destruct (fold_left _ _ _) as [bs1|]; [|done].
  simpl in H. destruct (GetUserChannels b (UserID id)) as [chs err]. simpl.
  by destruct (submit _); simplify_eq.
Qed.

(** *** Services that share a Redis

    Each call is made at some service, whose client reaches the one state of Redis. *)
Variant channel_op :=
| CJoin (uid : string) (chs : gmap string string)
| CLeave (uid : string) (chs : gmap string string).

Definition channel_call (op : channel_op) b : outcome error unit * booter S R :=
  match op with CJoin uid chs => booter_JoinChannel uid chs b | CLeave uid chs => booter_LeaveChannel uid chs b end.

Definition shares (r : R) b : booter S R := with_redis (with_impl r <$> b_redis b) b.

Definition redis_state (r : R) b : R := match b_redis b with Some c => impl c | None => r end.

Fixpoint shared_run (calls : list (booter S R * channel_op)) (r : R) : R :=
  match calls with
  | [] => r
  | (b, op) :: calls => shared_run calls (redis_state r (channel_call op (shares r b)).2)
  end.

Definition leaves (op : channel_op) (uid ch : string) : Prop :=
  match op with CLeave u chs => u = uid ∧ is_Some (chs !! ch) | CJoin _ _ => False end.

Definition same_prefix (c : redisClient R) (x : booter S R * channel_op) : Prop :=
  match b_redis x.1 with Some c' => joinPrefix c' = joinPrefix c | None => True end.

(** A call at a service leaves a channel of the user where it was, unless it is the user's leaving it;
    whatever it returns. *)
Lemma channel_call_keeps c r b op uid ch : same_prefix c (b, op) → ¬ leaves op uid ch →
  is_Some (hash r (JoinKey c uid) !! ch) →
  is_Some (hash (redis_state r (channel_call op (shares r b)).2) (JoinKey c uid) !! ch).
Proof.
  unfold same_prefix, shares. cbn [fst]. destruct (b_redis b) as [c'|] eqn:Eb; [intros Hp|intros _]; intros Hl Hs.
  2: { unfold redis_state. destruct op; cbn [channel_call]; unfold booter_JoinChannel, booter_LeaveChannel;
       by simpl. }
  assert (∀ u, JoinKey (with_impl r c') u = JoinKey c u) as Hk by (intros u; unfold JoinKey; simpl; by rewrite Hp).
  destruct op as [u chs|u chs]; cbn [channel_call]; unfold booter_JoinChannel, booter_LeaveChannel;
    cbn [with_redis b_redis fmap option_fmap option_map]; unfold redis_HSet, redis_HDel; rewrite Hk; cbn [impl with_impl].
  - destruct (r_HSet _ chs r) as [[n|e] r'] eqn:E.
    + destruct (api_JoinChannel u chs _) as [res st]. unfold redis_state. simpl. rewrite (HSet_Ok _ _ _ _ _ E).
      case_decide as Hd; [|done]. rewrite <-Hd. destruct Hs as [v Hv]. apply lookup_union_is_Some. by right; exists v.
    + unfold redis_state. simpl. destruct (HSet_Err _ _ _ _ _ E) as [H|H]; rewrite H; [done|].
      case_decide as Hd; [|done]. rewrite <-Hd. apply lookup_union_is_Some. by right.
  - assert (∀ k', is_Some (hash r k' !! ch) → JoinKey c u = k' → k' = JoinKey c uid →
      is_Some (filter (λ x : string * string, x.1 ∉ (go_range chs).*1) (hash r k') !! ch)) as Hf.
    { intros k' [v Hv] <- Hu. exists v. apply map_lookup_filter_Some. split; [done|]. simpl.
      intros ([ch' v'] & -> & Hin)%list_elem_of_fmap. apply Hl. split; [by eapply (JoinKey_inj c)|].
      exists v'. by apply elem_of_go_range in Hin. }
    destruct (r_HDel _ _ r) as [[n|e] r'] eqn:E.
    + destruct (api_LeaveChannel u chs _) as [res st]. unfold redis_state. simpl. rewrite (HDel_Ok _ _ _ _ _ E).
      case_decide as Hd; [|done]. rewrite <-Hd. by apply Hf.
    + unfold redis_state. simpl. destruct (HDel_Err _ _ _ _ _ E) as [H|H]; rewrite H; [done|].
      case_decide as Hd; [|done]. rewrite <-Hd. by apply Hf.
Qed.

Lemma shared_run_keeps c calls r uid ch : Forall (same_prefix c) calls →
  Forall (λ x, ¬ leaves x.2 uid ch) calls → is_Some (hash r (JoinKey c uid) !! ch) →
  is_Some (hash (shared_run calls r) (JoinKey c uid) !! ch).
Proof.
  intros Hp. revert r. induction Hp as [|[b op] calls Hb _ IH]; intros r Hl Hs; [done|].
  apply Forall_cons in Hl as [Hop Hl]. cbn [shared_run]. apply IH; [done|]. by apply channel_call_keeps.
Qed.

(** A registration puts its client into the channels it carries, and nobody into others. *)
Lemma opened_channels op r n ch cid : registry_wf r →
  t_get (channelClients (userOpened op r)) n ch cid =
    if decide (n = opened_nodeID op ∧ cid = opened_cid op ∧ is_Some (opened_channels op !! ch))
    then Some (opened_net op) else t_get (channelClients r) n ch cid.
Proof.
  intros Hr. destruct (userOpened_refines op r Hr) as [_ (_ & Hm & _)]. simpl in Hm. rewrite Hm.
  destruct op. simpl. repeat case_decide; naive_solver.
Qed.

(** C9 (channels survive reconnecting): after a successful [JoinChannel] Redis lists the channels for
    the user, with those it listed before, and the same as before for everyone else.  Then let any
    services that share this Redis join and leave channels for any users, with whatever results.  A
    login of the user that is accepted at any broker registers the new client in each of these channels
    that the user was not asked to leave meanwhile, provided Redis answers the login; when it does
    not, the login is accepted all the same, and its client is registered in no channel at all.  After
    a successful [LeaveChannel] the channels are no longer listed. *)
Theorem channels_survive b b1 c uid chs : b_redis b = Some c →
  (booter_JoinChannel uid chs b = (Ok tt, b1) →
     (∀ u m, ListChannels u b1 = inl (Some m) →
        m = if decide (u = uid) then chs ∪ stored c u else stored c u) ∧
     (∀ calls b2 c2 me link connect submit p net bs bs' id data,
        Forall (same_prefix c) calls → b_redis b2 = Some c2 → joinPrefix c2 = joinPrefix c →
        onUserConnect me link connect (GetUserChannels (shares (shared_run calls (redis_state (impl c) b1)) b2))
          submit p net bs = Some (Ok (ConnectAccepted, Some data), bs') →
        connect_Identity p = Some id → UserID id = uid →
        ∃ op, submit (OpOpened op) = Ok data ∧ ∀ r, registry_wf r →
          match (GetUserChannels (shares (shared_run calls (redis_state (impl c) b1)) b2) uid).2 with
          | None => ∀ ch, is_Some (chs !! ch) → Forall (λ x, ¬ leaves x.2 uid ch) calls →
              t_get (channelClients (userOpened op r)) me ch (ClientID id) = Some net
          | Some _ => ∀ n ch cid,
              t_get (channelClients (userOpened op r)) n ch cid = t_get (channelClients r) n ch cid
          end)) ∧
  (booter_LeaveChannel uid chs b = (Ok tt, b1) →
     ∀ u m, ListChannels u b1 = inl (Some m) →
       m = if decide (u = uid) then filter (λ x, chs !! x.1 = None) (stored c u) else stored c u).
Proof.
  intros Hc. split; [intros Hj; split|].
  - intros u m Hm. destruct (JoinChannel_stored b b1 c uid chs Hc Hj) as (c1 & Hc1 & Hs).
    apply ListChannels_stored in Hm as (c2 & Hc2 & ->). simplify_eq. apply Hs.
  - intros calls b2 c2 me link connect submit p net bs bs' id data Hp Hc2 Hp2 Hl Hid Hu.
    destruct (JoinChannel_stored b b1 c uid chs Hc Hj) as (c1 & Hc1 & Hs).
    assert (joinPrefix c1 = joinPrefix c) as Hp1.
    { revert Hj. unfold booter_JoinChannel. rewrite Hc. unfold redis_HSet. destruct (r_HSet _ _ _) as [[n|e] i]; [|done].
      destruct (api_JoinChannel _ _ _) as [r s]. intros [= _ <-]. simpl in Hc1. by injection Hc1 as <-. }
    unfold redis_state in *. rewrite Hc1 in *. set (r2 := shared_run calls (impl c1)) in *.
    apply login_channels with (id := id) in Hl; [|done]. eexists. split; [exact Hl|]. intros r Hr. rewrite Hu.
    unfold GetUserChannels, ListChannels, shares. cbn [with_redis b_redis]. rewrite Hc2.
    cbn [fmap option_fmap option_map]. unfold redis_HGetAll. destruct (r_HGetAll _ _) as [m|e] eqn:Eg; cbn [fst snd].
    + apply HGetAll_Ok in Eg as ->. intros ch Hch Hno. rewrite opened_channels by done. simpl.
      rewrite decide_True; [done|]. split_and!; [done..|].
      assert (JoinKey (with_impl r2 c2) uid = JoinKey c uid) as -> by (unfold JoinKey; simpl; by rewrite Hp2).
      apply shared_run_keeps; [done..|]. assert (JoinKey c uid = JoinKey c1 uid) as -> by (unfold JoinKey; by rewrite Hp1).
      change (is_Some (stored c1 uid !! ch)). rewrite Hs, decide_True by done. apply lookup_union_is_Some. by left.
    + intros n ch cid. rewrite opened_channels by done. simpl. rewrite decide_False; [done|].
      rewrite lookup_empty. by intros (_ & _ & [? ?]).
  - intros Hl u m Hm. destruct (LeaveChannel_stored b b1 c uid chs Hc Hl) as (c1 & Hc1 & Hs).
    apply ListChannels_stored in Hm as (c2 & Hc2 & ->). simplify_eq. apply Hs.
Qed.

(** Without Redis joining a channel succeeds and does nothing. *)
Theorem join_without_redis b uid chs : b_redis b = None → booter_JoinChannel uid chs b = (Ok tt, b).
Proof. intros H. unfold booter_JoinChannel. by rewrite H. Qed.
End channels.

(** ** Messages to Kafka *)
Section routing.
Context {S R : Type} {HB : BrokerApi S} {HR : RedisImpl R}.
Context (trace_headers : list (string * string)).
Implicit Types b : booter S R.

Lemma header_Get_app key k1 k2 : key ∈ k1.*1 → header_Get key (k1 ++ k2) = header_Get key k1.
Proof.
  induction k1 as [|[x v] k1 IH]; simpl; [by intros ?%elem_of_nil|].
  intros [->|Hin]%elem_of_cons; case_decide; try done. by apply IH.
Qed.

Lemma fold_header_Set (l : list (string * string)) h :
  fold_left (λ h x, header_Set x.1 x.2 h) l h = h ++ ((λ x, (x.1, bytes_of_string x.2)) <$> l).
Proof.
  revert h. induction l as [|x l IH]; intros h; simpl; [by rewrite app_nil_r|].
  rewrite IH. unfold header_Set. by rewrite <-app_assoc.
Qed.

(** The values of the headers that are set. *)
Lemma kafka_headers_Get uid ch id m :
  let h := kafka_headers trace_headers uid ch id m in
  header_Get "messageKind" h = string_of_bytes [Kind m] ∧
  (uid ≠ "" → header_Get "toUser" h = uid) ∧
  (ch ≠ "" → header_Get "toChannel" h = ch) ∧
  (∀ i, id = Some i → header_Get "fromUser" h = UserID i ∧ header_Get "fromClient" h = ClientID i).
Proof.
  unfold kafka_headers. rewrite fold_header_Set. unfold header_Set.
  destruct (decide (uid = "")), (decide (ch = "")), id as [i|]; simpl; split_and!;
    try done; intros; simplify_eq; repeat case_decide; simplify_eq;
    try done; rewrite ?string_of_bytes_of_string; try done.
Qed.

(** The broker's operation for a target. *)
Definition api_resend (t : target) (m : Message) (s : S) : option S :=
  match t with
  | ToNone => Some s
  | ToAll => snd <$> api_SendToAll m s
  | ToUser uid => snd <$> api_SendToUser uid m s
  | ToChannel channel => snd <$> api_SendToChannel channel m s
  end.

Lemma resend_api t m b b' : resend t m b = Some b' →
  ∃ s, api_resend t m (b_broker b) = Some s ∧ b' = with_broker s b.
Proof.
  assert (∀ r, snd <$> lift_send r b = Some b' → ∃ s, snd <$> r = Some s ∧ b' = with_broker s b) as Hl.
  { intros [[x s]|]; simpl; [|done]. intros [= <-]. by exists s. }
  destruct t; simpl; [|apply Hl..]. intros [= <-]. exists (b_broker b). split; [done|]. by destruct b.
Qed.

Lemma resend_target_None r m : resend_target r m = None ↔
  (ResendType r = resendToUser ∧ message_props m !! PropertyUserID = None) ∨
  (ResendType r = resendToChannel ∧ message_props m !! PropertyChannel = None).
Proof.
  unfold resend_target. destruct (decide (ResendType r = resendToAll)) as [E|_].
  { split; [done|]. intros [[H _]|[H _]]; by rewrite H in E. }
  destruct (decide (ResendType r = resendToUser)) as [E|Hu].
  { rewrite fmap_None. split; [auto|]. intros [[_ H]|[H _]]; [done|by rewrite H in E]. }
  destruct (decide (ResendType r = resendToChannel)) as [E|Hc].
  { rewrite fmap_None. split; [auto|]. intros [[H _]|[_ H]]; [by rewrite H in E|done]. }
  split; [done|]. by intros [[? _]|[? _]].
Qed.

(** The user and channel Kafka is told. *)
Definition target_user (t : target) : string := match t with ToUser uid => uid | _ => "" end.
Definition target_channel (t : target) : string := match t with ToChannel ch => ch | _ => "" end.

(** C34 (message routes): handling a message never fails.  A message without an enabled route for
    its kind, or whose route needs a user or channel that it does not carry, changes nothing -
    it does not go to Kafka either, even if the route has a topic.  Any other message is handed
    to the broker for the route's target, and goes to Kafka, once, exactly when the route has a
    topic and there is a producer: with its payload, kind, target and sender. *)
Theorem message_routed b m id err b' : OnUserMessage trace_headers m id b = Some (err, b') →
  err = None ∧
  ((¬ ∃ r t, route_of (b_config b) m = Some r ∧ route_Enabled r = true ∧
        resend_target r m = Some t) → b' = b) ∧
  (∀ r t, route_of (b_config b) m = Some r → route_Enabled r = true → resend_target r m = Some t →
     api_resend t m (b_broker b) = Some (b_broker b') ∧
     if decide (KafkaTopic r ≠ "" ∧ b_producer b = true) then
       ∃ k, b_kafka b' = b_kafka b ++ [k] ∧ Topic k = KafkaTopic r ∧ Value k = Payload m ∧
         header_Get "messageKind" (Headers k) = string_of_bytes [Kind m] ∧
         (target_user t ≠ "" → header_Get "toUser" (Headers k) = target_user t) ∧
         (target_channel t ≠ "" → header_Get "toChannel" (Headers k) = target_channel t) ∧
         (∀ i, id = Some i → header_Get "fromUser" (Headers k) = UserID i ∧
            header_Get "fromClient" (Headers k) = ClientID i)
     else b_kafka b' = b_kafka b).
Proof.
  unfold OnUserMessage. destruct (route_of (b_config b) m) as [r|] eqn:Er.
  2: { intros [= <- <-]. split_and!; [done..|]. by intros ? ?. }
  destruct (route_Enabled r) eqn:Ee; simpl.
  2: { intros [= <- <-]. split_and!; [done..|]. intros r' t [= <-]. congruence. }
  destruct (resend_target r m) as [t|] eqn:Et.
  2: { intros [= <- <-]. split_and!; [done..|]. intros r' t [= <-]. congruence. }
  destruct (resend t m b) as [b1|] eqn:E1; [|done]. simpl. intros [= <- <-].
  destruct (resend_api t m b b1 E1) as (s & Es & ->). split_and!; [done| |].
  { intros []. by exists r, t. }
  intros r' t' [= <-] _ Ht'. rewrite Et in Ht'. injection Ht' as <-. cbn [with_broker b_producer].
  fold (target_user t) (target_channel t).
  destruct (decide (KafkaTopic r ≠ "" ∧ b_producer b = true)) as [[Hk Hp]|Hn].
  - rewrite bool_decide_eq_true_2, Hp by done. simpl. split; [done|]. eexists.
    destruct (kafka_headers_Get (target_user t) (target_channel t) id m) as (? & ? & ? & ?).
    split_and!; done.
  - assert (bool_decide (KafkaTopic r ≠ "") && b_producer b = false) as ->; [|done].
    apply andb_false_iff. rewrite bool_decide_eq_false. destruct (b_producer b); naive_solver.
Qed.
End routing.

(** ** Witnesses *)
Definition sample_config (auth : authConfig) : config :=
  let c := shipped false in
  mkConfig auth false 7 1887 1888 4567 1 (Trace c) (Logger c) (Metrics c) (Kafka c) (Redis c)
    (Discovery c) (MessageRoute c) (Listeners c).

Lemma sample_config_wf auth : auth_Method auth ∈ auth_methods → auth_Method auth ≠ "remote" →
  config_wf (sample_config auth).
Proof. intros Ha Hr. destruct (shipped_wf false). split; try done. Qed.

Definition sample_env : cluster_env :=
  mkEnv 1 (Some EDeadline) (λ _, Delivered) (λ op, fst (@SubmitOperation range_forward true 0 [] op)) (λ _, Ok tt)
    (λ _, Panic NilDereference).

#[local] Instance sample_api : BrokerApi cluster_state :=
  @cluster_api range_forward range_forward range_forward sample_env.

Definition sample_booter (auth : authConfig) (redis : option (redisClient memory))
  : booter cluster_state memory :=
  mkBooter (sample_config auth) redis (mkCluster true two_brokers [] []) true [].

Definition no_jwt (_ : string) (_ : bool → jwt_key + error) : (gmap string claim * bool) + error :=
  inr (EOther "token is malformed").
Definition no_http (_ : string) : Z + error := inr (EOther "no route to host").

Definition with_password (uid cid pwd : string) : Connect := NewConnect (Some (mkIdentity uid cid pwd)).

Definition static_booter : booter cluster_state memory := sample_booter (mkAuth "static" "s3cret" "") None.

(** The handlers of a server that asks the service. *)
Definition service_handlers (b : booter cluster_state memory) : handlers :=
  mkHandlers (λ p, match OnUserConnect no_jwt no_http b p with Ok c => c | _ => ConnectAuthfail end)
    (λ _ _, None) (λ _ _, Err EEOF).

Lemma sessions_authenticated_witness :
  let w := world_after (service_handlers static_booter)
    [SAccept (with_password "alice" "phone" "s3cret"); SAccept (with_password "bob" "pad" "guess")] in
  (∃ i c id, GetConn "phone" w = Some i ∧ heap w !! i = Some c ∧ c_id c = Some id ∧
     Password id = "s3cret") ∧ GetConn "pad" w = None.
Proof.
  intros w. split; [|by vm_compute].
  assert (is_Some (GetConn "phone" w)) as [i Hi] by (vm_compute; by eexists).
  assert (authenticated_by no_jwt no_http static_booter (service_handlers static_booter)) as Ha.
  { intros p. simpl. by destruct (OnUserConnect _ _ _ p); [intros ->|..]. }
  destruct (@sessions_authenticated _ _ _ range_forward range_forward no_jwt no_http static_booter
    (service_handlers static_booter) 8
    [SAccept (with_password "alice" "phone" "s3cret"); SAccept (with_password "bob" "pad" "guess")]
    w "phone" i Ha) as (c & id & Hc & Hid & Hs & _); [by vm_compute|done|].
  exists i, c, id. split_and!; [done..|]. by apply Hs.
Defined.

Lemma remote_logins_confused_witness :
  OnUserConnect no_jwt (λ url, if decide (url = "http://auth?uid=eve&pwd=1&pwd=2") then inl 200 else no_http url)
    (sample_booter (mkAuth "remote" "" "http://auth") None) (with_password "eve" "a" "1&pwd=2") =
  OnUserConnect no_jwt (λ url, if decide (url = "http://auth?uid=eve&pwd=1&pwd=2") then inl 200 else no_http url)
    (sample_booter (mkAuth "remote" "" "http://auth") None) (with_password "eve&pwd=1" "b" "2").
Proof. by apply (remote_logins_confused _ _ _ _ _ "eve" "1" "2" "a" "b"). Defined.

Lemma redis_auth_without_redis_witness :
  @validate range_forward (sample_config (mkAuth "redis" "" "")) = Ok tt ∧
  is_panic (OnUserConnect no_jwt no_http
    (booter_Start (λ _, mkMemory true ∅ ∅) (λ _, mkMemory true ∅ ∅) true true
       (sample_booter (mkAuth "redis" "" "") None)) (with_password "alice" "phone" "x")) = true.
Proof.
  apply (@redis_auth_without_redis _ _ _ range_forward no_jwt no_http _ _ true true
    (sample_booter (mkAuth "redis" "" "") None)); [|done..].
  apply sample_config_wf; [vm_decide|done].
Defined.

Definition redis_booter : booter cluster_state memory :=
  sample_booter (mkAuth "pass" "" "")
    (Some (mkRedisClient (mkMemory true ∅ {["join:alice" := {["news" := ""]}]}) "join" "auth")).

Lemma pair_fst {A B} (x : A * B) a : x.1 = a → x = (a, x.2).
Proof. by destruct x; simpl; intros ->. Qed.

(** Afterwards bob joins the channel, alice leaves another one, and logs in at broker 2. *)
Definition joined_booter : booter cluster_state memory :=
  snd (booter_JoinChannel "alice" {["chess" := "white"]} redis_booter).

Definition later_calls : list (booter cluster_state memory * channel_op) :=
  [(redis_booter, CJoin "bob" {["chess" := "black"]}); (redis_booter, CLeave "alice" {["news" := ""]})].

Definition later_booter : booter cluster_state memory :=
  shares (shared_run (GoRange1 := range_forward) later_calls (redis_state (mkMemory true ∅ ∅) joined_booter)) redis_booter.

Definition later_login : option (outcome error (uint8 * option bytes) * brokers) :=
  @onUserConnect range_forward range_forward range_forward 2 (λ _, Delivered) (λ _, ConnectAccepted) (GetUserChannels later_booter)
    (e_submit sample_env) (login_of "alice" "tablet") "ws" two_brokers.

Lemma channels_survive_witness :
  ListChannels "alice" joined_booter = inl (Some {["chess" := "white"; "news" := ""]}) ∧
  ListChannels "bob" joined_booter = inl (Some ∅) ∧ length (cs_log (b_broker joined_booter)) = 1%nat ∧
  ∃ op data bs', later_login = Some (Ok (ConnectAccepted, Some data), bs') ∧ e_submit sample_env (OpOpened op) = Ok data ∧
    t_get (channelClients (@userOpened range_forward op empty_registry)) 2 "chess" "tablet" = Some "ws".
Proof.
  destruct (proj1 (@channels_survive _ _ _ _ _ range_forward range_forward range_forward redis_booter joined_booter
    (mkRedisClient (mkMemory true ∅ {["join:alice" := {["news" := ""]}]}) "join" "auth")
    "alice" {["chess" := "white"]} eq_refl)) as [H1 H2].
  { apply pair_fst. by vm_compute. }
  split_and!; [|by vm_compute..|].
  - destruct (ListChannels "alice" joined_booter) as [[m|]|] eqn:El; [|by vm_compute in El..].
    rewrite (H1 "alice" m El). by vm_compute.
  - assert (∃ data bs', later_login = Some (Ok (ConnectAccepted, Some data), bs')) as (data & bs' & E)
      by (eexists _, _; vm_compute; reflexivity).
    destruct (H2 later_calls redis_booter
      (mkRedisClient (mkMemory true ∅ {["join:alice" := {["news" := ""]}]}) "join" "auth")
      2 (λ _, Delivered) (λ _, ConnectAccepted) (e_submit sample_env) (login_of "alice" "tablet") "ws" two_brokers bs'
      (mkIdentity "alice" "tablet" "") data) as (op & Hop & Hr); [by repeat constructor|done|done|exact E|done|done|].
    exists op, data, bs'. split_and!; [exact E|exact Hop|].
    refine (Hr empty_registry registry_wf_empty "chess" _ _); [by eexists|].
    repeat constructor; [by intros []|]. intros [_ [v Hv]]. by vm_compute in Hv.
Defined.

Lemma message_routed_witness :
  match OnUserMessage [] (mkMessage {[PropertyUserID := "alice"]} x00 [x68; x69])
          (Some (mkIdentity "bob" "desk" "")) redis_booter with
  | Some (err, b') => err = None ∧ ∃ k, b_kafka b' = [k] ∧ header_Get "toUser" (Headers k) = "alice" ∧
                        header_Get "fromUser" (Headers k) = "bob"
  | None => False
  end.
Proof.
  destruct (OnUserMessage _ _ _ _) as [[err b']|] eqn:E; [|by vm_compute in E].
  destruct (message_routed [] redis_booter _ _ err b' E) as (-> & _ & H). split; [done|].
  destruct (H (mkRoute true "user" "cable-user-messages") (ToUser "alice")) as [_ Hk];
    [by vm_compute..|].
  clear E. assert (KafkaTopic (mkRoute true "user" "cable-user-messages") ≠ "" ∧
    b_producer redis_booter = true) as Hd by (split; [discriminate|reflexivity]).
  rewrite decide_True in Hk by exact Hd. destruct Hk as (k & Hk & _ & _ & _ & Hu & _ & Hf).
  exists k. split_and!; [exact Hk|by apply Hu|]. by destruct (Hf (mkIdentity "bob" "desk" "") eq_refl).
Defined.
