(* ===== verification/Process.v ===== *)
(** * The process (src/cmd/cable: cable.go, booter.go, api_grpc.go, api_http.go)

    [main] reads the configuration, builds and starts the service, waits for a signal and shuts it
    down.  Once the cluster is ready two goroutines serve the APIs.  Opening a port is the only
    thing of them that can fail here; what they serve is in [Api].  The goroutines are atomic steps in
    any order. *)
From S2P Require Import Prelude Errors Coder Packet Safe Registry Server Broker Raft Options Config Lifecycle.
Local Open Scope Z_scope.

Variant api_kind := GrpcApi | HttpApi.
#[export] Instance api_kind_eq_dec : EqDecision api_kind.
Proof. solve_decision. Defined.

Record process (B : Type) := mkProcess {
  ps_config : config;
  ps_broker : B;
  ps_redis : option bool;             (* b.redis: nil, or whether it is open *)
  ps_producer : option bool;
  ps_kafka : option bool;
  ps_stats : bool;                    (* the statistics were shut down *)
  ps_pending : list api_kind;         (* goroutines of OnClusterReady that were not run yet *)
  ps_ports : gmap Z api_kind;         (* the ports opened by the APIs *)
  ps_logged : list error              (* errors of Serve that were logged *)
}.
Arguments mkProcess {B}.
Arguments ps_config {B} p.
Arguments ps_broker {B} p.
Arguments ps_redis {B} p.
Arguments ps_producer {B} p.
Arguments ps_kafka {B} p.
Arguments ps_stats {B} p.
Arguments ps_pending {B} p.
Arguments ps_ports {B} p.
Arguments ps_logged {B} p.

Section process.
Context {B : Type}.
Implicit Types p : process B.

Definition api_port (c : config) (k : api_kind) : Z :=
  match k with GrpcApi => GrpcPort c | HttpApi => HTTPPort c end.

(** [OnClusterReady]: two goroutines. *)
Definition OnClusterReady p : process B :=
  mkProcess (ps_config p) (ps_broker p) (ps_redis p) (ps_producer p) (ps_kafka p) (ps_stats p)
    (GrpcApi :: HttpApi :: ps_pending p) (ps_ports p) (ps_logged p).

(** A port of this process cannot be opened again. *)
Definition EAddrInUse : error := EOther "bind: address already in use".

(** [grpcServer.Serve] and [httpServer.Serve] up to the point where requests are served, or the
    error that [OnClusterReady] logs. *)
Definition api_Serve (k : api_kind) p : process B :=
  let port := api_port (ps_config p) k in
  match ps_ports p !! port with
  | Some _ => mkProcess (ps_config p) (ps_broker p) (ps_redis p) (ps_producer p) (ps_kafka p) (ps_stats p)
                (ps_pending p) (ps_ports p) (ps_logged p ++ [EAddrInUse])
  | None => mkProcess (ps_config p) (ps_broker p) (ps_redis p) (ps_producer p) (ps_kafka p) (ps_stats p)
              (ps_pending p) (<[port := k]> (ps_ports p)) (ps_logged p)
  end.

Definition run_pending (i : nat) p : option (process B) :=
  k ← ps_pending p !! i;
  Some (api_Serve k (mkProcess (ps_config p) (ps_broker p) (ps_redis p) (ps_producer p) (ps_kafka p)
          (ps_stats p) (delete i (ps_pending p)) (ps_ports p) (ps_logged p))).

(** [booter.Shutdown]: [shutdown] is the broker's. *)
Definition booter_Shutdown (shutdown : B → option (outcome error (option error * B))) p
  : option (outcome error (option error * process B)) :=
  let close (o : option bool) := match o with Some _ => Some false | None => None end in
  r ← shutdown (ps_broker p);
  Some (y <~ r;
    Ok (fst y, mkProcess (ps_config p) (snd y) (close (ps_redis p)) (close (ps_producer p))
                 (close (ps_kafka p)) true (ps_pending p) (ps_ports p) (ps_logged p))).

(** [main]: [boot] makes and starts the service, [serve] is what happens until the signal.  The
    result is the process at the end of [main], which logs an error of [Shutdown]. *)
Definition main_logged (err : option error) : list string :=
  match err with Some _ => ["cable server shutdown :"] | None => [] end ++
  ["cable server shutdown gracefully"].

Definition main (readConfig : outcome error config) (boot : config → outcome error (process B))
    (serve : process B → process B) (shutdown : B → option (outcome error (option error * B)))
  : option (outcome error (list string * process B)) :=
  match readConfig with
  | Err e => Some (Panic (Explicit (error_string e)))
  | Panic w => Some (Panic w)
  | Ok c =>
      match boot c with
      | Ok p => r ← booter_Shutdown shutdown (serve p); Some (y <~ r; Ok (main_logged (fst y), snd y))
      | Err e => Some (Panic (Explicit (error_string e)))
      | Panic w => Some (Panic w)
      end
  end.

(** ** The APIs *)

(** Readiness is announced, a goroutine runs, or the broker changes. *)
Variant process_step : process B → process B → Prop :=
| PReady p : process_step p (OnClusterReady p)
| PRun i p p' : run_pending i p = Some p' → process_step p p'
| PBroker b p : process_step p (mkProcess (ps_config p) b (ps_redis p) (ps_producer p) (ps_kafka p)
                                  (ps_stats p) (ps_pending p) (ps_ports p) (ps_logged p)).

Definition booted (c : config) p : Prop := ps_config p = c ∧ ps_pending p = [] ∧ ps_ports p = ∅ ∧ ps_logged p = [].

(** Each open port is that of the API that has it; once readiness was announced, each API has its goroutine
    still to run or finds its port open. *)
Definition process_ok (c : config) p : Prop :=
  ps_config p = c ∧ map_Forall (λ port k, port = api_port c k) (ps_ports p) ∧
  ((ps_pending p = [] ∧ ps_ports p = ∅) ∨
   ∀ k, k ∈ ps_pending p ∨ is_Some (ps_ports p !! api_port c k)).

Lemma process_ok_run c i p p' : process_ok c p → run_pending i p = Some p' → process_ok c p'.
Proof.
  intros (Hc & Hp & Hk). unfold run_pending. destruct (ps_pending p !! i) as [k|] eqn:Ei; [|done].
  destruct Hk as [[Hn _]|Hk]; [by rewrite Hn in Ei|].
  cbn [mbind option_bind]. intros [= <-]. unfold api_Serve. cbn [ps_config ps_ports ps_pending ps_logged].
  rewrite Hc. assert (∀ k', k' ∈ ps_pending p → k' = k ∨ k' ∈ delete i (ps_pending p)) as Hin.
  { intros k'. rewrite (delete_Permutation _ _ _ Ei) at 1. apply elem_of_cons. }
  destruct (ps_ports p !! api_port c k) as [k0|] eqn:Ep; (split; [done|]; split).
  - done.
  - right. intros k'. simpl. destruct (Hk k') as [[->|?]%Hin|?]; eauto.
  - by apply map_Forall_insert_2.
  - right. intros k'. simpl. destruct (Hk k') as [[->|?]%Hin|?]; [|by left|].
    + right. by rewrite lookup_insert_eq.
    + right. destruct (decide (api_port c k' = api_port c k)) as [->|];
        [by rewrite lookup_insert_eq|by rewrite lookup_insert_ne].
Qed.

Lemma process_ok_step c p p' : process_ok c p → process_step p p' → process_ok c p'.
Proof.
  intros Hp Hs. destruct Hs as [p|i p p' Hr|b p]; [|by eapply process_ok_run|done].
  destruct Hp as (Hc & Hp & Hk). split; [done|]. split; [done|]. right. intros k. left. simpl.
  destruct k; [apply list_elem_of_here|apply list_elem_of_further, list_elem_of_here].
Qed.

(** However often readiness is announced, when no goroutine of it is left the APIs have their ports or were
    never announced; but when the configuration gives both the same port, which [validate]
    accepts, only one of them is ever served.  [Shutdown] stops neither. *)
Theorem apis_served (c : config) p0 p : booted c p0 → steps process_step p0 p →
  (ps_pending p = [] →
     ps_ports p = ∅ ∨
     (if decide (GrpcPort c = HTTPPort c) then ∃ k, ps_ports p = {[GrpcPort c := k]}
      else ps_ports p = {[GrpcPort c := GrpcApi; HTTPPort c := HttpApi]})) ∧
  (∀ shutdown err p', booter_Shutdown shutdown p = Some (Ok (err, p')) → ps_ports p' = ps_ports p).
Proof.
  intros (Hc & Hpe & Hpo & _) Hs. split.
  - assert (process_ok c p) as (_ & Hp & Hk).
    { refine (steps_invariant _ (process_ok c) _ _ _ _ Hs); [by intros; eapply process_ok_step|].
      split; [done|]. rewrite Hpo. split; [apply map_Forall_empty|by left]. }
    intros Hn. destruct Hk as [[_ ->]|Hk]; [by left|right]. rewrite Hn in Hk.
    assert (∀ k, is_Some (ps_ports p !! api_port c k)) as Hall.
    { intros k. by destruct (Hk k) as [?%elem_of_nil|]. }
    destruct (Hall GrpcApi) as [kg Hg], (Hall HttpApi) as [kh Hh]. simpl in *.
    destruct (decide (GrpcPort c = HTTPPort c)) as [E|Hne].
    + exists kg. apply map_eq. intros port. destruct (decide (port = GrpcPort c)) as [->|Hport].
      * by rewrite lookup_singleton_eq.
      * rewrite lookup_singleton_ne by done. destruct (ps_ports p !! port) as [k|] eqn:Ek; [|done].
        pose proof (Hp _ _ Ek) as Hk'. destruct k; simpl in Hk'; congruence.
    + apply map_eq. intros port. destruct (decide (port = GrpcPort c)) as [->|Hport].
      * rewrite lookup_insert_eq, Hg. pose proof (Hp _ _ Hg) as Hk'. destruct kg; simpl in Hk'; congruence.
      * rewrite lookup_insert_ne by done. destruct (decide (port = HTTPPort c)) as [->|Hport'].
        -- rewrite lookup_singleton_eq, Hh. pose proof (Hp _ _ Hh) as Hk'. destruct kh; simpl in Hk'; congruence.
        -- rewrite lookup_singleton_ne by done. destruct (ps_ports p !! port) as [k|] eqn:Ek; [|done].
           pose proof (Hp _ _ Ek) as Hk'. destruct k; simpl in Hk'; congruence.
  - intros shutdown err p' H. unfold booter_Shutdown in H. destruct (shutdown (ps_broker p)) as [r|]; [|done].
    destruct r as [y|e|w]; simpl in H; [|done..]. injection H as _ <-. done.
Qed.
End process.

(** The service on one port for both APIs. *)
Definition one_port : config :=
  let c := shipped true in
  mkConfig (Auth c) (Pprof c) (NodeId c) 1887 1887 (PeerPort c) (ClusterSize c) (Trace c) (Logger c)
    (Metrics c) (Kafka c) (Redis c) (Discovery c) (MessageRoute c) (Listeners c).

Lemma apis_served_witness :
  @validate range_forward one_port = Ok tt ∧
  let p0 := mkProcess one_port tt None None None false [] ∅ [] in
  ∃ p, steps process_step p0 p ∧ ps_pending p = [] ∧ ∃ k, ps_ports p = {[1887 := k]}.
Proof.
  split; [by vm_compute|]. intros p0.
  assert (∃ p, steps process_step p0 p ∧ ps_pending p = [] ∧ ps_ports p ≠ ∅) as (p & Hs & Hn & Hne).
  { eexists. split; [|split].
    - eapply steps_step; [apply PReady|]. eapply steps_step; [by apply (PRun 0)|].
      eapply steps_step; [by apply (PRun 0)|apply steps_refl].
    - done.
    - intros E. by apply (f_equal (λ m : gmap Z api_kind, m !! 1887)) in E. }
  exists p. split; [exact Hs|]. split; [exact Hn|].
  destruct (apis_served one_port p0 p) as [H _]; [done|exact Hs|].
  destruct (H Hn) as [H'|H']; [by destruct Hne|]. revert H'. by rewrite decide_True.
Defined.
