(* ===== verification/Api.v ===== *)
(** * The front ends of the service (src/cmd/cable: api_http.go, api_grpc.go; src/api/client.go)

    The HTTP handlers, the methods of the gRPC server, and the client of the latter.  A handler
    is a function from the request and the service to the answer and the service; [None] is a
    call that never returns.  JSON texts are encoding/json's: decoding a body is a parameter, an
    answer holds the value that is encoded.  Which messages gRPC carries is a parameter too
    ([Grpc]), with what it documents ([GrpcLaws]). *)
From S2P Require Import Prelude Errors Utf8 Coder Packet RaftOps Broker Inspect Config Options Service.
Local Open Scope Z_scope.

(** ** HTTP *)
Record request := mkHttpRequest {
  hr_Method : string;
  hr_query : string → string;       (* [r.URL.Query().Get] *)
  hr_header : string → string;      (* [r.Header.Get] *)
  hr_body : bytes + error           (* what reading the body gives *)
}.

Inductive reply :=
| RText (text : string)
| ROnline (online : bool)
| RResult (total success : Z)
| RChannels (channels : option (gmap string string))
| RUsers (users : gmap string (gmap string string))
| RStatuses (ss : list nodeStatus)
| RPage                                (* the page of the Swagger UI *)
| RRedirect (url : string).

Record response := mkHttpResponse { hs_status : Z; hs_body : reply }.

Definition StatusOK' : Z := 200.
Definition StatusBadRequest' : Z := 400.
Definition StatusMethodNotAllowed : Z := 405.
Definition StatusInternalServerError : Z := 500.

Definition http_Error (msg : string) (code : Z) : response := mkHttpResponse code (RText msg).
Definition http_ok (r : reply) : response := mkHttpResponse StatusOK' r.

(** ** Messages of the gRPC service (src/api/pb/cable.proto)

    The fields of a message; strings and the keys and values of maps are [string] fields. *)
Inductive proto_field :=
| PString (s : string)
| PBytes (l : bytes)
| PInt (n : Z)
| PMap (m : gmap string string).

Abbreviation proto_message := (list proto_field).

Definition field_valid (f : proto_field) : bool :=
  match f with
  | PString s => valid_utf8 s
  | PMap m => forallb (λ x, valid_utf8 x.1 && valid_utf8 x.2) (map_to_list m)
  | _ => true
  end.

(** What gRPC makes of a message: the error of a call whose request or answer does not get through.  It
    documents that a string has to be UTF-8, and a limit on the size that a few numbers do not reach. *)
Class Grpc := { unfit : proto_message → option error }.

Definition is_number (f : proto_field) : Prop := match f with PInt _ => True | _ => False end.

Class GrpcLaws `{!Grpc} := {
  unfit_utf8 : ∀ m, forallb field_valid m = false → is_Some (unfit m);
  unfit_numbers : ∀ m, Forall is_number m → zlen m <= 2 → unfit m = None
}.

Definition ToAllReq (kind : uint8) (message : bytes) : proto_message := [PInt (Z_of_byte kind); PBytes message].
Definition ToUserReq (uid : string) (kind : uint8) (message : bytes) : proto_message :=
  [PString uid; PInt (Z_of_byte kind); PBytes message].
Definition JoinReq (uid : string) (channels : gmap string string) : proto_message := [PString uid; PMap channels].
Definition EmptyResp (_ : unit) : proto_message := [].
Definition OnlineResp (ok : bool) : proto_message := [PInt (Z.b2z ok)].
Definition MsgResp (counts : Z * Z) : proto_message := [PInt counts.1; PInt counts.2].
Definition ChannelsResp (channels : option (gmap string string)) : proto_message := [PMap (default ∅ channels)].

Section api.
Context {S R : Type} {HB : BrokerApi S} {HR : RedisImpl R} `{!GoRange string} {HG : Grpc}.
(** [json.NewDecoder(r.Body).Decode] for the bodies of [handleKickNode] and of [JoinReq]. *)
Context (decode_id : bytes + error → Z + error).
Context (decode_join : bytes + error → (string * gmap string string) + error).
(** The error of [strconv.ParseUint] for a text that is no 64-bit number. *)
Context (num_error : string → error).
(** [http.ServeFile]. *)
Context (ServeFile : request → string → response).

Abbreviation booter := (booter S R).
Abbreviation handler := (request → booter → option (response * booter)).

(** A path may panic in the handler's goroutine; net/http recovers and closes the connection,
    which the model does not tell from a call that never returns. *)
Definition finish {A} (r : outcome error A) (ok : A → response) (b : booter)
  : option (response * booter) :=
  match r with
  | Ok a => Some (ok a, b)
  | Err e => Some (http_Error (error_string e) StatusInternalServerError, b)
  | Panic _ => None
  end.

(** The two guards most handlers begin with. *)
Definition guarded (method : string) (h : handler) : handler := λ r b,
  if negb (api_IsReady (b_broker b)) then
    Some (http_Error "broker is not ready" StatusInternalServerError, b)
  else if decide (hr_Method r ≠ method) then
    Some (http_Error "method not allowed" StatusMethodNotAllowed, b)
  else h r b.

Definition bad_request (msg : string) (b : booter) : option (response * booter) :=
  Some (http_Error msg StatusBadRequest', b).

Definition handleHealth : handler := λ r b,
  if negb (api_IsReady (b_broker b)) then
    Some (http_Error "broker is not ready" StatusInternalServerError, b)
  else Some (http_ok (RText "ok"), b).

(** [handleInspect] has no guard. *)
Definition handleInspect : handler := λ r b,
  finish (api_Inspects (b_broker b)) (λ ss, http_ok (RStatuses ss)) b.

Definition handleIsOnline : handler := guarded "GET" (λ r b,
  let uid := hr_query r "uid" in
  if decide (uid = "") then bad_request "uid is required" b
  else online ← api_IsOnline uid (b_broker b); Some (http_ok (ROnline online), b)).

Definition handleKickUser : handler := guarded "GET" (λ r b,
  let uid := hr_query r "uid" in
  if decide (uid = "") then bad_request "uid is required" b
  else s ← api_KickUser uid (b_broker b); Some (http_ok (RText "ok"), with_broker s b)).

Definition handleKickNode : handler := guarded "POST" (λ r b,
  match decode_id (hr_body r) with
  | inr e => bad_request (error_string e) b
  | inl id =>
      if id =? 0 then bad_request "id is required" b
      else let '(res, s) := api_KickBroker id (b_broker b) in
           finish res (λ _, http_ok (RText "ok")) (with_broker s b)
  end).

(** [parseMessage]: the kind is checked before the body is read. *)
Definition parseMessage (r : request) : outcome error Message :=
  kind <~ ParseKind (hr_header r "message-kind");
  match hr_body r with
  | inr e => Err e
  | inl payload => Ok (mkMessage ∅ kind payload)
  end.

Definition send_with (send : Message → booter → option (outcome error (Z * Z) * booter)) : handler :=
  λ r b,
  match parseMessage r with
  | Err e => bad_request (error_string e) b
  | Panic _ => None
  | Ok msg => '(res, b) ← send msg b; finish res (λ ts, http_ok (RResult ts.1 ts.2)) b
  end.

Definition handleSendToAll : handler := guarded "POST" (send_with booter_SendToAll).

Definition handleSendToUser : handler := guarded "POST" (λ r b,
  let uid := hr_header r "message-uid" in
  if decide (uid = "") then bad_request "uid is required" b
  else send_with (booter_SendToUser uid) r b).

Definition handleSendToChannel : handler := guarded "POST" (λ r b,
  let channel := hr_header r "message-channel" in
  if decide (channel = "") then bad_request "channel is required" b
  else send_with (booter_SendToChannel channel) r b).

(** The handlers of [JoinReq]. *)
Definition channels_with (f : string → gmap string string → booter → outcome error unit * booter)
  : handler := λ r b,
  match decode_join (hr_body r) with
  | inr e => bad_request (error_string e) b
  | inl (uid, channels) =>
      if decide (uid = "") then bad_request "uid is required" b
      else if decide (channels = ∅) then bad_request "channels is required" b
      else let '(res, b) := f uid channels b in finish res (λ _, http_ok (RText "ok")) b
  end.

Definition handleJoinChannel : handler := guarded "POST" (channels_with booter_JoinChannel).
Definition handleLeaveChannel : handler := guarded "POST" (channels_with booter_LeaveChannel).

Definition handleListChannels : handler := guarded "GET" (λ r b,
  let uid := hr_query r "uid" in
  if decide (uid = "") then bad_request "uid is required" b
  else match ListChannels uid b with
       | inr e => Some (http_Error (error_string e) StatusInternalServerError, b)
       | inl channels => Some (http_ok (RChannels channels), b)
       end).

Definition handleListUsers : handler := guarded "GET" (λ r b,
  match ParseUint64 (hr_query r "nodeId") with
  | None => bad_request (error_string (num_error (hr_query r "nodeId"))) b
  | Some nodeId => finish (api_ListUsers nodeId (b_broker b)) (λ users, http_ok (RUsers users)) b
  end).

(** The guards of a handler: none, readiness, readiness and a method. *)
Inductive guards := Open | IfReady | IfReadyAnd (method : string).

(** [newHTTP]: the patterns of the mux. *)
Definition patterns : list (string * (guards * handler)) :=
  [("/health", (IfReady, handleHealth)); ("/inspect", (Open, handleInspect));
   ("/isOnline", (IfReadyAnd "GET", handleIsOnline));
   ("/kickUser", (IfReadyAnd "GET", handleKickUser));
   ("/kickNode", (IfReadyAnd "POST", handleKickNode));
   ("/sendToAll", (IfReadyAnd "POST", handleSendToAll));
   ("/sendToUser", (IfReadyAnd "POST", handleSendToUser));
   ("/sendToChannel", (IfReadyAnd "POST", handleSendToChannel));
   ("/joinChannel", (IfReadyAnd "POST", handleJoinChannel));
   ("/leaveChannel", (IfReadyAnd "POST", handleLeaveChannel));
   ("/listChannels", (IfReadyAnd "GET", handleListChannels));
   ("/listUsers", (IfReadyAnd "GET", handleListUsers));
   ("/swagger/swagger.json", (Open, λ r b, Some (ServeFile r "./docs/swagger.json", b)));
   ("/swagger/swagger.yaml", (Open, λ r b, Some (ServeFile r "./docs/swagger.yaml", b)));
   ("/swagger", (Open, λ r b, Some (http_ok RPage, b)));
   ("/swagger/index.html", (Open, λ r b, Some (mkHttpResponse 301 (RRedirect "/swagger"), b)))]%string.

(** The mux: [path] is a cleaned path; others are redirected to their cleaned form. *)
Definition serve (path : string) (r : request) (b : booter) : option (response * booter) :=
  match list_find (λ x, x.1 = path) patterns with
  | Some (_, (_, (_, h))) => h r b
  | None => Some (http_Error "404 page not found" 404, b)
  end.

(** ** gRPC (api_grpc.go)

    The kind of a message is an int32 on the wire, [packet.MessageKind] a uint8. *)
Definition grpc_message (kind : Z) (payload : bytes) : Message := mkMessage ∅ (byte_of kind) payload.

Definition grpc_IsOnline (uid : string) (b : booter) : option (outcome error bool * booter) :=
  ok ← api_IsOnline uid (b_broker b); Some (Ok ok, b).

Definition grpc_KickUser (uid : string) (b : booter) : option (outcome error unit * booter) :=
  s ← api_KickUser uid (b_broker b); Some (Ok tt, with_broker s b).

(** The error of [KickBroker] is dropped. *)
Definition grpc_KickNode (nodeId : Z) (b : booter) : option (outcome error unit * booter) :=
  let '(r, s) := api_KickBroker nodeId (b_broker b) in
  match r with
  | Panic w => Some (Panic w, with_broker s b)
  | _ => Some (Ok tt, with_broker s b)
  end.

Definition grpc_SendToAll (kind : Z) (message : bytes) (b : booter)
  : option (outcome error (Z * Z) * booter) := booter_SendToAll (grpc_message kind message) b.

Definition grpc_SendToUser (uid : string) (kind : Z) (message : bytes) (b : booter)
  : option (outcome error (Z * Z) * booter) := booter_SendToUser uid (grpc_message kind message) b.

Definition grpc_SendToChannel (channel : string) (kind : Z) (message : bytes) (b : booter)
  : option (outcome error (Z * Z) * booter) :=
  booter_SendToChannel channel (grpc_message kind message) b.

Definition grpc_JoinChannel (uid : string) (channels : gmap string string) (b : booter)
  : option (outcome error unit * booter) := Some (booter_JoinChannel uid channels b).

Definition grpc_LeaveChannel (uid : string) (channels : gmap string string) (b : booter)
  : option (outcome error unit * booter) := Some (booter_LeaveChannel uid channels b).

Definition grpc_ListChannels (uid : string) (b : booter)
  : option (outcome error (option (gmap string string)) * booter) :=
  Some (match ListChannels uid b with inl m => Ok m | inr e => Err e end, b).

Definition lift_api {A} (r : option (outcome error A * S)) (b : booter)
  : option (outcome error A * booter) := '(r, s) ← r; Some (r, with_broker s b).

Definition grpc_StartListener (network : string) (b : booter) : option (outcome error unit * booter) :=
  lift_api (api_StartListener network (b_broker b)) b.

Definition grpc_StopListener (network : string) (b : booter) : option (outcome error unit * booter) :=
  lift_api (api_StopListener network (b_broker b)) b.

(** ** The client of the gRPC server (src/api/client.go)

    [link]: the fate of the calls; see [rpc]. *)
Record apiClient := mkApiClient { ac_ready : bool; ac_conn : bool; ac_timers : nat }.

Definition ErrClientNotReady : error := EOther "client not ready".

Definition NewApiClient : apiClient := mkApiClient false false 0.

(** [apiClient_Connect], also the body of its timers; [dial] is whether [grpc.NewApiClient] succeeds. *)
Definition apiClient_Connect (dial : bool) (c : apiClient) : apiClient :=
  if ac_ready c then c
  else if dial then mkApiClient true true (ac_timers c)
  else mkApiClient (ac_ready c) (ac_conn c) (1 + ac_timers c).

Definition apiClient_Close (c : apiClient) : apiClient :=
  if ac_ready c then mkApiClient false false (ac_timers c) else c.

(** What the caller of a remote call gets for an error of the method: gRPC wraps it. *)
Context (wire_error : error → error).

(** An answer on its way back. *)
Definition wired {A} (answer : A → proto_message) (x : option (outcome error A * booter))
  : option (outcome error A * booter) :=
  '(r, b) ← x;
  Some (match r with
        | Ok a => match unfit (answer a) with Some e => Err e | None => Ok a end
        | Err e => Err (wire_error e)
        | Panic w => Panic w
        end, b).

(** The attempts at a call: its [retryPolicy] is that of the peers' clients. *)
Fixpoint client_attempts {A} (link : rpc) (answer : A → proto_message)
    (method : booter → option (outcome error A * booter)) (b : booter) : option (outcome error A * booter) :=
  match link with
  | Delivered => wired answer (method b)
  | Unsent e => Some (Err e, b)
  | NoReply e => '(_, b) ← method b; Some (Err e, b)
  | Retried link => '(_, b) ← method b; client_attempts link answer method b
  end.

(** A method: the remote call with its request, unless the client is not ready. *)
Definition client_call {A} (link : rpc) (c : apiClient) (request : proto_message) (answer : A → proto_message)
    (method : booter → option (outcome error A * booter)) (b : booter) : option (outcome error A * booter) :=
  if negb (ac_ready c) then Some (Err ErrClientNotReady, b)
  else match unfit request with
       | Some e => Some (Err e, b)
       | None => client_attempts link answer method b
       end.

Definition client_IsOnline link c uid :=
  client_call link c [PString uid] OnlineResp (grpc_IsOnline uid).
Definition client_KickUser link c uid := client_call link c [PString uid] EmptyResp (grpc_KickUser uid).
Definition client_KickNode link c nodeId := client_call link c [PInt nodeId] EmptyResp (grpc_KickNode nodeId).
Definition client_SendToAll link c (kind : uint8) message :=
  client_call link c (ToAllReq kind message) MsgResp (grpc_SendToAll (Z_of_byte kind) message).
Definition client_SendToUser link c uid (kind : uint8) message :=
  client_call link c (ToUserReq uid kind message) MsgResp (grpc_SendToUser uid (Z_of_byte kind) message).
Definition client_SendToChannel link c channel (kind : uint8) message :=
  client_call link c (ToUserReq channel kind message) MsgResp
    (grpc_SendToChannel channel (Z_of_byte kind) message).
Definition client_JoinChannel link c uid channels :=
  client_call link c (JoinReq uid channels) EmptyResp (grpc_JoinChannel uid channels).
Definition client_LeaveChannel link c uid channels :=
  client_call link c (JoinReq uid channels) EmptyResp (grpc_LeaveChannel uid channels).

(** An empty map is not on the wire: the client reads nil. *)
Definition client_ListChannels link c uid b :=
  '(r, b) ← client_call link c [PString uid] ChannelsResp (grpc_ListChannels uid) b;
  Some (match r with Ok (Some m) => Ok (if decide (m = ∅) then None else Some m) | r => r end, b).
Definition client_StartListener link c network :=
  client_call link c [PString network] EmptyResp (grpc_StartListener network).
Definition client_StopListener link c network :=
  client_call link c [PString network] EmptyResp (grpc_StopListener network).
End api.

(** ** Properties of the front ends *)
Section props.
Context {S R : Type} {HB : BrokerApi S} {HR : RedisImpl R} `{!GoRange string} {HG : Grpc}.
Context (decode_id : bytes + error → Z + error).
Context (decode_join : bytes + error → (string * gmap string string) + error).
Context (num_error : string → error).
(** [http.ServeFile]. *)
Context (ServeFile : request → string → response).
Implicit Types b : booter S R.

Context (wire_error : error → error).
Abbreviation serve := (serve decode_id decode_join num_error ServeFile).
Abbreviation patterns := (patterns decode_id decode_join num_error ServeFile).

(** The HTTP answer for the outcome of an operation. *)
Definition http_of {A} (ok : A → response) (x : option (outcome error A * booter S R))
  : option (response * booter S R) := '(r, b) ← x; finish r ok b.

Lemma guarded_open method h r b : api_IsReady (b_broker b) = true → hr_Method r = method →
  guarded method h r b = h r b.
Proof. intros Hr Hm. unfold guarded. rewrite Hr. simpl. by rewrite decide_False by auto. Qed.

Lemma send_with_of send r b kind payload :
  ParseKind (hr_header r "message-kind") = Ok kind → hr_body r = inl payload →
  send_with send r b =
    http_of (λ ts, http_ok (RResult ts.1 ts.2)) (send (grpc_message (Z_of_byte kind) payload) b).
Proof.
  intros Hk Hb. unfold send_with, parseMessage, grpc_message. rewrite Hk. simpl. rewrite Hb.
  by rewrite byte_of_Z_of_byte.
Qed.

(** What the caller of the API client gets when the request [m] stands for the operation [op]. *)
Definition carried {A} (m : proto_message) (op : booter S R → option (outcome error A * booter S R)) b
  : option (outcome error A * booter S R) :=
  match unfit m with
  | Some e => Some (Err e, b)
  | None => '(r, b) ← op b; Some (match r with Err e => Err (wire_error e) | r => r end, b)
  end.

(** An HTTP path and a method of the API client with request [m] do the same operation of the service:
    the path when the service is ready, the method when the request gets through. *)
Definition same_call {A} (ok : A → response) (path : string) (r : request) (m : proto_message)
    (op method : booter S R → option (outcome error A * booter S R)) (b : booter S R) : Prop :=
  serve path r b =
    (if api_IsReady (b_broker b) then http_of ok (op b)
     else Some (http_Error "broker is not ready" StatusInternalServerError, b)) ∧
  method b = carried m op b.

Lemma guarded_ready method h r b : hr_Method r = method →
  guarded method h r b =
    (if api_IsReady (b_broker b) then h r b
     else Some (http_Error "broker is not ready" StatusInternalServerError, b)).
Proof. intros Hm. unfold guarded. destruct (api_IsReady _); [|done]. simpl. by rewrite decide_False by auto. Qed.

Lemma client_call_carried {A} c m answer (op : booter S R → option (outcome error A * booter S R)) b :
  ac_ready c = true → (∀ a, unfit (answer a) = None) →
  client_call wire_error Delivered c m answer op b = carried m op b.
Proof.
  intros Hc Ha. unfold client_call, carried. rewrite Hc. cbn [negb]. destruct (unfit m); [done|].
  simpl. unfold wired. destruct (op b) as [[[a|e|w] b1]|]; simpl; [by rewrite Ha|done..].
Qed.

(** C17 (front ends): a well-formed POST to the HTTP API and the corresponding call of a connected API
    client, when it is delivered, are the same operation of the service, for sending to all, to a
    user and to a channel, and for joining and leaving channels: the message keeps its kind and payload,
    the effects and counts are the same, and so are errors, up to what gRPC puts around them.  They
    part in two ways: a service that is not ready refuses the POST and does what the client asks, and a
    request that gRPC does not carry, such as one with an id or channel that is not UTF-8, fails at the
    client with nothing done, while the POST is done.  For kicking a node they part in a third: an error is a 500 over HTTP, and
    success for the client. *)
Theorem front_ends_agree {HL : GrpcLaws} b r c kind payload uid channels nodeId :
  hr_Method r = "POST" → ac_ready c = true →
  (ParseKind (hr_header r "message-kind") = Ok kind → hr_body r = inl payload →
     let counts := λ ts, http_ok (RResult ts.1 ts.2) in
     let msg := mkMessage ∅ kind payload in
     same_call counts "/sendToAll" r (ToAllReq kind payload) (booter_SendToAll msg)
       (client_SendToAll wire_error Delivered c kind payload) b ∧
     (hr_header r "message-uid" = uid → uid ≠ "" →
        same_call counts "/sendToUser" r (ToUserReq uid kind payload) (booter_SendToUser uid msg)
          (client_SendToUser wire_error Delivered c uid kind payload) b) ∧
     (hr_header r "message-channel" = uid → uid ≠ "" →
        same_call counts "/sendToChannel" r (ToUserReq uid kind payload) (booter_SendToChannel uid msg)
          (client_SendToChannel wire_error Delivered c uid kind payload) b)) ∧
  (decode_join (hr_body r) = inl (uid, channels) → uid ≠ "" → channels ≠ ∅ →
     let done' := λ _, http_ok (RText "ok") in
     same_call done' "/joinChannel" r (JoinReq uid channels) (λ b, Some (booter_JoinChannel uid channels b))
       (client_JoinChannel wire_error Delivered c uid channels) b ∧
     same_call done' "/leaveChannel" r (JoinReq uid channels) (λ b, Some (booter_LeaveChannel uid channels b))
       (client_LeaveChannel wire_error Delivered c uid channels) b) ∧
  (valid_utf8 uid = false →
     (∃ e, client_SendToUser wire_error Delivered c uid kind payload b = Some (Err e, b)) ∧
     (∃ e, client_SendToChannel wire_error Delivered c uid kind payload b = Some (Err e, b)) ∧
     (∃ e, client_JoinChannel wire_error Delivered c uid channels b = Some (Err e, b)) ∧
     (∃ e, client_LeaveChannel wire_error Delivered c uid channels b = Some (Err e, b))) ∧
  (∀ e s, decode_id (hr_body r) = inl nodeId → nodeId ≠ 0 → api_IsReady (b_broker b) = true →
     api_KickBroker nodeId (b_broker b) = (Err e, s) →
     serve "/kickNode" r b = Some (http_Error (error_string e) StatusInternalServerError, with_broker s b) ∧
     client_KickNode wire_error Delivered c nodeId b = Some (Ok tt, with_broker s b)).
Proof.
  intros Hm Hc. split_and!.
  - intros Hk Hb counts msg. unfold same_call.
    assert (msg = grpc_message (Z_of_byte kind) payload) as ->.
    { unfold grpc_message. by rewrite byte_of_Z_of_byte. }
    (split_and!; intros; subst; [| |split|split]);
      [change (serve _ r b) with (handleSendToAll r b) | | change (serve _ r b) with (handleSendToUser r b) |
       | change (serve _ r b) with (handleSendToChannel r b) | ];
      try (by apply client_call_carried; [|intros ts; apply unfit_numbers; [repeat constructor|]]);
      unfold handleSendToAll, handleSendToUser, handleSendToChannel; rewrite guarded_ready by done;
      destruct (api_IsReady _); try done; cbv zeta; rewrite ?decide_False by done; by apply send_with_of.
  - intros Hd Hu Hne done'. unfold same_call.
    change (serve "/joinChannel" r b) with (handleJoinChannel decode_join r b).
    change (serve "/leaveChannel" r b) with (handleLeaveChannel decode_join r b).
    unfold handleJoinChannel, handleLeaveChannel. rewrite !guarded_ready by done.
    unfold channels_with. rewrite Hd, !decide_False by done.
    split_and!; try (by apply client_call_carried; [|intros []; by apply unfit_numbers]); unfold done', http_of;
      destruct (api_IsReady _); try done;
      by destruct (booter_JoinChannel uid channels b), (booter_LeaveChannel uid channels b).
  - intros Hu. unfold client_SendToUser, client_SendToChannel, client_JoinChannel, client_LeaveChannel, client_call.
    rewrite Hc. cbn [negb].
    destruct (unfit_utf8 (ToUserReq uid kind payload)) as [e1 ->]; [by cbn; rewrite Hu|].
    destruct (unfit_utf8 (JoinReq uid channels)) as [e2 ->]; [by cbn; rewrite Hu|].
    split_and!; by eexists.
  - intros e s Hd Hn Hr E. change (serve "/kickNode" r b) with (handleKickNode decode_id r b).
    unfold handleKickNode. rewrite guarded_open, Hd by done. rewrite (proj2 (Z.eqb_neq _ _)) by done. rewrite E.
    split; [done|]. unfold client_KickNode.
    rewrite client_call_carried by (first [done|intros []; by apply unfit_numbers]). unfold carried.
    rewrite unfit_numbers by (by repeat constructor). unfold grpc_KickNode. by rewrite E.
Qed.

(** A request the handler refuses. *)
Definition refused (resp : response) : Prop :=
  hs_status resp = StatusBadRequest' ∨ hs_status resp = StatusMethodNotAllowed.

(** Refusing a request changes nothing. *)
Definition refusal_pure (h : request → booter S R → option (response * booter S R)) : Prop :=
  ∀ r b resp b', h r b = Some (resp, b') → refused resp → b' = b.

Lemma refusal_guarded method h : refusal_pure h → refusal_pure (guarded method h).
Proof.
  intros Hh r b resp b'. unfold guarded. destruct (negb _); [by intros [= <- <-]|].
  case_decide; [by intros [= <- <-]|apply Hh].
Qed.

Lemma finish_not_refused {A} (x : outcome error A) text b resp b' :
  finish x (λ a, http_ok (text a)) b = Some (resp, b') → refused resp → b' = b.
Proof. by destruct x; simpl; intros [= <- <-] []. Qed.

Lemma finish_refused {A} (x : outcome error A) text b resp b' :
  finish x (λ a, http_ok (text a)) b = Some (resp, b') → ¬ refused resp.
Proof. by destruct x; simpl; intros [= <- <-] []. Qed.

Lemma refusal_send send : refusal_pure (send_with send).
Proof.
  intros r b resp b'. unfold send_with. destruct (parseMessage r) as [msg|e|w]; [|by intros [= <- <-]|done].
  destruct (send msg b) as [[res b1]|]; [|done]. simpl. intros E Hr. by destruct (finish_refused _ _ _ _ _ E Hr).
Qed.

Lemma refusal_channels f : refusal_pure (channels_with decode_join f).
Proof.
  intros r b resp b'. unfold channels_with. destruct (decode_join _) as [[uid chs]|e]; [|by intros [= <- <-]].
  case_decide; [by intros [= <- <-]|]. case_decide; [by intros [= <- <-]|].
  destruct (f uid chs b) as [res b1]. intros E Hr. by destruct (finish_refused _ _ _ _ _ E Hr).
Qed.

Lemma refusal_patterns path g h : (path, (g, h)) ∈ patterns → refusal_pure h.
Proof.
  unfold Api.patterns. intros Hin.
  repeat (apply elem_of_cons in Hin as [[= -> -> ->]|Hin]); [..|by apply elem_of_nil in Hin];
    try apply refusal_guarded; try apply refusal_send; try apply refusal_channels;
    intros r b resp b'; cbv zeta; try (case_decide; [by intros [= <- <-]|]); try apply refusal_send.
  - unfold handleHealth. destruct (negb _); by intros [= <- <-].
  - unfold handleInspect. apply finish_not_refused.
  - destruct (api_IsOnline _ _); simpl; [by intros [= <- <-]|done].
  - destruct (api_KickUser _ _); simpl; [|done]. by intros [= <- <-] [].
  - destruct (decode_id _) as [id|e]; [|by intros [= <- <-]]. destruct (id =? 0); [by intros [= <- <-]|].
    destruct (api_KickBroker _ _) as [res s]. intros E Hr. by destruct (finish_refused _ _ _ _ _ E Hr).
  - destruct (ListChannels _ _); by intros [= <- <-].
  - destruct (ParseUint64 _); [|by intros [= <- <-]]. apply finish_not_refused.
  - by intros [= <- <-].
  - by intros [= <- <-].
  - by intros [= <- <-].
  - by intros [= <- <-].
Qed.

(** Showing the guards of a handler. *)
Ltac open_handler := unfold handleHealth, handleIsOnline, handleKickUser, handleKickNode,
  handleSendToAll, handleSendToUser, handleSendToChannel, handleJoinChannel, handleLeaveChannel,
  handleListChannels, handleListUsers, guarded.

(** The cases of a pattern of the mux. *)
Ltac each_pattern Hin := unfold Api.patterns in Hin;
  repeat (apply elem_of_cons in Hin as [[= -> -> ->]|Hin]); [..|by apply elem_of_nil in Hin].

(** Every pattern of the mux reaches its own handler and any other
    path gets a 404; while the cluster is not ready, every guarded handler answers 500 and touches
    nothing; when it is ready, a handler with a method answers 405 to any other method and
    touches nothing; a request answered with 400 or 405 has changed nothing. *)
Theorem http_guards path r b :
  (path ∉ patterns.*1 → serve path r b = Some (http_Error "404 page not found" 404, b)) ∧
  (∀ g h, (path, (g, h)) ∈ patterns →
     serve path r b = h r b ∧
     (g ≠ Open → api_IsReady (b_broker b) = false →
        h r b = Some (http_Error "broker is not ready" StatusInternalServerError, b)) ∧
     (∀ method, g = IfReadyAnd method → api_IsReady (b_broker b) = true → hr_Method r ≠ method →
        h r b = Some (http_Error "method not allowed" StatusMethodNotAllowed, b)) ∧
     (∀ resp b', h r b = Some (resp, b') → refused resp → b' = b)).
Proof.
  split.
  - intros Hn. unfold Api.serve. destruct (list_find _ _) as [[i [p mh]]|] eqn:E; [|done].
    apply list_find_Some in E as (E & Hp & _). simpl in Hp. subst. destruct Hn.
    apply list_elem_of_fmap. exists (path, mh). split; [done|]. by eapply list_elem_of_lookup_2.
  - intros g h Hin. split_and!; [| | |by eapply refusal_patterns].
    + each_pattern Hin; done.
    + intros Hg Hr. each_pattern Hin; try done; open_handler; by rewrite Hr.
    + intros method -> Hr Hm. each_pattern Hin; simplify_eq; open_handler; rewrite Hr; simpl;
        by rewrite decide_True.
Qed.

(** The gRPC server has neither guard: its methods do not look at whether the cluster is ready,
    and a kind outside a byte is cut to its low byte, where HTTP answers 400. *)
Theorem grpc_kind_truncated kind payload : grpc_message kind payload = grpc_message (u8 kind) payload.
Proof.
  unfold grpc_message. f_equal. unfold byte_of, wrapU. by rewrite Z.mod_mod.
Qed.

(** [apiClient_Close] before the client is connected does nothing, so a pending timer of [apiClient_Connect] connects
    the closed client. *)
Theorem close_before_connect : ac_ready (apiClient_Connect true (apiClient_Close (apiClient_Connect false NewApiClient))) = true.
Proof. done. Qed.
End props.

(** ** The documented limits

    In proto3 a field with its zero value is not on the wire, and tags of small field numbers take a
    byte; by default neither side of a gRPC call takes a message over 4 MiB. *)
Definition varint_size (n : Z) : Z := 1 + Z.log2 n / 7.
Definition chunk_size (n : Z) : Z := 1 + varint_size n + n.
Definition len (s : string) : Z := Z.of_nat (String.length s).
Definition entry_size (x : string * string) : Z := chunk_size (chunk_size (len x.1) + chunk_size (len x.2)).

Definition field_size (f : proto_field) : Z :=
  match f with
  | PString s => if (s =? "")%string then 0 else chunk_size (len s)
  | PBytes l => if bool_decide (l = []) then 0 else chunk_size (Z.of_nat (length l))
  | PInt n => if n =? 0 then 0 else 1 + varint_size (u64 n)
  | PMap m => foldr Z.add 0 (entry_size <$> map_to_list m)
  end.

Definition defaultServerMaxReceiveMessageSize : Z := 4194304.
Definition errInvalidUTF8 : error := EOther "string field contains invalid UTF-8".
Definition errMessageTooLarge : error := EOther "received message larger than max".

Definition default_unfit (m : proto_message) : option error :=
  if negb (forallb field_valid m) then Some errInvalidUTF8
  else if defaultServerMaxReceiveMessageSize <? foldr Z.add 0 (field_size <$> m) then Some errMessageTooLarge
  else None.

Lemma int_size n : 0 <= field_size (PInt n) <= 11.
Proof.
  simpl. destruct (n =? 0); [lia|]. unfold varint_size, wrapU.
  assert (0 <= n mod 2 ^ 64 < 2 ^ 64) as Hn by (apply Z.mod_pos_bound; lia).
  assert (0 <= Z.log2 (n mod 2 ^ 64) < 64).
  { split; [apply Z.log2_nonneg|]. destruct (Z.eq_dec (n mod 2 ^ 64) 0) as [->|]; [done|].
    apply Z.log2_lt_pow2; lia. }
  assert (0 <= Z.log2 (n mod 2 ^ 64) / 7 < 10); [|lia].
  split; [apply Z.div_pos; lia|apply Z.div_lt_upper_bound; lia].
Qed.

#[local] Instance default_grpc : Grpc := {| unfit := default_unfit |}.

#[local] Instance default_laws : GrpcLaws.
Proof.
  split; cbn [unfit default_grpc]; unfold default_unfit; intros m.
  - intros ->. by eexists.
  - intros Hm Hl. assert (forallb field_valid m = true ∧ foldr Z.add 0 (field_size <$> m) <= 11 * zlen m) as [-> Hs].
    { clear Hl. induction Hm as [|f m Hf _ [IH1 IH2]]; [done|]. destruct f as [| |n|]; try done.
      split; [exact IH1|]. rewrite fmap_cons, zlen_cons. cbn [foldr]. pose proof (int_size n). lia. }
    destruct (Z.ltb_spec defaultServerMaxReceiveMessageSize (foldr Z.add 0 (field_size <$> m))); [|done].
    unfold defaultServerMaxReceiveMessageSize in *. lia.
Defined.

(** ** Witnesses *)
#[local] Existing Instance sample_api.
#[local] Existing Instance range_forward.

Definition no_json {A} (_ : bytes + error) : A + error := inr (EOther "unexpected EOF").
Definition no_file (_ : request) (_ : string) : response := http_Error "404 page not found" 404.
Definition some_error (s : string) : error := EOther ("bad number " +:+ s).

(** A request of the given method that sends the text "hi" to alice. *)
Definition hi_request (method : string) : request :=
  mkHttpRequest method (λ _, "")
    (λ h, if decide (h = "message-kind") then "7" else if decide (h = "message-uid") then "alice" else "")%string
    (inl [x68; x69]).

Definition grpc_error (e : error) : error := EOther ("rpc error: code = Unknown desc = " +:+ error_string e).

Lemma front_ends_agree_witness :
  option_map (λ x, hs_body x.1) (@serve _ _ _ _ range_forward no_json no_json some_error no_file
    "/sendToUser" (hi_request "POST") redis_booter) = Some (RResult 2 2) ∧
  unfit (ToUserReq "alice" x07 [x68; x69]) = None ∧
  same_call no_json no_json some_error no_file grpc_error
    (λ ts, http_ok (RResult ts.1 ts.2)) "/sendToUser" (hi_request "POST") (ToUserReq "alice" x07 [x68; x69])
    (booter_SendToUser "alice" (mkMessage ∅ x07 [x68; x69]))
    (client_SendToUser grpc_error Delivered (apiClient_Connect true NewApiClient) "alice" x07 [x68; x69])
    redis_booter ∧
  ∃ e, client_SendToUser grpc_error Delivered (apiClient_Connect true NewApiClient)
    (string_of_bytes [xe9]) x07 [x68; x69] redis_booter = Some (Err e, redis_booter).
Proof.
  split; [by vm_compute|]. split; [by vm_compute|]. split.
  - destruct (front_ends_agree no_json no_json some_error no_file grpc_error
      redis_booter (hi_request "POST") (apiClient_Connect true NewApiClient) x07 [x68; x69] "alice" ∅ 0) as [H _];
      [done..|].
    destruct H as (_ & H & _); [by vm_compute|done|]. by apply H.
  - destruct (front_ends_agree no_json no_json some_error no_file grpc_error redis_booter (hi_request "POST")
      (apiClient_Connect true NewApiClient) x07 [x68; x69] (string_of_bytes [xe9]) ∅ 0) as (_ & _ & H & _);
      [done..|].
    apply H. by vm_compute.
Defined.

Lemma http_guards_witness :
  option_map fst (@serve _ _ _ _ range_forward no_json no_json some_error no_file "/kickUser"
    (hi_request "POST") redis_booter) = Some (http_Error "method not allowed" StatusMethodNotAllowed).
Proof.
  destruct (proj2 (@http_guards _ _ _ _ range_forward no_json no_json some_error no_file
    "/kickUser" (hi_request "POST") redis_booter) (IfReadyAnd "GET") handleKickUser)
    as (-> & _ & H & _).
  { unfold patterns. do 3 apply list_elem_of_further. apply list_elem_of_here. }
  by rewrite (H "GET"%string).
Defined.
