(* ===== verification/Tools.v ===== *)
(** * The command line tools (src/cmd/cli/main.go, src/cmd/tester/main.go)

    The CLI is a table of calls of the API client ([Api]); its flags are arguments.  The tester
    creates clients at a given speed and lets each send random messages; the draws of math/rand
    and what [encoding/json] makes of the configuration file are arguments, its goroutines are
    transition systems. *)
From S2P Require Import Prelude Errors Coder Packet Retry Server Broker Options Config Inspect Service Api.
From stdpp Require Import pretty.
Local Open Scope Z_scope.

(** ** The CLI *)
Variant cli_report :=
| CliUnknown                                  (* unknown command *)
| CliEmpty (flag : string)                    (* a flag that the command needs is missing *)
| CliResult (r : outcome error unit)
| CliChannels (r : outcome error (option (gmap string string))).

Section cli.
Context {S R : Type} {HB : BrokerApi S} {HR : RedisImpl R} `{!GoRange string}.
Context {HG : Grpc}.
Context (wire_error : error → error).
Abbreviation booter := (booter S R).

(** The variable [chs]: no flag sets it, the map is nil. *)
Definition cli_chs : gmap string string := ∅.

Definition cli_run (x : option (outcome error unit * booter)) : option (cli_report * booter) :=
  '(r, b) ← x; Some (CliResult r, b).

(** [main], after [client.Connect], which made [c]; [b] is the service at the endpoint. *)
Definition cli_main (link : rpc) (c : apiClient) (cmd network uid : string) (nodeId : Z) (b : booter)
  : option (cli_report * booter) :=
  if (cmd =? "startListener")%string then cli_run (client_StartListener wire_error link c network b)
  else if (cmd =? "stopListener")%string then cli_run (client_StopListener wire_error link c network b)
  else if (cmd =? "joinChannel")%string then
    if (uid =? "")%string then Some (CliEmpty "uid", b)
    else cli_run (client_JoinChannel wire_error link c uid cli_chs b)
  else if (cmd =? "leaveChannel")%string then
    if (uid =? "")%string then Some (CliEmpty "uid", b)
    else cli_run (client_LeaveChannel wire_error link c uid cli_chs b)
  else if (cmd =? "listChannels")%string then
    if (uid =? "")%string then Some (CliEmpty "uid", b)
    else '(r, b) ← client_ListChannels wire_error link c uid b; Some (CliChannels r, b)
  else if (cmd =? "kickNode")%string then
    if nodeId =? 0 then Some (CliEmpty "nodeId", b)
    else cli_run (client_KickNode wire_error link c nodeId b)
  else Some (CliUnknown, b).

(** [RandomJoin], with the draws of user [i] as [draw i]; nothing calls it. *)
Definition randomChannelIDs (draw : Z * Z) : gmap string string :=
  <["channel" +:+ pretty draw.1 := ""]> (<["channel" +:+ pretty draw.2 := ""]> ∅).

Definition RandomJoin (link : rpc) (c : apiClient) (draw : Z → Z * Z) (b : booter) : option booter :=
  fold_left (λ acc i,
    b ← acc;
    '(_, b) ← client_JoinChannel wire_error link c ("u" +:+ pretty i) (randomChannelIDs (draw i)) b;
    Some b) (seqZ 0 100000) (Some b).

(** What a method keeps, its calls keep, however often they are sent. *)
Lemma client_call_keeps {A} (P : booter → Prop) link c m answer (method : booter → option (outcome error A * booter)) b r b' :
  (∀ b r b', P b → method b = Some (r, b') → P b') → P b →
  client_call wire_error link c m answer method b = Some (r, b') → P b'.
Proof.
  intros Hk Hb. unfold client_call. destruct (negb _); [by intros [= _ <-]|]. destruct (unfit m); [by intros [= _ <-]|].
  revert b Hb. induction link as [|e|e|link IH]; intros b Hb; simpl; unfold wired.
  - destruct (method b) as [[x b1]|] eqn:E; [|done]. intros [= _ <-]. by eapply Hk.
  - by intros [= _ <-].
  - destruct (method b) as [[x b1]|] eqn:E; [|done]. intros [= _ <-]. by eapply Hk.
  - destruct (method b) as [[x b1]|] eqn:E; [|done]. intros Hr. eapply IH, Hr. by eapply Hk.
Qed.

(** Commands that join or leave channels change no user's channels, whatever they report. *)
Theorem cli_joins_nothing `{!RedisLaws R} link c cmd network uid nodeId b b' rc report :
  cmd = "joinChannel" ∨ cmd = "leaveChannel" → b_redis b = Some rc →
  cli_main link c cmd network uid nodeId b = Some (report, b') →
  ∃ rc', b_redis b' = Some rc' ∧ ∀ u, stored rc' u = stored rc u.
Proof.
  intros Hcmd Hrc. set (P := λ b : booter, ∃ rc', b_redis b = Some rc' ∧ ∀ u, stored rc' u = stored rc u).
  change (cli_main link c cmd network uid nodeId b = Some (report, b') → P b').
  assert (P b) as HP by by exists rc.
  assert (∀ x, (∀ r b1, x = Some (r, b1) → P b1) → cli_run x = Some (report, b') → P b') as Hrun.
  { intros [[r b1]|] Hx; [|done]. intros [= _ <-]. by eapply Hx. }
  unfold cli_main. destruct Hcmd as [-> | ->]; cbn [String.eqb Ascii.eqb]; simpl;
    (destruct (uid =? "")%string; [by intros [= _ <-]|]); apply Hrun; intros r b1; apply client_call_keeps; try done.
  - intros b2 r2 b3 (rc2 & E2 & Hs2) [= E]. destruct (JoinChannel_none b2 rc2 uid E2) as (rc3 & E3 & Hs3).
    unfold cli_chs in E. rewrite E in E3. exists rc3. split; [done|]. intros u. by rewrite Hs3.
  - intros b2 r2 b3 (rc2 & E2 & Hs2) [= E]. destruct (LeaveChannel_none b2 rc2 uid E2) as (rc3 & E3 & Hs3).
    unfold cli_chs in E. rewrite E in E3. exists rc3. split; [done|]. intros u. by rewrite Hs3.
Qed.
End cli.

(** ** The tester *)
Record tester_config := mkTester {
  t_LogLevel : string; t_MaxConns : Z; t_ConnSpeed : Z; t_LogFormat : string;
  t_Endpoints : list string; t_MaxUserID : Z; t_MaxChannelID : Z; t_MessageInterval : Z;
  t_MessageRoute : gmap uint8 string
}.

Definition SendTypeUser : string := "user".
Definition SendTypeChannel : string := "channel".

Definition tester_levels : list string := ["debug"; "info"; "warn"; "error"].
Definition tester_formats : list string := ["text"; "json"].

Definition validate_send (x : uint8 * string) : outcome error unit :=
  fail_if (63 <? Z_of_byte x.1) (fmt ("invalid message kind: " +:+ pretty (Z_of_byte x.1))) $
  fail_if (none_of x.2 [SendTypeUser; SendTypeChannel]) (fmt ("invalid send type: " +:+ x.2)) $
  Ok tt.

Section tester.
Context `{!GoRange uint8}.

Definition tester_validate (c : tester_config) : outcome error unit :=
  fail_if (none_of (t_LogLevel c) tester_levels) (fmt ("invalid log level: " +:+ t_LogLevel c)) $
  fail_if (none_of (t_LogFormat c) tester_formats) (fmt ("invalid log format: " +:+ t_LogFormat c)) $
  fail_if (t_MaxConns c <=? 0) (fmt ("invalid max conns: " +:+ pretty (t_MaxConns c))) $
  fail_if (t_ConnSpeed c <=? 0) (fmt ("invalid conn speed: " +:+ pretty (t_ConnSpeed c))) $
  fail_if (bool_decide (t_Endpoints c = [])) (fmt "invalid endpoints: []") $
  fail_if (t_MaxUserID c <=? 0) (fmt ("invalid max user id: " +:+ pretty (t_MaxUserID c))) $
  fail_if (t_MaxChannelID c <=? 0) (fmt ("invalid max channel id: " +:+ pretty (t_MaxChannelID c))) $
  fail_if (bool_decide (t_MessageRoute c = ∅)) (fmt "invalid message route: map[]") $
  (_ <~ for_err validate_send (go_range (t_MessageRoute c));
   fail_if (t_MessageInterval c <=? 0) (fmt ("invalid message speed: " +:+ pretty (t_MessageInterval c)))
     (Ok tt)).

(** [readConfig]: reading the file and [json.Unmarshal] come first. *)
Definition tester_readConfig (file : tester_config + error) : outcome error tester_config :=
  match file with inr e => Err e | inl c => _ <~ tester_validate c; Ok c end.

(** The random choices, given the draws; [rand.IntN] panics on a bound that is not positive. *)
Definition IntN (n draw : Z) : outcome error Z :=
  if n <=? 0 then Panic (Explicit "invalid argument to IntN") else Ok (draw mod n).

Definition randomUserID (c : tester_config) (draw : Z) : outcome error string :=
  i <~ IntN (t_MaxUserID c) draw; Ok ("u" +:+ pretty i).

Definition randomChannelID (c : tester_config) (draw : Z) : outcome error string :=
  i <~ IntN (t_MaxChannelID c) draw; Ok ("channel" +:+ pretty i).

Definition index {A} (l : list A) (i : Z) : outcome error A :=
  match l !! Z.to_nat i with Some x => Ok x | None => Panic IndexRange end.

Definition randomEndpoint (c : tester_config) (draw : Z) : outcome error string :=
  match t_Endpoints c with
  | [x] => Ok x
  | l => i <~ IntN (zlen l) draw; index l i
  end.

Definition randomKind (c : tester_config) (draw : Z) : outcome error uint8 :=
  let keys := (go_range (t_MessageRoute c)).*1 in
  i <~ IntN (zlen keys) draw; index keys i.

Definition randomMessage (c : tester_config) (d1 d2 : Z) : outcome error Message :=
  kind <~ randomKind c d1;
  let sendType := default ""%string (t_MessageRoute c !! kind) in
  let content := bytes_of_string ("hello this message is send to " +:+ sendType +:+ ":") in
  let msg := NewMessage content in
  let msg := mkMessage (message_props msg) kind (Payload msg) in
  if (sendType =? SendTypeUser)%string then
    uid <~ randomUserID c d2;
    Ok (mkMessage (<[PropertyUserID := uid]> (message_props msg)) (Kind msg) (Payload msg))
  else if (sendType =? SendTypeChannel)%string then
    ch <~ randomChannelID c d2;
    Ok (mkMessage (<[PropertyChannel := ch]> (message_props msg)) (Kind msg) (Payload msg))
  else Ok msg.

(** *** Dialling ([main]) *)

Definition tester_duration (c : tester_config) : Z := i64 (Second * Z.quot (t_MaxConns c) (t_ConnSpeed c)).
Definition tester_period (c : tester_config) : Z := Z.quot Second (t_ConnSpeed c).

(** The ticker, the deadline of the context and the loop; a tick that finds the last one waiting
    is dropped. *)
Record dialling := mkDial { dl_now : Z; dl_next : Z; dl_tick : bool; dl_made : Z; dl_ended : bool }.

Definition start_dialling (c : tester_config) : outcome error dialling :=
  let period := tester_period c in
  if period <=? 0 then Panic (Explicit "non-positive interval for NewTicker")
  else Ok (mkDial 0 period false 0 false).

Variant dial_step (c : tester_config) : dialling → dialling → Prop :=
| DTime t d : dl_now d <= t → dial_step c d (mkDial t (dl_next d) (dl_tick d) (dl_made d) (dl_ended d))
| DTick d : dl_next d <= dl_now d →
    dial_step c d (mkDial (dl_now d) (dl_next d + tester_period c) true (dl_made d) (dl_ended d))
| DDone d : tester_duration c <= dl_now d → dl_ended d = false →
    dial_step c d (mkDial (dl_now d) (dl_next d) (dl_tick d) (dl_made d) true)
| DDial d : dl_tick d = true → dl_ended d = false →
    dial_step c d (mkDial (dl_now d) (dl_next d) false (dl_made d + 1) (dl_ended d)).

Lemma dial_inv c d0 d : start_dialling c = Ok d0 → steps (dial_step c) d0 d →
  0 < tester_period c ∧ (dl_made d + (if dl_tick d then 1 else 0) + 1) * tester_period c <= dl_next d ∧
  dl_next d <= dl_now d + tester_period c.
Proof.
  unfold start_dialling. destruct (Z.leb_spec (tester_period c) 0); [done|]. intros [= <-] Hs.
  split; [done|].
  refine (steps_invariant _ (λ d, (dl_made d + (if dl_tick d then 1 else 0) + 1) * tester_period c <= dl_next d ∧
    dl_next d <= dl_now d + tester_period c) _ _ _ _ Hs); [|simpl; lia].
  intros x y [H1 H2] Hstep. destruct Hstep as [t d' Ht|d' Ht|d' Ht He|d' Ht He]; simpl in *.
  - lia.
  - destruct (dl_tick d'); nia.
  - done.
  - rewrite Ht in H1. lia.
Qed.

(** A valid configuration dials at most one client per period of the ticker, which is a second
    divided by the speed, rounded down: at most as many as configured when the speed divides a
    second.  With a speed above a thousand million the tester panics, although its configuration was
    accepted. *)
Theorem tester_dials c : tester_validate c = Ok tt →
  match start_dialling c with
  | Panic _ => Second < t_ConnSpeed c
  | Ok d0 => t_ConnSpeed c <= Second ∧
      ∀ d, steps (dial_step c) d0 d →
        dl_made d * tester_period c <= dl_now d ∧
        ((t_ConnSpeed c | Second) → dl_now d <= tester_duration c → t_MaxConns c < 2 ^ 33 →
           dl_made d <= t_MaxConns c)
  | Err _ => False
  end.
Proof.
  unfold tester_validate. rewrite !fail_if_Ok. intros (_ & _ & Hm & Hc & _).
  apply Z.leb_gt in Hm, Hc. destruct (start_dialling c) as [d0|e|w] eqn:E.
  - split.
    + unfold start_dialling in E. destruct (Z.leb_spec (tester_period c) 0) as [|Hp]; [done|].
      unfold tester_period in Hp. rewrite Z.quot_div_nonneg in Hp by (unfold Second; lia).
      destruct (Z.le_gt_cases (t_ConnSpeed c) Second) as [|Hgt]; [done|].
      rewrite Z.div_small in Hp by (unfold Second in *; lia). lia.
    + intros d Hs. destruct (dial_inv c d0 d E Hs) as (Hp & H1 & H2). split; [destruct (dl_tick d); nia|].
      intros [k Hk] Hd Hmax. assert (dl_made d * tester_period c <= dl_now d) as Hb by (destruct (dl_tick d); nia).
      assert (tester_period c = k) as Hpk.
      { unfold tester_period. rewrite Hk. by rewrite Z.quot_mul by lia. }
      assert (tester_duration c = Second * (t_MaxConns c / t_ConnSpeed c)) as Hdur.
      { unfold tester_duration. rewrite Z.quot_div_nonneg by lia. apply wrapS_id; [lia|].
        unfold inS, Second. assert (0 <= t_MaxConns c / t_ConnSpeed c) by (apply Z.div_pos; lia).
        assert (t_MaxConns c / t_ConnSpeed c <= t_MaxConns c) by (apply Z.div_le_upper_bound; nia). lia. }
      rewrite Hpk in *. rewrite Hdur, Hk in Hd.
      pose proof (Z.mul_div_le (t_MaxConns c) (t_ConnSpeed c) Hc). nia.
  - unfold start_dialling in E. by destruct (_ <=? _).
  - unfold start_dialling in E. destruct (Z.leb_spec (tester_period c) 0) as [Hp|]; [|done].
    unfold tester_period in Hp. destruct (Z.le_gt_cases (t_ConnSpeed c) Second) as [Hle|]; [|done].
    rewrite Z.quot_div_nonneg in Hp by (unfold Second; lia).
    pose proof (Z.div_str_pos Second (t_ConnSpeed c) ltac:(lia)). lia.
Qed.
End tester.

(** *** Sending ([run], [OnStatus])

    Each time the client is ready a goroutine of [run] is started.  It sends while the client is
    ready, sleeping between messages, and ends when it finds it not ready. *)
Record sending := mkSending {
  sd_ready : bool;
  sd_due : nat;          (* goroutines about to look at [IsReady] *)
  sd_asleep : nat;
  sd_sent : nat
}.

Variant send_event := EReady | ENotReady | EWake | ELook.

Definition send_step (e : send_event) (s : sending) : option sending :=
  match e with
  | EReady => Some (mkSending true (S (sd_due s)) (sd_asleep s) (sd_sent s))
  | ENotReady => Some (mkSending false (sd_due s) (sd_asleep s) (sd_sent s))
  | EWake => match sd_asleep s with
             | S n => Some (mkSending (sd_ready s) (S (sd_due s)) n (sd_sent s))
             | O => None
             end
  | ELook => match sd_due s with
             | S n => Some (if sd_ready s then mkSending true n (S (sd_asleep s)) (S (sd_sent s))
                            else mkSending false n (sd_asleep s) (sd_sent s))
             | O => None
             end
  end.

Definition send_run (es : list send_event) (s : sending) : option sending :=
  fold_left (λ acc e, acc ≫= send_step e) es (Some s).

Definition not_started : sending := mkSending false 0 0 0.

(** The goroutines of a client that reconnects before the sleepers wake pile up: after [k]
    reconnections [k + 1] of them run and each sends a message in every interval; there are never
    more than the client has been ready. *)
Theorem senders_pile_up :
  (∀ k, ∃ s, send_run ([EReady; ELook] ++ mjoin (replicate k [ENotReady; EReady; ELook])) not_started = Some s ∧
     sd_asleep s = S k ∧ sd_due s = 0%nat ∧
     ∃ s', send_run (mjoin (replicate (S k) [EWake; ELook])) s = Some s' ∧
       sd_sent s' = (sd_sent s + S k)%nat ∧ sd_asleep s' = S k) ∧
  (∀ es s, send_run es not_started = Some s →
     (sd_due s + sd_asleep s <= length (List.filter (λ e, match e with EReady => true | _ => false end) es))%nat).
Proof.
  split.
  - assert (∀ k a n, send_run (mjoin (replicate k [ENotReady; EReady; ELook])) (mkSending true 0 a n) =
      Some (mkSending true 0 (k + a) (k + n))) as Hup.
    { induction k as [|k IH]; intros a n; [done|]. cbn [replicate]. change (mjoin (?x :: ?l)) with (x ++ mjoin l).
      cbn [app]. unfold send_run in *. cbn [fold_left mbind option_bind send_step sd_due sd_asleep sd_ready sd_sent].
      rewrite IH. do 2 f_equal; lia. }
    assert (∀ k a n, send_run (mjoin (replicate k [EWake; ELook])) (mkSending true 0 (S a) n) =
      Some (mkSending true 0 (S a) (k + n))) as Hsend.
    { induction k as [|k IH]; intros a n; [done|]. cbn [replicate]. change (mjoin (?x :: ?l)) with (x ++ mjoin l).
      cbn [app]. unfold send_run in *. cbn [fold_left mbind option_bind send_step sd_due sd_asleep sd_ready sd_sent].
      rewrite IH. do 2 f_equal; lia. }
    intros k. exists (mkSending true 0 (S k) (S k)). split; [|split; [done|split; [done|]]].
    + etrans; [exact (Hup k 1%nat 1%nat)|]. do 2 f_equal; lia.
    + eexists. split; [apply Hsend|]. simpl. lia.
  - intros es. induction es as [|e es IH] using rev_ind; intros s.
    + unfold send_run. simpl. intros [= <-]. simpl. lia.
    + unfold send_run in *. rewrite fold_left_app, List.filter_app, length_app. cbn [fold_left].
      destruct (fold_left _ es (Some not_started)) as [s1|]; [|done]. specialize (IH s1 eq_refl).
      cbn [mbind option_bind]. destruct e; simpl.
      * intros [= <-]. simpl. lia.
      * intros [= <-]. simpl. lia.
      * destruct (sd_asleep s1) eqn:E; [done|]. intros [= <-]. simpl. lia.
      * destruct (sd_due s1) eqn:E; [done|]. intros [= <-]. destruct (sd_ready s1); simpl; lia.
Qed.
